(* ===== verification/_CoqProject ===== *)
-Q . S2P
Prelude.v
GoLib.v
Sql.v
Bytes.v
Extern.v
Domain.v
Storage.v
Memstore.v
MemstoreFacts.v
MemMutex.v
MemSerial.v
Lock.v
Config.v
Outbox.v
Nonce.v
Utxo.v
Keymapping.v
Rlp.v
Evm.v
Sha256.v
Solana.v
Btc.v
TxBuilder.v
Withdrawal.v
Scenario.v
WithdrawalSafety.v
Lifecycle.v
WithdrawalSpec.v
Balance.v
Funding.v
Cache.v
Redis.v
Postgres.v
PostgresFacts.v
Deriver.v
Rotation.v
WalletService.v
AddressBook.v
Overlap.v
Json.v
JsonText.v
Clients.v
Envelope.v
Rest.v
Grpc.v
PgTx.v
Kept.v
System.v
Replenish.v
PgLimits.v
Migrations.v
Otel.v
Startup.v
