(* ===== verification/Prelude.v ===== *)
(** * Verification of wallet-management

    The service keeps the custody wallets of an on/off-ramp: it derives receive addresses, keeps
    balances, reserves nonces and coins, and takes withdrawals from the policy check through
    signing and broadcast to confirmation.  This library models its Go code (src/internal and
    src/cmd) and proves what makes each part correct, and where it is not.

    ** How the code is modelled

    A Go function that can fail is a term of the monad [GoM W] below: it passes the world [W] on
    and returns a value or an error, and what it wrote before an error stays written.  The name of
    the definition is the name of the function.  Interfaces of the code are classes ([Store] in
    Storage.v, [Locker], [Cache], [Redis], [HttpClient], [GrpcStubs]) or records of operations
    ([Clients]), so a service is one body over any store, as in the code.  A nil interface or
    callback is [None].  Go's int64 and int are integers with their wrap-around written out
    ([wrap64]), []byte is a list of integers below 256, maps are [gmap]s, decimals and big
    integers are those of their packages.  What Go leaves open (the order of ranging over a map,
    the choice of sort.Slice among equal elements, the clock) is a field of the class [GoRuntime],
    so the theorems hold for each choice; packages that are not in the repository are classes
    whose laws are what they document (Extern.v, and the classes of the files that use them), each
    with a concrete instance that the witnesses run.

    Concurrency is taken at the grain the code gives: a method of the memstore holds its mutex
    and is one step (MemSerial.v proves that runs which interleave inside the methods end as
    runs of such steps do); services interleave between
    calls, as sequences of whole calls, as an [others] that runs while a goroutine sleeps or waits
    for a remote service, or as a step relation whose runs are the closure [rtc].  Where the
    interleaving decides what holds, the handler is also a program whose single calls are the
    steps of a system of goroutines (Overlap.v).

    ** The files

    Foundations.
    - Prelude.v: errors, the monad, relations that a body respects, automation.
    - GoLib.v, Bytes.v: integers, strconv, strings, sorting, byte strings.
    - Extern.v: google/uuid and shopspring/decimal.  Sha256.v: crypto/sha256, in full.
    - Sql.v: what PostgreSQL and its driver fix, and the class [PgServer] of what they do not.

    Data and stores.
    - Domain.v (internal/domain), Storage.v (internal/storage/store.go: rows and interface).
    - Memstore.v, MemstoreFacts.v (internal/storage/memstore): every method; [World] is the
      store with the locks, the cache and the clock of the process.  MemMutex.v: its mutex;
      MemSerial.v: methods and transactions are atomic.
    - Postgres.v, PostgresFacts.v, PgTx.v (internal/storage/postgres): the tables with their
      constraints, every statement and method, transactions with failing calls.
    - Migrations.v (internal/migrations, cmd/migrate): the runner and the four scripts.

    Services.
    - Lock.v, Cache.v, Redis.v (internal/lock, internal/cache): process-local and Redis versions.
    - Config.v (internal/config), Outbox.v, Envelope.v (internal/audit: emitter, drainer, Kafka).
    - Nonce.v (internal/nonce), Utxo.v (internal/utxo), Keymapping.v (internal/keymapping).
    - Rlp.v, Evm.v, Solana.v, Btc.v, TxBuilder.v (internal/withdrawal/txbuilder.go).
    - Withdrawal.v (internal/withdrawal/withdrawal.go), with Scenario.v, WithdrawalSafety.v,
      Lifecycle.v and WithdrawalSpec.v for its theorems.
    - Balance.v (internal/balance), Funding.v (internal/funding).
    - Deriver.v (internal/deriver), Rotation.v, WalletService.v (internal/wallet), AddressBook.v
      for runs of whole calls, Overlap.v for derivations whose calls interleave.

    Edges and the whole.
    - Json.v, JsonText.v: what encoding/json reads and writes for the types of the service.
    - Clients.v (internal/clients, internal/policy, internal/grpcclient, treasury client).
    - Rest.v, Grpc.v (internal/api): every handler.
    - System.v: the services behind the API over the memstore.  Kept.v, PgLimits.v: the same
      over the SQL store.
    - Otel.v (internal/otel): the providers of traces and metrics, and their shutdown.
    - Startup.v (cmd/wallet-management): what the main program builds.  Replenish.v: the
      callback with which it connects the balances to the funding of hot wallets.

    ** What the theorems show

    - Withdrawals.  No withdrawal passes the whitelist state without an approval of exactly its
      transfer, down to the bytes of the HTTP exchange ([policy_gate], [http_policy_gate]); the
      handlers refine a state machine ([withdrawals_refine_machine]) with one live withdrawal per
      transfer ([one_in_flight]), both as long as no other handler writes the withdrawals while
      one is in an external call: ConstructAndSign does not look at the state again after the
      signer ([fail_during_sign]).  Create and ConstructAndSign are specified branch by branch,
      and a failure gives nonce and coins back.  What is signed binds what was asked: EVM, Bitcoin
      and Solana payloads determine the transfer, an EVM one up to the sign of the amount.
    - Resources.  Nonces that are committed or rolled back once each by their holder are never
      handed out twice, on both stores, and on the SQL store whatever the locks do; failing a
      withdrawal twice breaks that rule ([Fail_frees_nonce_in_use]).  A selection of coins is
      exclusive, covers the amount and is minimal; a wallet has one current key.
    - Addresses.  One active address per wallet, and no derivation slot twice in a wallet, also
      when derivations overlap ([overlapping_derivations]); no slot twice in a chain when they do
      not, while two wallets that derive at once can get one address ([two_wallets_one_address]);
      Solana has one slot for all.  Retirement is final, the shared cache never changes what is
      derived, and the EVM address is that of the key unless a coordinate has a leading zero byte.
    - Money.  The balance is the sum of the distinct reports, where a deposit that is reported
      shallow and then deep is in both balances ([balance_ledger]); a confirmation counts at most
      once on the SQL store; at most one funding request per wallet and asset is open, and a
      decrease leaves a hot wallet with the minimum or with such a request
      ([decrease_replenishes]).
    - Stores.  Transactions are all or nothing, migrations can be repeated and undone, the
      memstore's mutex excludes and never blocks itself ([memstore_mutex]), so that its methods
      are atomic ([methods_serialize]).
    - The process.  When production starts and with what ([production_starts]); what a run releases
      when it ends ([process_ends]); telemetry is installed as a whole or not at all, and the
      shutdown reaches both providers ([Init_spec]).
    - Audit.  The drainer delivers every row at least once and in finitely many ticks when the
      sink accepts; Kafka gets one message per event, in order.
    - The whole.  Over any sequence of requests, callbacks and background work the invariants hold
      together ([api_safe]); and three limits: the API never reaches signing ([api_never_signs]),
      and on the SQL store no withdrawal is created or signed and no first balance is written
      ([PgLimits]).

    ** Fuel and bounds

    The recursions on fuel follow bounds of the code: [reserve_loop] its fifty attempts, the
    derivation its twenty; the drainer takes a hundred rows a tick, which [outbox_drains] counts.
    The JSON scanner of Envelope.v gets twice the length of the text plus two, which
    [compact_payload_text] shows to be enough for every payload the service writes; the other
    fuels are the lengths of the inputs.

    ** Not modelled

    - The generated protobuf code (internal/pb): accessors and serialisation only.
    - Listening, routing middleware and timeouts of requests (internal/api): a handler starts at
      a decoded request and ends at a reply, and contexts are never cancelled.  Startup.v takes
      what the two servers do until a signal or an error as an argument.
    - Lost replies of PostgreSQL: a statement or COMMIT that returns an error is one that had no
      effect, so a server that commits and then loses the connection is left out (Postgres.v).
    - Dialling: sql.Open and the pool of the SQL store, NewRedis, the gRPC connection are what
      the parameters of Startup.v and Clients.v answer.
    - The cryptographic and chain libraries (btcd, secp256k1, hdkeychain, Keccak, base58), the
      OpenTelemetry SDK, the Kafka writer, ParseFloat and ParseDuration: classes with documented laws.
    - The ticker of the drainer is a sequence of ticks; log lines are left out. *)

From Stdlib Require Export ZArith Lia Ascii String.
From stdpp Require Export base decidable option list gmap strings pretty numbers.

(** ** Go errors

    [errors.New] and [fmt.Errorf] values.  The text is kept as the format string with its
    arguments; [%w] makes the wrapped error the tail of the chain [errors.Is] walks. *)

Inductive sentinel :=
  | ErrNoRows
  | ErrDuplicateEvent
  | ErrDuplicateWithdrawal
  | ErrDuplicateFunding
  | ErrDuplicateAudit
  | ErrWalletRetired.

#[export] Instance sentinel_eq_dec : EqDecision sentinel.
Proof. solve_decision. Defined.

Inductive fmtarg :=
  | FStr (s : string)
  | FInt (z : Z)
  | FUuid (u : N).

Inductive error :=
  | Sentinel (s : sentinel)
  | New (text : string)
  | Errorf (format : string) (args : list fmtarg)
  | Wrapf (format : string) (args : list fmtarg) (inner : error).

(** [errors.Is(err, target)] for a sentinel target. *)
Fixpoint errors_Is (e : error) (target : sentinel) : bool :=
  match e with
  | Sentinel s => bool_decide (s = target)
  | Wrapf _ _ inner => errors_Is inner target
  | New _ | Errorf _ _ => false
  end.

(** A Go call that returns [(T, error)]. *)
Inductive res (A : Type) :=
  | Ok (a : A)
  | Err (e : error).
Arguments Ok {A} a.
Arguments Err {A} e.

Definition is_ok {A} (r : res A) : bool :=
  match r with Ok _ => true | Err _ => false end.

(** ** The effect monad

    A function body of the service: it reads and writes the world [W] and returns a value or
    an error.  Writes made before an error stay, as in Go. *)

Definition GoM (W A : Type) : Type := W → res A * W.

#[export] Instance GoM_ret (W : Type) : MRet (GoM W) := λ A a w, (Ok a, w).

#[export] Instance GoM_bind (W : Type) : MBind (GoM W) :=
  λ A B f m w,
    match m w with
    | (Ok a, w') => f a w'
    | (Err e, w') => (Err e, w')
    end.

#[export] Instance GoM_fmap (W : Type) : FMap (GoM W) :=
  λ A B f m w,
    match m w with
    | (Ok a, w') => (Ok (f a), w')
    | (Err e, w') => (Err e, w')
    end.

Definition fail {W A} (e : error) : GoM W A := λ w, (Err e, w).

(** [r, err := m] followed by a test of [err]: the error is a value. *)
Definition try {W A} (m : GoM W A) : GoM W (res A) :=
  λ w, let '(r, w') := m w in (Ok r, w').

(** [_ = m]: the result and the error are dropped. *)
Definition ignore {W A} (m : GoM W A) : GoM W unit :=
  λ w, let '(_, w') := m w in (Ok tt, w').

(** [if err != nil { return fmt.Errorf(format, args..., err) }]. *)
Definition wrap {W A} (format : string) (args : list fmtarg) (m : GoM W A) : GoM W A :=
  λ w, match m w with
       | (Err e, w') => (Err (Wrapf format args e), w')
       | r => r
       end.

(** [defer cleanup()]: runs on both the success and the error path. *)
Definition finally {W A} (m : GoM W A) (cleanup : GoM W unit) : GoM W A :=
  λ w, let '(r, w') := m w in let '(_, w'') := cleanup w' in (r, w'').

(** A result that was already computed, as the body's own result. *)
Definition ret_res {W A} (r : res A) : GoM W A := λ w, (r, w).

Definition gets {W A} (f : W → A) : GoM W A := λ w, (Ok (f w), w).
Definition modify {W} (f : W → W) : GoM W unit := λ w, (Ok tt, f w).

(** [for _, x := range xs { body }] where the body may return an error. *)
Fixpoint for_each {W A} (body : A → GoM W unit) (xs : list A) : GoM W unit :=
  match xs with
  | [] => mret ()
  | x :: xs => body x ;; for_each body xs
  end.

(** ** Relations respected by a body

    [respects R m]: every run of [m] moves the world along the preorder [R], on the success
    and on the error path.  An invariant [I] is the relation [preserving I]; a frame
    condition is [framing π]. *)

Definition respects {W A} (R : relation W) (m : GoM W A) : Prop :=
  ∀ w, R w (m w).2.

Definition preserving {W} (I : W → Prop) : relation W := λ w w', I w → I w'.
Definition framing {W B} (π : W → B) : relation W := λ w w', π w' = π w.

#[export] Instance preserving_preorder {W} (I : W → Prop) : PreOrder (preserving I).
Proof. split; unfold preserving; [intros ?; auto | intros ???; auto]. Qed.
#[export] Instance framing_preorder {W B} (π : W → B) : PreOrder (framing π).
Proof. split; unfold framing; [intros ?; auto | intros ???; congruence]. Qed.

Section respects.
Context {W : Type} (R : relation W) `{!PreOrder R}.

Lemma respects_ret {A} (a : A) : respects R (mret a : GoM W A).
Proof. intros w. simpl. reflexivity. Qed.

Lemma respects_fail {A} e : respects R (fail e : GoM W A).
Proof. intros w. simpl. reflexivity. Qed.

Lemma respects_ret_res {A} (r : res A) : respects R (ret_res r : GoM W A).
Proof. intros w. simpl. reflexivity. Qed.

Lemma respects_gets {A} (f : W → A) : respects R (gets f).
Proof. intros w. simpl. reflexivity. Qed.

Lemma respects_bind {A B} (m : GoM W A) (f : A → GoM W B) :
  respects R m → (∀ a, respects R (f a)) → respects R (m ≫= f).
Proof.
  intros Hm Hf w. specialize (Hm w). unfold mbind, GoM_bind.
  destruct (m w) as [[a|e] w'] eqn:E; simpl in *; [|done].
  etrans; [exact Hm | apply Hf].
Qed.

(** The continuation may use that the first part returned its value. *)
Lemma respects_bind_run {A B} (m : GoM W A) (f : A → GoM W B) :
  respects R m → (∀ w a w', m w = (Ok a, w') → respects R (f a)) → respects R (m ≫= f).
Proof.
  intros Hm Hf w. specialize (Hm w). unfold mbind, GoM_bind.
  destruct (m w) as [[a|e] w'] eqn:E; simpl in *; [|done].
  etrans; [exact Hm | by eapply Hf].
Qed.

(** A finer relation is respected by more. *)
Lemma respects_weaken {A} (R' : relation W) (m : GoM W A) :
  (∀ w w', R' w w' → R w w') → respects R' m → respects R m.
Proof. intros HR Hm w. apply HR, Hm. Qed.

Lemma respects_fmap {A B} (f : A → B) (m : GoM W A) :
  respects R m → respects R (f <$> m).
Proof.
  intros Hm w. specialize (Hm w). unfold fmap, GoM_fmap.
  by destruct (m w) as [[a|e] w'].
Qed.

Lemma respects_try {A} (m : GoM W A) : respects R m → respects R (try m).
Proof. intros Hm w. specialize (Hm w). unfold try. by destruct (m w). Qed.

Lemma respects_ignore {A} (m : GoM W A) : respects R m → respects R (ignore m).
Proof. intros Hm w. specialize (Hm w). unfold ignore. by destruct (m w). Qed.

Lemma respects_wrap {A} fmt args (m : GoM W A) :
  respects R m → respects R (wrap fmt args m).
Proof. intros Hm w. specialize (Hm w). unfold wrap. by destruct (m w) as [[]]. Qed.

Lemma respects_finally {A} (m : GoM W A) c :
  respects R m → respects R c → respects R (finally m c).
Proof.
  intros Hm Hc w. specialize (Hm w). unfold finally.
  destruct (m w) as [r w'] eqn:E. specialize (Hc w').
  destruct (c w') as [r' w''] eqn:E'. simpl in *. by etrans.
Qed.

Lemma respects_modify f : (∀ w, R w (f w)) → respects R (modify f).
Proof. intros Hf w. apply Hf. Qed.

Lemma respects_for_each {A} (body : A → GoM W unit) xs :
  (∀ x, respects R (body x)) → respects R (for_each body xs).
Proof.
  intros Hb. induction xs as [|x xs IH]; simpl.
  - apply respects_ret.
  - apply respects_bind; [apply Hb | done].
Qed.

(** Only the elements the loop visits matter. *)
Lemma respects_for_each_in {A} (body : A → GoM W unit) xs :
  (∀ x, x ∈ xs → respects R (body x)) → respects R (for_each body xs).
Proof.
  induction xs as [|x xs IH]; simpl; intros Hb.
  - apply respects_ret.
  - apply respects_bind; [apply Hb; by left | intros _; apply IH; intros; apply Hb; by right].
Qed.
End respects.

(** A first part along [R1] and a rest along [R2] make a body along [R3]. *)
Lemma respects_seq {W A B} (R1 R2 R3 : relation W) (m : GoM W A) (f : A → GoM W B) :
  (∀ a b, R1 a b → R3 a b) → (∀ a b c, R1 a b → R2 b c → R3 a c) →
  respects R1 m → (∀ a, respects R2 (f a)) → respects R3 (m ≫= f).
Proof.
  intros H1 H2 Hm Hf w. specialize (Hm w). unfold mbind, GoM_bind.
  destruct (m w) as [[a|e] w'] eqn:E; simpl in *; [|by apply H1].
  eapply H2; [exact Hm | apply Hf].
Qed.

(** A framed projection carries any property that only reads it. *)
Lemma respects_framed {W A B} (π : W → B) (J : B → Prop) (m : GoM W A) :
  respects (framing π) m → respects (preserving (λ w, J (π w))) m.
Proof. intros Hm w HJ. rewrite (Hm w). done. Qed.

Create HintDb gorel.
#[export] Hint Resolve respects_ret respects_fail respects_ret_res respects_gets
  respects_try respects_ignore respects_wrap respects_finally respects_fmap : gorel.
#[export] Hint Resolve preserving_preorder framing_preorder : gorel.

(** Walks a body along its structure; the leaves are solved by the [gorel] hints. *)
Ltac go_respects :=
  repeat first
    [ progress intros
    | solve [eauto 3 with gorel typeclass_instances]
    | match goal with
      | |- respects _ (_ ≫= _) => apply respects_bind; [try exact _ | | ]
      | |- respects _ (for_each _ _) => apply respects_for_each; [try exact _ | ]
      | |- respects _ (try _) => apply respects_try
      | |- respects _ (ignore _) => apply respects_ignore
      | |- respects _ (wrap _ _ _) => apply respects_wrap
      | |- respects _ (finally _ _) => apply respects_finally; [try exact _ | | ]
      end
    | match goal with
      | |- respects _ (match ?x with _ => _ end) => destruct x eqn:?
      | |- respects _ (if ?x then _ else _) => destruct x eqn:?
      | |- respects _ (let '(_, _) := ?x in _) => destruct x eqn:?
      end ].

(** Runs the monad's own steps. *)
Ltac go_cbv :=
  cbv beta iota zeta delta [mbind GoM_bind mret GoM_ret fail try ignore wrap finally gets modify
                            ret_res fst snd].
Tactic Notation "go_cbv" "in" hyp(H) :=
  cbv beta iota zeta delta [mbind GoM_bind mret GoM_ret fail try ignore wrap finally gets modify
                            ret_res fst snd] in H.

(** Splits on the innermost unresolved test of the goal (of a hypothesis). *)
Ltac go_split_term t :=
  match t with
  | context [match ?x with _ => _ end] =>
      lazymatch x with
      | context [match _ with _ => _ end] => fail
      | _ => destruct x eqn:?
      end
  end.
Ltac go_split := match goal with |- ?g => go_split_term g end.
Ltac go_split_in H := let t := type of H in go_split_term t.

(** Evaluates a body symbolically, one branch per outcome of its tests. *)
Ltac go_eval := go_cbv; repeat (go_split; go_cbv; try done).

(** The error chain of a wrapped error. *)
Lemma errors_Is_wrap fmt args e s : errors_Is (Wrapf fmt args e) s = errors_Is e s.
Proof. done. Qed.

(** ** Running a body step by step *)

Section runs.
Context {W A B : Type}.
Implicit Types (m : GoM W A) (f : A → GoM W B) (w : W).

Lemma bind_Ok m f w a w' : m w = (Ok a, w') → (m ≫= f) w = f a w'.
Proof. intros E. unfold mbind, GoM_bind. by rewrite E. Qed.
Lemma bind_Err m f w e w' : m w = (Err e, w') → (m ≫= f) w = (Err e, w').
Proof. intros E. unfold mbind, GoM_bind. by rewrite E. Qed.
Lemma try_run m w r w' : m w = (r, w') → try m w = (Ok r, w').
Proof. intros E. unfold try. by rewrite E. Qed.
Lemma ignore_run m w r w' : m w = (r, w') → ignore m w = (Ok (), w').
Proof. intros E. unfold ignore. by rewrite E. Qed.
Lemma wrap_Ok fmt args m w a w' : m w = (Ok a, w') → wrap fmt args m w = (Ok a, w').
Proof. intros E. unfold wrap. by rewrite E. Qed.
Lemma wrap_Err fmt args m w e w' :
  m w = (Err e, w') → wrap fmt args m w = (Err (Wrapf fmt args e), w').
Proof. intros E. unfold wrap. by rewrite E. Qed.
End runs.

(** Runs the first call of a body, given how it ends. *)
Tactic Notation "step_ok" uconstr(H) := erewrite bind_Ok; [|first [exact H | eapply wrap_Ok; exact H
  | eapply ignore_run; exact H | eapply try_run; exact H]].
Tactic Notation "step_err" uconstr(H) :=
  erewrite bind_Err; [|first [exact H | eapply wrap_Err; exact H]].

(** ** Rows with a property occur once *)

Definition unique_by `{Countable K} {V} (p : V → bool) (m : gmap K V) : Prop :=
  ∀ i j x y, m !! i = Some x → m !! j = Some y → p x = true → p y = true → i = j.

Lemma unique_by_empty `{Countable K} {V} (p : V → bool) : unique_by p (∅ : gmap K V).
Proof. intros i j x y Hx. by rewrite lookup_empty in Hx. Qed.

Lemma unique_by_insert `{Countable K} {V} (p : V → bool) (m : gmap K V) k v :
  unique_by p m → (p v = true → ∀ i x, m !! i = Some x → p x = true → i = k) →
  unique_by p (<[k := v]> m).
Proof.
  intros Hu Hv i j x y. rewrite !lookup_insert_Some.
  intros [[<- <-]|[Ni Hi]] [[<- <-]|[Nj Hj]] Px Py; eauto. symmetry. eauto.
Qed.
