(* ===== verification/GoLib.v ===== *)
(** * GoLib: the parts of Go and of its standard library the service uses

    Machine integers with their wrap-around, [strconv], the order-free idioms ([range] over a
    map, [sort.Slice]) and the clock.  What Go leaves unspecified (the order in which a map is
    ranged over, which of the sorted permutations [sort.Slice] returns, the instants that
    [time.Now] reads) is a field of the class [GoRuntime]; its law fields say what Go does
    promise.  Every theorem therefore holds for each choice the runtime may make. *)

From S2P Require Import Prelude.
From stdpp Require Import sorting.

Local Open Scope Z_scope.

(** ** 64-bit integers *)

Definition min_int64 : Z := - 2 ^ 63.
Definition max_int64 : Z := 2 ^ 63 - 1.
Definition max_uint64 : Z := 2 ^ 64 - 1.

(** The value an [int64] holds after an operation whose exact result is [z]. *)
Definition wrap64 (z : Z) : Z := (z + 2 ^ 63) `mod` 2 ^ 64 - 2 ^ 63.

Definition in_int64 (z : Z) : Prop := min_int64 ≤ z ≤ max_int64.
#[export] Instance in_int64_dec z : Decision (in_int64 z).
Proof. unfold in_int64. apply _. Defined.

Lemma wrap64_id z : in_int64 z → wrap64 z = z.
Proof.
  unfold in_int64, wrap64, min_int64, max_int64. intros H.
  rewrite Z.mod_small; lia.
Qed.

Lemma wrap64_range z : in_int64 (wrap64 z).
Proof.
  unfold in_int64, wrap64, min_int64, max_int64.
  pose proof (Z.mod_pos_bound (z + 2 ^ 63) (2 ^ 64)). lia.
Qed.

Lemma wrap64_add_l a b : wrap64 (wrap64 a + b) = wrap64 (a + b).
Proof.
  unfold wrap64.
  replace ((a + 2 ^ 63) `mod` 2 ^ 64 - 2 ^ 63 + b + 2 ^ 63)
    with ((a + 2 ^ 63) `mod` 2 ^ 64 + b) by lia.
  rewrite Z.add_mod_idemp_l by lia. do 2 f_equal. lia.
Qed.

(** [t.UnixNano()] of an instant counted from the zero time. *)
Definition unix_epoch : Z := 62135596800 * 1000000000.
Definition UnixNano (t : Z) : Z := wrap64 (t - unix_epoch).

(** ** [strconv] *)

Inductive NumError := ErrSyntax | ErrRange.

Definition digit_val (c : Ascii.ascii) : option Z :=
  let n := Z.of_N (Ascii.N_of_ascii c) in
  if bool_decide (48 ≤ n ≤ 57) then Some (n - 48) else None.

(** The digit loop of [strconv.ParseUint(s, 10, bits)]: the first bad character or the first
    overflow decides, whichever comes first; an overflow returns the largest value. *)
Fixpoint parse_digits (maxVal n : Z) (s : string) : Z * option NumError :=
  match s with
  | EmptyString => (n, None)
  | String c s =>
      match digit_val c with
      | None => (0, Some ErrSyntax)
      | Some d =>
          if bool_decide (maxVal < n * 10 + d) then (maxVal, Some ErrRange)
          else parse_digits maxVal (n * 10 + d) s
      end
  end.

Definition ParseUint (s : string) (bits : Z) : Z * option NumError :=
  match s with
  | EmptyString => (0, Some ErrSyntax)
  | _ => parse_digits (2 ^ bits - 1) 0 s
  end.

(** [strconv.ParseInt(s, 10, 64)]: the value is meaningful on a range error too (it is
    clamped), and 0 on a syntax error. *)
Definition ParseInt (s : string) : Z * option NumError :=
  let '(neg, digits) :=
    match s with
    | String c rest =>
        if bool_decide (c = "+"%char) then (false, rest)
        else if bool_decide (c = "-"%char) then (true, rest) else (false, s)
    | EmptyString => (false, s)
    end in
  let '(un, err) := ParseUint digits 64 in
  match err with
  | Some ErrSyntax => (0, Some ErrSyntax)
  | _ =>
      if negb neg && bool_decide (2 ^ 63 ≤ un) then (max_int64, Some ErrRange)
      else if neg && bool_decide (2 ^ 63 < un) then (min_int64, Some ErrRange)
      else (if neg then - un else un, None)
  end.

(** [strconv.FormatInt(n, 10)] and the verb [%d]. *)
Definition FormatInt (n : Z) : string := pretty n.

(** [new(big.Int).SetString(s, 10)]: an optional sign, then digits; no bound. *)
Fixpoint big_digits (n : Z) (s : string) : option Z :=
  match s with
  | EmptyString => Some n
  | String c s => match digit_val c with Some d => big_digits (n * 10 + d) s | None => None end
  end.

Definition big_SetString (s : string) : option Z :=
  let '(neg, digits) :=
    match s with
    | String c rest =>
        if bool_decide (c = "+"%char) then (false, rest)
        else if bool_decide (c = "-"%char) then (true, rest) else (false, s)
    | EmptyString => (false, s)
    end in
  match digits with
  | EmptyString => None
  | _ => (λ n, if (neg : bool) then - n else n) <$> big_digits 0 digits
  end.

Example ParseInt_examples :
  (ParseInt "150", ParseInt "-7", ParseInt "+3", ParseInt "", ParseInt "1.5",
   ParseInt "9223372036854775808", ParseInt "99999999999999999999x")
  = ((150, None), (-7, None), (3, None), (0, Some ErrSyntax), (0, Some ErrSyntax),
     (max_int64, Some ErrRange), (max_int64, Some ErrRange)).
Proof. vm_compute. reflexivity. Qed.

Lemma digit_val_range c d : digit_val c = Some d → 0 ≤ d ≤ 9.
Proof. unfold digit_val. case_bool_decide; intros; simplify_eq; lia. Qed.

Lemma parse_digits_range maxVal n s :
  0 ≤ n ≤ maxVal → 0 ≤ (parse_digits maxVal n s).1 ≤ maxVal.
Proof.
  revert n. induction s as [|c s IH]; intros n Hn; simpl; [lia|].
  destruct (digit_val c) as [d|] eqn:Ed; simpl; [|lia].
  apply digit_val_range in Ed. case_bool_decide; simpl; [lia|]. apply IH. lia.
Qed.

Lemma ParseUint_range s bits : 0 ≤ bits → 0 ≤ (ParseUint s bits).1 ≤ 2 ^ bits - 1.
Proof.
  intros Hb. assert (0 < 2 ^ bits) by (apply Z.pow_pos_nonneg; lia).
  unfold ParseUint. destruct s; [cbn [fst]; lia|]. apply parse_digits_range. lia.
Qed.

Lemma ParseInt_in_int64 s : in_int64 (ParseInt s).1.
Proof.
  unfold ParseInt, in_int64, min_int64, max_int64. case_match eqn:E.
  pose proof (ParseUint_range s0 64). destruct (ParseUint s0 64) as [un err]; simpl in *.
  destruct err as [[]|]; simpl; try lia;
    destruct b; simpl; repeat case_bool_decide; simpl; lia.
Qed.

(** Printing and parsing are inverse. *)
Lemma digit_val_pretty x : (x < 10)%N → digit_val (pretty_N_char x) = Some (Z.of_N x).
Proof.
  intros Hx.
  assert (x = 0 ∨ x = 1 ∨ x = 2 ∨ x = 3 ∨ x = 4 ∨ x = 5 ∨ x = 6 ∨ x = 7 ∨ x = 8 ∨ x = 9)%N
    as Hc by lia.
  repeat destruct Hc as [->|Hc]; try reflexivity. by subst.
Qed.

(** A parser that takes digits one by one reads a printed number as that number. *)
Lemma read_pretty {A} (f : Z → string → A) x s :
  (∀ n c d s, digit_val c = Some d → f n (String c s) = f (n * 10 + d) s) →
  f 0 (pretty_N_go x s) = f (Z.of_N x) s.
Proof.
  intros Hf. revert s. induction (N.lt_wf_0 x) as [x _ IH]. intros s.
  destruct (decide (x = 0%N)) as [->|Hx]; [by rewrite pretty_N_go_0|].
  rewrite pretty_N_go_step by lia. rewrite IH by (apply N.div_lt; lia).
  erewrite Hf by (apply digit_val_pretty, N.mod_lt; lia). f_equal.
  rewrite N2Z.inj_div, N2Z.inj_mod. pose proof (Z.div_mod (Z.of_N x) 10). lia.
Qed.

Lemma big_digits_pretty x s : big_digits 0 (pretty_N_go x s) = big_digits (Z.of_N x) s.
Proof. apply read_pretty. intros n c d s' E. cbn [big_digits]. by rewrite E. Qed.

Lemma parse_digits_pretty maxVal x s :
  Z.of_N x ≤ maxVal →
  parse_digits maxVal 0 (pretty_N_go x s) = parse_digits maxVal (Z.of_N x) s.
Proof.
  revert s. induction (N.lt_wf_0 x) as [x _ IH]. intros s Hmax.
  destruct (decide (x = 0%N)) as [->|Hx]; [by rewrite pretty_N_go_0|].
  pose proof (Z.div_mod (Z.of_N x) 10). pose proof (Z.mod_pos_bound (Z.of_N x) 10).
  rewrite pretty_N_go_step by lia.
  rewrite IH by ((apply N.div_lt; lia) || (rewrite N2Z.inj_div; lia)). simpl.
  rewrite digit_val_pretty by (apply N.mod_lt; lia).
  rewrite N2Z.inj_div, N2Z.inj_mod. change (Z.of_N 10) with 10.
  rewrite bool_decide_eq_false_2 by lia. f_equal. lia.
Qed.

(** The first character printed for a positive number is a digit. *)
Lemma pretty_N_go_digit x s :
  (0 < x)%N → ∃ c r, pretty_N_go x s = String c r ∧ is_Some (digit_val c).
Proof.
  revert s. induction (N.lt_wf_0 x) as [x _ IH]. intros s Hx.
  rewrite pretty_N_go_step by lia.
  destruct (decide (x `div` 10 = 0)%N) as [->|Hd].
  - rewrite pretty_N_go_0. do 2 eexists. split; [done|].
    rewrite digit_val_pretty by (apply N.mod_lt; lia). eauto.
  - apply IH; [apply N.div_lt; lia | by apply N.neq_0_lt_0].
Qed.

Lemma big_SetString_FormatInt z : big_SetString (FormatInt z) = Some z.
Proof.
  unfold FormatInt, big_SetString. destruct z as [|p|p]; [reflexivity| |].
  - change (pretty (Z.pos p)) with (pretty_N_go (N.pos p) EmptyString).
    destruct (pretty_N_go_digit (N.pos p) EmptyString) as (c & r & E & Hd); [lia|].
    rewrite E. rewrite bool_decide_eq_false_2, bool_decide_eq_false_2
      by (intros ->; by destruct Hd).
    cbn -[big_digits]. rewrite <-E, big_digits_pretty. reflexivity.
  - change (pretty (Z.neg p)) with (String "-" (pretty_N_go (N.pos p) EmptyString)).
    destruct (pretty_N_go_digit (N.pos p) EmptyString) as (c & r & E & Hd); [lia|].
    rewrite bool_decide_eq_false_2, bool_decide_eq_true_2 by done.
    rewrite E. cbn -[big_digits]. rewrite <-E, big_digits_pretty. reflexivity.
Qed.

Lemma ParseUint_pretty x bits :
  0 ≤ bits → (0 < x)%N → Z.of_N x ≤ 2 ^ bits - 1 →
  ParseUint (pretty_N_go x EmptyString) bits = (Z.of_N x, None).
Proof.
  intros Hb Hx Hmax. unfold ParseUint.
  destruct (pretty_N_go_digit x EmptyString Hx) as (c & r & E & _).
  rewrite E. cbn -[parse_digits]. rewrite <-E. by rewrite parse_digits_pretty.
Qed.

Lemma ParseInt_FormatInt z : in_int64 z → ParseInt (FormatInt z) = (z, None).
Proof.
  unfold in_int64, min_int64, max_int64, FormatInt, ParseInt. intros Hz.
  destruct z as [|p|p]; [reflexivity| |].
  - change (pretty (Z.pos p)) with (pretty_N_go (N.pos p) EmptyString).
    destruct (pretty_N_go_digit (N.pos p) EmptyString) as (c & r & E & Hd); [lia|].
    rewrite E. rewrite bool_decide_eq_false_2, bool_decide_eq_false_2
      by (intros ->; by destruct Hd).
    rewrite <-E. cbn beta iota. rewrite ParseUint_pretty by lia. cbn [negb andb].
    rewrite bool_decide_eq_false_2 by lia. done.
  - change (pretty (Z.neg p)) with (String "-" (pretty_N_go (N.pos p) EmptyString)).
    cbn beta iota. rewrite bool_decide_eq_false_2, bool_decide_eq_true_2 by done.
    cbn beta iota. rewrite ParseUint_pretty by lia. cbn [negb andb].
    rewrite bool_decide_eq_false_2 by lia. done.
Qed.

(** ** [time.Duration] *)

(** [fmtFrac]: the last [prec] digits of [v] after a point, without trailing zeros. *)
Fixpoint fmtFrac (prec : nat) (v : Z) (print : bool) (acc : string) : string :=
  match prec with
  | O => if print then String "." acc else acc
  | S prec =>
      let digit := v `mod` 10 in
      let print := print || negb (digit =? 0) in
      fmtFrac prec (v / 10) print
        (if print then String (Ascii.ascii_of_N (Z.to_N (digit + 48))) acc else acc)
  end.

(** [d.String()] of a duration in nanoseconds. *)
Definition Duration_String (d : Z) : string :=
  let u := Z.abs d in
  let body :=
    if u <? 1000000000 then
      if u =? 0 then "0s"
      else
        let '(prec, unit) :=
          if u <? 1000 then (0%nat, "ns")
          else if u <? 1000000
          then (3%nat, String "194" (String "181" "s")) (* the micro sign in UTF-8 *)
          else (6%nat, "ms") in
        (FormatInt (u / 10 ^ Z.of_nat prec) +:+ fmtFrac prec u false unit)%string
    else
      let frac := fmtFrac 9 u false "s" in
      let s := u / 1000000000 in
      let secs := (FormatInt (s `mod` 60) +:+ frac)%string in
      if s / 60 =? 0 then secs
      else
        let m := s / 60 in
        let mins := (FormatInt (m `mod` 60) +:+ "m" +:+ secs)%string in
        if m / 60 =? 0 then mins else (FormatInt (m / 60) +:+ "h" +:+ mins)%string in
  if d <? 0 then String "-" body else body.

Example Duration_String_examples :
  map Duration_String [0; 1; 1500000; 1000000000; 90500000000; 86400000000000; -60000000000]
  = ["0s"; "1ns"; "1.5ms"; "1s"; "1m30.5s"; "24h0m0s"; "-1m0s"]%string.
Proof. vm_compute. reflexivity. Qed.

(** ** Strings joined by a separator *)

(** [c] occurs in [s]. *)
Fixpoint has_char (c : Ascii.ascii) (s : string) : bool :=
  match s with
  | EmptyString => false
  | String c' s => bool_decide (c = c') || has_char c s
  end.

(** A separator that does not occur on its left splits the joined string in one way. *)
Lemma join_inj c a b a' b' :
  has_char c a = false → has_char c a' = false →
  (a +:+ String c b = a' +:+ String c b')%string → a = a' ∧ b = b'.
Proof.
  revert a'. induction a as [|x a IH]; intros [|x' a'] Ha Ha' E.
  - injection E. auto.
  - injection E as -> _. simpl in Ha'. by rewrite bool_decide_eq_true_2 in Ha'.
  - injection E as <- _. simpl in Ha. by rewrite bool_decide_eq_true_2 in Ha.
  - injection E as <- E. simpl in Ha, Ha'. apply orb_false_iff in Ha as [_ Ha], Ha' as [_ Ha'].
    destruct (IH a' Ha Ha' E). by subst.
Qed.

Lemma has_char_pretty_N_go c x s :
  digit_val c = None → has_char c (pretty_N_go x s) = has_char c s.
Proof.
  intros Hc. revert s. induction (N.lt_wf_0 x) as [x _ IH]. intros s.
  destruct (decide (x = 0%N)) as [->|Hx]; [by rewrite pretty_N_go_0|].
  rewrite pretty_N_go_step, IH by (lia || (apply N.div_lt; lia)). simpl.
  rewrite bool_decide_eq_false_2; [done|]. intros ->.
  by rewrite digit_val_pretty in Hc by (apply N.mod_lt; lia).
Qed.

Lemma has_char_pretty_N c x : digit_val c = None → has_char c (pretty (x : N)) = false.
Proof.
  intros Hc. unfold pretty, pretty_N. case_decide as Hx.
  - simpl. rewrite orb_false_r, bool_decide_eq_false. intros ->. done.
  - by rewrite has_char_pretty_N_go.
Qed.

(** ** Sorting, ranging and the clock *)

Record strict_weak {A} (less : A → A → bool) : Prop := {
  sw_irrefl a : less a a = false;
  sw_trans a b c : less a b = true → less b c = true → less a c = true;
  sw_incomp a b c : less a b = false → less b c = false → less a c = false;
}.

Class GoRuntime := {
  (** The pairs of a map in the order one [range] loop visits them. *)
  map_range : ∀ {K : Type} `{Countable K} {V : Type}, gmap K V → list (K * V);
  map_range_perm : ∀ {K : Type} `{Countable K} {V : Type} (m : gmap K V),
    map_range m ≡ₚ map_to_list m;
  (** [sort.Slice(x, less)]. *)
  sort_Slice : ∀ {A : Type}, (A → A → bool) → list A → list A;
  sort_Slice_perm : ∀ {A : Type} (less : A → A → bool) (l : list A), sort_Slice less l ≡ₚ l;
  sort_Slice_sorted : ∀ {A : Type} (less : A → A → bool) (l : list A),
    strict_weak less → StronglySorted (λ a b, less b a = false) (sort_Slice less l);
  (** The instant (nanoseconds since the zero [time.Time]) of the [n]-th clock reading. *)
  time_at : nat → Z;
  time_at_mono : ∀ n m, (n ≤ m)%nat → time_at n ≤ time_at m;
}.

(** The values of a map, in ranging order. *)
Definition range_vals `{GoRuntime} `{Countable K} {V} (m : gmap K V) : list V :=
  (map_range m).*2.

Section ranging.
Context `{GoRuntime} `{Countable K} {V : Type}.
Implicit Types (m : gmap K V).

Lemma elem_of_map_range m k v : (k, v) ∈ map_range m ↔ m !! k = Some v.
Proof. rewrite map_range_perm. apply elem_of_map_to_list. Qed.

Lemma elem_of_range_vals m v : v ∈ range_vals m ↔ ∃ k, m !! k = Some v.
Proof.
  unfold range_vals. rewrite list_elem_of_fmap. split.
  - intros [[k v'] [-> Hk]]. exists k. by apply elem_of_map_range.
  - intros [k Hk]. exists (k, v). split; [done|]. by apply elem_of_map_range.
Qed.

(** A search loop finds something exactly when the map holds such a value. *)
Lemma existsb_range_vals m f :
  existsb f (range_vals m) = true ↔ ∃ k v, m !! k = Some v ∧ f v = true.
Proof.
  rewrite existsb_exists. setoid_rewrite <-list_elem_of_In.
  setoid_rewrite elem_of_range_vals. split.
  - intros (v & [k Hk] & Hv). eauto.
  - intros (k & v & Hk & Hv). eauto.
Qed.

Lemma existsb_range_vals_false m f k v :
  existsb f (range_vals m) = false → m !! k = Some v → f v = false.
Proof.
  intros Hf Hk. destruct (f v) eqn:E; [|done].
  assert (existsb f (range_vals m) = true) by (apply existsb_range_vals; eauto). congruence.
Qed.

Lemma find_range_vals_Some m f v :
  List.find f (range_vals m) = Some v → (∃ k, m !! k = Some v) ∧ f v = true.
Proof.
  intros Hf. apply List.find_some in Hf as [Hin ?].
  rewrite <-list_elem_of_In, elem_of_range_vals in Hin. done.
Qed.

Lemma find_range_vals_None m f k v :
  List.find f (range_vals m) = None → m !! k = Some v → f v = false.
Proof.
  intros Hf Hk. eapply List.find_none; [exact Hf|].
  apply list_elem_of_In, elem_of_range_vals. eauto.
Qed.

Lemma find_range_vals_is_Some m f k v :
  m !! k = Some v → f v = true → is_Some (List.find f (range_vals m)).
Proof.
  intros Hk Hv. destruct (List.find f (range_vals m)) eqn:E; [eauto|].
  rewrite (find_range_vals_None _ _ _ _ E Hk) in Hv. done.
Qed.
End ranging.

(** Ordering by a key is a strict weak order. *)
Lemma strict_weak_ltb {A} (f : A → Z) : strict_weak (λ a b, f a <? f b).
Proof. split; intros; lia. Qed.
Lemma strict_weak_gtb {A} (f : A → Z) : strict_weak (λ a b, f a >? f b).
Proof. split; intros; lia. Qed.

(** A loop that keeps the largest key of the selected elements. *)
Lemma foldl_max {A} (p : A → bool) (f : A → Z) (l : list A) acc :
  let m := foldl (λ m a, if p a then if f a >? m then f a else m else m) acc l in
  acc ≤ m ∧ (∀ b, b ∈ l → p b = true → f b ≤ m) ∧
  (m = acc ∨ ∃ b, b ∈ l ∧ p b = true ∧ m = f b).
Proof.
  revert acc. induction l as [|x l IH]; intros acc; cbn [foldl].
  { split_and!; [lia|by intros b ?%elem_of_nil|by left]. }
  destruct (IH (if p x then if f x >? acc then f x else acc else acc)) as (Hlo & Hge & Hin).
  assert (Hacc : ∀ v, (if p x then if f x >? acc then f x else acc else acc) ≤ v →
                   acc ≤ v ∧ (p x = true → f x ≤ v)).
  { intros v. destruct (p x); [|done]. destruct (f x >? acc) eqn:E; lia. }
  destruct (Hacc _ Hlo) as [Ha Hx]. split_and!; [done| |].
  - intros b [->|Hb]%elem_of_cons; auto.
  - destruct Hin as [->|(b & Hb & Hp & ->)]; [|right; exists b; split; [by right|done]].
    destruct (p x) eqn:Ep; [|by left]. destruct (f x >? acc); [|by left].
    right. exists x. split; [by left|done].
Qed.

(** A sorted permutation exists for every strict weak order: insertion sort. *)
Fixpoint insert_by {A} (less : A → A → bool) (x : A) (l : list A) : list A :=
  match l with
  | [] => [x]
  | y :: l => if less x y then x :: y :: l else y :: insert_by less x l
  end.
Definition insertion_sort {A} (less : A → A → bool) (l : list A) : list A :=
  foldr (insert_by less) [] l.

Section insertion_sort.
Context {A : Type} (less : A → A → bool).

Lemma insert_by_perm x l : insert_by less x l ≡ₚ x :: l.
Proof.
  induction l as [|y l IH]; simpl; [done|]. destruct (less x y); [done|].
  rewrite IH. apply Permutation_swap.
Qed.

Lemma insertion_sort_perm l : insertion_sort less l ≡ₚ l.
Proof. induction l as [|x l IH]; simpl; [done|]. by rewrite insert_by_perm, IH. Qed.

Lemma insert_by_sorted x l :
  strict_weak less →
  StronglySorted (λ a b, less b a = false) l →
  StronglySorted (λ a b, less b a = false) (insert_by less x l).
Proof.
  intros [Hirr Htr Hinc]. induction 1 as [|y l Hl IH Hy]; simpl.
  { repeat constructor. }
  destruct (less x y) eqn:E.
  - constructor; [by constructor|].
    assert (Hyx : less y x = false).
    { destruct (less y x) eqn:E'; [|done].
      pose proof (Htr _ _ _ E E'). rewrite Hirr in *. done. }
    constructor; [done|]. eapply Forall_impl; [exact Hy|]. intros z Hz. simpl in Hz. eauto.
  - constructor; [done|]. apply Forall_forall. intros z.
    rewrite insert_by_perm, elem_of_cons. intros [->|Hz]; [done|].
    rewrite Forall_forall in Hy. auto.
Qed.

Lemma insertion_sort_sorted l :
  strict_weak less → StronglySorted (λ a b, less b a = false) (insertion_sort less l).
Proof.
  intros Hsw. induction l as [|x l IH]; simpl; [constructor|]. by apply insert_by_sorted.
Qed.
End insertion_sort.

(** One possible runtime: maps in [map_to_list] order, insertion sort, a clock that advances
    one millisecond per reading from [start]. *)
Definition simple_runtime (start : Z) : GoRuntime.
Proof.
  refine {| map_range := λ _ _ _ _ m, map_to_list m;
            sort_Slice := λ _ less l, insertion_sort less l;
            time_at := λ n, start + Z.of_nat n * 1000000 |}.
  - done.
  - intros. apply insertion_sort_perm.
  - intros. by apply insertion_sort_sorted.
  - intros. lia.
Defined.
