(* ===== verification/Sql.v ===== *)
(** * Sql: the database server and the driver

    PostgreSQL and [lib/pq] are not in the repository.  Their part is the class [PgServer]:
    how a text becomes a NUMERIC, how instants are rounded, in which order rows come without
    an ORDER BY, and which calls fail for reasons outside the model (connection, serialization).
    What SQL itself fixes is defined here: a NUMERIC(38,18) reads back with eighteen decimals,
    a statement runs entirely or not at all, and a transaction sees its own writes. *)

From S2P Require Import Prelude GoLib.
From stdpp Require Import sorting.

Local Open Scope Z_scope.

(** ** NUMERIC(38,18) *)

(** Units of 10^-18. *)
Inductive numeric := NumericNaN | Units (u : Z).
#[export] Instance numeric_eq_dec : EqDecision numeric.
Proof. solve_decision. Defined.

Definition numeric_ok (n : numeric) : Prop :=
  match n with NumericNaN => True | Units u => Z.abs u < 10 ^ 38 end.

(** The last [n] digits of [v]. *)
Fixpoint fixed_digits (n : nat) (v : Z) (acc : string) : string :=
  match n with
  | O => acc
  | S n => fixed_digits n (v `div` 10)
             (String (pretty_N_char (Z.to_N (v `mod` 10))) acc)
  end.

(** The text of a value. *)
Definition numeric_out (n : numeric) : string :=
  match n with
  | NumericNaN => "NaN"
  | Units u =>
      let digits := (FormatInt (Z.abs u `div` 10 ^ 18) +:+ "." +:+
                     fixed_digits 18 (Z.abs u `mod` 10 ^ 18) EmptyString)%string in
      if u <? 0 then String "-" digits else digits
  end.

Example numeric_out_examples :
  map numeric_out [Units (5 * 10 ^ 18); Units (-15 * 10 ^ 17); Units 1; Units 0] =
    ["5.000000000000000000"; "-1.500000000000000000"; "0.000000000000000001";
     "0.000000000000000000"]%string.
Proof. vm_compute. reflexivity. Qed.

Class PgServer := {
  (** The value a text is cast to, None when the cast is refused. *)
  numeric_in : string → option numeric;
  numeric_in_ok s n : numeric_in s = Some n → numeric_ok n;
  numeric_in_out n : numeric_ok n → numeric_in (numeric_out n) = Some n;
  numeric_in_int z : Z.abs z < 10 ^ 20 → numeric_in (FormatInt z) = Some (Units (z * 10 ^ 18));
  (** A TIMESTAMPTZ holds whole microseconds. *)
  timestamptz : Z → Z;
  timestamptz_micro t : timestamptz t `mod` 1000 = 0;
  timestamptz_id t : t `mod` 1000 = 0 → timestamptz t = t;
  (** The rows of a table as a scan meets them, and the rows after an ORDER BY. *)
  scan_rows : ∀ {K : Type} `{Countable K} {V : Type}, gmap K V → list V;
  scan_rows_perm : ∀ {K : Type} `{Countable K} {V : Type} (m : gmap K V),
    scan_rows m ≡ₚ (map_to_list m).*2;
  order_by : ∀ {A : Type}, (A → A → bool) → list A → list A;
  order_by_perm : ∀ {A : Type} (less : A → A → bool) (l : list A), order_by less l ≡ₚ l;
  order_by_sorted : ∀ {A : Type} (less : A → A → bool) (l : list A),
    strict_weak less → StronglySorted (λ a b, less b a = false) (order_by less l);
  (** The collation of the database. *)
  text_less : string → string → bool;
  text_less_order : strict_weak text_less;
  (** [now()] at the [n]-th call, and the failure of the [n]-th call, if it fails. *)
  now_at : nat → Z;
  call_fault : nat → option error;
  call_fault_plain n e s : call_fault n = Some e → errors_Is e s = false;
  (** [pq.Array] of a slice; what it makes of a slice without elements is left open. *)
  pq_Array : list string → option (list string);
  pq_Array_cons x l : pq_Array (x :: l) = Some (x :: l);
}.

(** ** A server *)

(** Digits, then at most eighteen decimals. *)
Fixpoint read_decimals (k : nat) (n : Z) (s : string) : option Z :=
  match s with
  | EmptyString => Some (n * 10 ^ Z.of_nat k)
  | String c s =>
      match k, digit_val c with
      | S k, Some d => read_decimals k (n * 10 + d) s
      | _, _ => None
      end
  end.
Fixpoint read_numeric (n : Z) (s : string) : option Z :=
  match s with
  | EmptyString => Some (n * 10 ^ 18)
  | String c s =>
      if bool_decide (c = "."%char) then read_decimals 18 n s
      else match digit_val c with Some d => read_numeric (n * 10 + d) s | None => None end
  end.
Definition simple_numeric_in (s : string) : option numeric :=
  if bool_decide (s = "NaN"%string) then Some NumericNaN
  else
    u ← match s with
        | EmptyString => None
        | String c rest => if bool_decide (c = "-"%char) then Z.opp <$> read_numeric 0 rest
                           else read_numeric 0 s
        end;
    if bool_decide (Z.abs u < 10 ^ 38) then Some (Units u) else None.

Lemma read_decimals_fixed k j n v acc :
  0 ≤ v < 10 ^ Z.of_nat k →
  read_decimals (k + j) n (fixed_digits k v acc) =
    read_decimals j (n * 10 ^ Z.of_nat k + v) acc.
Proof.
  revert j v acc. induction k as [|k IH]; intros j v acc Hv.
  { simpl in *. f_equal. lia. }
  rewrite Nat2Z.inj_succ, Z.pow_succ_r in Hv |- * by lia.
  pose proof (Z.mod_pos_bound v 10). pose proof (Z.div_mod v 10).
  cbn [fixed_digits]. replace (S k + j)%nat with (k + S j)%nat by lia.
  rewrite IH by (split; [apply Z.div_pos; lia|apply Z.div_lt_upper_bound; lia]).
  cbn [read_decimals]. rewrite digit_val_pretty by lia. f_equal. lia.
Qed.

Lemma read_numeric_pretty x s :
  read_numeric 0 (pretty_N_go x s) = read_numeric (Z.of_N x) s.
Proof.
  apply read_pretty. intros n c d s' E. cbn [read_numeric].
  rewrite bool_decide_eq_false_2; [by rewrite E|]. intros ->. discriminate.
Qed.

(** A text that starts with a digit is read as it is. *)
Lemma simple_numeric_in_digits s u :
  (∃ c r, s = String c r ∧ is_Some (digit_val c)) →
  read_numeric 0 s = Some u → Z.abs u < 10 ^ 38 →
  simple_numeric_in s = Some (Units u) ∧ simple_numeric_in (String "-" s) = Some (Units (- u)).
Proof.
  intros (c & r & -> & Hd) E Hu. unfold simple_numeric_in.
  rewrite (bool_decide_eq_false_2 (c = _)) by (intros ->; by destruct Hd).
  rewrite (bool_decide_eq_true_2 ("-"%char = _)) by done. rewrite E. simpl.
  rewrite !(bool_decide_eq_true_2 (Z.abs _ < _)) by lia.
  rewrite !(bool_decide_eq_false_2 (String _ _ = _)); [done|].
  intros [= -> _]. by destruct Hd.
Qed.

Lemma pretty_N_go_app x s t : (pretty_N_go x s +:+ t = pretty_N_go x (s +:+ t))%string.
Proof.
  revert s. induction (N.lt_wf_0 x) as [x _ IH]. intros s.
  destruct (decide (x = 0%N)) as [->|Hx]; [by rewrite !pretty_N_go_0|].
  rewrite !(pretty_N_go_step x) by lia. rewrite IH by (apply N.div_lt; lia). done.
Qed.

(** The text of a number that is not negative: its digits. *)
Lemma FormatInt_digits z s :
  0 ≤ z →
  (∃ c r, (FormatInt z +:+ s)%string = String c r ∧ is_Some (digit_val c)) ∧
  read_numeric 0 (FormatInt z +:+ s) = read_numeric z s.
Proof.
  intros Hz. destruct (decide (z = 0)) as [->|Hne].
  { split; [by exists "0"%char, s|reflexivity]. }
  destruct z as [|p|p]; [done| |lia].
  assert (E : (FormatInt (Z.pos p) +:+ s)%string = pretty_N_go (N.pos p) s)
    by apply (pretty_N_go_app (N.pos p) EmptyString).
  rewrite E. split; [by apply pretty_N_go_digit|]. apply read_numeric_pretty.
Qed.

Lemma simple_numeric_in_out n : numeric_ok n → simple_numeric_in (numeric_out n) = Some n.
Proof.
  destruct n as [|u]; [reflexivity|]. unfold numeric_ok, numeric_out. intros Hu. cbv zeta.
  pose proof (Z.div_mod (Z.abs u) (10 ^ 18)) as Hdm.
  pose proof (Z.mod_pos_bound (Z.abs u) (10 ^ 18)) as Hm.
  assert (Hd : 0 ≤ Z.abs u `div` 10 ^ 18) by (apply Z.div_pos; lia).
  set (frac := fixed_digits 18 _ _). destruct (FormatInt_digits _ ("." +:+ frac) Hd) as [Hc E].
  assert (E' : read_numeric 0 (FormatInt (Z.abs u `div` 10 ^ 18) +:+ "." +:+ frac)
               = Some (Z.abs u)).
  { rewrite E. change ("." +:+ frac)%string with (String "." frac). cbn [read_numeric].
    rewrite bool_decide_eq_true_2 by done.
    change 18%nat with (18 + 0)%nat at 1. unfold frac. rewrite read_decimals_fixed by (simpl; lia).
    cbn [read_decimals]. f_equal. change (Z.of_nat 18) with 18. change (10 ^ Z.of_nat 0) with 1. lia. }
  destruct (simple_numeric_in_digits _ _ Hc E') as [H1 H2]; [lia|].
  destruct (Z.ltb_spec u 0); [rewrite H2|rewrite H1]; do 2 f_equal; lia.
Qed.

Lemma string_app_nil (s : string) : (s +:+ EmptyString)%string = s.
Proof. induction s as [|c s IH]; [done|]. change (String c (s +:+ EmptyString) = String c s). by rewrite IH. Qed.

Lemma simple_numeric_in_int z :
  Z.abs z < 10 ^ 20 → simple_numeric_in (FormatInt z) = Some (Units (z * 10 ^ 18)).
Proof.
  intros Hz. destruct (FormatInt_digits (Z.abs z) EmptyString) as [Hc E]; [lia|].
  rewrite string_app_nil in E, Hc.
  destruct (simple_numeric_in_digits _ (Z.abs z * 10 ^ 18) Hc) as [H1 H2];
    [by rewrite E|lia|].
  destruct z as [|p|p]; [exact H1|exact H1|].
  change (FormatInt (Z.neg p)) with (String "-" (FormatInt (Z.pos p))).
  change (Z.abs (Z.neg p)) with (Z.pos p) in H2. rewrite H2. do 2 f_equal. 
Qed.

Lemma simple_numeric_in_ok s n : simple_numeric_in s = Some n → numeric_ok n.
Proof.
  unfold simple_numeric_in. case_bool_decide; [by intros [= <-]|].
  intros (u & _ & Hu)%bind_Some. case_bool_decide; [by injection Hu as <-|done].
Qed.

(** A server in UTC: whole microseconds, rows in key order, some collation.  The calls listed in
    [faults] fail. *)
Definition faulty_server (start : Z) (faults : list nat) : PgServer.
Proof.
  refine {| numeric_in := simple_numeric_in;
            timestamptz := λ t, t - t `mod` 1000;
            scan_rows := λ _ _ _ _ m, (map_to_list m).*2;
            order_by := λ _ less l, insertion_sort less l;
            text_less := λ a b, Z.pos (encode a) <? Z.pos (encode b);
            now_at := λ n, start + Z.of_nat n * 1000;
            call_fault := λ n, if decide (n ∈ faults) then Some (New "connection reset") else None;
            pq_Array := λ l, match l with [] => None | _ => Some l end |}.
  - apply simple_numeric_in_ok.
  - apply simple_numeric_in_out.
  - apply simple_numeric_in_int.
  - intros t. pose proof (Z.div_mod t 1000). apply Z.mod_divide; [lia|]. exists (t `div` 1000). lia.
  - intros t ->. lia.
  - done.
  - intros. apply insertion_sort_perm.
  - intros. by apply insertion_sort_sorted.
  - apply (strict_weak_ltb (λ a, Z.pos (encode a))).
  - intros n e s. by case_decide; intros [= <-].
  - done.
Defined.
Definition simple_server (start : Z) : PgServer := faulty_server start [].
