(* ===== verification/Bytes.v ===== *)
(** * Bytes: byte strings, big-endian integers and [strings]

    A [[]byte] is a list of integers in [0, 256).  [big_Bytes] and [be_value] are
    the [Bytes] and [SetBytes] of a big.Int; [PutUint64] is the big-endian one of [encoding/binary]
    and [le64] the little-endian one.  [TrimSpace], [HasPrefix] and [SplitN] come from
    [strings]. *)

From S2P Require Import Prelude GoLib.

Local Open Scope Z_scope.

Definition is_byte (z : Z) : Prop := 0 ≤ z < 256.
#[export] Instance is_byte_dec z : Decision (is_byte z).
Proof. unfold is_byte. apply _. Defined.
Abbreviation bytes := (list Z) (only parsing).

(** The bytes of a Go string. *)
Fixpoint bytes_of_string (s : string) : bytes :=
  match s with
  | EmptyString => []
  | String c s => Z.of_N (Ascii.N_of_ascii c) :: bytes_of_string s
  end.
Definition byte_char (z : Z) : Ascii.ascii := Ascii.ascii_of_N (Z.to_N z).
Definition string_of_bytes (l : bytes) : string :=
  foldr (λ b s, String (byte_char b) s) EmptyString l.

(** ** Big-endian integers *)

Definition be_value (l : bytes) : Z := foldl (λ acc b, acc * 256 + b) 0 l.

Fixpoint be_go (fuel : nat) (n : Z) (acc : bytes) : bytes :=
  match fuel with
  | O => acc
  | S fuel => if n =? 0 then acc else be_go fuel (n / 256) (n `mod` 256 :: acc)
  end.

(** [x.Bytes()]: the absolute value, without leading zeros. *)
Definition big_Bytes (z : Z) : bytes := be_go (Z.to_nat (Z.log2 (Z.abs z) / 8 + 1)) (Z.abs z) [].

(** [binary.BigEndian.PutUint64] and [binary.LittleEndian.PutUint64] into an 8-byte buffer. *)
Definition le64 (n : Z) : bytes := map (λ i, (n / 256 ^ i) `mod` 256) [0; 1; 2; 3; 4; 5; 6; 7].
Definition be64 (n : Z) : bytes := rev (le64 n).

Fixpoint le_value (l : bytes) : Z :=
  match l with [] => 0 | b :: l => b + 256 * le_value l end.

(** No leading zero. *)
Definition canonical (l : bytes) : Prop :=
  match l with [] => True | b :: _ => b ≠ 0 end.

Lemma be_value_app l1 l2 : be_value (l1 ++ l2) = be_value l1 * 256 ^ Z.of_nat (length l2) + be_value l2.
Proof.
  unfold be_value. induction l2 as [|b l2 IH] using rev_ind.
  - rewrite app_nil_r. simpl. lia.
  - rewrite app_assoc, (foldl_app _ (l1 ++ l2) [b]), (foldl_app _ l2 [b]), IH, length_app. simpl.
    rewrite Nat.add_1_r, Nat2Z.inj_succ, Z.pow_succ_r by lia. lia.
Qed.

Lemma be_value_cons b l : be_value (b :: l) = b * 256 ^ Z.of_nat (length l) + be_value l.
Proof. change (b :: l) with ([b] ++ l). rewrite be_value_app. unfold be_value. simpl. lia. Qed.

Lemma be_value_bound l : Forall is_byte l → 0 ≤ be_value l < 256 ^ Z.of_nat (length l).
Proof.
  induction 1 as [|b l [Hb0 Hb] Hl IH]; [unfold be_value; simpl; lia|].
  rewrite be_value_cons. simpl length. rewrite Nat2Z.inj_succ, Z.pow_succ_r by lia. nia.
Qed.

Lemma be_go_spec fuel n acc :
  0 ≤ n < 256 ^ Z.of_nat fuel →
  ∃ l, be_go fuel n acc = l ++ acc ∧ be_value l = n ∧ Forall is_byte l ∧ canonical l.
Proof.
  revert n acc. induction fuel as [|fuel IH]; intros n acc Hn; simpl.
  - exists []. unfold be_value. simpl in *. split; [done|]. split; [lia|]. by split.
  - destruct (Z.eqb_spec n 0) as [->|Hn0].
    { exists []. unfold be_value. simpl. split; [done|]. split; [done|]. by split. }
    rewrite Nat2Z.inj_succ, Z.pow_succ_r in Hn by lia.
    pose proof (Z.div_mod n 256 ltac:(lia)) as Hdm.
    pose proof (Z.mod_pos_bound n 256 ltac:(lia)) as Hmb.
    destruct (IH (n / 256) (n `mod` 256 :: acc)) as (l & -> & Hv & HB & Hc).
    { split; [apply Z.div_pos; lia | apply Z.div_lt_upper_bound; lia]. }
    exists (l ++ [n `mod` 256]). split; [by rewrite <-app_assoc|]. split; [|split].
    + rewrite be_value_app, Hv. unfold be_value. simpl. lia.
    + apply Forall_app. split; [done|]. apply Forall_singleton. unfold is_byte. lia.
    + destruct l as [|b l]; [|done]. unfold be_value in Hv. simpl in *. lia.
Qed.

Lemma big_Bytes_spec z :
  be_value (big_Bytes z) = Z.abs z ∧ Forall is_byte (big_Bytes z) ∧ canonical (big_Bytes z).
Proof.
  unfold big_Bytes.
  destruct (be_go_spec (Z.to_nat (Z.log2 (Z.abs z) / 8 + 1)) (Z.abs z) []) as (l & -> & H).
  - split; [lia|].
    assert (0 ≤ Z.log2 (Z.abs z) / 8) by (apply Z.div_pos; [apply Z.log2_nonneg|lia]).
    rewrite Z2Nat.id by lia. destruct (decide (Z.abs z = 0)) as [->|Hz]; [reflexivity|].
    pose proof (Z.log2_spec (Z.abs z) ltac:(lia)) as [_ Hlt].
    eapply Z.lt_le_trans; [exact Hlt|]. change 256 with (2 ^ 8).
    rewrite <-Z.pow_mul_r by lia. apply Z.pow_le_mono_r; [lia|].
    pose proof (Z.div_mod (Z.log2 (Z.abs z)) 8 ltac:(lia)).
    pose proof (Z.mod_pos_bound (Z.log2 (Z.abs z)) 8 ltac:(lia)). lia.
  - by rewrite app_nil_r.
Qed.

(** A number has one canonical byte string. *)
Lemma be_value_inj l1 l2 :
  length l1 = length l2 → Forall is_byte l1 → Forall is_byte l2 →
  be_value l1 = be_value l2 → l1 = l2.
Proof.
  revert l2. induction l1 as [|b1 l1 IH]; intros [|b2 l2] Hlen H1 H2 E; try discriminate; [done|].
  apply list.Forall_cons in H1 as [Hb1 H1], H2 as [Hb2 H2]. injection Hlen as Hlen.
  rewrite !be_value_cons, Hlen in E.
  pose proof (be_value_bound l1 H1) as B1. pose proof (be_value_bound l2 H2) as B2.
  rewrite Hlen in B1. unfold is_byte in *.
  assert (b1 = b2) as -> by nia. f_equal. apply IH; auto. lia.
Qed.

Lemma canonical_lower b l :
  Forall is_byte (b :: l) → b ≠ 0 → 256 ^ Z.of_nat (length l) ≤ be_value (b :: l).
Proof.
  intros [[Hb0 _] Hl]%list.Forall_cons Hb. pose proof (be_value_bound l Hl).
  rewrite be_value_cons. assert (0 < 256 ^ Z.of_nat (length l)) by (apply Z.pow_pos_nonneg; lia). nia.
Qed.

Lemma canonical_inj l1 l2 :
  canonical l1 → canonical l2 → Forall is_byte l1 → Forall is_byte l2 →
  be_value l1 = be_value l2 → l1 = l2.
Proof.
  assert (Hshort : ∀ l l', canonical l' → Forall is_byte l → Forall is_byte l' →
            be_value l = be_value l' → (length l' ≤ length l)%nat).
  { intros l l' Hc Hl Hl' E. destruct l' as [|b' l']; [simpl; lia|].
    pose proof (canonical_lower b' l' Hl' Hc) as Hlow. rewrite <-E in Hlow.
    pose proof (be_value_bound l Hl) as Hup. simpl.
    apply Nat.le_succ_l, Nat2Z.inj_lt, (Z.pow_lt_mono_r_iff 256); lia. }
  intros C1 C2 H1 H2 E. apply be_value_inj; [|done..].
  apply Nat.le_antisymm; apply Hshort; auto.
Qed.

Lemma big_Bytes_inj a b : big_Bytes a = big_Bytes b → Z.abs a = Z.abs b.
Proof. intros E. destruct (big_Bytes_spec a) as [<- _], (big_Bytes_spec b) as [<- _]. by rewrite E. Qed.

Lemma big_Bytes_be_value l :
  canonical l → Forall is_byte l → big_Bytes (be_value l) = l.
Proof.
  intros Hc Hl. destruct (big_Bytes_spec (be_value l)) as (Hv & HB & HC).
  apply canonical_inj; auto. pose proof (be_value_bound l Hl). lia.
Qed.

Lemma big_Bytes_length z n : Z.abs z < 256 ^ Z.of_nat n → (length (big_Bytes z) ≤ n)%nat.
Proof.
  destruct (big_Bytes_spec z) as (Hv & HB & HC). intros Hz.
  destruct (big_Bytes z) as [|b l]; [simpl; lia|].
  pose proof (canonical_lower b l HB HC). simpl.
  apply Nat.le_succ_l, Nat2Z.inj_lt, (Z.pow_lt_mono_r_iff 256); lia.
Qed.

(** ** 64-bit buffers *)

Lemma le64_bytes n : Forall is_byte (le64 n).
Proof.
  unfold le64. rewrite Forall_map. apply Forall_forall. intros i _. unfold compose, is_byte.
  apply Z.mod_pos_bound. lia.
Qed.

Lemma le64_value n : 0 ≤ n ≤ max_uint64 → le_value (le64 n) = n.
Proof.
  unfold max_uint64, le64. cbn [map le_value]. change (256 ^ 0) with 1. rewrite Z.div_1_r.
  intros Hn. Z.to_euclidean_division_equations. lia.
Qed.

Lemma be_value_rev l : be_value (rev l) = le_value l.
Proof.
  induction l as [|b l IH]; [done|]. cbn [rev le_value].
  rewrite be_value_app, IH. unfold be_value. simpl. lia.
Qed.

Lemma be64_value n : 0 ≤ n ≤ max_uint64 → be_value (be64 n) = n.
Proof. intros Hn. unfold be64. by rewrite be_value_rev, le64_value. Qed.

Lemma be64_bytes n : Forall is_byte (be64 n).
Proof. unfold be64. apply List.Forall_rev, le64_bytes. Qed.

(** ** [strings] *)

Fixpoint has_prefix (p l : bytes) : bool :=
  match p, l with
  | [], _ => true
  | a :: p, b :: l => (a =? b) && has_prefix p l
  | _ :: _, [] => false
  end.

(** The UTF-8 encodings of the runes [unicode.IsSpace] accepts. *)
Definition space_runes : list bytes :=
  [[9]; [10]; [11]; [12]; [13]; [32]; [194; 133]; [194; 160]; [225; 154; 128];
   [226; 128; 128]; [226; 128; 129]; [226; 128; 130]; [226; 128; 131]; [226; 128; 132];
   [226; 128; 133]; [226; 128; 134]; [226; 128; 135]; [226; 128; 136]; [226; 128; 137];
   [226; 128; 138]; [226; 128; 168]; [226; 128; 169]; [226; 128; 175]; [226; 129; 159];
   [227; 128; 128]].

(** Strips runes from the front; [fuel] is at least the length. *)
Fixpoint strip (runes : list bytes) (fuel : nat) (l : bytes) : bytes :=
  match fuel with
  | O => l
  | S fuel =>
      match List.find (λ p, has_prefix p l) runes with
      | Some p => strip runes fuel (drop (length p) l)
      | None => l
      end
  end.

Definition TrimSpace (l : bytes) : bytes :=
  let left := strip space_runes (length l) l in
  rev (strip (map (@rev Z) space_runes) (length left) (rev left)).

Definition TrimPrefix (p l : bytes) : bytes := if has_prefix p l then drop (length p) l else l.
(** The two on strings. *)
Definition trim (s : string) : string := string_of_bytes (TrimSpace (bytes_of_string s)).
Definition trim_prefix (p s : string) : string :=
  string_of_bytes (TrimPrefix (bytes_of_string p) (bytes_of_string s)).

Example TrimSpace_example :
  TrimSpace (bytes_of_string "  0xab " ++ [194; 160; 10]) = bytes_of_string "0xab".
Proof. reflexivity. Qed.

(** [strings.SplitN(s, sep, 2)] for a one-byte separator. *)
Fixpoint split_first (sep : Ascii.ascii) (s : string) : option (string * string) :=
  match s with
  | EmptyString => None
  | String c s =>
      if bool_decide (c = sep) then Some (EmptyString, s)
      else (λ p, (String c p.1, p.2)) <$> split_first sep s
  end.

(** Nothing to trim when neither end is the start of a space rune. *)
Lemma strip_id runes fuel b l :
  Forall (λ p, has_prefix p (b :: l) = false) runes → strip runes fuel (b :: l) = b :: l.
Proof.
  intros H. destruct fuel; simpl; [done|].
  assert (E : List.find (λ p, has_prefix p (b :: l)) runes = None).
  { induction H as [|p runes Hp _ IH]; simpl; [done|]. by rewrite Hp. }
  by rewrite E.
Qed.
