(* ===== verification/Extern.v ===== *)
(** * Extern: the third-party packages the service calls

    [google/uuid] and [shopspring/decimal] are not in the repository, so they are parameters:
    a class per package whose operations are used by the components and whose laws are what
    the package documents.  [simple_uuid] and [simple_decimal] are concrete packages that
    satisfy the laws. *)

From S2P Require Import Prelude GoLib Bytes.
From stdpp Require Import numbers.
From Stdlib Require Import Qcanon SpecFloat.

Local Open Scope Z_scope.

(** A UUID is the 128-bit number it holds; [uuid.Nil] is 0. *)
Abbreviation UUID := N (only parsing).
Definition uuid_Nil : UUID := 0%N.

(** The effects a service body draws from its process: the clock and fresh ids. *)
Class Effects (W : Type) := {
  time_Now : GoM W Z;
  uuid_New : GoM W UUID;
}.

Class UuidLib := {
  (** The [n]-th id the process generates. *)
  uuid_at : nat → UUID;
  uuid_at_inj : ∀ n m, uuid_at n = uuid_at m → n = m;
  uuid_String : UUID → string;
  uuid_String_inj : ∀ u v, uuid_String u = uuid_String v → u = v;
  (** Only hexadecimal digits and hyphens. *)
  uuid_String_no_bar : ∀ u, has_char "|" (uuid_String u) = false;
  uuid_Parse : string → option UUID;
  (** The error of a failed parse. *)
  uuid_ParseError : string → error;
}.

(** Arbitrary-precision decimals; [dec_val] is the number a [decimal.Decimal] denotes. *)
Class DecimalLib := {
  Dec : Type;
  dec_val : Dec → Qc;
  dec_Zero : Dec;
  dec_NewFromString : string → option Dec;
  dec_String : Dec → string;
  dec_Add : Dec → Dec → Dec;
  dec_Sub : Dec → Dec → Dec;
  dec_IsNegative : Dec → bool;
  (** The nearest binary64 number. *)
  dec_InexactFloat64 : Dec → spec_float;
  dec_Zero_val : dec_val dec_Zero = 0%Qc;
  dec_Add_val : ∀ a b, dec_val (dec_Add a b) = (dec_val a + dec_val b)%Qc;
  dec_Sub_val : ∀ a b, dec_val (dec_Sub a b) = (dec_val a - dec_val b)%Qc;
  dec_IsNegative_val : ∀ a, dec_IsNegative a = true ↔ (dec_val a < 0)%Qc;
  (** Printing a decimal and reading it back denotes the same number. *)
  dec_String_parse : ∀ a, ∃ b, dec_NewFromString (dec_String a) = Some b ∧ dec_val b = dec_val a;
  dec_String_nonempty : ∀ a, dec_String a ≠ EmptyString;
}.

(** [golang.org/x/crypto/sha3] and [btcutil/base58]. *)
Class CryptoLib := {
  keccak256 : list Z → list Z;
  keccak256_length : ∀ l, length (keccak256 l) = 32%nat;
  keccak256_bytes : ∀ l, Forall is_byte (keccak256 l);
  base58_Decode : string → list Z;
  (** Leading ones are zero bytes. *)
  base58_Decode_ones : base58_Decode "11111111111111111111111111111111" = replicate 32 0;
  base58_Encode : list Z → string;
}.

(** ** Concrete packages *)

Definition simple_uuid : UuidLib.
Proof.
  refine {| uuid_at := λ n, N.of_nat (S n);
            uuid_String := λ u, pretty u;
            uuid_ParseError := λ s, Errorf "invalid UUID: %s" [FStr s];
            uuid_Parse := λ s, match ParseUint s 128 with (u, None) => Some (Z.to_N u) | _ => None end |}.
  - intros. lia.
  - intros u v. apply (inj pretty).
  - intros u. by apply has_char_pretty_N.
Defined.

(** Whole numbers, printed in decimal. *)
Definition simple_decimal : DecimalLib.
Proof.
  refine {| Dec := Z; dec_val := Qc_of_Z; dec_Zero := 0;
            dec_NewFromString := big_SetString; dec_String := FormatInt;
            dec_Add := Z.add; dec_Sub := Z.sub; dec_IsNegative := λ a, a <? 0;
            dec_InexactFloat64 := λ a, binary_normalize 53 1024 a 0 false |}.
  - apply Z2Qc_inj_0.
  - apply Z2Qc_inj_add.
  - intros a b. by rewrite Z2Qc_inj_sub.
  - intros a. rewrite Z.ltb_lt, Z2Qc_inj_lt, Z2Qc_inj_0. done.
  - intros a. exists a. by rewrite big_SetString_FormatInt.
  - intros a Ha. pose proof (big_SetString_FormatInt a) as H. rewrite Ha in H. discriminate.
Defined.

(** A checksum in place of the hash, and base 58 replaced by the identity. *)
Definition simple_crypto : CryptoLib.
Proof.
  refine {| keccak256 := λ l, replicate 24 0 ++ be64 (be_value l `mod` 2 ^ 64);
            base58_Decode := λ s, if decide (s = "11111111111111111111111111111111"%string)
                                  then replicate 32 0 else bytes_of_string s;
            base58_Encode := string_of_bytes |}.
  - intros l. reflexivity.
  - intros l. apply Forall_app. split; [|apply be64_bytes].
    apply Forall_replicate. unfold is_byte. lia.
  - reflexivity.
Defined.
