(* ===== verification/Domain.v ===== *)
(** * Domain: the shared domain types (internal/domain/domain.go)

    Chains, wallet types and states are Go string types, so an unknown value is representable
    and the [Valid*] predicates are what excludes it.  A nil [*int] is [None]; a [time.Time]
    is the number of nanoseconds since the zero time. *)

From S2P Require Import Prelude GoLib Extern.

Abbreviation Chain := string (only parsing).
Definition ChainEthereum : Chain := "ethereum".
Definition ChainPolygon : Chain := "polygon".
Definition ChainArbitrum : Chain := "arbitrum".
Definition ChainBase : Chain := "base".
Definition ChainOptimism : Chain := "optimism".
Definition ChainSolana : Chain := "solana".
Definition ChainBitcoin : Chain := "bitcoin".

Definition IsEVM (c : Chain) : bool :=
  bool_decide (c ∈ [ChainEthereum; ChainPolygon; ChainArbitrum; ChainBase; ChainOptimism]).

Definition WalletTypeHot : string := "HOT".
Definition WalletTypeWarm : string := "WARM".
Definition WalletTypeCold : string := "COLD".

Definition WalletStateActive : string := "ACTIVE".
Definition WalletStatePaused : string := "PAUSED".
Definition WalletStateRetired : string := "RETIRED".

Definition AddressStateActive : string := "ACTIVE".
Definition AddressStateDeprecated : string := "DEPRECATED".

Record Wallet := mkWallet {
  Wallet_ID : UUID;
  Wallet_Chain : Chain;
  Wallet_Type : string;
  Wallet_Label : string;
  Wallet_State : string;
  Wallet_KeyID : string;
  Wallet_CustodianRef : string;
  Wallet_RotationDays : option Z;
  Wallet_RotationAfterReceives : option Z;
  Wallet_CreatedAt : Z;
  Wallet_UpdatedAt : Z;
}.

Record Address := mkAddress {
  Address_ID : UUID;
  Address_WalletID : UUID;
  Address_Chain : Chain;
  Address_Address : string;
  Address_DerivationPath : string;
  Address_Index : Z;
  Address_Change : Z;
  Address_State : string;
  Address_ReceiveCount : Z;
  Address_CreatedAt : Z;
}.

Record CreateRequest := mkCreateRequest {
  CreateRequest_Chain : Chain;
  CreateRequest_Type : string;
  CreateRequest_Label : string;
  CreateRequest_KeyID : string;
}.

Definition ValidChain (c : Chain) : bool :=
  bool_decide (c ∈ [ChainEthereum; ChainPolygon; ChainArbitrum; ChainBase; ChainOptimism;
                    ChainSolana; ChainBitcoin]).

Definition ValidWalletType (t : string) : bool :=
  bool_decide (t ∈ [WalletTypeHot; WalletTypeWarm; WalletTypeCold]).

Definition ValidWalletState (s : string) : bool :=
  bool_decide (s ∈ [WalletStateActive; WalletStatePaused; WalletStateRetired]).

(** The supported chains are exactly the EVM chains, Solana and Bitcoin, and the three
    classes are disjoint. *)
Lemma ValidChain_cases c :
  ValidChain c = true ↔ IsEVM c = true ∨ c = ChainSolana ∨ c = ChainBitcoin.
Proof.
  unfold ValidChain, IsEVM. rewrite !bool_decide_eq_true, !elem_of_cons, !elem_of_nil. tauto.
Qed.

Lemma IsEVM_not_bitcoin c : IsEVM c = true → c ≠ ChainBitcoin.
Proof. intros H ->. discriminate. Qed.
Lemma IsEVM_not_solana c : IsEVM c = true → c ≠ ChainSolana.
Proof. intros H ->. discriminate. Qed.
