(* ===== verification/Storage.v ===== *)
(** * Storage: the persistence types and interface (internal/storage/store.go)

    The row types of the store and the interface [Store] every service is written against.
    States are Go strings.  The JSON bytes of an audit payload are represented by the map
    that was marshalled. *)

From S2P Require Import Prelude GoLib Extern Domain.

Definition WithdrawalStatePending : string := "PENDING".
Definition WithdrawalStateWhitelisted : string := "WHITELISTED".
Definition WithdrawalStateSigned : string := "SIGNED".
Definition WithdrawalStateBroadcast : string := "BROADCAST".
Definition WithdrawalStateConfirmed : string := "CONFIRMED".
Definition WithdrawalStateFailed : string := "FAILED".

Definition FundingStateRequested : string := "REQUESTED".
Definition FundingStateApproved : string := "APPROVED".
Definition FundingStateSettled : string := "SETTLED".
Definition FundingStateRejected : string := "REJECTED".

Definition RotationStateCurrent : string := "CURRENT".
Definition RotationStateCooling : string := "COOLING".
Definition RotationStateRetired : string := "RETIRED".

Definition UTXOLockStateFree : string := "FREE".
Definition UTXOLockStateLocked : string := "LOCKED".
Definition UTXOLockStateSpent : string := "SPENT".

Record Balance := mkBalance {
  Balance_WalletID : UUID;
  Balance_Asset : string;
  Balance_Confirmed : string;
  Balance_Pending : string;
  Balance_Locked : string;
  Balance_LastBlockSeen : Z;
  Balance_UpdatedAt : Z;
}.

Record UTXO := mkUTXO {
  UTXO_Outpoint : string;
  UTXO_WalletID : UUID;
  UTXO_Value : string;
  UTXO_ScriptType : string;
  UTXO_Confirmations : Z;
  UTXO_LockState : string;
  UTXO_LockedAt : option Z;
  UTXO_SpentAt : option Z;
  UTXO_TxHash : string;
  UTXO_UpdatedAt : Z;
}.

Record Nonce := mkNonce {
  Nonce_WalletID : UUID;
  Nonce_Chain : string;
  Nonce_PendingNonce : Z;
  Nonce_BroadcastNonce : Z;
  Nonce_Version : Z;
  Nonce_UpdatedAt : Z;
}.

Record WithdrawalRequest := mkWithdrawal {
  WR_ID : UUID;
  WR_WalletID : UUID;
  WR_ToAddress : string;
  WR_Asset : string;
  WR_Amount : string;
  WR_State : string;
  WR_PolicyDecisionID : string;
  WR_FailureReason : string;
  WR_TxHash : string;
  WR_NonceValue : option Z;
  WR_ReservedOutpoints : list string;
  WR_SignedTxBytes : list Z;
  WR_CreatedAt : Z;
  WR_UpdatedAt : Z;
}.

Record KeyMapping := mkKeyMapping {
  KM_WalletID : UUID;
  KM_KeyID : string;
  KM_ActiveFrom : Z;
  KM_ActiveTo : option Z;
  KM_RotationState : string;
  KM_CreatedAt : Z;
}.

Record FundingRequest := mkFunding {
  FR_ID : UUID;
  FR_WalletID : UUID;
  FR_Asset : string;
  FR_Amount : string;
  FR_State : string;
  FR_TreasuryBatchID : string;
  FR_Reason : string;
  FR_CreatedAt : Z;
  FR_UpdatedAt : Z;
}.

(** The values a payload map holds. *)
Inductive any :=
  | AStr (s : string)
  | AUuid (u : UUID)
  | AInt (z : Z)
  | ABool (b : bool)
  | AStrs (l : list string).

Record AuditOutboxEvent := mkAuditEvent {
  AE_ID : UUID;
  AE_EventID : UUID;
  AE_WalletID : option UUID;
  AE_EventType : string;
  AE_Payload : list (string * any);
  AE_Seq : Z;
  AE_Delivered : bool;
  AE_Attempts : Z;
  AE_CreatedAt : Z;
  AE_DeliveredAt : option Z;
}.

Record BalanceEvent := mkBalanceEvent {
  BE_ID : UUID;
  BE_WalletID : UUID;
  BE_Asset : string;
  BE_BlockHeight : Z;
  BE_EventID : string;
}.

(** The persistence boundary: what a service may ask of its store. *)
Class Store (W : Type) := {
  InTx : GoM W unit → GoM W unit;
  (* wallets *)
  CreateWallet : Wallet → GoM W unit;
  GetWallet : UUID → GoM W Wallet;
  UpdateWalletState : UUID → string → GoM W unit;
  ListWallets : string → string → string → GoM W (list Wallet);
  (* addresses *)
  InsertAddress : Address → GoM W unit;
  GetActiveAddress : UUID → GoM W Address;
  ListAddresses : UUID → GoM W (list Address);
  DeprecateAddress : UUID → GoM W unit;
  NextAddressIndex : string → Z → GoM W Z;
  IncrementReceiveCount : UUID → GoM W unit;
  GetAddress : UUID → GoM W Address;
  (* balances *)
  UpsertBalance : Balance → GoM W unit;
  GetBalance : UUID → string → GoM W Balance;
  ListBalances : UUID → GoM W (list Balance);
  RecordBalanceEvent : BalanceEvent → GoM W unit;
  (* UTXOs *)
  InsertUTXO : UTXO → GoM W unit;
  ListFreeUTXOs : UUID → GoM W (list UTXO);
  LockUTXOs : list string → GoM W unit;
  MarkUTXOsSpent : list string → string → GoM W unit;
  RestoreUTXOs : list string → GoM W unit;
  PruneUTXOs : list string → GoM W unit;
  (* nonces *)
  GetNonce : UUID → string → GoM W Nonce;
  UpsertNonce : Nonce → GoM W unit;
  IncrementPendingNonce : UUID → string → GoM W (Z * Z);
  AdvanceBroadcastNonce : UUID → string → Z → GoM W unit;
  RollbackPendingNonce : UUID → string → Z → GoM W Z;
  (* withdrawals *)
  CreateWithdrawal : WithdrawalRequest → GoM W unit;
  GetWithdrawal : UUID → GoM W WithdrawalRequest;
  ListWithdrawals : UUID → string → GoM W (list WithdrawalRequest);
  UpdateWithdrawalState : UUID → string → string → string → string → GoM W unit;
  UpdateWithdrawalNonce : UUID → Z → GoM W unit;
  UpdateWithdrawalOutpoints : UUID → list string → GoM W unit;
  UpdateWithdrawalSignedTx : UUID → list Z → GoM W unit;
  (* key mappings *)
  BindKeyMapping : KeyMapping → GoM W unit;
  ResolveActiveKey : UUID → GoM W (list KeyMapping);
  RotateKeyMapping : UUID → string → Z → GoM W unit;
  ExpireCooling : GoM W unit;
  (* funding requests *)
  CreateFundingRequest : FundingRequest → GoM W unit;
  GetOpenFundingRequest : UUID → string → GoM W FundingRequest;
  ListFundingRequests : UUID → string → GoM W (list FundingRequest);
  UpdateFundingState : UUID → string → string → GoM W unit;
  (* audit outbox *)
  AppendAuditEvent : AuditOutboxEvent → GoM W unit;
  ListUndeliveredAuditEvents : Z → GoM W (list AuditOutboxEvent);
  MarkAuditDelivered : UUID → GoM W unit;
  NextAuditSeq : UUID → GoM W Z;
}.
