(* ===== verification/Memstore.v ===== *)
(** * Memstore: the in-memory store (internal/storage/memstore/memstore.go)

    [MemStore] is the state of [memstore.Store]; [World] adds what the rest of the process
    keeps (named locks, the derivation cache, how often the clock was read and how many ids
    were generated).  Module [Mem] holds one definition per method, in the source's order.

    Every method runs with the store mutex held, so it is one atomic step.  The store keeps
    private copies of the rows it is given and returns copies, so rows are values here.  The
    map keys are the strings the code builds ([balanceKey], [nonceKey], ...). *)

From S2P Require Import Prelude GoLib Extern Domain Storage.

Local Open Scope Z_scope.

Record MemStore := mkMemStore {
  wallets : gmap UUID Wallet;
  addresses : gmap UUID Address;
  balances : gmap string Balance;
  balanceEvents : gmap string bool;
  utxos : gmap string UTXO;
  nonces : gmap string Nonce;
  withdrawals : gmap UUID WithdrawalRequest;
  keyMappings : gmap UUID (list KeyMapping);
  fundingReq : gmap UUID FundingRequest;
  auditOutbox : list AuditOutboxEvent;
  auditSeqCounters : gmap UUID Z;
  inflightWithdrawals : gmap string bool;
}.

Record cacheEntry := mkCacheEntry { ce_value : string; ce_exp : Z }.

Record World := mkWorld {
  w_store : MemStore;
  w_depth : nat;
  w_locks : gmap string string;
  w_cache : gmap string cacheEntry;
  w_clock : nat;
  w_ids : nat;
}.

(** [New()]. *)
Definition NewMemStore : MemStore := mkMemStore ∅ ∅ ∅ ∅ ∅ ∅ ∅ ∅ ∅ [] ∅ ∅.
Definition NewWorld : World := mkWorld NewMemStore 0 ∅ ∅ 0 0.

(** ** Field updates *)

Definition set_wallets f (s : MemStore) : MemStore :=
  mkMemStore (f (wallets s)) (addresses s) (balances s) (balanceEvents s) (utxos s) (nonces s)
    (withdrawals s) (keyMappings s) (fundingReq s) (auditOutbox s) (auditSeqCounters s)
    (inflightWithdrawals s).
Definition set_addresses f (s : MemStore) : MemStore :=
  mkMemStore (wallets s) (f (addresses s)) (balances s) (balanceEvents s) (utxos s) (nonces s)
    (withdrawals s) (keyMappings s) (fundingReq s) (auditOutbox s) (auditSeqCounters s)
    (inflightWithdrawals s).
Definition set_balances f (s : MemStore) : MemStore :=
  mkMemStore (wallets s) (addresses s) (f (balances s)) (balanceEvents s) (utxos s) (nonces s)
    (withdrawals s) (keyMappings s) (fundingReq s) (auditOutbox s) (auditSeqCounters s)
    (inflightWithdrawals s).
Definition set_balanceEvents f (s : MemStore) : MemStore :=
  mkMemStore (wallets s) (addresses s) (balances s) (f (balanceEvents s)) (utxos s) (nonces s)
    (withdrawals s) (keyMappings s) (fundingReq s) (auditOutbox s) (auditSeqCounters s)
    (inflightWithdrawals s).
Definition set_utxos f (s : MemStore) : MemStore :=
  mkMemStore (wallets s) (addresses s) (balances s) (balanceEvents s) (f (utxos s)) (nonces s)
    (withdrawals s) (keyMappings s) (fundingReq s) (auditOutbox s) (auditSeqCounters s)
    (inflightWithdrawals s).
Definition set_nonces f (s : MemStore) : MemStore :=
  mkMemStore (wallets s) (addresses s) (balances s) (balanceEvents s) (utxos s) (f (nonces s))
    (withdrawals s) (keyMappings s) (fundingReq s) (auditOutbox s) (auditSeqCounters s)
    (inflightWithdrawals s).
Definition set_withdrawals f (s : MemStore) : MemStore :=
  mkMemStore (wallets s) (addresses s) (balances s) (balanceEvents s) (utxos s) (nonces s)
    (f (withdrawals s)) (keyMappings s) (fundingReq s) (auditOutbox s) (auditSeqCounters s)
    (inflightWithdrawals s).
Definition set_keyMappings f (s : MemStore) : MemStore :=
  mkMemStore (wallets s) (addresses s) (balances s) (balanceEvents s) (utxos s) (nonces s)
    (withdrawals s) (f (keyMappings s)) (fundingReq s) (auditOutbox s) (auditSeqCounters s)
    (inflightWithdrawals s).
Definition set_fundingReq f (s : MemStore) : MemStore :=
  mkMemStore (wallets s) (addresses s) (balances s) (balanceEvents s) (utxos s) (nonces s)
    (withdrawals s) (keyMappings s) (f (fundingReq s)) (auditOutbox s) (auditSeqCounters s)
    (inflightWithdrawals s).
Definition set_auditOutbox f (s : MemStore) : MemStore :=
  mkMemStore (wallets s) (addresses s) (balances s) (balanceEvents s) (utxos s) (nonces s)
    (withdrawals s) (keyMappings s) (fundingReq s) (f (auditOutbox s)) (auditSeqCounters s)
    (inflightWithdrawals s).
Definition set_auditSeqCounters f (s : MemStore) : MemStore :=
  mkMemStore (wallets s) (addresses s) (balances s) (balanceEvents s) (utxos s) (nonces s)
    (withdrawals s) (keyMappings s) (fundingReq s) (auditOutbox s) (f (auditSeqCounters s))
    (inflightWithdrawals s).
Definition set_inflight f (s : MemStore) : MemStore :=
  mkMemStore (wallets s) (addresses s) (balances s) (balanceEvents s) (utxos s) (nonces s)
    (withdrawals s) (keyMappings s) (fundingReq s) (auditOutbox s) (auditSeqCounters s)
    (f (inflightWithdrawals s)).

Definition set_store (s : MemStore) (w : World) : World :=
  mkWorld s (w_depth w) (w_locks w) (w_cache w) (w_clock w) (w_ids w).
Definition set_depth (d : nat) (w : World) : World :=
  mkWorld (w_store w) d (w_locks w) (w_cache w) (w_clock w) (w_ids w).
Definition set_locks (l : gmap string string) (w : World) : World :=
  mkWorld (w_store w) (w_depth w) l (w_cache w) (w_clock w) (w_ids w).
Definition set_cache (c : gmap string cacheEntry) (w : World) : World :=
  mkWorld (w_store w) (w_depth w) (w_locks w) c (w_clock w) (w_ids w).
Definition tick (w : World) : World :=
  mkWorld (w_store w) (w_depth w) (w_locks w) (w_cache w) (S (w_clock w)) (w_ids w).
Definition next_id (w : World) : World :=
  mkWorld (w_store w) (w_depth w) (w_locks w) (w_cache w) (w_clock w) (S (w_ids w)).

(** Reading and writing the store part of the world. *)
Definition get_st {A} (f : MemStore → A) : GoM World A := gets (λ w, f (w_store w)).
Definition put_st (f : MemStore → MemStore) : GoM World unit :=
  modify (λ w, set_store (f (w_store w)) w).

(** The clock and the ids come from the runtime, one reading after the other. *)
#[export] Instance world_effects `{GoRuntime} `{UuidLib} : Effects World := {|
  time_Now := λ w, (Ok (time_at (w_clock w)), tick w);
  uuid_New := λ w, (Ok (uuid_at (w_ids w)), next_id w);
|}.

(** Row updates, one per assignment the methods make. *)
Definition Wallet_with_state (st : string) (now : Z) (w : Wallet) : Wallet :=
  mkWallet (Wallet_ID w) (Wallet_Chain w) (Wallet_Type w) (Wallet_Label w) st (Wallet_KeyID w)
    (Wallet_CustodianRef w) (Wallet_RotationDays w) (Wallet_RotationAfterReceives w)
    (Wallet_CreatedAt w) now.
Definition Wallet_with_times (c u : Z) (w : Wallet) : Wallet :=
  mkWallet (Wallet_ID w) (Wallet_Chain w) (Wallet_Type w) (Wallet_Label w) (Wallet_State w)
    (Wallet_KeyID w) (Wallet_CustodianRef w) (Wallet_RotationDays w)
    (Wallet_RotationAfterReceives w) c u.
Definition Address_with_state (st : string) (a : Address) : Address :=
  mkAddress (Address_ID a) (Address_WalletID a) (Address_Chain a) (Address_Address a)
    (Address_DerivationPath a) (Address_Index a) (Address_Change a) st (Address_ReceiveCount a)
    (Address_CreatedAt a).
Definition Address_with_created (c : Z) (a : Address) : Address :=
  mkAddress (Address_ID a) (Address_WalletID a) (Address_Chain a) (Address_Address a)
    (Address_DerivationPath a) (Address_Index a) (Address_Change a) (Address_State a)
    (Address_ReceiveCount a) c.
Definition Address_with_receives (n : Z) (a : Address) : Address :=
  mkAddress (Address_ID a) (Address_WalletID a) (Address_Chain a) (Address_Address a)
    (Address_DerivationPath a) (Address_Index a) (Address_Change a) (Address_State a) n
    (Address_CreatedAt a).
Definition Balance_with_updated (now : Z) (b : Balance) : Balance :=
  mkBalance (Balance_WalletID b) (Balance_Asset b) (Balance_Confirmed b) (Balance_Pending b)
    (Balance_Locked b) (Balance_LastBlockSeen b) now.
Definition UTXO_with_lock (st : string) (locked spent : option Z) (tx : string) (now : Z)
    (u : UTXO) : UTXO :=
  mkUTXO (UTXO_Outpoint u) (UTXO_WalletID u) (UTXO_Value u) (UTXO_ScriptType u)
    (UTXO_Confirmations u) st locked spent tx now.
Definition Nonce_with (pending broadcast version now : Z) (n : Nonce) : Nonce :=
  mkNonce (Nonce_WalletID n) (Nonce_Chain n) pending broadcast version now.
Definition WR_with_state (st pd reason tx : string) (now : Z) (w : WithdrawalRequest) :
    WithdrawalRequest :=
  mkWithdrawal (WR_ID w) (WR_WalletID w) (WR_ToAddress w) (WR_Asset w) (WR_Amount w) st pd
    reason tx (WR_NonceValue w) (WR_ReservedOutpoints w) (WR_SignedTxBytes w) (WR_CreatedAt w)
    now.
Definition WR_with_build (n : option Z) (ops : list string) (tx : list Z) (now : Z)
    (w : WithdrawalRequest) : WithdrawalRequest :=
  mkWithdrawal (WR_ID w) (WR_WalletID w) (WR_ToAddress w) (WR_Asset w) (WR_Amount w)
    (WR_State w) (WR_PolicyDecisionID w) (WR_FailureReason w) (WR_TxHash w) n ops tx
    (WR_CreatedAt w) now.
Definition WR_with_times (c u : Z) (w : WithdrawalRequest) : WithdrawalRequest :=
  mkWithdrawal (WR_ID w) (WR_WalletID w) (WR_ToAddress w) (WR_Asset w) (WR_Amount w)
    (WR_State w) (WR_PolicyDecisionID w) (WR_FailureReason w) (WR_TxHash w) (WR_NonceValue w)
    (WR_ReservedOutpoints w) (WR_SignedTxBytes w) c u.
Definition KM_with (st : string) (from : Z) (to : option Z) (m : KeyMapping) : KeyMapping :=
  mkKeyMapping (KM_WalletID m) (KM_KeyID m) from to st (KM_CreatedAt m).
Definition KM_with_created (from created : Z) (m : KeyMapping) : KeyMapping :=
  mkKeyMapping (KM_WalletID m) (KM_KeyID m) from (KM_ActiveTo m) (KM_RotationState m) created.
Definition FR_with_state (st batch : string) (now : Z) (f : FundingRequest) : FundingRequest :=
  mkFunding (FR_ID f) (FR_WalletID f) (FR_Asset f) (FR_Amount f) st batch (FR_Reason f)
    (FR_CreatedAt f) now.
Definition FR_with_times (c u : Z) (f : FundingRequest) : FundingRequest :=
  mkFunding (FR_ID f) (FR_WalletID f) (FR_Asset f) (FR_Amount f) (FR_State f)
    (FR_TreasuryBatchID f) (FR_Reason f) c u.
Definition AE_with_created (c : Z) (e : AuditOutboxEvent) : AuditOutboxEvent :=
  mkAuditEvent (AE_ID e) (AE_EventID e) (AE_WalletID e) (AE_EventType e) (AE_Payload e)
    (AE_Seq e) (AE_Delivered e) (AE_Attempts e) c (AE_DeliveredAt e).
Definition AE_delivered (now : Z) (e : AuditOutboxEvent) : AuditOutboxEvent :=
  mkAuditEvent (AE_ID e) (AE_EventID e) (AE_WalletID e) (AE_EventType e) (AE_Payload e)
    (AE_Seq e) true (wrap64 (AE_Attempts e + 1)) (AE_CreatedAt e) (Some now).

Module Mem.
Section mem.
Context {GR : GoRuntime} {UL : UuidLib}.

Definition balanceKey (wID : UUID) (asset : string) : string :=
  (uuid_String wID +:+ "|" +:+ asset)%string.
Definition nonceKey (wID : UUID) (chain : string) : string :=
  (uuid_String wID +:+ "|" +:+ chain)%string.
Definition withdrawalDedupKey (wID : UUID) (to amount asset : string) : string :=
  (uuid_String wID +:+ "|" +:+ to +:+ "|" +:+ amount +:+ "|" +:+ asset)%string.
Definition balanceEventKey (e : BalanceEvent) : string :=
  (uuid_String (BE_WalletID e) +:+ "|" +:+ BE_Asset e +:+ "|" +:+
   FormatInt (BE_BlockHeight e) +:+ "|" +:+ BE_EventID e)%string.

(** [now] when the row's creation time is the zero time. *)
Definition created_or_now (created : Z) : GoM World Z :=
  if bool_decide (created = 0) then time_Now else mret created.

(** *** Transactions *)

Definition snapshot (w : World) : MemStore := w_store w.
Definition restore (snap : MemStore) : GoM World unit := modify (set_store snap).

(** [w_depth] is [depths[goID()]] of the running goroutine; a nested call owns no
    snapshot.  The deferred unlock puts the depth back. *)
Definition InTx (fn : GoM World unit) : GoM World unit :=
  depth ← gets w_depth;
  modify (set_depth (S depth));;
  finally
    (if bool_decide (0 < depth)%nat then fn
     else
       snap ← gets snapshot;
       r ← try fn;
       match r with
       | Err err => restore snap;; fail err
       | Ok _ => mret ()
       end)
    (modify (set_depth depth)).

(** *** Wallets *)

Definition CreateWallet (w : Wallet) : GoM World unit :=
  ws ← get_st wallets;
  match ws !! Wallet_ID w with
  | Some _ => fail (New "wallet already exists")
  | None =>
      c ← created_or_now (Wallet_CreatedAt w);
      put_st (set_wallets (insert (Wallet_ID w) (Wallet_with_times c c w)))
  end.

Definition GetWallet (id : UUID) : GoM World Wallet :=
  ws ← get_st wallets;
  match ws !! id with
  | None => fail (Wrapf "wallet not found: %w" [] (Sentinel ErrNoRows))
  | Some w => mret w
  end.

Definition UpdateWalletState (id : UUID) (state : string) : GoM World unit :=
  ws ← get_st wallets;
  match ws !! id with
  | None => fail (Wrapf "wallet not found: %w" [] (Sentinel ErrNoRows))
  | Some w =>
      now ← time_Now;
      put_st (set_wallets (insert id (Wallet_with_state state now w)))
  end.

(** A filter argument that is empty lets everything through. *)
Definition filter_ok (f v : string) : bool :=
  bool_decide (f = EmptyString) || bool_decide (v = f).

Definition ListWallets (chainF typeF stateF : string) : GoM World (list Wallet) :=
  ws ← get_st wallets;
  let out := List.filter (λ w, filter_ok chainF (Wallet_Chain w) &&
                               filter_ok typeF (Wallet_Type w) &&
                               filter_ok stateF (Wallet_State w)) (range_vals ws) in
  mret (sort_Slice (λ a b, String.ltb (uuid_String (Wallet_ID a)) (uuid_String (Wallet_ID b))) out).

(** *** Addresses *)

Definition is_active_of (walletID : UUID) (a : Address) : bool :=
  bool_decide (Address_WalletID a = walletID) &&
  bool_decide (Address_State a = AddressStateActive).

Definition InsertAddress (a : Address) : GoM World unit :=
  addrs ← get_st addresses;
  match addrs !! Address_ID a with
  | Some _ => fail (New "address exists")
  | None =>
      if bool_decide (Address_State a = AddressStateActive) &&
         existsb (is_active_of (Address_WalletID a)) (range_vals addrs)
      then fail (New "active address already exists for wallet")
      else
        c ← created_or_now (Address_CreatedAt a);
        put_st (set_addresses (insert (Address_ID a) (Address_with_created c a)))
  end.

Definition GetActiveAddress (walletID : UUID) : GoM World Address :=
  addrs ← get_st addresses;
  match List.find (is_active_of walletID) (range_vals addrs) with
  | Some a => mret a
  | None => fail (Wrapf "no active address: %w" [] (Sentinel ErrNoRows))
  end.

Definition address_less (a b : Address) : bool :=
  if bool_decide (Address_Change a = Address_Change b)
  then Address_Index a <? Address_Index b
  else Address_Change a <? Address_Change b.

Definition ListAddresses (walletID : UUID) : GoM World (list Address) :=
  addrs ← get_st addresses;
  mret (sort_Slice address_less
          (List.filter (λ a, bool_decide (Address_WalletID a = walletID)) (range_vals addrs))).

Definition DeprecateAddress (id : UUID) : GoM World unit :=
  addrs ← get_st addresses;
  match addrs !! id with
  | None => fail (Wrapf "address not found: %w" [] (Sentinel ErrNoRows))
  | Some a => put_st (set_addresses (insert id (Address_with_state AddressStateDeprecated a)))
  end.

Definition GetAddress (id : UUID) : GoM World Address :=
  addrs ← get_st addresses;
  match addrs !! id with
  | None => fail (Wrapf "address not found: %w" [] (Sentinel ErrNoRows))
  | Some a => mret a
  end.

(** The loop keeps the largest index seen, from -1. *)
Definition max_index (chain : string) (change : Z) (l : list Address) : Z :=
  foldl (λ maxIdx a,
           if bool_decide (Address_Chain a = chain) && bool_decide (Address_Change a = change)
           then if Address_Index a >? maxIdx then Address_Index a else maxIdx
           else maxIdx) (-1) l.

Definition NextAddressIndex (chain : string) (change : Z) : GoM World Z :=
  addrs ← get_st addresses;
  mret (wrap64 (max_index chain change (range_vals addrs) + 1)).

Definition IncrementReceiveCount (id : UUID) : GoM World unit :=
  addrs ← get_st addresses;
  match addrs !! id with
  | None => fail (Wrapf "address not found: %w" [] (Sentinel ErrNoRows))
  | Some a =>
      put_st (set_addresses
        (insert id (Address_with_receives (wrap64 (Address_ReceiveCount a + 1)) a)))
  end.

(** *** Balances *)

Definition UpsertBalance (b : Balance) : GoM World unit :=
  now ← time_Now;
  put_st (set_balances
    (insert (balanceKey (Balance_WalletID b) (Balance_Asset b)) (Balance_with_updated now b))).

Definition GetBalance (walletID : UUID) (asset : string) : GoM World Balance :=
  bs ← get_st balances;
  match bs !! balanceKey walletID asset with
  | None => fail (Wrapf "balance not found: %w" [] (Sentinel ErrNoRows))
  | Some b => mret b
  end.

Definition ListBalances (walletID : UUID) : GoM World (list Balance) :=
  bs ← get_st balances;
  let prefix := (uuid_String walletID +:+ "|")%string in
  let out := (List.filter (λ kb, String.prefix prefix kb.1) (map_range bs)).*2 in
  mret (sort_Slice (λ a b, String.ltb (Balance_Asset a) (Balance_Asset b)) out).

Definition RecordBalanceEvent (e : BalanceEvent) : GoM World unit :=
  evs ← get_st balanceEvents;
  if default false (evs !! balanceEventKey e) then fail (Sentinel ErrDuplicateEvent)
  else put_st (set_balanceEvents (insert (balanceEventKey e) true)).

(** *** UTXOs *)

Definition InsertUTXO (u : UTXO) : GoM World unit :=
  us ← get_st utxos;
  match us !! UTXO_Outpoint u with
  | Some _ => fail (New "utxo exists")
  | None =>
      now ← time_Now;
      put_st (set_utxos (insert (UTXO_Outpoint u)
        (UTXO_with_lock (UTXO_LockState u) (UTXO_LockedAt u) (UTXO_SpentAt u) (UTXO_TxHash u)
           now u)))
  end.

Definition is_free_of (walletID : UUID) (u : UTXO) : bool :=
  bool_decide (UTXO_WalletID u = walletID) &&
  bool_decide (UTXO_LockState u = UTXOLockStateFree).

Definition ListFreeUTXOs (walletID : UUID) : GoM World (list UTXO) :=
  us ← get_st utxos;
  mret (sort_Slice (λ a b, String.ltb (UTXO_Outpoint a) (UTXO_Outpoint b))
          (List.filter (is_free_of walletID) (range_vals us))).

(** The first pass of [LockUTXOs]: every outpoint is there and free. *)
Definition check_free (op : string) : GoM World unit :=
  us ← get_st utxos;
  match us !! op with
  | None => fail (Errorf "utxo not found: %s" [FStr op])
  | Some u =>
      if bool_decide (UTXO_LockState u = UTXOLockStateFree) then mret ()
      else fail (Errorf "utxo not free: %s state=%s" [FStr op; FStr (UTXO_LockState u)])
  end.

Definition lock_one (now : Z) (op : string) : GoM World unit :=
  put_st (set_utxos (alter (λ u,
    UTXO_with_lock UTXOLockStateLocked (Some now) (UTXO_SpentAt u) (UTXO_TxHash u) now u) op)).

Definition LockUTXOs (outpoints : list string) : GoM World unit :=
  for_each check_free outpoints;;
  now ← time_Now;
  for_each (lock_one now) outpoints.

Definition MarkUTXOsSpent (outpoints : list string) (txHash : string) : GoM World unit :=
  now ← time_Now;
  for_each (λ op,
    us ← get_st utxos;
    match us !! op with
    | None => fail (Errorf "utxo not found: %s" [FStr op])
    | Some u =>
        put_st (set_utxos (insert op
          (UTXO_with_lock UTXOLockStateSpent (UTXO_LockedAt u) (Some now) txHash now u)))
    end) outpoints.

Definition RestoreUTXOs (outpoints : list string) : GoM World unit :=
  now ← time_Now;
  for_each (λ op,
    us ← get_st utxos;
    match us !! op with
    | None => fail (Errorf "utxo not found: %s" [FStr op])
    | Some u =>
        put_st (set_utxos (insert op (UTXO_with_lock UTXOLockStateFree None None "" now u)))
    end) outpoints.

Definition PruneUTXOs (outpoints : list string) : GoM World unit :=
  for_each (λ op, put_st (set_utxos (delete op))) outpoints.

(** *** Nonces *)

Definition zero_nonce (walletID : UUID) (chain : string) : Nonce :=
  mkNonce walletID chain 0 0 0 0.

Definition GetNonce (walletID : UUID) (chain : string) : GoM World Nonce :=
  ns ← get_st nonces;
  mret (default (zero_nonce walletID chain) (ns !! nonceKey walletID chain)).

Definition UpsertNonce (n : Nonce) : GoM World unit :=
  now ← time_Now;
  put_st (set_nonces (insert (nonceKey (Nonce_WalletID n) (Nonce_Chain n))
    (Nonce_with (Nonce_PendingNonce n) (Nonce_BroadcastNonce n) (Nonce_Version n) now n))).

Definition IncrementPendingNonce (walletID : UUID) (chain : string) : GoM World (Z * Z) :=
  ns ← get_st nonces;
  let n := default (zero_nonce walletID chain) (ns !! nonceKey walletID chain) in
  let val := Nonce_PendingNonce n in
  let version := wrap64 (Nonce_Version n + 1) in
  now ← time_Now;
  put_st (set_nonces (insert (nonceKey walletID chain)
    (Nonce_with (wrap64 (val + 1)) (Nonce_BroadcastNonce n) version now n)));;
  mret (val, version).

Definition AdvanceBroadcastNonce (walletID : UUID) (chain : string) (nonce : Z) :
    GoM World unit :=
  ns ← get_st nonces;
  let n := default (zero_nonce walletID chain) (ns !! nonceKey walletID chain) in
  let b := if wrap64 (nonce + 1) >? Nonce_BroadcastNonce n then wrap64 (nonce + 1)
           else Nonce_BroadcastNonce n in
  now ← time_Now;
  put_st (set_nonces (insert (nonceKey walletID chain)
    (Nonce_with (Nonce_PendingNonce n) b (Nonce_Version n) now n))).

Definition RollbackPendingNonce (walletID : UUID) (chain : string) (to : Z) : GoM World Z :=
  ns ← get_st nonces;
  match ns !! nonceKey walletID chain with
  | None => mret 0
  | Some n =>
      if bool_decide (Nonce_PendingNonce n = wrap64 (to + 1)) then
        now ← time_Now;
        put_st (set_nonces (insert (nonceKey walletID chain)
          (Nonce_with to (Nonce_BroadcastNonce n) (wrap64 (Nonce_Version n + 1)) now n)));;
        mret 1
      else mret 0
  end.

(** *** Withdrawals *)

Definition CreateWithdrawal (w : WithdrawalRequest) : GoM World unit :=
  ws ← get_st withdrawals;
  match ws !! WR_ID w with
  | Some _ => fail (New "withdrawal exists")
  | None =>
      infl ← get_st inflightWithdrawals;
      let key := withdrawalDedupKey (WR_WalletID w) (WR_ToAddress w) (WR_Amount w) (WR_Asset w) in
      if default false (infl !! key) then fail (Sentinel ErrDuplicateWithdrawal)
      else
        put_st (set_inflight (insert key true));;
        c ← created_or_now (WR_CreatedAt w);
        put_st (set_withdrawals (insert (WR_ID w) (WR_with_times c c w)))
  end.

Definition GetWithdrawal (id : UUID) : GoM World WithdrawalRequest :=
  ws ← get_st withdrawals;
  match ws !! id with
  | None => fail (Wrapf "withdrawal not found: %w" [] (Sentinel ErrNoRows))
  | Some w => mret w
  end.

Definition ListWithdrawals (walletID : UUID) (stateF : string) :
    GoM World (list WithdrawalRequest) :=
  ws ← get_st withdrawals;
  let out := List.filter (λ w,
    (bool_decide (walletID = uuid_Nil) || bool_decide (WR_WalletID w = walletID)) &&
    filter_ok stateF (WR_State w)) (range_vals ws) in
  mret (sort_Slice (λ a b, WR_CreatedAt a <? WR_CreatedAt b) out).

(** [if s != "" { field = s }]. *)
Definition set_nonempty (s old : string) : string :=
  if bool_decide (s = EmptyString) then old else s.

Definition UpdateWithdrawalState (id : UUID) (state reason txHash policyDecisionID : string) :
    GoM World unit :=
  ws ← get_st withdrawals;
  match ws !! id with
  | None => fail (Wrapf "withdrawal not found: %w" [] (Sentinel ErrNoRows))
  | Some w =>
      (if bool_decide (state = WithdrawalStateConfirmed) ||
          bool_decide (state = WithdrawalStateFailed)
       then put_st (set_inflight (delete
              (withdrawalDedupKey (WR_WalletID w) (WR_ToAddress w) (WR_Amount w) (WR_Asset w))))
       else mret ());;
      now ← time_Now;
      put_st (set_withdrawals (insert id
        (WR_with_state state (set_nonempty policyDecisionID (WR_PolicyDecisionID w))
           (set_nonempty reason (WR_FailureReason w)) (set_nonempty txHash (WR_TxHash w)) now w)))
  end.

Definition update_build (id : UUID) (f : Z → WithdrawalRequest → WithdrawalRequest) :
    GoM World unit :=
  ws ← get_st withdrawals;
  match ws !! id with
  | None => fail (Wrapf "withdrawal not found: %w" [] (Sentinel ErrNoRows))
  | Some w => now ← time_Now; put_st (set_withdrawals (insert id (f now w)))
  end.

Definition UpdateWithdrawalNonce (id : UUID) (nonce : Z) : GoM World unit :=
  update_build id (λ now w,
    WR_with_build (Some nonce) (WR_ReservedOutpoints w) (WR_SignedTxBytes w) now w).

Definition UpdateWithdrawalOutpoints (id : UUID) (outpoints : list string) : GoM World unit :=
  update_build id (λ now w, WR_with_build (WR_NonceValue w) outpoints (WR_SignedTxBytes w) now w).

Definition UpdateWithdrawalSignedTx (id : UUID) (txBytes : list Z) : GoM World unit :=
  update_build id (λ now w,
    WR_with_build (WR_NonceValue w) (WR_ReservedOutpoints w) txBytes now w).

(** *** Key mappings *)

Definition mappings_of (walletID : UUID) (ms : gmap UUID (list KeyMapping)) : list KeyMapping :=
  default [] (ms !! walletID).
Definition is_current (m : KeyMapping) : bool :=
  bool_decide (KM_RotationState m = RotationStateCurrent).
Definition is_cooling (m : KeyMapping) : bool :=
  bool_decide (KM_RotationState m = RotationStateCooling).

Definition BindKeyMapping (m : KeyMapping) : GoM World unit :=
  ms ← get_st keyMappings;
  if existsb (λ ex, is_current ex && is_current m) (mappings_of (KM_WalletID m) ms)
  then fail (New "current key mapping already exists")
  else
    created ← created_or_now (KM_CreatedAt m);
    from ← created_or_now (KM_ActiveFrom m);
    put_st (set_keyMappings (insert (KM_WalletID m)
      (mappings_of (KM_WalletID m) ms ++ [KM_with_created from created m]))).

Definition ResolveActiveKey (walletID : UUID) : GoM World (list KeyMapping) :=
  ms ← get_st keyMappings;
  let out := List.filter (λ m, is_current m || is_cooling m) (mappings_of walletID ms) in
  match out with
  | [] => fail (Wrapf "no active key mapping: %w" [] (Sentinel ErrNoRows))
  | _ => mret (sort_Slice (λ a b, KM_ActiveFrom a <? KM_ActiveFrom b) out)
  end.

(** The first loop: the current mappings start cooling. *)
Definition cool (activeTo : Z) (m : KeyMapping) : KeyMapping :=
  if is_current m then KM_with RotationStateCooling (KM_ActiveFrom m) (Some activeTo) m else m.

(** The second loop: the first mapping of the new key becomes current again. *)
Fixpoint reactivate (newKeyID : string) (now : Z) (l : list KeyMapping) :
    option (list KeyMapping) :=
  match l with
  | [] => None
  | m :: l =>
      if bool_decide (KM_KeyID m = newKeyID)
      then Some (KM_with RotationStateCurrent now None m :: l)
      else (m ::.) <$> reactivate newKeyID now l
  end.

Definition RotateKeyMapping (walletID : UUID) (newKeyID : string) (cooling : Z) :
    GoM World unit :=
  now ← time_Now;
  ms ← get_st keyMappings;
  let cooled := map (cool (now + cooling)) (mappings_of walletID ms) in
  put_st (set_keyMappings (insert walletID
    (default (cooled ++ [mkKeyMapping walletID newKeyID now None RotationStateCurrent now])
       (reactivate newKeyID now cooled)))).

Definition expire (now : Z) (m : KeyMapping) : KeyMapping :=
  match KM_ActiveTo m with
  | Some to =>
      if is_cooling m && (now >? to)
      then KM_with RotationStateRetired (KM_ActiveFrom m) (KM_ActiveTo m) m else m
  | None => m
  end.

Definition ExpireCooling : GoM World unit :=
  now ← time_Now;
  put_st (set_keyMappings (fmap (map (expire now)))).

(** *** Funding requests *)

Definition is_open_for (walletID : UUID) (asset : string) (f : FundingRequest) : bool :=
  bool_decide (FR_WalletID f = walletID) && bool_decide (FR_Asset f = asset) &&
  bool_decide (FR_State f = FundingStateRequested).

Definition CreateFundingRequest (f : FundingRequest) : GoM World unit :=
  fs ← get_st fundingReq;
  if existsb (is_open_for (FR_WalletID f) (FR_Asset f)) (range_vals fs)
  then fail (Sentinel ErrDuplicateFunding)
  else
    c ← created_or_now (FR_CreatedAt f);
    put_st (set_fundingReq (insert (FR_ID f) (FR_with_times c c f))).

Definition GetOpenFundingRequest (walletID : UUID) (asset : string) :
    GoM World FundingRequest :=
  fs ← get_st fundingReq;
  match List.find (is_open_for walletID asset) (range_vals fs) with
  | Some f => mret f
  | None => fail (Wrapf "no open funding request: %w" [] (Sentinel ErrNoRows))
  end.

Definition ListFundingRequests (walletID : UUID) (stateF : string) :
    GoM World (list FundingRequest) :=
  fs ← get_st fundingReq;
  let out := List.filter (λ f,
    (bool_decide (walletID = uuid_Nil) || bool_decide (FR_WalletID f = walletID)) &&
    filter_ok stateF (FR_State f)) (range_vals fs) in
  mret (sort_Slice (λ a b, FR_CreatedAt a <? FR_CreatedAt b) out).

Definition UpdateFundingState (id : UUID) (state treasuryBatchID : string) : GoM World unit :=
  fs ← get_st fundingReq;
  match fs !! id with
  | None => fail (Wrapf "funding request not found: %w" [] (Sentinel ErrNoRows))
  | Some f =>
      now ← time_Now;
      put_st (set_fundingReq (insert id
        (FR_with_state state (set_nonempty treasuryBatchID (FR_TreasuryBatchID f)) now f)))
  end.

(** *** Audit outbox *)

Definition AppendAuditEvent (e : AuditOutboxEvent) : GoM World unit :=
  outbox ← get_st auditOutbox;
  if existsb (λ ex, bool_decide (AE_EventID ex = AE_EventID e)) outbox
  then fail (Sentinel ErrDuplicateAudit)
  else
    c ← created_or_now (AE_CreatedAt e);
    put_st (set_auditOutbox (λ l, l ++ [AE_with_created c e])).

Definition ListUndeliveredAuditEvents (limit : Z) : GoM World (list AuditOutboxEvent) :=
  outbox ← get_st auditOutbox;
  let out := sort_Slice (λ a b, AE_Seq a <? AE_Seq b)
               (List.filter (λ e, negb (AE_Delivered e)) outbox) in
  mret (if (0 <? limit) && (limit <? Z.of_nat (length out))
        then take (Z.to_nat limit) out else out).

(** The loop stops at the first row with the id. *)
Fixpoint mark_first (id : UUID) (now : Z) (l : list AuditOutboxEvent) :
    option (list AuditOutboxEvent) :=
  match l with
  | [] => None
  | e :: l =>
      if bool_decide (AE_ID e = id) then Some (AE_delivered now e :: l)
      else (e ::.) <$> mark_first id now l
  end.

Definition MarkAuditDelivered (id : UUID) : GoM World unit :=
  outbox ← get_st auditOutbox;
  if existsb (λ e, bool_decide (AE_ID e = id)) outbox then
    now ← time_Now;
    put_st (set_auditOutbox (λ l, default l (mark_first id now l)))
  else fail (Wrapf "audit event not found: %w" [] (Sentinel ErrNoRows)).

Definition NextAuditSeq (walletID : UUID) : GoM World Z :=
  cs ← get_st auditSeqCounters;
  let n := wrap64 (default 0 (cs !! walletID) + 1) in
  put_st (set_auditSeqCounters (insert walletID n));;
  mret n.
End mem.
End Mem.

(** The memstore is a store. *)
#[export] Instance memstore `{!GoRuntime, !UuidLib} : Store World := {|
  InTx := Mem.InTx;
  CreateWallet := Mem.CreateWallet;
  GetWallet := Mem.GetWallet;
  UpdateWalletState := Mem.UpdateWalletState;
  ListWallets := Mem.ListWallets;
  InsertAddress := Mem.InsertAddress;
  GetActiveAddress := Mem.GetActiveAddress;
  ListAddresses := Mem.ListAddresses;
  DeprecateAddress := Mem.DeprecateAddress;
  NextAddressIndex := Mem.NextAddressIndex;
  IncrementReceiveCount := Mem.IncrementReceiveCount;
  GetAddress := Mem.GetAddress;
  UpsertBalance := Mem.UpsertBalance;
  GetBalance := Mem.GetBalance;
  ListBalances := Mem.ListBalances;
  RecordBalanceEvent := Mem.RecordBalanceEvent;
  InsertUTXO := Mem.InsertUTXO;
  ListFreeUTXOs := Mem.ListFreeUTXOs;
  LockUTXOs := Mem.LockUTXOs;
  MarkUTXOsSpent := Mem.MarkUTXOsSpent;
  RestoreUTXOs := Mem.RestoreUTXOs;
  PruneUTXOs := Mem.PruneUTXOs;
  GetNonce := Mem.GetNonce;
  UpsertNonce := Mem.UpsertNonce;
  IncrementPendingNonce := Mem.IncrementPendingNonce;
  AdvanceBroadcastNonce := Mem.AdvanceBroadcastNonce;
  RollbackPendingNonce := Mem.RollbackPendingNonce;
  CreateWithdrawal := Mem.CreateWithdrawal;
  GetWithdrawal := Mem.GetWithdrawal;
  ListWithdrawals := Mem.ListWithdrawals;
  UpdateWithdrawalState := Mem.UpdateWithdrawalState;
  UpdateWithdrawalNonce := Mem.UpdateWithdrawalNonce;
  UpdateWithdrawalOutpoints := Mem.UpdateWithdrawalOutpoints;
  UpdateWithdrawalSignedTx := Mem.UpdateWithdrawalSignedTx;
  BindKeyMapping := Mem.BindKeyMapping;
  ResolveActiveKey := Mem.ResolveActiveKey;
  RotateKeyMapping := Mem.RotateKeyMapping;
  ExpireCooling := Mem.ExpireCooling;
  CreateFundingRequest := Mem.CreateFundingRequest;
  GetOpenFundingRequest := Mem.GetOpenFundingRequest;
  ListFundingRequests := Mem.ListFundingRequests;
  UpdateFundingState := Mem.UpdateFundingState;
  AppendAuditEvent := Mem.AppendAuditEvent;
  ListUndeliveredAuditEvents := Mem.ListUndeliveredAuditEvents;
  MarkAuditDelivered := Mem.MarkAuditDelivered;
  NextAuditSeq := Mem.NextAuditSeq;
|}.

(** Runs the steps that only read the clock, the ids and the store. *)
Ltac mem_cbv :=
  cbv beta iota zeta delta [mbind GoM_bind mret GoM_ret fail try ignore wrap finally gets modify
                            ret_res fst snd time_Now uuid_New world_effects get_st put_st].
Ltac mem_eval := mem_cbv; repeat (go_split; mem_cbv; try done).
