(* ===== verification/MemstoreFacts.v ===== *)
(** * MemstoreFacts: what each memstore method may change

    The store's fields fall into groups; [only k] says that a step left every group but [k]
    as it was, and each mutating method has one such lemma.  [on_store Q] lifts a preorder on
    stores to the world; transactions, the clock, the locks and the cache respect every lifted
    preorder.  The [gorel] hints make [go_respects] prove frame conditions and invariants of a
    whole service method from these lemmas. *)

From S2P Require Import Prelude GoLib Extern Domain Storage Memstore.

Inductive group :=
  | GWallets | GAddresses | GBalances | GUtxos | GNonces | GWithdrawals | GKeys | GFunding
  | GAudit.

#[export] Instance group_eq_dec : EqDecision group.
Proof. solve_decision. Defined.

(** The two stores agree on a group. *)
Definition same (k : group) (s s' : MemStore) : Prop :=
  match k with
  | GWallets => wallets s' = wallets s
  | GAddresses => addresses s' = addresses s
  | GBalances => balances s' = balances s ∧ balanceEvents s' = balanceEvents s
  | GUtxos => utxos s' = utxos s
  | GNonces => nonces s' = nonces s
  | GWithdrawals =>
      withdrawals s' = withdrawals s ∧ inflightWithdrawals s' = inflightWithdrawals s
  | GKeys => keyMappings s' = keyMappings s
  | GFunding => fundingReq s' = fundingReq s
  | GAudit => auditOutbox s' = auditOutbox s ∧ auditSeqCounters s' = auditSeqCounters s
  end.

Definition only (k : group) (s s' : MemStore) : Prop := ∀ k', k' ≠ k → same k' s s'.

(** A relation on stores, on the store part of the world. *)
Definition on_store (Q : relation MemStore) : relation World :=
  λ w w', Q (w_store w) (w_store w').

#[export] Instance same_preorder k : PreOrder (same k).
Proof.
  split.
  - intros s. by destruct k.
  - intros s1 s2 s3 H1 H2. destruct k; simpl in *; try congruence;
      destruct H1, H2; split; congruence.
Qed.
#[export] Instance only_preorder k : PreOrder (only k).
Proof.
  split.
  - intros s k' _. reflexivity.
  - intros s1 s2 s3 H1 H2 k' Hk. etrans; [by apply H1 | by apply H2].
Qed.
#[export] Instance on_store_preorder Q `{!PreOrder Q} : PreOrder (on_store Q).
Proof.
  split; unfold on_store; [intros ?; reflexivity | intros ? ? ? ??; by etrans].
Qed.

(** [Q] reads nothing outside group [k]. *)
Class Reads (k : group) (Q : relation MemStore) : Prop :=
  reads_same : ∀ s s', same k s s' → Q s s'.

#[export] Instance same_reads k : Reads k (same k).
Proof. by intros s s'. Qed.

(** An invariant of one group. *)
Lemma preserving_reads k (I : MemStore → Prop) :
  (∀ s s', same k s s' → I s → I s') → Reads k (preserving I).
Proof. intros H s s' Hs. exact (H s s' Hs). Qed.

(** The rest of the process: the locks, the cache and the transaction depth. *)
Definition same_process (w w' : World) : Prop :=
  w_locks w' = w_locks w ∧ w_cache w' = w_cache w ∧ w_depth w' = w_depth w.
Definition writes (k : group) (w w' : World) : Prop :=
  only k (w_store w) (w_store w') ∧ same_process w w'.

#[export] Instance same_process_preorder : PreOrder same_process.
Proof.
  split; unfold same_process; [done|]. intros ??? (? & ? & ?) (? & ? & ?). split_and!; congruence.
Qed.
#[export] Instance writes_preorder k : PreOrder (writes k).
Proof.
  split.
  - intros w. split; reflexivity.
  - intros a b c [] []. split; by etrans.
Qed.

Lemma writes_only {A} k (m : GoM World A) :
  respects (writes k) m → respects (on_store (only k)) m.
Proof. intros Hm w. apply Hm. Qed.
Lemma writes_process {A} k (m : GoM World A) : respects (writes k) m → respects same_process m.
Proof. intros Hm w. apply Hm. Qed.

Lemma respects_only {A} k k' Q (m : GoM World A) `{!Reads k Q} :
  respects (writes k') m → k ≠ k' → respects (on_store Q) m.
Proof. intros Hm Hk w. unfold on_store. apply (reads_same (k:=k)). by apply (Hm w). Qed.

(** Steps that do not touch the store at all. *)
Definition storeless {A} (m : GoM World A) : Prop := ∀ w, w_store (m w).2 = w_store w.

Lemma respects_storeless {A} Q `{!PreOrder Q} (m : GoM World A) :
  storeless m → respects (on_store Q) m.
Proof. intros Hm w. unfold on_store. rewrite Hm. reflexivity. Qed.

Section facts.
Context {GR : GoRuntime} {UL : UuidLib}.

Lemma storeless_time : storeless time_Now.
Proof. done. Qed.
Lemma storeless_uuid : storeless uuid_New.
Proof. done. Qed.
Lemma storeless_created c : storeless (Mem.created_or_now c).
Proof. intros w. unfold Mem.created_or_now. by case_bool_decide. Qed.

(** A transaction respects what its body respects: a rollback puts the old store back. *)
Lemma respects_InTx Q `{!PreOrder Q} fn :
  respects (on_store Q) fn → respects (on_store Q) (InTx fn).
Proof.
  intros Hfn w. unfold on_store in *. unfold InTx, memstore, Mem.InTx, Mem.restore. go_cbv.
  specialize (Hfn (set_depth (S (w_depth w)) w)). simpl in Hfn.
  case_bool_decide.
  - by destruct (fn _).
  - destruct (fn _) as [[[]|e] w']; [done|]. simpl. reflexivity.
Qed.

(** A transaction that succeeds keeps its writes; one that fails, at the outermost level, leaves
    the store it started from. *)
Lemma InTx_ok fn w w' :
  fn (set_depth (S (w_depth w)) w) = (Ok (), w') → InTx fn w = (Ok (), set_depth (w_depth w) w').
Proof.
  intros E. unfold InTx, memstore, Mem.InTx. go_cbv.
  case_bool_decide; cbv beta; rewrite E; reflexivity.
Qed.

Lemma InTx_err fn w e w' :
  fn (set_depth (S (w_depth w)) w) = (Err e, w') → w_depth w = 0%nat →
  InTx fn w = (Err e, set_depth 0 (set_store (w_store w) w')).
Proof.
  intros E Hd. unfold InTx, memstore, Mem.InTx, Mem.restore, Mem.snapshot. go_cbv.
  rewrite bool_decide_false by lia. cbv beta. rewrite E, Hd. reflexivity.
Qed.

Lemma InTx_noop fn w e :
  fn (set_depth (S (w_depth w)) w) = (Err e, set_depth (S (w_depth w)) w) → InTx fn w = (Err e, w).
Proof.
  intros E. unfold InTx, memstore, Mem.InTx, Mem.restore, Mem.snapshot. go_cbv.
  case_bool_decide; cbv beta; rewrite E; by destruct w.
Qed.

Lemma GetWallet_run id w :
  GetWallet id w =
    (match wallets (w_store w) !! id with
     | Some row => Ok row
     | None => Err (Wrapf "wallet not found: %w" [] (Sentinel ErrNoRows))
     end, w).
Proof. unfold GetWallet, memstore, Mem.GetWallet. mem_cbv. by destruct (_ !! id). Qed.

Lemma put_st_only k f :
  (∀ s, only k s (f s)) → respects (writes k) (put_st f).
Proof. intros Hf w. split; [apply Hf|done]. Qed.
Lemma writes_time k : respects (writes k) time_Now.
Proof. intros w. split; [simpl; reflexivity|done]. Qed.
Lemma writes_created k c : respects (writes k) (Mem.created_or_now c).
Proof. intros w. unfold Mem.created_or_now. by case_bool_decide; split; [simpl; reflexivity|done|reflexivity|]. Qed.
End facts.

#[export] Hint Resolve storeless_time storeless_uuid storeless_created : gorel.
#[export] Hint Resolve respects_InTx : gorel.
#[export] Hint Extern 2 (respects (on_store _) _) =>
  (apply respects_storeless; [try exact _ | solve [eauto 2 with gorel]]) : gorel.
(** A method of another group does not matter to a relation that reads group [k]. *)
Ltac other_group k Q :=
  eapply (respects_only k _ Q); [exact _ | solve [eauto 2 with gorel] | discriminate].
#[export] Hint Extern 1 (respects (on_store (only _)) _) =>
  (apply writes_only; solve [eauto 2 with gorel]) : gorel.
#[export] Hint Extern 1 (respects (on_store (same ?k)) _) => (other_group k (same k)) : gorel.

Section methods.
Context {GR : GoRuntime} {UL : UuidLib}.

Ltac by_write :=
  solve [ apply put_st_only; intros ? [] ?; try congruence; simpl; auto ].
Ltac only_tac :=
  repeat first
    [ progress intros
    | progress cbn beta iota zeta
    | by_write
    | apply respects_ret; exact _ | apply respects_fail; exact _
    | apply respects_gets; exact _
    | apply writes_time | apply writes_created
    | apply respects_bind; [exact _ | | ]
    | apply respects_for_each; [exact _ | ]
    | match goal with
      | |- respects _ (match ?x with _ => _ end) => destruct x eqn:?
      | |- respects _ (if ?x then _ else _) => destruct x eqn:?
      end
    | unfold get_st ].

Tactic Notation "only_method" reference(p) reference(m) :=
  intros; unfold p, memstore, m; unfold Mem.update_build, Mem.check_free, Mem.lock_one; only_tac.

Lemma CreateWallet_only w : respects (writes GWallets) (CreateWallet w).
Proof. only_method CreateWallet Mem.CreateWallet. Qed.
Lemma UpdateWalletState_only i s : respects (writes GWallets) (UpdateWalletState i s).
Proof. only_method UpdateWalletState Mem.UpdateWalletState. Qed.
Lemma InsertAddress_only a : respects (writes GAddresses) (InsertAddress a).
Proof. only_method InsertAddress Mem.InsertAddress. Qed.
Lemma DeprecateAddress_only i : respects (writes GAddresses) (DeprecateAddress i).
Proof. only_method DeprecateAddress Mem.DeprecateAddress. Qed.
Lemma IncrementReceiveCount_only i : respects (writes GAddresses) (IncrementReceiveCount i).
Proof. only_method IncrementReceiveCount Mem.IncrementReceiveCount. Qed.
Lemma UpsertBalance_only b : respects (writes GBalances) (UpsertBalance b).
Proof. only_method UpsertBalance Mem.UpsertBalance. Qed.
Lemma RecordBalanceEvent_only e : respects (writes GBalances) (RecordBalanceEvent e).
Proof. only_method RecordBalanceEvent Mem.RecordBalanceEvent. Qed.
Lemma InsertUTXO_only u : respects (writes GUtxos) (InsertUTXO u).
Proof. only_method InsertUTXO Mem.InsertUTXO. Qed.
Lemma LockUTXOs_only l : respects (writes GUtxos) (LockUTXOs l).
Proof. only_method LockUTXOs Mem.LockUTXOs. Qed.
Lemma MarkUTXOsSpent_only l t : respects (writes GUtxos) (MarkUTXOsSpent l t).
Proof. only_method MarkUTXOsSpent Mem.MarkUTXOsSpent. Qed.
Lemma RestoreUTXOs_only l : respects (writes GUtxos) (RestoreUTXOs l).
Proof. only_method RestoreUTXOs Mem.RestoreUTXOs. Qed.
Lemma PruneUTXOs_only l : respects (writes GUtxos) (PruneUTXOs l).
Proof. only_method PruneUTXOs Mem.PruneUTXOs. Qed.
Lemma UpsertNonce_only n : respects (writes GNonces) (UpsertNonce n).
Proof. only_method UpsertNonce Mem.UpsertNonce. Qed.
Lemma IncrementPendingNonce_only i c : respects (writes GNonces) (IncrementPendingNonce i c).
Proof. only_method IncrementPendingNonce Mem.IncrementPendingNonce. Qed.
Lemma AdvanceBroadcastNonce_only i c n : respects (writes GNonces) (AdvanceBroadcastNonce i c n).
Proof. only_method AdvanceBroadcastNonce Mem.AdvanceBroadcastNonce. Qed.
Lemma RollbackPendingNonce_only i c n : respects (writes GNonces) (RollbackPendingNonce i c n).
Proof. only_method RollbackPendingNonce Mem.RollbackPendingNonce. Qed.
Lemma CreateWithdrawal_only w : respects (writes GWithdrawals) (CreateWithdrawal w).
Proof. only_method CreateWithdrawal Mem.CreateWithdrawal. Qed.
Lemma UpdateWithdrawalState_only i s r t p : respects (writes GWithdrawals) (UpdateWithdrawalState i s r t p).
Proof. only_method UpdateWithdrawalState Mem.UpdateWithdrawalState. Qed.
Lemma UpdateWithdrawalNonce_only i n : respects (writes GWithdrawals) (UpdateWithdrawalNonce i n).
Proof. only_method UpdateWithdrawalNonce Mem.UpdateWithdrawalNonce. Qed.
Lemma UpdateWithdrawalOutpoints_only i l : respects (writes GWithdrawals) (UpdateWithdrawalOutpoints i l).
Proof. only_method UpdateWithdrawalOutpoints Mem.UpdateWithdrawalOutpoints. Qed.
Lemma UpdateWithdrawalSignedTx_only i l : respects (writes GWithdrawals) (UpdateWithdrawalSignedTx i l).
Proof. only_method UpdateWithdrawalSignedTx Mem.UpdateWithdrawalSignedTx. Qed.
Lemma BindKeyMapping_only m : respects (writes GKeys) (BindKeyMapping m).
Proof. only_method BindKeyMapping Mem.BindKeyMapping. Qed.
Lemma RotateKeyMapping_only i k c : respects (writes GKeys) (RotateKeyMapping i k c).
Proof. only_method RotateKeyMapping Mem.RotateKeyMapping. Qed.
Lemma ExpireCooling_only  : respects (writes GKeys) (ExpireCooling).
Proof. only_method ExpireCooling Mem.ExpireCooling. Qed.
Lemma CreateFundingRequest_only f : respects (writes GFunding) (CreateFundingRequest f).
Proof. only_method CreateFundingRequest Mem.CreateFundingRequest. Qed.
Lemma UpdateFundingState_only i s b : respects (writes GFunding) (UpdateFundingState i s b).
Proof. only_method UpdateFundingState Mem.UpdateFundingState. Qed.
Lemma AppendAuditEvent_only e : respects (writes GAudit) (AppendAuditEvent e).
Proof. only_method AppendAuditEvent Mem.AppendAuditEvent. Qed.
Lemma MarkAuditDelivered_only i : respects (writes GAudit) (MarkAuditDelivered i).
Proof. only_method MarkAuditDelivered Mem.MarkAuditDelivered. Qed.
Lemma NextAuditSeq_only i : respects (writes GAudit) (NextAuditSeq i).
Proof. only_method NextAuditSeq Mem.NextAuditSeq. Qed.

(** The reading methods leave the whole world as it is. *)
Tactic Notation "read_method" reference(p) reference(m) :=
  intros w; unfold p, memstore, m, get_st; go_eval; done.
Lemma GetWallet_reads i w : (GetWallet i w).2 = w.
Proof. revert w. read_method GetWallet Mem.GetWallet. Qed.
Lemma ListWallets_reads a b c w : (ListWallets a b c w).2 = w.
Proof. revert w. read_method ListWallets Mem.ListWallets. Qed.
Lemma GetActiveAddress_reads i w : (GetActiveAddress i w).2 = w.
Proof. revert w. read_method GetActiveAddress Mem.GetActiveAddress. Qed.
Lemma ListAddresses_reads i w : (ListAddresses i w).2 = w.
Proof. revert w. read_method ListAddresses Mem.ListAddresses. Qed.
Lemma NextAddressIndex_reads c n w : (NextAddressIndex c n w).2 = w.
Proof. revert w. read_method NextAddressIndex Mem.NextAddressIndex. Qed.
Lemma GetAddress_reads i w : (GetAddress i w).2 = w.
Proof. revert w. read_method GetAddress Mem.GetAddress. Qed.
Lemma GetBalance_reads i a w : (GetBalance i a w).2 = w.
Proof. revert w. read_method GetBalance Mem.GetBalance. Qed.
Lemma ListBalances_reads i w : (ListBalances i w).2 = w.
Proof. revert w. read_method ListBalances Mem.ListBalances. Qed.
Lemma ListFreeUTXOs_reads i w : (ListFreeUTXOs i w).2 = w.
Proof. revert w. read_method ListFreeUTXOs Mem.ListFreeUTXOs. Qed.
Lemma GetNonce_reads i c w : (GetNonce i c w).2 = w.
Proof. revert w. read_method GetNonce Mem.GetNonce. Qed.
Lemma GetWithdrawal_reads i w : (GetWithdrawal i w).2 = w.
Proof. revert w. read_method GetWithdrawal Mem.GetWithdrawal. Qed.
Lemma ListWithdrawals_reads i s w : (ListWithdrawals i s w).2 = w.
Proof. revert w. read_method ListWithdrawals Mem.ListWithdrawals. Qed.
Lemma ResolveActiveKey_reads i w : (ResolveActiveKey i w).2 = w.
Proof. revert w. read_method ResolveActiveKey Mem.ResolveActiveKey. Qed.
Lemma GetOpenFundingRequest_reads i a w : (GetOpenFundingRequest i a w).2 = w.
Proof. revert w. read_method GetOpenFundingRequest Mem.GetOpenFundingRequest. Qed.
Lemma ListFundingRequests_reads i s w : (ListFundingRequests i s w).2 = w.
Proof. revert w. read_method ListFundingRequests Mem.ListFundingRequests. Qed.
Lemma ListUndeliveredAuditEvents_reads n w : (ListUndeliveredAuditEvents n w).2 = w.
Proof. revert w. read_method ListUndeliveredAuditEvents Mem.ListUndeliveredAuditEvents. Qed.

Lemma reads_storeless {A} (m : GoM World A) : (∀ w, (m w).2 = w) → storeless m.
Proof. intros Hm w. by rewrite Hm. Qed.
End methods.

#[export] Hint Resolve CreateWallet_only
  UpdateWalletState_only
  InsertAddress_only
  DeprecateAddress_only
  IncrementReceiveCount_only
  UpsertBalance_only
  RecordBalanceEvent_only
  InsertUTXO_only
  LockUTXOs_only
  MarkUTXOsSpent_only
  RestoreUTXOs_only
  PruneUTXOs_only
  UpsertNonce_only
  IncrementPendingNonce_only
  AdvanceBroadcastNonce_only
  RollbackPendingNonce_only
  CreateWithdrawal_only
  UpdateWithdrawalState_only
  UpdateWithdrawalNonce_only
  UpdateWithdrawalOutpoints_only
  UpdateWithdrawalSignedTx_only
  BindKeyMapping_only
  RotateKeyMapping_only
  ExpireCooling_only
  CreateFundingRequest_only
  UpdateFundingState_only
  AppendAuditEvent_only
  MarkAuditDelivered_only
  NextAuditSeq_only : gorel.
#[export] Hint Resolve reads_storeless GetWallet_reads
  ListWallets_reads
  GetActiveAddress_reads
  ListAddresses_reads
  NextAddressIndex_reads
  GetAddress_reads
  GetBalance_reads
  ListBalances_reads
  ListFreeUTXOs_reads
  GetNonce_reads
  GetWithdrawal_reads
  ListWithdrawals_reads
  ResolveActiveKey_reads
  GetOpenFundingRequest_reads
  ListFundingRequests_reads
  ListUndeliveredAuditEvents_reads : gorel.
