(* ===== verification/MemMutex.v ===== *)
(** * MemMutex: the reentrant mutex of the memstore (internal/storage/memstore/memstore.go, lock)

    Every method of the memstore runs between [lock()] and the function it returns, and so does
    the body of InTx.  Here goroutines interleave in the middle of both: the short sections under
    [depthMu] are single steps, [mu.Lock] waits.  The theorem is what Memstore.v relies on when
    it takes a method for one atomic step and [w_depth] for the depth of the running goroutine. *)

From S2P Require Import Prelude GoLib Bytes.
From stdpp Require Import functions.

Local Open Scope Z_scope.

(** [goID]: the digits after "goroutine " in the first line of the stack. *)
Fixpoint read_digits (id : Z) (l : bytes) : Z :=
  match l with
  | c :: l => if (48 <=? c) && (c <=? 57) then read_digits (wrap64 (id * 10 + (c - 48))) l else id
  | [] => id
  end.
Definition goID (stack : bytes) : Z := read_digits 0 (drop 10 (take 64 stack)).

Example goID_example : goID (bytes_of_string "goroutine 1742 [running]:") = 1742.
Proof. reflexivity. Qed.

(** [mu] (who locked it) and [depths]. *)
Record Mutex := mkMutex { mu : option Z; depths : gmap Z Z }.
Definition NewMutex : Mutex := mkMutex None ∅.

(** The function [lock] returns: for a nested call, and for the call that locked [mu]. *)
Inductive release := Nested | Outer.

Section operations.
Variable id : Z.

(** The read of InTx: zero when there is no entry. *)
Definition depth_of (m : Mutex) : Z := default 0 (depths m !! id).

(** The first section of [lock]: a goroutine that is inside already goes deeper. *)
Definition lock_enter (m : Mutex) : Mutex * option release :=
  if 0 <? depth_of m
  then (mkMutex (mu m) (<[id := depth_of m + 1]> (depths m)), Some Nested)
  else (m, None).
(** [s.mu.Lock()], which waits as long as somebody has it. *)
Definition mu_Lock (m : Mutex) : option Mutex :=
  match mu m with None => Some (mkMutex (Some id) (depths m)) | Some _ => None end.
Definition lock_set (m : Mutex) : Mutex := mkMutex (mu m) (<[id := 1]> (depths m)).

(** The section both functions returned by [lock] start with. *)
Definition leave_depth (m : Mutex) : Mutex :=
  let d := depth_of m - 1 in
  mkMutex (mu m) (if d =? 0 then delete id (depths m) else <[id := d]> (depths m)).
End operations.
(** [s.mu.Unlock()]: unlocking an unlocked mutex ends the process. *)
Definition mu_Unlock (m : Mutex) : option Mutex :=
  match mu m with Some _ => Some (mkMutex None (depths m)) | None => None end.

(** ** Goroutines *)

(** Running code outside [lock] and its functions; in [lock] before [mu.Lock] and after it;
    in the outer function before [mu.Unlock]. *)
Inductive point := Running | Waiting | Locked | Leaving.
(** A goroutine, with the functions it has deferred, the latest first. *)
Record goroutine := mkGoroutine { at_ : point; deferred : list release }.
Record state := mkState { mutex : Mutex; routines : Z → goroutine }.

Definition initial : state := mkState NewMutex (λ _, mkGoroutine Running []).

(** A step of one goroutine. *)
Inductive step (g : Z) : state → state → Prop :=
  | step_nested k m m' R :
      R g = mkGoroutine Running k → lock_enter g m = (m', Some Nested) →
      step g (mkState m R) (mkState m' (<[g := mkGoroutine Running (Nested :: k)]> R))
  | step_wait k m m' R :
      R g = mkGoroutine Running k → lock_enter g m = (m', None) →
      step g (mkState m R) (mkState m' (<[g := mkGoroutine Waiting k]> R))
  | step_lock k m m' R :
      R g = mkGoroutine Waiting k → mu_Lock g m = Some m' →
      step g (mkState m R) (mkState m' (<[g := mkGoroutine Locked k]> R))
  | step_set k m R :
      R g = mkGoroutine Locked k →
      step g (mkState m R) (mkState (lock_set g m) (<[g := mkGoroutine Running (Outer :: k)]> R))
  | step_leave_nested k m R :
      R g = mkGoroutine Running (Nested :: k) →
      step g (mkState m R) (mkState (leave_depth g m) (<[g := mkGoroutine Running k]> R))
  | step_leave k m R :
      R g = mkGoroutine Running (Outer :: k) →
      step g (mkState m R) (mkState (leave_depth g m) (<[g := mkGoroutine Leaving k]> R))
  | step_unlock k m m' R :
      R g = mkGoroutine Leaving k → mu_Unlock m = Some m' →
      step g (mkState m R) (mkState m' (<[g := mkGoroutine Running k]> R)).

Definition some_step (s s' : state) : Prop := ∃ g, step g s s'.

(** A goroutine inside runs the body of a method or of a transaction. *)
Definition inside (s : state) (g : Z) : Prop := deferred (routines s g) ≠ [].
Definition has_mutex (r : goroutine) : Prop :=
  deferred r ≠ [] ∨ at_ r = Locked ∨ at_ r = Leaving.

(** The nested functions are on top of the one that locked. *)
Definition bracketed (k : list release) : Prop := k = [] ∨ ∃ n, k = replicate n Nested ++ [Outer].

Record ok_routine (m : Mutex) (g : Z) (r : goroutine) : Prop := {
  or_depth : depths m !! g = match deferred r with [] => None | k => Some (Z.of_nat (length k)) end;
  or_bracketed : bracketed (deferred r);
  or_point : at_ r ≠ Running → deferred r = [];
  or_mutex : mu m = Some g ↔ has_mutex r;
}.
Definition inv (s : state) : Prop := ∀ g, ok_routine (mutex s) g (routines s g).

Lemma initial_inv : inv initial.
Proof.
  intros g. split; simpl; try done.
  - by left.
  - split; [done|]. by intros [H|[H|H]].
Qed.

(** A step of one goroutine changes its own part, and the others' view of the mutex only
    between nobody and itself. *)
Lemma inv_update m m' R g r :
  inv (mkState m R) → ok_routine m' g r →
  (∀ h, h ≠ g → depths m' !! h = depths m !! h) →
  (∀ h, h ≠ g → mu m' = Some h ↔ mu m = Some h) →
  inv (mkState m' (<[g := r]> R)).
Proof.
  intros H Hr Hd Hm h. simpl. destruct (decide (h = g)) as [->|Hne].
  - by rewrite fn_lookup_insert.
  - rewrite fn_lookup_insert_ne by done. destruct (H h) as [D B P M]. simpl in *.
    split; [by rewrite Hd|done|done|]. by rewrite Hm.
Qed.

(** Nobody else has the mutex while [g] has it. *)
Lemma others_excluded m R g h :
  inv (mkState m R) → mu m = Some g → h ≠ g → mu m = Some h ↔ False.
Proof. intros _ E Hne. rewrite E. split; [|done]. congruence. Qed.

#[local] Arguments Z.of_nat : simpl never.

Ltac depth_of_others := intros h Hne; unfold lock_set, leave_depth; simpl;
  repeat case_match; by rewrite ?lookup_insert_ne, ?lookup_delete_ne by done.

Lemma nested_call_inv m m' R g k :
  inv (mkState m R) → R g = mkGoroutine Running k → lock_enter g m = (m', Some Nested) →
  inv (mkState m' (<[g := mkGoroutine Running (Nested :: k)]> R)).
Proof.
  intros H HR E. pose proof (H g) as [D B _ M]. simpl in D, B, M. rewrite HR in *. simpl in D, B, M.
  unfold lock_enter, depth_of in E. destruct k as [|r k]; rewrite D in E; simpl in E; [done|].
  destruct (Z.ltb_spec 0 (Z.of_nat (S (length k)))); [|done]. injection E as <-.
  apply inv_update with m; [done| |depth_of_others|done].
  split; simpl; [rewrite lookup_insert_eq; f_equal; lia| |done|].
  - right. destruct B as [|[n ->]]; [done|]. by exists (S n).
  - rewrite M. unfold has_mutex. simpl. split; intros _; left; done.
Qed.

Lemma nested_release_inv m R g k :
  inv (mkState m R) → R g = mkGoroutine Running (Nested :: k) →
  inv (mkState (leave_depth g m) (<[g := mkGoroutine Running k]> R)).
Proof.
  intros H HR. pose proof (H g) as [D B _ M]. simpl in D, B, M. rewrite HR in *. simpl in D, B, M.
  assert (Hk : ∃ n, k = replicate n Nested ++ [Outer]).
  { destruct B as [|[[|n] Eb]]; [done|done|]. injection Eb as ->. by exists n. }
  destruct Hk as [n ->]. set (k := replicate n Nested ++ [Outer]) in *.
  assert (Hlen : (length k = S n)%nat) by (unfold k; rewrite length_app, length_replicate; simpl; lia).
  apply inv_update with m; [done| |depth_of_others|done].
  assert (k ≠ []) by (intros ->; done).
  split; simpl; [|right; by exists n|done|].
  - unfold leave_depth, depth_of. rewrite D. simpl. rewrite (proj2 (Z.eqb_neq _ _)) by lia.
    rewrite lookup_insert_eq. destruct k; [done|]. f_equal. simpl in *. lia.
  - rewrite M. unfold has_mutex. simpl. split; intros _; by left.
Qed.

Lemma step_inv g s s' : inv s → step g s s' → inv s'.
Proof.
  intros H Hs. destruct Hs as [k m m' R HR E|k m m' R HR E|k m m' R HR E|k m R HR|
    k m R HR|k m R HR|k m m' R HR E];
    pose proof (H g) as [D B P M]; simpl in D, B, P, M; rewrite HR in *; simpl in D, B, P, M.
  - by eapply nested_call_inv.
  - (* first call *)
    unfold lock_enter, depth_of in E. destruct k as [|r k]; rewrite D in E; simpl in E.
    2: { destruct (Z.ltb_spec 0 (Z.of_nat (S (length k)))); [done|lia]. }
    injection E as <-. apply inv_update with m; [done| |done|done].
    split; simpl; [done|by left|done|]. rewrite M. unfold has_mutex. simpl.
    split; intros [?|[?|?]]; done.
  - (* the mutex *)
    unfold mu_Lock in E. destruct (mu m) eqn:Em; [done|]. injection E as <-.
    rewrite (P ltac:(done)) in *. apply inv_update with m; [done| |done|].
    + split; simpl; [done|by left|done|]. split; [by right; left|done].
    + intros h Hne. simpl. rewrite Em. split; [|done]. congruence.
  - rewrite (P ltac:(done)) in *. apply inv_update with m; [done| |depth_of_others|done].
    split; simpl; [by rewrite lookup_insert_eq|right; by exists 0%nat|done|].
    rewrite M. unfold has_mutex. simpl. split; [by left|by right; left].
  - by apply nested_release_inv.
  - (* the outer call: the depth, *)
    assert (k = []) as ->.
    { destruct B as [|[[|n] Eb]]; [done|by injection Eb|done]. }
    apply inv_update with m; [done| |depth_of_others|done].
    split; simpl; [|by left|done|].
    + unfold leave_depth, depth_of. rewrite D. simpl. by rewrite lookup_delete_eq.
    + rewrite M. unfold has_mutex. simpl. split; [by right; right|by left].
  - (* then the mutex *)
    rewrite (P ltac:(done)) in *. unfold mu_Unlock in E. destruct (mu m) as [g'|] eqn:Em; [|done].
    injection E as <-. assert (g' = g) as ->.
    { assert (Some g' = Some g) as [= ->]; [|done]. apply M. by right; right. }
    apply inv_update with m; [done| |done|].
    + split; simpl; [done|by left|done|]. split; [done|]. by intros [?|[?|?]].
    + intros h Hne. simpl. rewrite Em. split; [done|]. congruence.
Qed.

Lemma reachable_inv s : rtc some_step initial s → inv s.
Proof.
  intros H. pose proof initial_inv as H0. revert H0.
  induction H as [|a b c [g Hs] _ IH]; [done|]. intros Ha. by apply IH, (step_inv g a).
Qed.

(** Whoever has the mutex can go on, and when nobody has it a waiting goroutine can take it. *)
Lemma inv_holder m R g : inv (mkState m R) → mu m = Some g → ∃ s', step g (mkState m R) s'.
Proof.
  intros H Em. assert (HR : R g = mkGoroutine (at_ (R g)) (deferred (R g))) by (by destruct (R g)).
  destruct (H g) as [_ _ P M]. simpl in P, M. destruct (at_ (R g)) eqn:Ea.
  - apply M in Em as [Hk|[?|?]]; [|congruence..].
    destruct (deferred (R g)) as [|[] k]; [done|eexists..];
      [eapply step_leave_nested|eapply step_leave]; exact HR.
  - apply M in Em as [Hk|[?|?]]; [destruct Hk; by apply P|congruence..].
  - eexists. eapply step_set, HR.
  - eexists. eapply step_unlock; [exact HR|]. unfold mu_Unlock. by rewrite Em.
Qed.

Lemma inv_waiting m R g :
  at_ (R g) = Waiting → mu m = None → ∃ s', step g (mkState m R) s'.
Proof.
  intros Ea Em. eexists. eapply (step_lock _ (deferred (R g))); [by destruct (R g); simpl in *; subst|].
  unfold mu_Lock. by rewrite Em.
Qed.

(** C26: the mutex of the memstore.  However goroutines interleave inside its two functions, at
    most one is inside the store at a time; a goroutine that is inside is never made to wait for
    itself when it calls another method; the depth InTx reads is the number of calls the
    goroutine is in, so it is zero exactly for an outermost transaction; the mutex is never
    unlocked while it is unlocked; a goroutine that waits can take the mutex or whoever has it
    can go on; and once the calls have returned nothing is left behind. *)
Theorem memstore_mutex s :
  rtc some_step initial s →
  (∀ g h, inside s g → inside s h → g = h) ∧
  (∀ g, inside s g → (lock_enter g (mutex s)).2 = Some Nested) ∧
  (∀ g, depth_of g (mutex s) = Z.of_nat (length (deferred (routines s g)))) ∧
  (∀ g, at_ (routines s g) = Leaving → is_Some (mu_Unlock (mutex s))) ∧
  (∀ g, at_ (routines s g) = Waiting →
     ∃ h s', (h = g ∨ has_mutex (routines s h)) ∧ step h s s') ∧
  ((∀ g, routines s g = mkGoroutine Running []) → mutex s = NewMutex).
Proof.
  intros H%reachable_inv. destruct s as [m R]. simpl in *.
  assert (HD : ∀ g, depth_of g m = Z.of_nat (length (deferred (R g)))).
  { intros g. destruct (H g) as [D _ _ _]. unfold depth_of. simpl in D. rewrite D.
    by destruct (deferred (R g)). }
  assert (HM : ∀ g, has_mutex (R g) → mu m = Some g) by (intros g Hg; by apply (or_mutex _ _ _ (H g))).
  split_and!; [| |done| | |].
  - intros g h Hg Hh. assert (Some g = Some h) as [=]; [|done].
    rewrite <-(HM g), <-(HM h); [done|by left..].
  - intros g Hg. unfold lock_enter. rewrite HD. unfold inside in Hg. simpl in Hg.
    destruct (deferred (R g)); [done|]. simpl. by destruct (Z.ltb_spec 0 (Z.of_nat (S (length l)))); [|lia].
  - intros g Hg. unfold mu_Unlock. rewrite (HM g); [by eexists|by right; right].
  - intros g Hg. destruct (mu m) as [h|] eqn:Em.
    + destruct (inv_holder m R h H Em) as [s' Hs]. exists h, s'. split; [|done]. right.
      by apply (or_mutex _ _ _ (H h)).
    + destruct (inv_waiting m R g Hg Em) as [s' Hs]. exists g, s'. split; [by left|done].
  - intros Hall. destruct m as [o d]. unfold NewMutex. f_equal.
    + destruct o as [g|]; [|done]. exfalso. destruct (H g) as [_ _ _ M]. simpl in M.
      rewrite Hall in M. destruct (proj1 M eq_refl) as [?|[?|?]]; done.
    + apply map_eq. intros g. rewrite lookup_empty. destruct (H g) as [D _ _ _]. simpl in D.
      rewrite D. by rewrite Hall.
Qed.

(** ** Witness *)

(** One goroutine in a transaction that calls a method, another one waiting. *)
Section witness.
Definition routines_at (a b : goroutine) : Z → goroutine :=
  <[2 := b]> (<[1 := a]> (λ _, mkGoroutine Running [])).

Lemma memstore_mutex_witness :
  ∃ s, rtc some_step initial s ∧ inside s 1 ∧ at_ (routines s 2) = Waiting ∧
    depth_of 1 (mutex s) = 2 ∧ ¬ inside s 2.
Proof.
  assert (Hrun : ∃ s, rtc some_step initial s ∧ deferred (routines s 1) = [Nested; Outer] ∧
            routines s 2 = mkGoroutine Waiting []).
  { eexists. split; [|split].
    - eapply rtc_l; [exists 1; apply (step_wait 1); [reflexivity|vm_compute; reflexivity]|].
      eapply rtc_l; [exists 1; apply (step_lock 1); [reflexivity|vm_compute; reflexivity]|].
      eapply rtc_l; [exists 1; apply (step_set 1); reflexivity|].
      eapply rtc_l; [exists 1; apply (step_nested 1); [reflexivity|vm_compute; reflexivity]|].
      eapply rtc_l; [exists 2; apply (step_wait 2); [reflexivity|vm_compute; reflexivity]|].
      apply rtc_refl.
    - reflexivity.
    - reflexivity. }
  destruct Hrun as (s & Hs & H1 & H2). exists s.
  destruct (memstore_mutex s Hs) as (_ & _ & HD & _).
  split; [exact Hs|]. split; [unfold inside; rewrite H1; discriminate|].
  split; [rewrite H2; reflexivity|]. split; [rewrite HD, H1; reflexivity|].
  unfold inside. rewrite H2. intros F. by apply F.
Defined.
End witness.
