(* ===== verification/MemSerial.v ===== *)
(** * MemSerial: methods of the memstore are atomic (internal/storage/memstore/memstore.go)

    Every method of the memstore, and the body of a transaction, is a sequence of accesses to
    the tables between [lock()] and the function it returns.  Here goroutines take the steps of
    the mutex (MemMutex.v) and, when they are inside, single accesses; outside they only use
    their own variables.  The theorem is that each such run gives what the calls give when they
    run one after the other, each in one step: the view that Memstore.v has of the store. *)

From S2P Require Import Prelude GoLib Extern Domain Storage Memstore MemMutex.
From stdpp Require Import functions.

Local Open Scope Z_scope.

Section serial.
(** The tables, and the variables of one goroutine. *)
Context {D L : Type}.

(** One access: a read or a write, which may depend on what the goroutine read before. *)
Definition access : Type := D → L → D * L.
(** A step that only uses the variables of the goroutine. *)
Definition own (h : L → L) : access := λ d l, (d, h l).

Fixpoint run_accesses (fs : list access) (d : D) (l : L) : D * L :=
  match fs with
  | [] => (d, l)
  | f :: fs => let '(d, l) := f d l in run_accesses fs d l
  end.

Record memory := mkMemory { tables : D; locals : Z → L }.

(** What goroutine [s.1] did between taking the mutex and giving it back. *)
Definition critical : Type := Z * list access.
Definition run_critical (c : memory) (s : critical) : memory :=
  let '(d, l) := run_accesses s.2 (tables c) (locals c s.1) in
  mkMemory d (<[s.1 := l]> (locals c)).
Definition serial : memory → list critical → memory := foldl run_critical.

(** ** Interleaved goroutines *)

(** The mutex and the memory; what each goroutine that is inside has done there, the sections
    that have ended, and all that each goroutine did. *)
Record system := mkSystem {
  sync : state;
  mem : memory;
  opened : Z → list access;
  history : list critical;
  program : Z → list access;
}.
Definition start (c : memory) : system := mkSystem initial c (λ _, []) [] (λ _, []).

Definition is_inside (s : state) (g : Z) : bool :=
  match deferred (routines s g) with [] => false | _ => true end.

(** The mutex moves: a goroutine that leaves ends its section. *)
Definition moved (g : Z) (s' : state) (S : system) : system :=
  if is_inside (sync S) g && negb (is_inside s' g)
  then mkSystem s' (mem S) (<[g := []]> (opened S)) (history S ++ [(g, opened S g)]) (program S)
  else mkSystem s' (mem S) (opened S) (history S) (program S).

Inductive act : relation system :=
  | act_mutex g s' S : step g (sync S) s' → act S (moved g s' S)
  | act_access g f S : is_inside (sync S) g = true →
      act S (mkSystem (sync S) (run_critical (mem S) (g, [f]))
        (<[g := opened S g ++ [f]]> (opened S)) (history S)
        (<[g := program S g ++ [f]]> (program S)))
  | act_own g h S : is_inside (sync S) g = false →
      act S (mkSystem (sync S) (run_critical (mem S) (g, [own h])) (opened S)
        (history S ++ [(g, [own h])]) (<[g := program S g ++ [own h]]> (program S))).

Lemma act_stays g m R m' R' c op hi pr :
  step g (mkState m R) (mkState m' R') →
  is_inside (mkState m R) g && negb (is_inside (mkState m' R') g) = false →
  act (mkSystem (mkState m R) c op hi pr) (mkSystem (mkState m' R') c op hi pr).
Proof.
  intros Hs Hi. pose proof (act_mutex g _ (mkSystem (mkState m R) c op hi pr) Hs) as Ha.
  unfold moved in Ha. cbn [sync] in Ha. by rewrite Hi in Ha.
Qed.
Lemma act_ends g m R m' R' c op hi pr fs :
  step g (mkState m R) (mkState m' R') →
  is_inside (mkState m R) g && negb (is_inside (mkState m' R') g) = true → op g = fs →
  act (mkSystem (mkState m R) c op hi pr)
    (mkSystem (mkState m' R') c (<[g := []]> op) (hi ++ [(g, fs)]) pr).
Proof.
  intros Hs Hi <-. pose proof (act_mutex g _ (mkSystem (mkState m R) c op hi pr) Hs) as Ha.
  unfold moved in Ha. cbn [sync] in Ha. by rewrite Hi in Ha.
Qed.
Lemma act_does g f m R c op hi pr c' ops prs :
  is_inside (mkState m R) g = true → run_critical c (g, [f]) = c' →
  op g ++ [f] = ops → pr g ++ [f] = prs →
  act (mkSystem (mkState m R) c op hi pr)
    (mkSystem (mkState m R) c' (<[g := ops]> op) hi (<[g := prs]> pr)).
Proof. intros Hi <- <- <-. by apply (act_access g f (mkSystem (mkState m R) c op hi pr)). Qed.

(** ** Equal memories *)

#[export] Instance memory_equiv : Equiv memory := λ c c',
  tables c = tables c' ∧ ∀ g, locals c g = locals c' g.
#[export] Instance memory_equivalence : Equivalence (≡@{memory}).
Proof.
  split.
  - by intros c.
  - intros c c' [H1 H2]. by split.
  - intros c1 c2 c3 [H1 H2] [H3 H4]. split; [congruence|]. intros g. by rewrite H2.
Qed.

#[export] Instance run_critical_proper : Proper ((≡) ==> (=) ==> (≡)) run_critical.
Proof.
  intros c c' [H1 H2] [g fs] _ <-. unfold run_critical. simpl. rewrite H1, H2.
  destruct (run_accesses fs _ _) as [d l]. split; [done|]. intros h. simpl.
  destruct (decide (h = g)) as [->|Hne]; [by rewrite !fn_lookup_insert|].
  by rewrite !fn_lookup_insert_ne by done.
Qed.
#[export] Instance serial_proper : Proper ((≡) ==> (=) ==> (≡)) serial.
Proof.
  intros c c' H h _ <-. revert c c' H. induction h as [|s h IH]; intros c c' H; [done|].
  simpl. apply IH. by rewrite H.
Qed.

Lemma serial_app c h1 h2 : serial c (h1 ++ h2) = serial (serial c h1) h2.
Proof. apply foldl_app. Qed.

Lemma run_accesses_app fs fs' d l :
  run_accesses (fs ++ fs') d l = let '(d', l') := run_accesses fs d l in run_accesses fs' d' l'.
Proof.
  revert d l. induction fs as [|f fs IH]; intros d l; [done|]. simpl.
  destruct (f d l) as [d1 l1]. apply IH.
Qed.

Lemma run_critical_nil c g : run_critical c (g, []) ≡ c.
Proof.
  unfold run_critical. simpl. split; [done|]. intros h. simpl.
  destruct (decide (h = g)) as [->|Hne]; [by rewrite fn_lookup_insert|].
  by rewrite fn_lookup_insert_ne by done.
Qed.

Lemma run_critical_app c g fs fs' :
  run_critical c (g, fs ++ fs') ≡ run_critical (run_critical c (g, fs)) (g, fs').
Proof.
  unfold run_critical. simpl. rewrite run_accesses_app.
  destruct (run_accesses fs _ _) as [d l]. simpl. rewrite fn_lookup_insert.
  destruct (run_accesses fs' d l) as [d' l']. split; [done|]. intros h. simpl.
  destruct (decide (h = g)) as [->|Hne]; [by rewrite !fn_lookup_insert|].
  by rewrite !fn_lookup_insert_ne by done.
Qed.

(** A step of [g] on its own variables can be taken before what another goroutine does. *)
Lemma own_commutes c g h k fs :
  h ≠ g →
  run_critical (run_critical c (h, fs)) (g, [own k]) ≡
  run_critical (run_critical c (g, [own k])) (h, fs).
Proof.
  intros Hne. unfold run_critical. simpl. rewrite (fn_lookup_insert_ne _ g h) by done.
  destruct (run_accesses fs _ _) as [d l]. simpl. rewrite fn_lookup_insert_ne by done.
  split; [done|]. intros i. simpl.
  destruct (decide (i = g)) as [->|Hg]; [|destruct (decide (i = h)) as [->|Hh]];
    rewrite ?fn_lookup_insert, ?fn_lookup_insert_ne, ?fn_lookup_insert by done; done.
Qed.

(** ** The run and its serial version *)

Lemma is_inside_true s g : is_inside s g = true ↔ inside s g.
Proof. unfold is_inside, inside. by destruct (deferred _). Qed.

Lemma step_others g h s s' : step g s s' → h ≠ g → routines s' h = routines s h.
Proof. by destruct 1; intros Hne; simpl; rewrite fn_lookup_insert_ne by done. Qed.

Lemma inside_others g h s s' : step g s s' → h ≠ g → is_inside s' h = is_inside s h.
Proof. intros Hs Hne. unfold is_inside. by rewrite (step_others g h s s'). Qed.

Lemma inside_exclusive s g h : inv s → is_inside s g = true → is_inside s h = true → g = h.
Proof.
  intros H Hg%is_inside_true Hh%is_inside_true.
  pose proof (proj2 (or_mutex _ _ _ (H g)) (or_introl Hg)) as E.
  pose proof (proj2 (or_mutex _ _ _ (H h)) (or_introl Hh)) as E'. congruence.
Qed.

(** At most [g] is inside. *)
Definition alone (s : state) (g : Z) : Prop := ∀ h, is_inside s h = true → h = g.

Definition sections_of (g : Z) (h : list critical) : list access :=
  concat (map snd (List.filter (λ s, s.1 =? g) h)).

Lemma sections_of_app g h1 h2 : sections_of g (h1 ++ h2) = sections_of g h1 ++ sections_of g h2.
Proof. unfold sections_of. by rewrite List.filter_app, map_app, concat_app. Qed.
Lemma sections_of_own g fs : sections_of g [(g, fs)] = fs.
Proof. unfold sections_of. simpl. rewrite Z.eqb_refl. apply app_nil_r. Qed.
Lemma sections_of_other g h fs : h ≠ g → sections_of g [(h, fs)] = [].
Proof. intros Hne. unfold sections_of. simpl. by rewrite (proj2 (Z.eqb_neq h g)). Qed.

(** The memory is that of the sections that have ended, followed by the one that is open. *)
Record serialized (c : memory) (S : system) : Prop := {
  sz_inv : inv (sync S);
  sz_outside : ∀ g, is_inside (sync S) g = false → opened S g = [];
  sz_memory : ∀ g, alone (sync S) g → mem S ≡ serial c (history S ++ [(g, opened S g)]);
  sz_program : ∀ g, program S g = sections_of g (history S) ++ opened S g;
}.

Lemma start_serialized c : serialized c (start c).
Proof.
  split; [apply initial_inv|done| |done]. intros g _. simpl. by rewrite run_critical_nil.
Qed.

Lemma access_serialized c S g f :
  serialized c S → is_inside (sync S) g = true →
  serialized c (mkSystem (sync S) (run_critical (mem S) (g, [f]))
    (<[g := opened S g ++ [f]]> (opened S)) (history S)
    (<[g := program S g ++ [f]]> (program S))).
Proof.
  intros [I O M P] Hg. split; simpl; [done|..].
  - intros h Hh. rewrite fn_lookup_insert_ne; [by apply O|]. intros ->. congruence.
  - intros h Hh. rewrite <-(Hh g Hg), fn_lookup_insert.
    rewrite (M g) by (intros i Hi; by apply (inside_exclusive (sync S))).
    rewrite !serial_app. simpl. by rewrite run_critical_app.
  - intros h. destruct (decide (h = g)) as [->|Hne].
    + by rewrite !fn_lookup_insert, P, app_assoc.
    + by rewrite !fn_lookup_insert_ne.
Qed.

Lemma own_serialized c S g k :
  serialized c S → is_inside (sync S) g = false →
  serialized c (mkSystem (sync S) (run_critical (mem S) (g, [own k])) (opened S)
    (history S ++ [(g, [own k])]) (<[g := program S g ++ [own k]]> (program S))).
Proof.
  intros [I O M P] Hg. split; simpl; [done|done|..].
  - intros h Hh. rewrite (M h) by done. rewrite !serial_app. simpl.
    destruct (decide (h = g)) as [->|Hne]; [|by apply own_commutes].
    by rewrite (O g Hg), !run_critical_nil.
  - intros h. rewrite sections_of_app. destruct (decide (h = g)) as [->|Hne].
    + by rewrite fn_lookup_insert, sections_of_own, P, (O g Hg), !app_nil_r.
    + by rewrite fn_lookup_insert_ne, sections_of_other, app_nil_r by done.
Qed.

Lemma moved_serialized c S g s' :
  serialized c S → step g (sync S) s' → serialized c (moved g s' S).
Proof.
  intros [I O M P] Hs. pose proof (step_inv _ _ _ I Hs) as I'. unfold moved.
  destruct (is_inside (sync S) g) eqn:Hin; [destruct (is_inside s' g) eqn:Hout|]; simpl.
  - split; simpl; [done| |intros h Hh; apply M|done].
    + intros h Hh. apply O. rewrite <-(inside_others g h (sync S) s'); [done..|]. congruence.
    + intros i Hi. rewrite <-(Hh g Hout). by apply (inside_exclusive (sync S)).
  - (* the section ends *)
    assert (Ho : ∀ h, h ≠ g → opened S h = []).
    { intros h Hne. apply O. destruct (is_inside (sync S) h) eqn:Hh; [|done].
      destruct Hne. by apply (inside_exclusive (sync S)). }
    split; simpl; [done|..].
    + intros h _. destruct (decide (h = g)) as [->|Hne]; [by rewrite fn_lookup_insert|].
      by rewrite fn_lookup_insert_ne, Ho.
    + intros h _. rewrite (M g) by (intros i Hi; by apply (inside_exclusive (sync S))).
      destruct (decide (h = g)) as [->|Hne].
      * rewrite fn_lookup_insert, (serial_app c _ [(g, [])]). symmetry. apply run_critical_nil.
      * rewrite fn_lookup_insert_ne, (Ho h) by done.
        rewrite (serial_app c _ [(h, [])]). symmetry. apply run_critical_nil.
    + intros h. rewrite sections_of_app. destruct (decide (h = g)) as [->|Hne].
      * by rewrite fn_lookup_insert, sections_of_own, app_nil_r, P.
      * by rewrite fn_lookup_insert_ne, sections_of_other, app_nil_r, P by done.
  - (* [g] was outside *)
    assert (Hmono : ∀ h, is_inside (sync S) h = true → is_inside s' h = true).
    { intros h Hh. rewrite (inside_others g h (sync S) s'); [done..|]. congruence. }
    split; simpl; [done| |intros h Hh; apply M; intros i Hi; by apply Hh, Hmono|done].
    intros h Hh. apply O. destruct (is_inside (sync S) h) eqn:E; [|done]. by rewrite Hmono in Hh.
Qed.

Lemma act_serialized c S S' : serialized c S → act S S' → serialized c S'.
Proof.
  destruct 2; auto using access_serialized, own_serialized, moved_serialized.
Qed.

Lemma run_serialized c S : rtc act (start c) S → serialized c S.
Proof.
  intros H. pose proof (start_serialized c) as H0. revert H0.
  induction H as [|S1 S2 S3 Ha _ IH]; eauto using act_serialized.
Qed.

(** ** Whole methods *)

(** A method of the store as one access; [keep] is what the caller does with the result. *)
Definition call {X} (m : GoM D X) (keep : res X → L → L) : access :=
  λ d l, let '(r, d') := m d in (d', keep r l).

(** The accesses of a section do together what [f] does at once. *)
Definition implements (fs : list access) (f : access) : Prop :=
  ∀ d l, run_accesses fs d l = f d l.

(** A goroutine runs a method in one step, or uses its own variables. *)
Inductive atomic (methods : access → Prop) : relation memory :=
  | atomic_call g f c : methods f → atomic methods c (run_critical c (g, [f]))
  | atomic_own g h c : atomic methods c (run_critical c (g, [own h])).

Definition whole (methods : access → Prop) (s : critical) : Prop :=
  (∃ h, s.2 = [own h]) ∨ ∃ f, methods f ∧ implements s.2 f.

Lemma run_whole methods c s : whole methods s → atomic methods c (run_critical c s).
Proof.
  destruct s as [g fs]. intros [[h E]|(f & Hf & E)]; simpl in E.
  - rewrite E. apply atomic_own.
  - replace (run_critical c (g, fs)) with (run_critical c (g, [f])); [by constructor|].
    unfold run_critical. simpl. rewrite E. by destruct (f _ _).
Qed.

Lemma serial_atomic methods c h :
  (∀ s, s ∈ h → whole methods s) → rtc (atomic methods) c (serial c h).
Proof.
  revert c. induction h as [|s h IH]; intros c H; simpl; [done|].
  eapply rtc_l; [apply run_whole, H; by left|]. apply IH. intros s' Hs'. apply H. by right.
Qed.

(** C32: the methods of the memstore are atomic.  However goroutines interleave inside the
    mutex, between the accesses of the methods and of transactions, and on their own variables,
    the tables and the variables of every goroutine are what the sections give when they run
    one after the other in the order in which they ended, with the open one, if there is one,
    last; no access is lost and each goroutine's are in its own order.  So when every section
    that has ended is a whole method, and nobody is inside, the memory is reached by calls that
    are single steps. *)
Theorem methods_serialize c S (methods : access → Prop) :
  rtc act (start c) S →
  (∀ g, inside (sync S) g → mem S ≡ serial c (history S ++ [(g, opened S g)])) ∧
  ((∀ g, ¬ inside (sync S) g) → mem S ≡ serial c (history S)) ∧
  (∀ g, program S g = sections_of g (history S) ++ opened S g) ∧
  ((∀ s, s ∈ history S → whole methods s) → (∀ g, ¬ inside (sync S) g) →
   ∃ c', rtc (atomic methods) c c' ∧ c' ≡ mem S).
Proof.
  intros H%run_serialized. destruct H as [I O M P].
  assert (Hout : (∀ g, ¬ inside (sync S) g) → mem S ≡ serial c (history S)).
  { intros Hn. rewrite (M 0) by (intros h Hh%is_inside_true; by destruct (Hn h)).
    rewrite O by (apply not_true_is_false; rewrite is_inside_true; apply Hn).
    rewrite serial_app. simpl. by rewrite run_critical_nil. }
  split_and!; [|done|done|].
  - intros g Hg. apply M. intros h Hh. apply (inside_exclusive (sync S)); [done..|].
    by apply is_inside_true.
  - intros Hw Hn. exists (serial c (history S)). split; [by apply serial_atomic|].
    by rewrite Hout.
Qed.
End serial.

(** ** Transactions are sections too

    The variables of InTx: the depth it read, its snapshot, and what its body returned. *)

Record tx_vars := mkTxVars { tx_depth : nat; tx_snap : MemStore; tx_err : res unit }.

Section transactions.
Definition tx_begin : access := λ (w : World) (l : tx_vars),
  (set_depth (S (w_depth w)) w, mkTxVars (w_depth w) (Mem.snapshot w) (tx_err l)).
(** After the body: an outermost transaction that failed puts the snapshot back. *)
Definition tx_end : access := λ (w : World) (l : tx_vars),
  let w := match tx_depth l, tx_err l with
           | O, Err _ => (Mem.restore (tx_snap l) w).2
           | _, _ => w
           end in
  (set_depth (tx_depth l) w, mkTxVars 0 NewMemStore (tx_err l)).

(** When the accesses of the body, those of the methods it calls included, do what [fn] does,
    the section from the snapshot to the return does what InTx does at once. *)
Lemma transaction_whole fn fs :
  implements fs (call fn (λ r l, mkTxVars (tx_depth l) (tx_snap l) r)) →
  implements (tx_begin :: fs ++ [tx_end])
    (call (Mem.InTx fn) (λ r _, mkTxVars 0 NewMemStore r)).
Proof.
  intros Hb w l. simpl. rewrite run_accesses_app, Hb. unfold call, Mem.InTx, finally, try, modify.
  go_cbv. cbn [tx_depth tx_snap]. destruct (w_depth w) as [|n] eqn:E.
  - rewrite bool_decide_false by lia. go_cbv.
    destruct (fn _) as [[[]|e] w1]; unfold tx_end; done.
  - rewrite bool_decide_true by lia. by destruct (fn _) as [[[]|e] w1].
Qed.
End transactions.

(** ** Witness: two goroutines reserve the same pending nonce *)

Section witness.
#[local] Instance serial_rt : GoRuntime := simple_runtime 1.
#[local] Existing Instance simple_uuid.

(** The row a goroutine has read, and the nonce it was given. *)
Record vars := mkVars { row_read : option Nonce; given : option Z }.

(** IncrementPendingNonce in two accesses: the look-up, and the update of the row. *)
Definition read_nonce : access := λ (w : World) (l : vars),
  (w, mkVars (nonces (w_store w) !! Mem.nonceKey 7 "ethereum") (given l)).
Definition update_row (n : Nonce) : GoM World unit :=
  now ← time_Now;
  put_st (set_nonces (insert (Mem.nonceKey 7 "ethereum")
    (Nonce_with (wrap64 (Nonce_PendingNonce n + 1)) (Nonce_BroadcastNonce n)
       (wrap64 (Nonce_Version n + 1)) now n))).
Definition write_nonce : access := λ (w : World) (l : vars),
  let n := default (Mem.zero_nonce 7 "ethereum") (row_read l) in
  ((update_row n w).2, mkVars None (Some (Nonce_PendingNonce n))).
Definition increment : access :=
  call (Mem.IncrementPendingNonce 7 "ethereum")
    (λ r _, mkVars None (match r with Ok (val, _) => Some val | Err _ => None end)).

Lemma increment_accesses : implements [read_nonce; write_nonce] increment.
Proof. intros w l. reflexivity. Defined.

Definition nobody : memory := mkMemory NewWorld (λ _, mkVars None None).

(** The first goroutine has read the row when the second one asks for the mutex. *)
Ltac acts tac := eapply rtc_l; [tac|].
Ltac stays g st := acts ltac:(eapply (act_stays g);
  [apply st; first [reflexivity|vm_compute; reflexivity]|reflexivity]).
Ltac does g f := acts ltac:(eapply (act_does g f); reflexivity).
Ltac ends g := acts ltac:(eapply (act_ends g); [apply step_leave|..]; reflexivity).

Lemma two_increments :
  ∃ S1 S2, rtc act (start nobody) S1 ∧ rtc act S1 S2 ∧
    opened S1 1 = [read_nonce] ∧ at_ (routines (sync S1) 2) = Waiting ∧
    history S2 = [(1, [read_nonce; write_nonce]); (2, [read_nonce; write_nonce])] ∧
    ∀ g, is_inside (sync S2) g = false.
Proof.
  eexists _, _. split.
  { unfold start, initial. stays 1 step_wait. stays 1 step_lock. stays 1 step_set.
    does 1 read_nonce. stays 2 step_wait. apply rtc_refl. }
  split.
  { does 1 write_nonce. ends 1. stays 1 step_unlock. stays 2 step_lock. stays 2 step_set.
    does 2 read_nonce. does 2 write_nonce. ends 2. stays 2 step_unlock. apply rtc_refl. }
  split; [reflexivity|]. split; [reflexivity|]. split; [reflexivity|].
  intros g. unfold is_inside. simpl. destruct (decide (g = 2)) as [->|H2]; [reflexivity|].
  destruct (decide (g = 1)) as [->|H1]; [reflexivity|]. by rewrite !fn_lookup_insert_ne.
Defined.

(** Both increments take effect, as two calls of the method: no update is lost. *)
Lemma methods_serialize_witness :
  ∃ S c', rtc act (start nobody) S ∧ rtc (atomic (λ f, f = increment)) nobody c' ∧
    c' ≡ mem S ∧ given (locals (mem S) 1) = Some 0 ∧ given (locals (mem S) 2) = Some 1 ∧
    Nonce_PendingNonce <$> nonces (w_store (tables (mem S))) !! Mem.nonceKey 7 "ethereum" = Some 2.
Proof.
  destruct two_increments as (S1 & S & Hr1 & Hr2 & _ & _ & HH & Hn).
  assert (Hrun : rtc act (start nobody) S) by (etrans; eassumption).
  assert (Hn' : ∀ g, ¬ inside (sync S) g) by (intros g Hg%is_inside_true; congruence).
  destruct (methods_serialize nobody S (λ f, f = increment) Hrun) as (_ & Hs & _ & Ha).
  destruct Ha as (c' & Hc & Ec); [|exact Hn'|].
  { rewrite HH. intros s Hin. right. exists increment. split; [reflexivity|].
    apply list_elem_of_In in Hin as [<-|[<-|[]]]; exact increment_accesses. }
  exists S, c'. split; [exact Hrun|]. split; [exact Hc|]. split; [exact Ec|].
  specialize (Hs Hn'). rewrite HH in Hs. destruct Hs as [Ht Hl].
  rewrite !Hl, Ht. split_and!; vm_compute; reflexivity.
Defined.
End witness.
