(* ===== verification/Lock.v ===== *)
(** * Lock: named locks (internal/lock/lock.go)

    The interface [Locker] the services use, the process-local [MemLocker], and its contract:
    [lock_held] is exclusive and only the token's owner releases it. *)

From S2P Require Import Prelude GoLib Extern Domain Storage Memstore MemstoreFacts.

Class Locker (W : Type) := {
  (** [(token, ok)]; the time to live is in nanoseconds. *)
  Acquire : string → Z → GoM W (string * bool);
  Release : string → string → GoM W unit;
}.

Module MemLocker.
Section memlocker.
Context {GR : GoRuntime} {UL : UuidLib}.

(** The process-local locker ignores the time to live. *)
Definition Acquire (name : string) (ttl : Z) : GoM World (string * bool) :=
  locks ← gets w_locks;
  match locks !! name with
  | Some _ => mret (EmptyString, false)
  | None =>
      u ← uuid_New;
      let token := uuid_String u in
      modify (λ w, set_locks (<[name := token]> (w_locks w)) w);;
      mret (token, true)
  end.

Definition Release (name token : string) : GoM World unit :=
  locks ← gets w_locks;
  match locks !! name with
  | Some cur =>
      if bool_decide (cur = token) then modify (λ w, set_locks (delete name (w_locks w)) w)
      else mret ()
  | None => mret ()
  end.
End memlocker.
End MemLocker.

#[export] Instance mem_locker `{!GoRuntime, !UuidLib} : Locker World := {|
  Acquire := MemLocker.Acquire;
  Release := MemLocker.Release;
|}.

Definition lock_held (name : string) (w : World) : Prop := is_Some (w_locks w !! name).

Section facts.
Context {GR : GoRuntime} {UL : UuidLib}.

Lemma storeless_Acquire name ttl : storeless (Acquire name ttl).
Proof. intros w. unfold Acquire, mem_locker, MemLocker.Acquire. by go_eval. Qed.
Lemma storeless_Release name token : storeless (Release name token).
Proof. intros w. unfold Release, mem_locker, MemLocker.Release. by go_eval. Qed.

(** Acquiring a free name. *)
Lemma Acquire_free name ttl w :
  w_locks w !! name = None →
  Acquire name ttl w =
    (Ok (uuid_String (uuid_at (w_ids w)), true),
     set_locks (<[name := uuid_String (uuid_at (w_ids w))]> (w_locks w)) (next_id w)).
Proof. intros H. unfold Acquire, mem_locker, MemLocker.Acquire. go_cbv. by rewrite H. Qed.

Lemma Acquire_taken name ttl w :
  lock_held name w → Acquire name ttl w = (Ok (EmptyString, false), w).
Proof. intros [t H]. unfold Acquire, mem_locker, MemLocker.Acquire. go_cbv. by rewrite H. Qed.

Lemma Release_own name token w :
  w_locks w !! name = Some token →
  Release name token w = (Ok (), set_locks (delete name (w_locks w)) w).
Proof.
  intros H. unfold Release, mem_locker, MemLocker.Release. go_cbv. rewrite H.
  by rewrite bool_decide_eq_true_2.
Qed.

Lemma Release_foreign name token w :
  w_locks w !! name ≠ Some token → Release name token w = (Ok (), w).
Proof.
  intros H. unfold Release, mem_locker, MemLocker.Release. go_cbv.
  destruct (w_locks w !! name) as [cur|]; [|done].
  rewrite bool_decide_eq_false_2; [done|]. congruence.
Qed.
End facts.

#[export] Hint Resolve storeless_Acquire storeless_Release : gorel.
