(* ===== verification/Outbox.v ===== *)
(** * Outbox: the outbox emitter (internal/audit/audit.go)

    [Emit] appends a row to the outbox with the wallet's next sequence number; [Drain] hands
    the undelivered rows to the sink and marks them.  The sink is an argument; KafkaSink is in
    Envelope.v. *)

From S2P Require Import Prelude GoLib Extern Domain Storage Memstore MemstoreFacts.
From stdpp Require Import sorting.

Record Event := mkEvent {
  EventType : string;
  Event_WalletID : option UUID;
  Event_Payload : list (string * any);
}.

(** The [audit.Emitter] interface; a nil emitter is [None]. *)
Definition Emitter (W : Type) : Type := option (Event → GoM W unit).

(** [if s.Audit != nil { _ = s.Audit.Emit(ctx, e) }]. *)
Definition emit {W} (em : Emitter W) (e : Event) : GoM W unit :=
  match em with
  | Some f => ignore (f e)
  | None => mret ()
  end.

Definition NoopEmitter {W} : Emitter W := Some (λ _, mret ()).

Section emitter.
Context {W : Type} {ST : Store W} {EF : Effects W}.

Definition Emit (ev : Event) : GoM W unit :=
  seq ← match Event_WalletID ev with
        | Some wID => wrap "next audit seq: %w" [] (NextAuditSeq wID)
        | None => t ← time_Now; mret (UnixNano t)
        end;
  rowID ← uuid_New;
  eventID ← uuid_New;
  now ← time_Now;
  AppendAuditEvent
    (mkAuditEvent rowID eventID (Event_WalletID ev) (EventType ev) (Event_Payload ev) seq
       false 0 now None).

Definition EmitterService : Emitter W := Some Emit.

(** The [audit.Sink] interface; a nil sink is [None]. *)
Definition Sink : Type := option (list AuditOutboxEvent → GoM W unit).

(** Without a sink the events are marked without being sent. *)
Definition Drain (sink : Sink) : GoM W unit :=
  events ← ListUndeliveredAuditEvents 100;
  match events with
  | [] => mret ()
  | _ =>
      match sink with Some Deliver => Deliver events | None => mret () end;;
      for_each (λ ev, MarkAuditDelivered (AE_ID ev)) events
  end.

(** What the background drainer receives: a tick, or the end ([ctx.Done] or [stopCh]).  The
    errors of its drains are dropped. *)
Inductive signal := Tick | End_.
Fixpoint Start (sink : Sink) (signals : list signal) : GoM W unit :=
  match signals with
  | [] => mret ()
  | Tick :: signals => ignore (Drain sink);; Start sink signals
  | End_ :: _ => mret ()
  end.

(** [ChannelSink]: one send per event. *)
Definition ChannelSink_Deliver (send : AuditOutboxEvent → GoM W unit)
    (events : list AuditOutboxEvent) : GoM W unit := for_each send events.
End emitter.
Arguments Sink W : clear implicits.

(** [Stop]: the flag, and how often the channel has been closed; closing it twice panics. *)
Record Stopper := mkStopper { stopped : bool; stopCh_closed : nat }.
Definition NewStopper : Stopper := mkStopper false 0.
Definition Stop (s : Stopper) : Stopper :=
  if stopped s then s else mkStopper true (S (stopCh_closed s)).

(** However often Stop is called the channel is closed once. *)
Lemma Stop_once n : Nat.iter (S n) Stop NewStopper = mkStopper true 1.
Proof. induction n as [|n IH]; [done|]. rewrite Nat.iter_succ. by rewrite IH. Qed.

(** ** Emitting never disturbs the rest of the process

    [audit_frame] is what a service may rely on around an emission: only the outbox changes
    in the store, and the locks, the cache and the transaction depth stay. *)

Definition audit_frame (w w' : World) : Prop :=
  only GAudit (w_store w) (w_store w') ∧
  w_locks w' = w_locks w ∧ w_cache w' = w_cache w ∧ w_depth w' = w_depth w.

#[export] Instance audit_frame_preorder : PreOrder audit_frame.
Proof.
  split.
  - intros w. split; [reflexivity|done].
  - intros w1 w2 w3 (Ha & ? & ? & ?) (Hb & ? & ? & ?).
    split; [by etrans|]. split; [congruence|]. split; congruence.
Qed.

Class AuditEmitter (em : Emitter World) : Prop :=
  emit_frame : ∀ ev, respects audit_frame (emit em ev).

(** The call itself never fails: its error is dropped. *)
Lemma emit_run (em : Emitter World) ev w : ∃ w', emit em ev w = (Ok (), w').
Proof. destruct em as [f|]; simpl; unfold ignore; [destruct (f ev w)|]; eauto. Qed.

(** One successful emission, as its caller sees it. *)
Lemma emit_step (em : Emitter World) `{!AuditEmitter em} ev w :
  ∃ w', emit em ev w = (Ok (), w') ∧ audit_frame w w'.
Proof.
  destruct (emit_run em ev w) as [w' E]. exists w'. split; [done|].
  pose proof (emit_frame ev w) as H. by rewrite E in H.
Qed.

Lemma emit_writes (em : Emitter World) `{!AuditEmitter em} ev : respects (writes GAudit) (emit em ev).
Proof. exact (emit_frame ev). Qed.

Lemma respects_emit (em : Emitter World) `{!AuditEmitter em} k Q `{!Reads k Q} ev :
  k ≠ GAudit → respects (on_store Q) (emit em ev).
Proof.
  intros Hk w. destruct (emit_frame ev w) as [H _]. exact (reads_same (k:=k) _ _ (H k Hk)).
Qed.

#[export] Instance none_emitter : AuditEmitter None.
Proof. intros ev w. simpl. reflexivity. Qed.
#[export] Instance noop_emitter : AuditEmitter NoopEmitter.
Proof. intros ev w. simpl. reflexivity. Qed.

Section mem.
Context {GR : GoRuntime} {UL : UuidLib}.

Lemma Emit_frame ev : respects audit_frame (Emit ev).
Proof.
  intros w. unfold Emit.
  unfold AppendAuditEvent, NextAuditSeq, memstore, Mem.AppendAuditEvent, Mem.NextAuditSeq,
    get_st, put_st, Mem.created_or_now.
  destruct (Event_WalletID ev); mem_eval; (split; [|done]); intros [] Hk; simpl; auto; congruence.
Qed.

#[export] Instance service_emitter : AuditEmitter EmitterService.
Proof.
  intros ev w. pose proof (Emit_frame ev w) as H. unfold emit, EmitterService, ignore.
  by destruct (Emit ev w).
Qed.
End mem.

#[export] Hint Resolve emit_writes : gorel.

(** ** Draining the outbox of the memstore *)

Section drain.
Context {GR : GoRuntime} {UL : UuidLib}.

Definition undelivered (st : MemStore) : list AuditOutboxEvent :=
  List.filter (λ e, negb (AE_Delivered e)) (auditOutbox st).
(** Every row has an id of its own. *)
Definition outbox_keyed (st : MemStore) : Prop := NoDup (AE_ID <$> auditOutbox st).

Lemma mark_first_split id now l e :
  NoDup (AE_ID <$> l) → e ∈ l → AE_ID e = id →
  ∃ l1 l2, l = l1 ++ e :: l2 ∧ Mem.mark_first id now l = Some (l1 ++ AE_delivered now e :: l2).
Proof.
  induction l as [|x l IH]; [by intros _ ?%elem_of_nil|].
  rewrite fmap_cons. intros [Hx Hnd]%list.NoDup_cons He Hid. cbn [Mem.mark_first].
  apply elem_of_cons in He as [<-|He].
  - rewrite bool_decide_eq_true_2 by done. by exists [], l.
  - rewrite bool_decide_eq_false_2.
    + destruct (IH Hnd He Hid) as (l1 & l2 & -> & ->). by exists (x :: l1), l2.
    + intros E. apply Hx. rewrite E, <-Hid. by apply list_elem_of_fmap_2.
Qed.

(** Marking one undelivered row. *)
Lemma MarkAuditDelivered_run e w :
  outbox_keyed (w_store w) → e ∈ undelivered (w_store w) →
  ∃ w', MarkAuditDelivered (AE_ID e) w = (Ok (), w') ∧ outbox_keyed (w_store w') ∧
    e :: undelivered (w_store w') ≡ₚ undelivered (w_store w).
Proof.
  unfold outbox_keyed, undelivered. intros Hk He.
  apply list_elem_of_In, filter_In in He as [He Hd]. apply list_elem_of_In in He.
  unfold MarkAuditDelivered, memstore, Mem.MarkAuditDelivered. mem_cbv.
  assert (existsb (λ x, bool_decide (AE_ID x = AE_ID e)) (auditOutbox (w_store w)) = true) as ->.
  { apply existsb_exists. exists e. rewrite <-list_elem_of_In. by rewrite bool_decide_eq_true_2. }
  mem_cbv. eexists. split; [reflexivity|]. simpl.
  destruct (mark_first_split (AE_ID e) (time_at (w_clock w)) _ e Hk He eq_refl)
    as (l1 & l2 & El & ->). simpl. rewrite El in Hk |- *. split.
  - by rewrite fmap_app, fmap_cons in Hk |- *.
  - rewrite !List.filter_app. simpl. rewrite Hd. by rewrite Permutation_middle.
Qed.

Lemma mark_all batch rest w :
  outbox_keyed (w_store w) → undelivered (w_store w) ≡ₚ batch ++ rest →
  ∃ w', for_each (λ ev, MarkAuditDelivered (AE_ID ev)) batch w = (Ok (), w') ∧
    outbox_keyed (w_store w') ∧ undelivered (w_store w') ≡ₚ rest.
Proof.
  revert w. induction batch as [|e batch IH]; intros w Hk Hp; [by exists w|].
  destruct (MarkAuditDelivered_run e w Hk) as (w1 & E & Hk1 & Hp1); [rewrite Hp; by left|].
  destruct (IH w1 Hk1) as (w2 & E2 & Hk2 & Hp2).
  - apply (Permutation_cons_inv (a:=e)). by rewrite Hp1, Hp.
  - exists w2. cbn [for_each]. by rewrite (bind_Ok _ _ _ _ _ E).
Qed.

(** A delivery takes the outbox as it is. *)
Definition quiet_sink (sink : Sink World) : Prop :=
  ∀ f es w, sink = Some f → auditOutbox (w_store (f es w).2) = auditOutbox (w_store w).

(** The rows one drain picks: the hundred oldest ones, by sequence number. *)
Lemma oldest_run w :
  ∃ batch rest, ListUndeliveredAuditEvents 100 w = (Ok batch, w) ∧
    undelivered (w_store w) ≡ₚ batch ++ rest ∧
    length batch = (length (undelivered (w_store w)) `min` 100)%nat ∧
    (∀ e f, e ∈ batch → f ∈ rest → AE_Seq e ≤ AE_Seq f)%Z.
Proof.
  set (out := sort_Slice (λ a b, AE_Seq a <? AE_Seq b)%Z (undelivered (w_store w))).
  assert (Hp : out ≡ₚ undelivered (w_store w)) by apply sort_Slice_perm.
  exists (take 100 out), (drop 100 out). split_and!.
  - unfold ListUndeliveredAuditEvents, memstore, Mem.ListUndeliveredAuditEvents. mem_cbv.
    fold (undelivered (w_store w)). fold out. cbn [Z.ltb Z.compare andb].
    destruct (Z.ltb_spec 100 (Z.of_nat (length out))); [done|]. rewrite take_ge by lia. done.
  - by rewrite take_drop, Hp.
  - by rewrite length_take, Hp, Nat.min_comm.
  - intros e f He Hf. assert (Hs : StronglySorted (λ a b, (AE_Seq b <? AE_Seq a)%Z = false) out)
      by (apply sort_Slice_sorted, strict_weak_ltb).
    rewrite <-(take_drop 100 out) in Hs. apply Z.ltb_ge.
    eapply StronglySorted_app_1_elem_of in Hs; [exact Hs|done|done].
Qed.

(** One drain: the oldest rows go to the sink; when it takes them they are marked, otherwise
    the error is returned and the rows stay. *)
Lemma Drain_run sink w :
  outbox_keyed (w_store w) → quiet_sink sink →
  ∃ batch rest, undelivered (w_store w) ≡ₚ batch ++ rest ∧
    length batch = (length (undelivered (w_store w)) `min` 100)%nat ∧
    (∀ e f, e ∈ batch → f ∈ rest → AE_Seq e ≤ AE_Seq f)%Z ∧
    match batch with
    | [] => Drain sink w = (Ok (), w)
    | _ =>
        match (match sink with Some Deliver => Deliver batch w | None => (Ok (), w) end) with
        | (Err err, w1) => Drain sink w = (Err err, w1)
        | _ => ∃ w', Drain sink w = (Ok (), w') ∧ outbox_keyed (w_store w') ∧
                    undelivered (w_store w') ≡ₚ rest
        end
    end.
Proof.
  intros Hk Hq. destruct (oldest_run w) as (batch & rest & HL & Hp & Hlen & Hs).
  exists batch, rest. split_and!; [done..|].
  unfold Drain. rewrite (bind_Ok _ _ _ _ _ HL). destruct batch as [|e batch]; [done|].
  destruct sink as [Deliver|].
  - specialize (Hq Deliver (e :: batch) w eq_refl).
    destruct (Deliver (e :: batch) w) as [[[]|err] w1] eqn:E;
      [|by rewrite (bind_Err _ _ _ _ _ E)].
    rewrite (bind_Ok _ _ _ _ _ E). simpl in Hq. apply (mark_all _ rest w1); unfold outbox_keyed, undelivered; by rewrite Hq.
  - rewrite (bind_Ok _ _ _ () w) by done. by apply mark_all.
Qed.

(** The ticker's drains, one after the other. *)
Definition drains sink (n : nat) (w : World) : World := Nat.iter n (λ w, (Drain sink w).2) w.

Lemma Start_ticks sink n rest w :
  Start sink (replicate n Tick ++ rest) w = Start sink rest (drains sink n w).
Proof.
  revert w. induction n as [|n IH]; intros w; [done|]. cbn [replicate app Start].
  unfold drains. rewrite Nat.iter_succ_r. fold (drains sink n (Drain sink w).2). rewrite <-IH.
  unfold mbind, GoM_bind, ignore. by destruct (Drain sink w).
Qed.

(** C33: the outbox empties.  With a sink that takes what it is given (or none), as many ticks
    as there are hundreds of undelivered rows, rounded up, deliver them all; a sink that refuses
    keeps every row undelivered for as long as it does; and a row only leaves the undelivered
    ones after the sink has taken a batch it was in (at least once). *)
Theorem outbox_drains sink w n :
  outbox_keyed (w_store w) → quiet_sink sink →
  (length (undelivered (w_store w)) ≤ 100 * n)%nat →
  ((∀ f es w, sink = Some f → (f es w).1 = Ok ()) →
   undelivered (w_store (Start sink (replicate n Tick ++ [End_]) w).2) = []) ∧
  ((∀ es w, ∃ f err, sink = Some f ∧ (f es w).1 = Err err) →
   ∀ k, auditOutbox (w_store (Start sink (replicate k Tick ++ [End_]) w).2) =
        auditOutbox (w_store w)) ∧
  (∀ f e, sink = Some f → e ∈ undelivered (w_store w) →
   e ∉ undelivered (w_store (Drain sink w).2) → ∃ es, e ∈ es ∧ (f es w).1 = Ok ()).
Proof.
  intros Hk Hq Hn. split; [|split].
  - intros Hs. rewrite Start_ticks. cbn [Start snd mret GoM_ret].
    revert w Hk Hn. induction n as [|n IH]; intros w Hk Hn.
    { apply nil_length_inv. unfold drains. simpl. lia. }
    unfold drains. rewrite Nat.iter_succ_r. fold (drains sink n (Drain sink w).2).
    destruct (Drain_run sink w Hk Hq) as (batch & rest & Hp & Hlen & _ & Hd).
    assert (∃ w', Drain sink w = (Ok (), w') ∧ outbox_keyed (w_store w') ∧
              undelivered (w_store w') ≡ₚ rest) as (w' & -> & Hk' & Hp').
    { destruct batch as [|e b]; [by exists w|].
      destruct sink as [f|]; [|done]. pose proof (Hs f (e :: b) w eq_refl) as E.
      destruct (f (e :: b) w) as [r w1]. simpl in E. by subst r. }
    apply IH; [done|]. simpl. apply Permutation_length in Hp, Hp'. rewrite length_app in Hp. lia.
  - intros Hs k. rewrite Start_ticks. cbn [Start snd mret GoM_ret].
    induction k as [|k IH]; [done|]. unfold drains in *. simpl. rewrite <-IH.
    set (v := Nat.iter k _ w) in *.
    destruct (Drain_run sink v) as (batch & rest & _ & _ & _ & Hd); [|done|].
    { unfold outbox_keyed. by rewrite IH. }
    destruct batch as [|e b]; [by rewrite Hd|].
    destruct (Hs (e :: b) v) as (f & err & Es & E). specialize (Hq f (e :: b) v Es).
    rewrite Es in Hd. destruct (f (e :: b) v) as [r w1]. simpl in *. subst r.
    by rewrite Es, Hd.
  - intros f e -> He He'. destruct (Drain_run (Some f) w Hk Hq) as (batch & rest & Hp & _ & _ & Hd).
    destruct batch as [|x b]; [by rewrite Hd in He'|].
    specialize (Hq f (x :: b) w eq_refl). destruct (f (x :: b) w) as [[[]|err] w1] eqn:E.
    + destruct Hd as (w' & Ed & _ & Hp'). rewrite Ed in He'. simpl in He'.
      exists (x :: b). rewrite E. split; [|done]. rewrite Hp in He. rewrite Hp' in He'.
      apply elem_of_app in He as [He|He]; done.
    + rewrite Hd in He'. simpl in *. unfold undelivered in *. by rewrite Hq in He'.
Qed.
End drain.

(** ** Witness *)

Section witness.
Definition drain_rt : GoRuntime := simple_runtime 1.
#[local] Existing Instances drain_rt simple_uuid.

Definition noted (u : UUID) : Event := mkEvent "wallet.created" (Some u) [].
Definition three_rows : World := ((Emit (noted 7%N);; Emit (noted 7%N);; Emit (noted 8%N)) NewWorld).2.
Definition taking : Sink World := Some (λ _, mret ()).

Lemma outbox_drains_witness :
  map AE_Seq (undelivered (w_store three_rows)) = [1; 2; 1]%Z ∧
  undelivered (w_store (Start taking [Tick; End_] three_rows).2) = [].
Proof.
  split; [vm_compute; reflexivity|]. apply (outbox_drains taking three_rows 1).
  - apply (bool_decide_unpack _). vm_compute. exact I.
  - intros f es w [= <-]. reflexivity.
  - vm_compute. lia.
  - intros f es w [= <-]. reflexivity.
Defined.
End witness.
