(* ===== verification/Nonce.v ===== *)
(** * Nonce: EVM nonce coordination (internal/nonce/nonce.go)

    [others] is what the other goroutines do while this one sleeps between two attempts. *)

From S2P Require Import Prelude GoLib Extern Domain Storage Memstore MemstoreFacts Lock.

Local Open Scope Z_scope.

Section nonce.
Context {W : Type} {UL : UuidLib} {ST : Store W} {LK : Locker W}.
Variable others : GoM W unit.

Definition nonce_lock (walletID : UUID) (chain : Chain) : string :=
  ("nonce:lock:" +:+ uuid_String walletID +:+ ":" +:+ chain)%string.

Definition retries : nat := 50.

(** One turn of the retry loop per unit of [n]. *)
Fixpoint reserve_loop (n : nat) (walletID : UUID) (chain : Chain) : GoM W Z :=
  match n with
  | O => fail (Errorf "nonce lock contention for %s/%s" [FUuid walletID; FStr chain])
  | S n =>
      '(token, ok) ← wrap "acquire nonce lock: %w" []
                       (Acquire (nonce_lock walletID chain) 5000000000);
      if negb ok then ignore others;; reserve_loop n walletID chain
      else
        r ← try (IncrementPendingNonce walletID chain);
        ignore (Release (nonce_lock walletID chain) token);;
        match r with
        | Ok (val, _) => mret val
        | Err err => fail (Wrapf "increment pending nonce: %w" [] err)
        end
  end.

Definition ReserveNonce (walletID : UUID) (chain : Chain) : GoM W Z :=
  reserve_loop retries walletID chain.

Definition CommitNonce (walletID : UUID) (chain : Chain) (nonce : Z) : GoM W unit :=
  AdvanceBroadcastNonce walletID chain nonce.

Definition RollbackNonce (walletID : UUID) (chain : Chain) (nonce : Z) : GoM W unit :=
  RollbackPendingNonce walletID chain nonce;; mret ().

Definition Get (walletID : UUID) (chain : Chain) : GoM W Nonce := GetNonce walletID chain.
End nonce.

(** ** What a store and a locker owe the nonce service

    The abstract state is a pair of counters per (wallet, chain), the next nonce to reserve
    and the next one to broadcast, and the owner of each lock name. *)

Definition at_key {A} (u : UUID) (c : string) (v : A) (f : UUID → string → A)
    (u' : UUID) (c' : string) : A :=
  if decide (u' = u ∧ c' = c) then v else f u' c'.

Class NonceStore (W : Type) {ST : Store W} := {
  (** The states the service runs in. *)
  nonce_ok : W → Prop;
  pending : W → UUID → string → Z;
  broadcast : W → UUID → string → Z;
  (** A call may fail; then no counter moves. *)
  store_incr w u c :
    nonce_ok w →
    ∃ r w', IncrementPendingNonce u c w = (r, w') ∧ nonce_ok w' ∧
      (∀ n v, r = Ok (n, v) → n = pending w u c) ∧
      (∀ u' c', pending w' u' c' =
         if is_ok r then at_key u c (wrap64 (pending w u c + 1)) (pending w) u' c'
         else pending w u' c') ∧
      (∀ u' c', broadcast w' u' c' = broadcast w u' c');
  store_rollback w u c n :
    nonce_ok w → 0 ≤ n < max_int64 →
    ∃ r w', RollbackPendingNonce u c n w = (r, w') ∧ nonce_ok w' ∧
      (∀ u' c', pending w' u' c' =
         if is_ok r && bool_decide (pending w u c = n + 1) then at_key u c n (pending w) u' c'
         else pending w u' c') ∧
      (∀ u' c', broadcast w' u' c' = broadcast w u' c');
  (** Only promised for a chain on which the wallet has reserved something. *)
  store_advance w u c n :
    nonce_ok w → 0 ≤ n < max_int64 → 0 < pending w u c →
    ∃ r w', AdvanceBroadcastNonce u c n w = (r, w') ∧ nonce_ok w' ∧
      (∀ u' c', pending w' u' c' = pending w u' c') ∧
      (∀ u' c', broadcast w' u' c' =
         if is_ok r then at_key u c (Z.max (n + 1) (broadcast w u c)) (broadcast w) u' c'
         else broadcast w u' c');
}.

(** What leaves the counters alone. *)
Definition silent `{NonceStore W} (w w' : W) : Prop :=
  (nonce_ok w → nonce_ok w') ∧
  (∀ u c, pending w' u c = pending w u c) ∧ (∀ u c, broadcast w' u c = broadcast w u c).
#[export] Instance silent_preorder `{NonceStore W} : PreOrder (silent (W:=W)).
Proof.
  split; [by intros w; split|]. intros a b c (? & P1 & B1) (? & P2 & B2).
  split; [auto|]. split; intros; [by rewrite P2|by rewrite B2].
Qed.

(** A locker that answers, and whose locks are exclusive and do not run out. *)
Class NonceBackend (W : Type) {ST : Store W} {NS : NonceStore W} {LK : Locker W} := {
  lock_owner : W → string → option string;
  backend_incr w u c :
    nonce_ok w → ∀ l, lock_owner (IncrementPendingNonce u c w).2 l = lock_owner w l;
  backend_acquire w name ttl :
    nonce_ok w →
    ∃ tok w', Acquire name ttl w = (Ok (tok, bool_decide (lock_owner w name = None)), w') ∧
      silent w w' ∧
      (∀ l, lock_owner w' l =
         if decide (l = name ∧ lock_owner w name = None) then Some tok else lock_owner w l);
  backend_release w name tok :
    nonce_ok w → lock_owner w name = Some tok →
    ∃ w', Release name tok w = (Ok (), w') ∧ silent w w' ∧
      (∀ l, lock_owner w' l = if decide (l = name) then None else lock_owner w l);
}.

(** ** Interleavings

    A goroutine that runs the service's methods touches the counters in single store calls,
    so the steps below are all that any interleaving of them does; [nstep_other] is everything
    else, locks that are granted, refused or lost included.  The ghost state lists the reserved
    nonces nobody has committed or rolled back yet, and the committed ones; a nonce is committed
    or rolled back by whoever holds it. *)

Abbreviation slot := (UUID * string * Z)%type.

Section interleaving.
Context {W : Type} {ST : Store W} {NS : NonceStore W}.

Inductive nstep : W * list slot * list slot → W * list slot * list slot → Prop :=
  | nstep_increment w w' u c n v out com :
      pending w u c < max_int64 →
      IncrementPendingNonce u c w = (Ok (n, v), w') →
      nstep (w, out, com) (w', (u, c, n) :: out, com)
  | nstep_failed w w' u c n e out com :
      IncrementPendingNonce u c w = (Err e, w') ∨
      (u, c, n) ∈ out ∧ (CommitNonce u c n w = (Err e, w') ∨ RollbackNonce u c n w = (Err e, w')) →
      nstep (w, out, com) (w', out, com)
  | nstep_commit w w' u c n l1 l2 com :
      CommitNonce u c n w = (Ok (), w') →
      nstep (w, l1 ++ (u, c, n) :: l2, com) (w', l1 ++ l2, (u, c, n) :: com)
  | nstep_rollback w w' u c n l1 l2 com :
      RollbackNonce u c n w = (Ok (), w') →
      nstep (w, l1 ++ (u, c, n) :: l2, com) (w', l1 ++ l2, com)
  | nstep_other w w' out com :
      nonce_ok w → silent w w' →
      nstep (w, out, com) (w', out, com).

Definition fresh (w : W) : Prop := nonce_ok w ∧ ∀ u c, pending w u c = 0 ∧ broadcast w u c = 0.

Record nonce_inv (s : W * list slot * list slot) : Prop := {
  ni_ok : nonce_ok s.1.1;
  ni_nodup : NoDup (s.1.2 ++ s.2);
  ni_below u c n : (u, c, n) ∈ s.1.2 ++ s.2 → 0 ≤ n < pending s.1.1 u c;
  ni_max u c : 0 ≤ pending s.1.1 u c ≤ max_int64;
  ni_committed u c n : (u, c, n) ∈ s.2 → n < broadcast s.1.1 u c;
  ni_broadcast u c : broadcast s.1.1 u c = 0 ∨ (u, c, broadcast s.1.1 u c - 1) ∈ s.2;
}.

Lemma nonce_inv_fresh w : fresh w → nonce_inv (w, [], []).
Proof.
  intros [Hok Hw]. split; simpl.
  - done.
  - constructor.
  - intros u c n H. by apply elem_of_nil in H.
  - intros u c. destruct (Hw u c) as [-> _]. done.
  - intros u c n H. by apply elem_of_nil in H.
  - intros u c. left. apply Hw.
Qed.

Lemma nonce_inv_frame w w' out com :
  silent w w' → nonce_inv (w, out, com) → nonce_inv (w', out, com).
Proof.
  intros (Hok & Hp & Hb) [H0 H1 H2 H3 H4 H5]. split; simpl in *; [auto|done| | | |]; intros u c.
  - rewrite Hp. auto.
  - rewrite Hp. auto.
  - rewrite Hb. auto.
  - rewrite Hb. auto.
Qed.

Lemma nonce_inv_increment w w' u c n v out com :
  pending w u c < max_int64 → IncrementPendingNonce u c w = (Ok (n, v), w') →
  nonce_inv (w, out, com) → nonce_inv (w', (u, c, n) :: out, com).
Proof.
  intros Hlt E [H0 H1 H2 H3 H4 H5]. simpl in *.
  destruct (store_incr w u c H0) as (r & w1 & E' & Hok & Hn & Hp & Hb).
  rewrite E' in E. simplify_eq. specialize (Hn n v eq_refl) as ->. cbn [is_ok] in Hp. pose proof (H3 u c).
  rewrite wrap64_id in Hp by (unfold in_int64, min_int64; lia).
  split; simpl; [done| | | | |].
  - constructor; [|done]. intros Hin. apply H2 in Hin. lia.
  - intros u' c' n. rewrite elem_of_cons, Hp. unfold at_key. case_decide as Hd.
    + destruct Hd as [-> ->]. intros [?|Hin]; [simplify_eq; lia|]. apply H2 in Hin. lia.
    + intros [?|Hin]; [simplify_eq; tauto|]. auto.
  - intros u' c'. rewrite Hp. unfold at_key. case_decide; [lia|auto].
  - intros u' c' n. rewrite Hb. auto.
  - intros u' c'. rewrite Hb. auto.
Qed.

Lemma nonce_inv_commit w w' u c n l1 l2 com :
  CommitNonce u c n w = (Ok (), w') →
  nonce_inv (w, l1 ++ (u, c, n) :: l2, com) → nonce_inv (w', l1 ++ l2, (u, c, n) :: com).
Proof.
  intros E [H0 H1 H2 H3 H4 H5]. simpl in *.
  assert (Hn : 0 ≤ n < pending w u c) by (apply H2; set_solver).
  pose proof (H3 u c).
  destruct (store_advance w u c n H0) as (r & w1 & E' & Hok & Hp & Hb); [lia..|].
  unfold CommitNonce in E. rewrite E' in E. simplify_eq. cbn [is_ok] in Hb.
  assert (HP : l1 ++ l2 ++ (u, c, n) :: com ≡ₚ (l1 ++ (u, c, n) :: l2) ++ com) by solve_Permutation.
  split; simpl; [done| | | | |].
  - by rewrite <-app_assoc, HP.
  - intros u' c' m. rewrite <-app_assoc, HP, Hp. auto.
  - intros u' c'. rewrite Hp. auto.
  - intros u' c' m. rewrite elem_of_cons, Hb. unfold at_key.
    intros [?|Hin]; [simplify_eq; rewrite decide_True by done; lia|].
    apply H4 in Hin. case_decide as Hd; [destruct Hd as [-> ->]; lia|done].
  - intros u' c'. rewrite Hb. unfold at_key. case_decide as Hd; [|set_solver].
    destruct Hd as [-> ->]. right. destruct (H5 u c) as [Hz|Hin].
    + rewrite Hz, Z.max_l by lia. replace (n + 1 - 1) with n by lia. set_solver.
    + destruct (decide (broadcast w u c ≤ n + 1)).
      * rewrite Z.max_l by lia. replace (n + 1 - 1) with n by lia. set_solver.
      * rewrite Z.max_r by lia. set_solver.
Qed.

(** What [RollbackNonce] does, from the law of the store's call. *)
Lemma RollbackNonce_run w u c n r w' :
  nonce_ok w → 0 ≤ n < max_int64 → RollbackNonce u c n w = (r, w') →
  nonce_ok w' ∧
  (∀ u' c', pending w' u' c' =
     if is_ok r && bool_decide (pending w u c = n + 1) then at_key u c n (pending w) u' c'
     else pending w u' c') ∧
  (∀ u' c', broadcast w' u' c' = broadcast w u' c').
Proof.
  intros H0 Hn. destruct (store_rollback w u c n H0 Hn) as (k & w1 & E & Hok & Hp & Hb).
  unfold RollbackNonce. go_cbv. rewrite E. by destruct k; intros [= <- <-].
Qed.

Lemma nonce_inv_rollback w w' u c n l1 l2 com :
  RollbackNonce u c n w = (Ok (), w') →
  nonce_inv (w, l1 ++ (u, c, n) :: l2, com) → nonce_inv (w', l1 ++ l2, com).
Proof.
  intros E [H0 H1 H2 H3 H4 H5]. simpl in *.
  assert (Hn : 0 ≤ n < pending w u c) by (apply H2; set_solver).
  pose proof (H3 u c).
  destruct (RollbackNonce_run w u c n _ _ H0 ltac:(lia) E) as (Hok & Hp & Hb).
  cbn [is_ok andb] in Hp.
  assert (HP : (l1 ++ (u, c, n) :: l2) ++ com ≡ₚ (u, c, n) :: (l1 ++ l2) ++ com)
    by solve_Permutation.
  rewrite HP in H1. apply list.NoDup_cons in H1 as [Hnot H1].
  split; simpl; [done|done| | | |]; intros u' c'.
  - intros m Hm. rewrite Hp.
    assert (0 ≤ m < pending w u' c') by (apply H2; rewrite HP; set_solver).
    case_bool_decide; [|done]. unfold at_key. case_decide as Hd; [|done].
    destruct Hd as [-> ->]. assert (m ≠ n) by (intros ->; done). lia.
  - rewrite Hp. unfold at_key. case_bool_decide; [case_decide; [lia|auto]|auto].
  - intros m. rewrite Hb. auto.
  - rewrite Hb. auto.
Qed.

(** A call that fails moves nothing. *)
Lemma nonce_inv_failed w w' u c n e out com :
  IncrementPendingNonce u c w = (Err e, w') ∨
  (u, c, n) ∈ out ∧ (CommitNonce u c n w = (Err e, w') ∨ RollbackNonce u c n w = (Err e, w')) →
  nonce_inv (w, out, com) → nonce_inv (w', out, com).
Proof.
  intros HE HI. pose proof (ni_ok _ HI) as H0. pose proof (ni_max _ HI u c) as Hmax. simpl in *.
  destruct HE as [E|[Hin E]].
  - destruct (store_incr w u c H0) as (r & w1 & E' & Hok & _ & Hp & Hb).
    rewrite E' in E. simplify_eq. apply (nonce_inv_frame w); [by split|done].
  - assert (Hn : 0 ≤ n < pending w u c) by (apply (ni_below _ HI); set_solver).
    destruct E as [E|E].
    + destruct (store_advance w u c n H0) as (r & w1 & E' & Hok & Hp & Hb); [lia..|].
      unfold CommitNonce in E. rewrite E' in E. simplify_eq. apply (nonce_inv_frame w); [by split|done].
    + destruct (RollbackNonce_run w u c n _ _ H0 ltac:(lia) E) as (Hok & Hp & Hb).
      apply (nonce_inv_frame w); [by split|done].
Qed.

Lemma nonce_inv_step s s' : nstep s s' → nonce_inv s → nonce_inv s'.
Proof.
  destruct 1.
  - by eapply nonce_inv_increment.
  - by eapply nonce_inv_failed.
  - by apply nonce_inv_commit.
  - by apply nonce_inv_rollback.
  - by apply nonce_inv_frame.
Qed.

Lemma nonce_inv_steps s s' : rtc nstep s s' → nonce_inv s → nonce_inv s'.
Proof. induction 1; eauto using nonce_inv_step. Qed.
End interleaving.

(** ** The memstore is such a store, with the process-local locker such a backend *)

Section instance.
Context {GR : GoRuntime} {UL : UuidLib}.

Definition mem_row (w : World) (u : UUID) (c : string) : Nonce :=
  default (Mem.zero_nonce u c) (nonces (w_store w) !! Mem.nonceKey u c).

Lemma nonceKey_inj u c u' c' : Mem.nonceKey u c = Mem.nonceKey u' c' → u = u' ∧ c = c'.
Proof.
  intros E. apply join_inj in E as [E ->]; [|apply uuid_String_no_bar..].
  by apply uuid_String_inj in E.
Qed.

(** A field of the rows after one row was written. *)
Lemma mem_row_insert {A} (f : Nonce → A) w w' u c row u' c' :
  nonces (w_store w') = <[Mem.nonceKey u c := row]> (nonces (w_store w)) →
  f (mem_row w' u' c') = at_key u c (f row) (λ u' c', f (mem_row w u' c')) u' c'.
Proof.
  intros E. unfold mem_row, at_key. rewrite E. case_decide as Hd.
  - destruct Hd as [-> ->]. by rewrite lookup_insert_eq.
  - rewrite lookup_insert_ne; [done|]. intros [-> ->]%nonceKey_inj. by destruct Hd.
Qed.

Lemma at_key_id {A} u c (f : UUID → string → A) u' c' : at_key u c (f u c) f u' c' = f u' c'.
Proof. unfold at_key. case_decide as Hd; [by destruct Hd as [-> ->]|done]. Qed.

#[export] Program Instance mem_nonces : NonceStore World := {|
  nonce_ok w := True;
  pending w u c := Nonce_PendingNonce (mem_row w u c);
  broadcast w u c := Nonce_BroadcastNonce (mem_row w u c);
|}.
Next Obligation.
  intros w u c _. unfold IncrementPendingNonce, memstore, Mem.IncrementPendingNonce. go_cbv.
  do 2 eexists. split; [reflexivity|]. split; [done|]. split; [by intros n v [= <- _]|].
  split; intros u' c'.
  - by erewrite (mem_row_insert Nonce_PendingNonce) by reflexivity.
  - erewrite (mem_row_insert Nonce_BroadcastNonce) by reflexivity.
    apply (at_key_id _ _ (λ a b, Nonce_BroadcastNonce (mem_row w a b))).
Qed.
Next Obligation.
  intros w u c n _ Hn. unfold RollbackPendingNonce, memstore, Mem.RollbackPendingNonce. go_cbv.
  unfold get_st, gets. destruct (nonces (w_store w) !! Mem.nonceKey u c) as [row|] eqn:E.
  - assert (Hrow : mem_row w u c = row) by (unfold mem_row; by rewrite E).
    rewrite Hrow, wrap64_id by (unfold in_int64, min_int64, max_int64 in *; lia).
    case_bool_decide as Hp.
    + do 2 eexists. split; [reflexivity|]. split; [done|].
      split; intros u' c'.
      * by erewrite (mem_row_insert Nonce_PendingNonce) by reflexivity.
      * erewrite (mem_row_insert Nonce_BroadcastNonce) by reflexivity.
        rewrite <-Hrow. apply (at_key_id _ _ (λ a b, Nonce_BroadcastNonce (mem_row w a b))).
    + do 2 eexists. by split; [reflexivity|].
  - do 2 eexists. split; [reflexivity|]. split; [done|]. split; [|done]. intros u' c'.
    rewrite bool_decide_eq_false_2; [done|]. unfold mem_row. rewrite E. simpl. lia.
Qed.
Next Obligation.
  intros w u c n _ Hn _. unfold AdvanceBroadcastNonce, memstore, Mem.AdvanceBroadcastNonce.
  go_cbv. do 2 eexists. split; [reflexivity|]. split; [done|]. split; intros u' c'.
  - erewrite (mem_row_insert Nonce_PendingNonce) by reflexivity.
    apply (at_key_id _ _ (λ a b, Nonce_PendingNonce (mem_row w a b))).
  - erewrite (mem_row_insert Nonce_BroadcastNonce) by reflexivity. f_equal. simpl.
    rewrite wrap64_id by (unfold in_int64, min_int64, max_int64 in *; lia).
    unfold mem_row. rewrite Z.gtb_ltb. destruct (Z.ltb_spec (Nonce_BroadcastNonce
      (default (Mem.zero_nonce u c) (nonces (w_store w) !! Mem.nonceKey u c))) (n + 1)); lia.
Qed.

#[export] Program Instance mem_backend : NonceBackend World := {|
  lock_owner w name := w_locks w !! name;
|}.
Next Obligation.
  intros w u c _ l. unfold IncrementPendingNonce, memstore, Mem.IncrementPendingNonce. by go_cbv.
Qed.
Next Obligation.
  intros w name ttl _. destruct (w_locks w !! name) as [t|] eqn:E.
  - rewrite Acquire_taken by (by exists t). do 2 eexists.
    rewrite bool_decide_eq_false_2 by congruence. split; [reflexivity|]. split; [by split|].
    intros l. rewrite decide_False; [done|]. intros [_ ?]. congruence.
  - rewrite Acquire_free by done. do 2 eexists.
    rewrite bool_decide_eq_true_2 by done. split; [reflexivity|]. split; [by split|].
    intros l. simpl. case_decide as Hd.
    + destruct Hd as [-> _]. by rewrite lookup_insert_eq.
    + rewrite lookup_insert_ne; [done|]. intros ->. by destruct Hd.
Qed.
Next Obligation.
  intros w name tok _ Hl. rewrite Release_own by done. eexists. split; [reflexivity|].
  split; [by split|]. intros l. simpl. case_decide as Hd.
  - subst. by rewrite lookup_delete_eq.
  - by rewrite lookup_delete_ne.
Qed.

(** The memstore's calls do not fail. *)
Lemma mem_increment_ok u c w : is_ok (IncrementPendingNonce u c w).1 = true.
Proof. reflexivity. Qed.
Lemma mem_advance_ok u c n w : is_ok (AdvanceBroadcastNonce u c n w).1 = true.
Proof. reflexivity. Qed.
Lemma mem_rollback_ok u c n w : is_ok (RollbackPendingNonce u c n w).1 = true.
Proof.
  unfold RollbackPendingNonce, memstore, Mem.RollbackPendingNonce, get_st. by go_eval.
Qed.
End instance.

(** ** The service on a backend *)

(** *** With any locker

    Two goroutines may be granted the lock at once, it may be refused or fail: a reservation is
    still a path of the interleaving semantics, because the store's call is one step. *)
Section any_locker.
Context {W : Type} {UL : UuidLib} {ST : Store W} {NS : NonceStore W} {LK : Locker W}.
Variable others : GoM W unit.

Record silent_locker : Prop := {
  sl_acquire name ttl : respects silent (Acquire name ttl);
  sl_release name token : respects silent (Release name token);
}.

(** Whatever the others do during a sleep are steps too, which do not use up the counter. *)
Definition other_steps (u : UUID) (c : string) : Prop :=
  ∀ w out com, nonce_ok w → pending w u c < max_int64 →
    ∃ out' com', rtc nstep (w, out, com) ((others w).2, out', com') ∧
      nonce_ok (others w).2 ∧ pending (others w).2 u c < max_int64.

Lemma reserve_loop_path k u c w out com :
  silent_locker → other_steps u c → nonce_ok w → pending w u c < max_int64 →
  ∃ out' com', rtc nstep (w, out, com)
    ((reserve_loop others k u c w).2,
     match (reserve_loop others k u c w).1 with Ok n => (u, c, n) :: out' | Err _ => out' end, com').
Proof.
  intros [HA HR] HO. revert w out com. induction k as [|k IH]; intros w out com H0 Hlt.
  { exists out, com. apply rtc_refl. }
  cbn [reserve_loop]. set (l := nonce_lock u c). unfold wrap. go_cbv.
  pose proof (HA l 5000000000 w) as H1. destruct (Acquire l 5000000000 w) as [[[token ok]|e] w1].
  2: { exists out, com. by eapply rtc_once, nstep_other. }
  simpl in H1. destruct H1 as (Hok1 & Hp1 & Hb1). cbn [fst snd].
  assert (HS : rtc nstep (w, out, com) (w1, out, com)) by (by eapply rtc_once, nstep_other).
  destruct ok; cbn [negb]; go_cbv.
  - destruct (IncrementPendingNonce u c w1) as [r w2] eqn:EI.
    destruct (store_incr w1 u c (Hok1 H0)) as (r' & w2' & E & Hok2 & _). rewrite EI in E.
    injection E as <- <-. pose proof (HR l token w2) as H3. go_cbv.
    destruct (Release l token w2) as [r3 w3]. simpl in H3.
    destruct r as [[n v]|e]; go_cbv.
    + exists out, com. etrans; [exact HS|]. eapply rtc_l; [|by eapply rtc_once, nstep_other].
      eapply nstep_increment; [by rewrite Hp1|exact EI].
    + exists out, com. etrans; [exact HS|]. eapply rtc_l; [|by eapply rtc_once, nstep_other].
      eapply (nstep_failed _ _ u c 0). by left.
  - destruct (HO w1 out com (Hok1 H0)) as (out1 & com1 & HS1 & Hok2 & Hlt2); [by rewrite Hp1|].
    destruct (others w1) as [r2 w2]. simpl in HS1, Hok2, Hlt2.
    destruct (IH w2 out1 com1 Hok2 Hlt2) as (out' & com' & HS2). exists out', com'.
    etrans; [exact HS|]. etrans; [exact HS1|]. exact HS2.
Qed.
End any_locker.
Arguments silent_locker W {_ _} LK.

(** ** The service on a backend *)

Section service.
Context {W : Type} {UL : UuidLib} {ST : Store W} {NS : NonceStore W} {LK : Locker W}.
Context {NB : NonceBackend W}.
Implicit Types (others : GoM W unit).

(** One turn of the loop with the lock free: the reservation, or the error of the store's
    call; the lock is given back either way. *)
Lemma reserve_loop_free others k u c w :
  nonce_ok w → lock_owner w (nonce_lock u c) = None →
  ∃ r w' w1 w2, reserve_loop others (S k) u c w = (r, w') ∧ nonce_ok w' ∧
    (∀ n, r = Ok n → n = pending w u c) ∧
    (∀ u' c', pending w' u' c' =
       if is_ok r then at_key u c (wrap64 (pending w u c + 1)) (pending w) u' c'
       else pending w u' c') ∧
    (∀ l, lock_owner w' l = lock_owner w l) ∧
    (* the calls of the turn *)
    silent w w1 ∧ silent w2 w' ∧
    match r with
    | Ok n => ∃ v, IncrementPendingNonce u c w1 = (Ok (n, v), w2)
    | Err _ => ∃ e, IncrementPendingNonce u c w1 = (Err e, w2)
    end.
Proof.
  intros H0 Hl. set (l := nonce_lock u c) in *. cbn [reserve_loop]. fold l.
  destruct (backend_acquire w l 5000000000 H0) as (tok & w1 & EA & (H1 & HpA & HbA) & HlA).
  rewrite bool_decide_eq_true_2 in EA by done. specialize (H1 H0).
  destruct (store_incr w1 u c H1) as (r & w2 & EI & H2 & Hn & HpI & HbI).
  pose proof (backend_incr w1 u c H1) as HlI. rewrite EI in HlI. simpl in HlI.
  assert (Htok : lock_owner w2 l = Some tok) by (rewrite HlI, HlA; by rewrite decide_True).
  destruct (backend_release w2 l tok H2 Htok) as (w3 & ER & (H3 & HpR & HbR) & HlR).
  assert (Hlock : ∀ l', lock_owner w3 l' = lock_owner w l').
  { intros l'. rewrite HlR. case_decide; [by subst|]. rewrite HlI, HlA, decide_False; [done|].
    by intros [? _]. }
  go_cbv. rewrite EA. cbn [negb]. go_cbv. rewrite EI. go_cbv. rewrite ER.
  destruct r as [[n v]|e]; eexists _, w3, w1, w2;
    (split; [reflexivity|]); split_and!; try done; eauto.
  - intros m [= <-]. by rewrite (Hn n v eq_refl), HpA.
  - intros u' c'. rewrite HpR, HpI. cbn [is_ok]. unfold at_key. case_decide; by rewrite !HpA.
  - intros u' c'. rewrite HpR, HpI. cbn [is_ok]. apply HpA.
Qed.

(** The reservation is a path of store and lock calls of the interleaving semantics. *)
Lemma ReserveNonce_steps others u c w r w' out com :
  nonce_ok w → lock_owner w (nonce_lock u c) = None → pending w u c < max_int64 →
  ReserveNonce others u c w = (r, w') →
  rtc nstep (w, out, com) (w', match r with Ok n => (u, c, n) :: out | Err _ => out end, com).
Proof.
  intros H0 Hl Hlt E.
  destruct (reserve_loop_free others 49 u c w H0 Hl)
    as (r' & w'' & w1 & w2 & E' & _ & _ & _ & _ & HA & HR & EI).
  unfold ReserveNonce, retries in E. rewrite E' in E. injection E as -> ->.
  eapply rtc_l; [by eapply nstep_other|]. destruct HA as (H1 & Hp1 & _).
  assert (H2 : nonce_ok w2).
  { destruct (store_incr w1 u c (H1 H0)) as (r3 & w3 & E3 & H3 & _).
    destruct r as [n|e]; destruct EI as [x EI]; rewrite EI in E3; by simplify_eq. }
  eapply rtc_l; [|by eapply rtc_once, nstep_other].
  destruct r as [n|e]; destruct EI as [x EI].
  - eapply nstep_increment; [by rewrite Hp1|done].
  - eapply (nstep_failed _ _ u c 0); by left.
Qed.

(** C8: the nonces are handed out under a discipline: a nonce that a reservation gave out is
    committed or rolled back once at most, by whoever holds it, and each such call is one step.
    Whatever the goroutines have reserved, committed and rolled back so far in this way, in any
    interleaving and with any calls failing, a reservation that finds the lock free ends at once
    and leaves the lock free: it hands out a nonce that nobody holds and that was never committed
    and advances the counter past it, or, when the store's own call failed, returns its error
    with no counter moved.  Nonce.v does not enforce the discipline, and one of its callers breaks
    it: failing a withdrawal twice gives its nonce back twice ([Fail_frees_nonce_in_use] of
    WithdrawalSpec.v). *)
Theorem ReserveNonce_unique others w0 w out com u c :
  fresh w0 → rtc nstep (w0, [], []) (w, out, com) →
  lock_owner w (nonce_lock u c) = None → pending w u c < max_int64 →
  ∃ r w', ReserveNonce others u c w = (r, w') ∧
    lock_owner w' (nonce_lock u c) = None ∧
    match r with
    | Ok n => (u, c, n) ∉ out ++ com ∧ 0 ≤ n ∧ pending w' u c = n + 1 ∧
              rtc nstep (w, out, com) (w', (u, c, n) :: out, com)
    | Err _ => (∃ w1, nonce_ok w1 ∧ is_ok (IncrementPendingNonce u c w1).1 = false) ∧
               ∀ u' c', pending w' u' c' = pending w u' c'
    end.
Proof.
  intros H0 Hs Hl Hlt. pose proof (nonce_inv_steps _ _ Hs (nonce_inv_fresh _ H0)) as HI.
  pose proof (ni_max _ HI u c) as Hmax. pose proof (ni_ok _ HI) as Hok. simpl in Hmax, Hok.
  destruct (reserve_loop_free others 49 u c w Hok Hl)
    as (r & w' & w1 & w2 & E & _ & Hn & Hp & Hl' & (H1 & _ & _) & _ & EI).
  specialize (H1 Hok). exists r, w'. split; [exact E|]. split; [by rewrite Hl'|]. destruct r as [n|e].
  - assert (n = pending w u c) as -> by auto. split_and!.
    + intros Hin. apply (ni_below _ HI) in Hin. simpl in Hin. lia.
    + lia.
    + rewrite Hp. cbn [is_ok]. unfold at_key. rewrite decide_True by done.
      apply wrap64_id. unfold in_int64, min_int64. lia.
    + exact (ReserveNonce_steps others u c w _ w' out com Hok Hl Hlt E).
  - split; [|exact Hp]. destruct EI as [e' EI]. exists w1. by rewrite EI.
Qed.

(** No nonce is ever held or committed twice, every nonce in use lies below the pending
    counter, and the broadcast counter never overtakes the pending one and stands one past
    a committed nonce. *)
Theorem nonce_interleavings_safe w0 w out com :
  fresh w0 → rtc nstep (w0, [], []) (w, out, com) →
  NoDup (out ++ com) ∧
  (∀ u c n, (u, c, n) ∈ out ++ com → 0 ≤ n < pending w u c) ∧
  (∀ u c, broadcast w u c ≤ pending w u c ∧
     (broadcast w u c = 0 ∨ (u, c, broadcast w u c - 1) ∈ com)).
Proof.
  intros H0 Hs. pose proof (nonce_inv_steps _ _ Hs (nonce_inv_fresh _ H0)) as [_ H1 H2 H3 _ H5].
  simpl in *. split; [done|]. split; [done|]. intros u c. split; [|done].
  specialize (H3 u c). destruct (H5 u c) as [Hz|Hin]; [lia|].
  assert (0 ≤ broadcast w u c - 1 < pending w u c) by (apply H2; set_solver). lia.
Qed.

(** A rollback takes the pending counter back exactly when the nonce was the last one
    reserved; otherwise, when the store's call fails, and for every other wallet and chain,
    nothing moves. *)
Theorem RollbackNonce_spec u c n w :
  nonce_ok w → 0 ≤ n < max_int64 →
  ∃ r w', RollbackNonce u c n w = (r, w') ∧
    pending w' u c =
      (if is_ok r && bool_decide (pending w u c = n + 1) then n else pending w u c) ∧
    (∀ u' c', (u', c') ≠ (u, c) → pending w' u' c' = pending w u' c') ∧
    (∀ u' c', broadcast w' u' c' = broadcast w u' c').
Proof.
  intros H0 Hn. destruct (RollbackNonce u c n w) as [r w'] eqn:E.
  destruct (RollbackNonce_run w u c n r w' H0 Hn E) as (_ & Hp & Hb).
  exists r, w'. split; [done|]. split; [|split; [|done]].
  - rewrite Hp. destruct (_ && _); [|done]. unfold at_key. by rewrite decide_True.
  - intros u' c' Hne. rewrite Hp. unfold at_key.
    destruct (_ && _); [case_decide; [|done]|done]. naive_solver.
Qed.
End service.

(** ** Contention, with the process-local locker *)

Section contention.
Context {GR : GoRuntime} {UL : UuidLib}.

(** The world after [k] sleeps. *)
Definition after_sleeps (others : GoM World unit) (k : nat) (w : World) : World :=
  Nat.iter k (λ w, (others w).2) w.

Lemma reserve_loop_taken others u c k n w :
  (∀ i, (i < k)%nat → lock_held (nonce_lock u c) (after_sleeps others i w)) →
  reserve_loop others (k + n) u c w = reserve_loop others n u c (after_sleeps others k w).
Proof.
  revert w. induction k as [|k IH]; intros w Hk; [done|].
  cbn [reserve_loop Nat.add]. go_cbv.
  rewrite Acquire_taken by (apply (Hk 0%nat); lia). cbn [negb]. go_cbv.
  destruct (others w) as [r w1] eqn:E.
  assert (Hshift : ∀ i, after_sleeps others i w1 = after_sleeps others (S i) w).
  { intros i. unfold after_sleeps. rewrite Nat.iter_succ_r. by rewrite E. }
  rewrite IH.
  - by rewrite Hshift.
  - intros i Hi. rewrite Hshift. apply Hk. lia.
Qed.

(** C39: a reservation that finds the lock taken for [k] turns and then free is the
    reservation made at that moment; it gives up, with the contention error and no counter
    touched by itself, exactly when the lock stayed taken for all fifty turns. *)
Theorem ReserveNonce_contended others u c w k :
  (∀ i, (i < k)%nat → lock_held (nonce_lock u c) (after_sleeps others i w)) →
  ((k < 50)%nat → w_locks (after_sleeps others k w) !! nonce_lock u c = None →
   ∃ w', ReserveNonce others u c w = (Ok (pending (after_sleeps others k w) u c), w') ∧
     pending w' u c = wrap64 (pending (after_sleeps others k w) u c + 1)) ∧
  ((50 ≤ k)%nat →
   ReserveNonce others u c w =
     (Err (Errorf "nonce lock contention for %s/%s" [FUuid u; FStr c]),
      after_sleeps others 50 w)).
Proof.
  intros Hk. unfold ReserveNonce. split.
  - intros Hlt Hfree.
    replace retries with (k + S (49 - k))%nat by (unfold retries; lia).
    rewrite reserve_loop_taken by done.
    destruct (reserve_loop_free (NB:=mem_backend) others (49 - k) u c _ I Hfree)
      as (r & w' & w1 & w2 & E & _ & Hn & Hp & _ & _ & _ & EI).
    destruct r as [n|e].
    + rewrite E, (Hn n eq_refl). exists w'. split; [done|]. rewrite Hp. cbn [is_ok].
      unfold at_key. by rewrite decide_True.
    + destruct EI as [e' EI]. pose proof (mem_increment_ok u c w1) as Ho. by rewrite EI in Ho.
  - intros Hge. change retries with (50 + 0)%nat.
    rewrite reserve_loop_taken by (intros; apply Hk; lia). done.
Qed.
End contention.

(** ** Witnesses on the memstore *)

Section witnesses.
Definition wit_rt : GoRuntime := simple_runtime 1.
#[local] Existing Instances wit_rt simple_uuid.

Definition quiet : GoM World unit := mret ().
(** A peer that gives the lock back during the first sleep. *)
Definition peer_releases (l tok : string) : GoM World unit := Release l tok.

Definition eth_world : World := (ReserveNonce quiet 7%N ChainEthereum NewWorld).2.
Definition locked_world : World :=
  (Acquire (nonce_lock 7%N ChainEthereum) 5000000000 NewWorld).2.

Lemma fresh_world : fresh NewWorld.
Proof. split; [done|]. intros u c. split; vm_compute; reflexivity. Defined.

Lemma ReserveNonce_unique_witness :
  ∃ n w', ReserveNonce quiet 7%N ChainEthereum NewWorld = (Ok n, w') ∧
    (7%N, ChainEthereum, n) ∉ ([] ++ [] : list slot) ∧ 0 ≤ n ∧
    pending w' 7%N ChainEthereum = n + 1 ∧
    rtc nstep (NewWorld, [], []) (w', [(7%N, ChainEthereum, n)], []).
Proof.
  destruct (ReserveNonce_unique quiet NewWorld NewWorld [] [] 7%N ChainEthereum)
    as (r & w' & E & _ & Hr).
  - exact fresh_world.
  - apply rtc_refl.
  - vm_compute; reflexivity.
  - vm_compute; reflexivity.
  - destruct r as [n|e]; [by exists n, w'|]. vm_compute in E. discriminate.
Defined.

Lemma nonce_interleavings_safe_witness :
  let out := [(7%N, ChainEthereum, 0)] : list slot in
  NoDup (out ++ []) ∧
  (∀ u c n, (u, c, n) ∈ out ++ [] → 0 ≤ n < pending eth_world u c) ∧
  (∀ u c, broadcast eth_world u c ≤ pending eth_world u c ∧
     (broadcast eth_world u c = 0 ∨ (u, c, broadcast eth_world u c - 1) ∈ ([] : list slot))).
Proof.
  apply (nonce_interleavings_safe NewWorld eth_world [(7%N, ChainEthereum, 0)] []).
  - exact fresh_world.
  - apply (ReserveNonce_steps quiet 7%N ChainEthereum NewWorld (Ok 0));
      [done|vm_compute; reflexivity..].
Defined.

Lemma RollbackNonce_spec_witness :
  ∃ r w', RollbackNonce 7%N ChainEthereum 0 eth_world = (r, w') ∧
    pending w' 7%N ChainEthereum =
      (if is_ok r && bool_decide (pending eth_world 7%N ChainEthereum = 0 + 1) then 0
       else pending eth_world 7%N ChainEthereum) ∧
    (∀ u' c', (u', c') ≠ (7%N, ChainEthereum) → pending w' u' c' = pending eth_world u' c') ∧
    (∀ u' c', broadcast w' u' c' = broadcast eth_world u' c').
Proof.
  apply (RollbackNonce_spec 7%N ChainEthereum 0 eth_world); [done|]. split; vm_compute; congruence.
Defined.

Lemma ReserveNonce_contended_witness :
  ∃ w', ReserveNonce (peer_releases (nonce_lock 7%N ChainEthereum) "1") 7%N ChainEthereum
          locked_world = (Ok 0, w') ∧ pending w' 7%N ChainEthereum = 1.
Proof.
  destruct (ReserveNonce_contended (peer_releases (nonce_lock 7%N ChainEthereum) "1") 7%N
              ChainEthereum locked_world 1) as [H _].
  - intros i Hi. replace i with 0%nat by lia. exists "1"%string. vm_compute. reflexivity.
  - apply H; [lia | vm_compute; reflexivity].
Defined.
End witnesses.
