(* ===== verification/Utxo.v ===== *)
(** * Utxo: BTC coin selection and locking (internal/utxo/utxo.go) *)

From S2P Require Import Prelude GoLib Extern Domain Storage Memstore MemstoreFacts.
From stdpp Require Import sorting.

Local Open Scope Z_scope.

(** [parseVal]: 0 on any parse error. *)
Definition parseVal (s : string) : Z :=
  match ParseInt s with
  | (n, None) => n
  | (_, Some _) => 0
  end.

(** The greedy loop: stop as soon as the running [int64] total reaches the amount. *)
Fixpoint greedy (amount : Z) (free : list UTXO) (selected : list string) (total : Z) :
    list string * Z :=
  match free with
  | [] => (selected, total)
  | u :: free =>
      if total >=? amount then (selected, total)
      else greedy amount free (selected ++ [UTXO_Outpoint u])
             (wrap64 (total + parseVal (UTXO_Value u)))
  end.

Section utxo.
Context {W : Type} {GR : GoRuntime} {ST : Store W}.

Definition largest_first (a b : UTXO) : bool :=
  parseVal (UTXO_Value a) >? parseVal (UTXO_Value b).

Definition SelectForAmount (walletID : UUID) (amount : Z) : GoM W (list string * Z) :=
  free ← ListFreeUTXOs walletID;
  let '(selected, total) := greedy amount (sort_Slice largest_first free) [] 0 in
  if total <? amount
  then fail (Errorf "insufficient funds: need %d have %d" [FInt amount; FInt total])
  else
    wrap "lock utxos: %w" [] (LockUTXOs selected);;
    mret (selected, total).

Definition Unlock (outpoints : list string) : GoM W unit := RestoreUTXOs outpoints.
Definition MarkSpent (outpoints : list string) (txHash : string) : GoM W unit :=
  MarkUTXOsSpent outpoints txHash.
Definition RestoreOnReorg (outpoints : list string) : GoM W unit := RestoreUTXOs outpoints.
Definition PruneFinalized (outpoints : list string) : GoM W unit := PruneUTXOs outpoints.
Definition TrackUTXO (u : UTXO) : GoM W unit := InsertUTXO u.
End utxo.

(** ** The greedy loop

    [value_sum] is the exact sum of the values the loop adds up; [first_reach amount l] is the
    number of coins it takes from [l] when no addition overflows. *)

Definition value (u : UTXO) : Z := parseVal (UTXO_Value u).
Definition value_sum (l : list UTXO) : Z := foldr (λ u s, value u + s) 0 l.

Lemma value_sum_app l1 l2 : value_sum (l1 ++ l2) = value_sum l1 + value_sum l2.
Proof. induction l1 as [|u l1 IH]; simpl; lia. Qed.

Lemma value_sum_perm l1 l2 : l1 ≡ₚ l2 → value_sum l1 = value_sum l2.
Proof. induction 1; simpl; lia. Qed.

Lemma value_sum_nonneg l : Forall (λ u, 0 ≤ value u) l → 0 ≤ value_sum l.
Proof. induction 1; simpl; lia. Qed.

(** The outcome: a prefix of the list was taken, its wrapped sum is the total, and the prefix
    stops at the first total that reaches the amount. *)
Lemma greedy_prefix amount l sel total ops t :
  in_int64 total → greedy amount l sel total = (ops, t) →
  ∃ l1 l2, l = l1 ++ l2 ∧ ops = sel ++ map UTXO_Outpoint l1 ∧
    t = wrap64 (total + value_sum l1) ∧ (l2 = [] ∨ amount ≤ t) ∧
    (∀ l0 u, l1 = l0 ++ [u] → wrap64 (total + value_sum l0) < amount).
Proof.
  revert sel total. induction l as [|u l IH]; intros sel total Ht; simpl.
  - intros [= <- <-]. exists [], []. simpl. rewrite app_nil_r, Z.add_0_r, wrap64_id by done.
    split; [done|]. split; [done|]. split; [done|]. split; [by left|].
    intros [|??] ?; discriminate.
  - destruct (Z.geb_spec total amount) as [Hge|Hlt].
    + intros [= <- <-]. exists [], (u :: l). simpl.
      rewrite app_nil_r, Z.add_0_r, wrap64_id by done.
      split; [done|]. split; [done|]. split; [done|]. split; [by right|].
      intros [|??] ?; discriminate.
    + intros E. apply IH in E as (l1 & l2 & -> & -> & -> & Hend & Hmin);
        [|apply wrap64_range]. rewrite wrap64_add_l, <-Z.add_assoc in Hend.
      exists (u :: l1), l2. simpl. rewrite <-app_assoc, wrap64_add_l, <-Z.add_assoc.
      split; [done|]. split; [done|]. split; [done|]. split; [done|].
      intros [|u0 l0] v E; simplify_list_eq.
      * simpl. rewrite Z.add_0_r, wrap64_id by done. lia.
      * specialize (Hmin l0 v eq_refl). rewrite wrap64_add_l in Hmin. simpl.
        by rewrite Z.add_assoc.
Qed.

(** Among the sub-multisets of a list sorted by decreasing value, the prefix of the same
    length weighs the most. *)
Lemma prefix_heaviest L T :
  StronglySorted (λ a b, value b ≤ value a) L → T ⊆+ L →
  value_sum T ≤ value_sum (take (length T) L).
Proof.
  intros HL. revert T. induction HL as [|x L HL IH Hx]; intros T HS.
  - apply submseteq_nil_r in HS as ->. done.
  - apply submseteq_cons_r in HS as [HS|(T' & HP & HS)].
    + destruct T as [|y T]; [done|]. simpl.
      assert (y ∈ L) by (eapply elem_of_submseteq; [|done]; set_solver).
      assert (value y ≤ value x) by (rewrite Forall_forall in Hx; auto).
      assert (HT : T ⊆+ L) by (etrans; [|exact HS]; by apply submseteq_cons).
      specialize (IH T HT). lia.
    + rewrite (value_sum_perm _ _ HP), HP. simpl. specialize (IH T' HS). lia.
Qed.

Lemma sort_largest_first `{GoRuntime} l :
  StronglySorted (λ a b, value b ≤ value a) (sort_Slice largest_first l).
Proof.
  assert (Hs : StronglySorted (λ a b, largest_first b a = false) (sort_Slice largest_first l)).
  { apply sort_Slice_sorted, (strict_weak_gtb (λ u, parseVal (UTXO_Value u))). }
  induction Hs as [|u l' _ IH Hu]; constructor; [done|].
  eapply Forall_impl; [exact Hu|]. intros v. unfold largest_first, value. simpl. lia.
Qed.

(** ** Locking on the memstore *)

(** Every row is stored under its own outpoint. *)
Definition utxos_keyed (s : MemStore) : Prop :=
  ∀ op u, utxos s !! op = Some u → UTXO_Outpoint u = op.

Section mem.
Context {GR : GoRuntime} {UL : UuidLib}.
Implicit Types (w : World).

Definition utxo_in (st : string) (op : string) (w : World) : Prop :=
  ∃ u, utxos (w_store w) !! op = Some u ∧ UTXO_LockState u = st.

Lemma check_free_all ops w :
  (for_each Mem.check_free ops w).2 = w ∧
  (is_ok (for_each Mem.check_free ops w).1 = true ↔ ∀ op, op ∈ ops → utxo_in UTXOLockStateFree op w).
Proof.
  induction ops as [|op ops IH]; simpl.
  - split; [done|]. split; [|done]. intros _ op H. by apply elem_of_nil in H.
  - assert (E : (Mem.check_free op w).2 = w ∧
                (is_ok (Mem.check_free op w).1 = true ↔ utxo_in UTXOLockStateFree op w)).
    { unfold Mem.check_free, get_st, utxo_in. go_cbv.
      destruct (utxos (w_store w) !! op) as [u|]; [case_bool_decide|]; naive_solver. }
    unfold mbind, GoM_bind. destruct (Mem.check_free op w) as [[[]|e] w1];
      destruct E as [E1 E2]; simpl in E1; subst w1; simpl in *.
    + split; [apply IH|]. etrans; [apply IH|]. split; intros H.
      * intros op' [->|?]%elem_of_cons; [by apply E2|auto].
      * intros op' ?. apply H. by right.
    + split; [done|]. split; [done|]. intros H. apply E2, H. by left.
Qed.

(** The locked version of a row. *)
Definition locked_row (now : Z) (u : UTXO) : UTXO :=
  UTXO_with_lock UTXOLockStateLocked (Some now) (UTXO_SpentAt u) (UTXO_TxHash u) now u.

Lemma lock_all now ops w :
  ∃ w', for_each (Mem.lock_one now) ops w = (Ok (), w') ∧
    ∀ op, utxos (w_store w') !! op =
      if decide (op ∈ ops) then locked_row now <$> utxos (w_store w) !! op
      else utxos (w_store w) !! op.
Proof.
  revert w. induction ops as [|o ops IH]; intros w; cbn [for_each].
  - exists w. split; [done|]. intros op. by rewrite decide_False by set_solver.
  - go_cbv. unfold Mem.lock_one at 1, put_st. go_cbv.
    destruct (IH (set_store (set_utxos (alter (locked_row now) o) (w_store w)) w))
      as (w' & E & Hl).
    exists w'. split; [exact E|]. intros op. rewrite Hl. simpl.
    destruct (decide (op = o)) as [->|Hne].
    + rewrite lookup_alter_eq. rewrite (decide_True (P:=o ∈ o :: ops)) by set_solver.
      case_decide; [|done]. rewrite <-option_fmap_compose. done.
    + rewrite lookup_alter_ne by done. repeat case_decide; set_solver.
Qed.

Lemma LockUTXOs_run ops w :
  (∃ w', LockUTXOs ops w = (Ok (), w') ∧
     (∀ op, op ∈ ops → utxo_in UTXOLockStateFree op w) ∧
     ∀ op, utxos (w_store w') !! op =
       if decide (op ∈ ops) then locked_row (time_at (w_clock w)) <$> utxos (w_store w) !! op
       else utxos (w_store w) !! op) ∨
  (∃ e, LockUTXOs ops w = (Err e, w) ∧ ¬ ∀ op, op ∈ ops → utxo_in UTXOLockStateFree op w).
Proof.
  unfold LockUTXOs, memstore, Mem.LockUTXOs. go_cbv.
  destruct (check_free_all ops w) as [Hw Hok].
  destruct (for_each Mem.check_free ops w) as [[[]|e] w1] eqn:E; simpl in *; subst w1.
  - left. destruct (lock_all (time_at (w_clock w)) ops (tick w)) as (w' & E' & Hl).
    exists w'. split; [exact E'|]. split; [by apply Hok|exact Hl].
  - right. exists e. split; [done|]. intros H. apply Hok in H. done.
Qed.
(** The coins a selection for the wallet may use. *)
Definition free_coins (walletID : UUID) (w : World) : list UTXO :=
  List.filter (Mem.is_free_of walletID) (range_vals (utxos (w_store w))).

Lemma elem_of_free_coins walletID u w :
  utxos_keyed (w_store w) →
  u ∈ free_coins walletID w →
  utxos (w_store w) !! UTXO_Outpoint u = Some u ∧ UTXO_WalletID u = walletID ∧
  UTXO_LockState u = UTXOLockStateFree.
Proof.
  intros Hk. unfold free_coins. rewrite list_elem_of_In, List.filter_In, <-list_elem_of_In.
  intros [[op Hop]%elem_of_range_vals [H1 H2]%andb_true_iff].
  apply bool_decide_eq_true in H1, H2. by rewrite (Hk op u Hop).
Qed.

Lemma free_coins_NoDup walletID w :
  utxos_keyed (w_store w) → NoDup (map UTXO_Outpoint (free_coins walletID w)).
Proof.
  intros Hk. unfold free_coins, range_vals.
  assert (HN : NoDup (map UTXO_Outpoint (map_range (utxos (w_store w))).*2)).
  { rewrite map_range_perm.
    assert (E : map UTXO_Outpoint (map_to_list (utxos (w_store w))).*2 =
                (map_to_list (utxos (w_store w))).*1).
    { rewrite <-list_fmap_compose. apply list_fmap_ext. intros i [op u] Hi. simpl.
      apply Hk, elem_of_map_to_list. by eapply list_elem_of_lookup_2. }
    rewrite E. apply NoDup_fst_map_to_list. }
  revert HN. induction ((map_range (utxos (w_store w))).*2) as [|u l IH]; simpl; [done|].
  intros [Hn HN]%list.NoDup_cons. destruct (Mem.is_free_of walletID u); simpl; [|auto].
  apply list.NoDup_cons. split; [|auto]. contradict Hn.
  apply list_elem_of_fmap in Hn as (v & -> & Hv). apply list_elem_of_fmap. exists v.
  split; [done|]. apply list_elem_of_In, List.filter_In in Hv as [Hv _].
  by apply list_elem_of_In.
Qed.

(** What a selection does, whatever the values are: it takes a prefix of the free coins in
    decreasing order of value and locks it, or reports the total it reached. *)
Lemma SelectForAmount_run walletID amount w :
  utxos_keyed (w_store w) →
  ∃ L, L ≡ₚ free_coins walletID w ∧ StronglySorted (λ a b, value b ≤ value a) L ∧
  ((∃ coins rest w',
      SelectForAmount walletID amount w =
        (Ok (map UTXO_Outpoint coins, wrap64 (value_sum coins)), w') ∧
      L = coins ++ rest ∧ amount ≤ wrap64 (value_sum coins) ∧
      (∀ l0 u, coins = l0 ++ [u] → wrap64 (value_sum l0) < amount) ∧
      ∀ op, utxos (w_store w') !! op =
        if decide (op ∈ map UTXO_Outpoint coins)
        then locked_row (time_at (w_clock w)) <$> utxos (w_store w) !! op
        else utxos (w_store w) !! op) ∨
   (SelectForAmount walletID amount w =
      (Err (Errorf "insufficient funds: need %d have %d"
              [FInt amount; FInt (wrap64 (value_sum L))]), w) ∧
    wrap64 (value_sum L) < amount)).
Proof.
  intros Hk.
  set (F := sort_Slice (λ a b, String.ltb (UTXO_Outpoint a) (UTXO_Outpoint b))
              (free_coins walletID w)).
  exists (sort_Slice largest_first F).
  assert (HP : sort_Slice largest_first F ≡ₚ free_coins walletID w)
    by (unfold F; by rewrite !sort_Slice_perm).
  split; [done|]. split; [apply sort_largest_first|].
  assert (EF : ListFreeUTXOs walletID w = (Ok F, w)) by reflexivity.
  unfold SelectForAmount. go_cbv. rewrite EF. go_cbv.
  destruct (greedy amount (sort_Slice largest_first F) [] 0) as [sel t] eqn:E.
  apply greedy_prefix in E as (coins & rest & HL & -> & -> & Hend & Hmin);
    [|unfold in_int64, min_int64, max_int64; lia].
  setoid_rewrite Z.add_0_l in Hmin. rewrite Z.add_0_l in Hend |- *.
  destruct (Z.ltb_spec (wrap64 (value_sum coins)) amount) as [Hlt|Hge].
  - right. destruct Hend as [->|]; [|lia]. rewrite HL, app_nil_r. done.
  - left. exists coins, rest. rewrite app_nil_l.
    destruct (LockUTXOs_run (map UTXO_Outpoint coins) w) as [(w' & EL & _ & Hw')|(e & _ & He)].
    + rewrite EL. eauto 6.
    + destruct He. intros op (u & -> & Hu)%list_elem_of_fmap.
      destruct (elem_of_free_coins walletID u w Hk) as (? & _ & ?); [|by exists u].
      rewrite <-HP, HL. apply elem_of_app. by left.
Qed.

(** C10: a successful selection hands out distinct coins of the wallet that were free, whose
    (machine) total is the one returned and reaches the amount; exactly those coins change,
    from free to locked.  A selection that fails changes nothing, and fails only for lack of
    funds. *)
Theorem SelectForAmount_spec walletID amount w r w' :
  utxos_keyed (w_store w) →
  SelectForAmount walletID amount w = (r, w') →
  match r with
  | Ok (ops, total) =>
      ∃ coins, ops = map UTXO_Outpoint coins ∧ NoDup ops ∧
        total = wrap64 (value_sum coins) ∧ amount ≤ total ∧
        (∀ u, u ∈ coins → utxos (w_store w) !! UTXO_Outpoint u = Some u ∧
           UTXO_WalletID u = walletID ∧ UTXO_LockState u = UTXOLockStateFree) ∧
        (∀ op, utxos (w_store w') !! op =
           if decide (op ∈ ops) then locked_row (time_at (w_clock w)) <$> utxos (w_store w) !! op
           else utxos (w_store w) !! op)
  | Err e => w' = w ∧ ∃ have, e = Errorf "insufficient funds: need %d have %d"
                                    [FInt amount; FInt have] ∧ have < amount
  end.
Proof.
  intros Hk E. destruct (SelectForAmount_run walletID amount w Hk)
    as (L & HP & _ & [(coins & rest & w1 & E' & HL & Ht & _ & Hw1)|[E' Hlt]]);
    rewrite E' in E; simplify_eq; [|by eauto].
  pose proof (free_coins_NoDup walletID w Hk) as HN. rewrite <-HP, map_app in HN.
  exists coins. split; [done|]. split; [by apply list.NoDup_app in HN as [? _]|].
  split; [done|]. split; [done|]. split; [|done].
  intros u Hu. apply elem_of_free_coins; [done|]. rewrite <-HP. apply elem_of_app. by left.
Qed.

(** C11: with no negative value and no overflow, the selection is complete and frugal: it
    succeeds exactly when the wallet's free coins cover the amount, and no other set of free
    coins that covers the amount is smaller. *)
Theorem SelectForAmount_optimal walletID amount w :
  utxos_keyed (w_store w) →
  Forall (λ u, 0 ≤ value u) (free_coins walletID w) →
  value_sum (free_coins walletID w) ≤ max_int64 →
  (is_ok (SelectForAmount walletID amount w).1 = true ↔
     amount ≤ value_sum (free_coins walletID w)) ∧
  (∀ ops total w', SelectForAmount walletID amount w = (Ok (ops, total), w') →
     ∀ other, other ⊆+ free_coins walletID w → amount ≤ value_sum other →
     (length ops ≤ length other)%nat).
Proof.
  intros Hk Hpos Hmax.
  destruct (SelectForAmount_run walletID amount w Hk) as (L & HP & HL & Hrun).
  rewrite <-HP in Hpos. rewrite <-(value_sum_perm _ _ HP) in Hmax |- *.
  assert (Hwrap : ∀ l1 l2, L = l1 ++ l2 →
            wrap64 (value_sum l1) = value_sum l1 ∧ value_sum l1 ≤ value_sum L).
  { intros l1 l2 ->. apply Forall_app in Hpos as [?%value_sum_nonneg ?%value_sum_nonneg].
    rewrite value_sum_app in Hmax |- *.
    rewrite wrap64_id by (unfold in_int64, min_int64; lia). lia. }
  destruct Hrun as [(coins & rest & w1 & E & HLc & Ht & Hmin & _)|[E Hlt]]; rewrite E; simpl.
  - destruct (Hwrap coins rest HLc) as [Hc HcL]. rewrite Hc in Ht. split; [split; [lia|done]|].
    intros ops total w' [= <- _ _] other Hsub Ho. rewrite <-HP in Hsub. rewrite length_map.
    destruct (Nat.le_gt_cases (length coins) (length other)) as [|Hgt]; [done|exfalso].
    destruct coins as [|u l0 _] using rev_ind; [simpl in Hgt; lia|].
    specialize (Hmin l0 u eq_refl). rewrite length_app in Hgt. simpl in Hgt.
    destruct (Hwrap l0 ([u] ++ rest)) as [Hl0 _]; [by rewrite HLc, <-app_assoc|].
    pose proof (prefix_heaviest L other HL Hsub) as Hheavy.
    rewrite HLc, <-app_assoc, take_app_le in Hheavy by lia.
    assert (Hp0 : Forall (λ u, 0 ≤ value u) l0).
    { rewrite HLc, <-app_assoc in Hpos. by apply Forall_app in Hpos as [? _]. }
    pose proof (value_sum_nonneg _ (Forall_drop _ (length other) _ Hp0)) as Hd.
    rewrite Hl0, <-(take_drop (length other) l0), value_sum_app in Hmin. lia.
  - destruct (Hwrap L []) as [Hc _]; [by rewrite app_nil_r|]. rewrite Hc in Hlt.
    split; [split; [done|lia]|]. intros; discriminate.
Qed.

(** ** Who may use a coin

    A coin is held when its row is there and not free.  [coin_step held] is anything another
    caller of the service may do while the coins of [held] are in use: select, track, mark as
    spent, and give back or prune coins other than those. *)

Definition coin_held (op : string) (s : MemStore) : Prop :=
  ∃ u, utxos s !! op = Some u ∧ UTXO_LockState u ≠ UTXOLockStateFree.

Inductive coin_step (held : list string) : World → World → Prop :=
  | cs_select walletID amount w : coin_step held w (SelectForAmount walletID amount w).2
  | cs_track u w : coin_step held w (TrackUTXO u w).2
  | cs_spent ops txHash w : coin_step held w (MarkSpent ops txHash w).2
  | cs_unlock ops w : ops ## held → coin_step held w (Unlock ops w).2
  | cs_reorg ops w : ops ## held → coin_step held w (RestoreOnReorg ops w).2
  | cs_prune ops w : ops ## held → coin_step held w (PruneFinalized ops w).2.

(** Writing a row over an existing one, or a new one. *)
Lemma write_utxo op u (I : MemStore → Prop) :
  (∀ s, I s → I (set_utxos (insert op u) s)) →
  respects (on_store (preserving I)) (put_st (set_utxos (insert op u))).
Proof. intros H w. exact (H (w_store w)). Qed.

Lemma coin_held_write op op' u :
  (op' = op → UTXO_LockState u ≠ UTXOLockStateFree) →
  respects (on_store (preserving (coin_held op))) (put_st (set_utxos (insert op' u))).
Proof.
  intros Hu. apply write_utxo. intros s (v & Hv & Hs). unfold coin_held. simpl.
  destruct (decide (op = op')) as [<-|Hne].
  - exists u. by rewrite lookup_insert_eq; auto.
  - exists v. by rewrite lookup_insert_ne.
Qed.

Lemma coin_held_Lock op ops : respects (on_store (preserving (coin_held op))) (LockUTXOs ops).
Proof.
  intros w. destruct (LockUTXOs_run ops w) as [(w' & -> & Hf & Hw')|(e & -> & _)]; [|by intros ?].
  intros (u & Hu & Hs). exists u. simpl. rewrite Hw'. case_decide as Hin; [|done].
  destruct (Hf op Hin) as (v & ? & ?). congruence.
Qed.

Lemma coin_held_Restore op ops :
  op ∉ ops → respects (on_store (preserving (coin_held op))) (RestoreUTXOs ops).
Proof.
  intros Hop. unfold RestoreUTXOs, memstore, Mem.RestoreUTXOs.
  apply respects_bind; [exact _ | go_respects | intros now].
  apply respects_for_each_in; [exact _|]. intros o Ho. unfold get_st. go_respects.
  apply coin_held_write. by intros ->.
Qed.

Lemma coin_held_Spent op ops tx :
  respects (on_store (preserving (coin_held op))) (MarkUTXOsSpent ops tx).
Proof.
  unfold MarkUTXOsSpent, memstore, Mem.MarkUTXOsSpent, get_st. go_respects.
  by apply coin_held_write.
Qed.

Lemma coin_held_Insert op u :
  respects (on_store (preserving (coin_held op))) (InsertUTXO u).
Proof.
  intros w. unfold InsertUTXO, memstore, Mem.InsertUTXO, get_st, on_store. go_cbv.
  destruct (utxos (w_store w) !! UTXO_Outpoint u) eqn:E; [by intros ?|].
  intros (v & Hv & Hs). exists v. simpl. rewrite lookup_insert_ne; [done|]. congruence.
Qed.

Lemma coin_held_Prune op ops :
  op ∉ ops → respects (on_store (preserving (coin_held op))) (PruneUTXOs ops).
Proof.
  intros Hop. unfold PruneUTXOs, memstore, Mem.PruneUTXOs.
  apply respects_for_each_in; [exact _|]. intros o Ho w (v & Hv & Hs). exists v. simpl.
  rewrite lookup_delete_ne; [done|]. by intros ->.
Qed.

Lemma coin_held_Select op walletID amount :
  respects (on_store (preserving (coin_held op))) (SelectForAmount walletID amount).
Proof.
  unfold SelectForAmount. go_respects; apply coin_held_Lock.
Qed.

Lemma coin_held_step held op w w' :
  op ∈ held → coin_step held w w' → coin_held op (w_store w) → coin_held op (w_store w').
Proof.
  intros Hop. destruct 1 as [wid a w|u w|ops tx w|ops w Hd|ops w Hd|ops w Hd].
  - exact (coin_held_Select op wid a w).
  - exact (coin_held_Insert op u w).
  - exact (coin_held_Spent op ops tx w).
  - apply (coin_held_Restore op ops); set_solver.
  - apply (coin_held_Restore op ops); set_solver.
  - apply (coin_held_Prune op ops); set_solver.
Qed.

Lemma SelectForAmount_locks walletID amount w ops total w' :
  SelectForAmount walletID amount w = (Ok (ops, total), w') → LockUTXOs ops w = (Ok (), w').
Proof.
  unfold SelectForAmount. go_cbv.
  assert (E : ∃ F, ListFreeUTXOs walletID w = (Ok F, w)) by (eexists; reflexivity).
  destruct E as [F ->]. destruct (greedy _ _ _ _) as [sel t].
  destruct (t <? amount); [discriminate|]. go_cbv.
  destruct (LockUTXOs sel w) as [[[]|e] w1] eqn:EL; [|discriminate]. by intros [= <- <- <-].
Qed.

Lemma LockUTXOs_holds ops w w' op :
  LockUTXOs ops w = (Ok (), w') → op ∈ ops →
  utxo_in UTXOLockStateFree op w ∧ coin_held op (w_store w').
Proof.
  intros E Hop. destruct (LockUTXOs_run ops w) as [(w1 & E' & Hf & Hw1)|(e & E' & _)];
    rewrite E' in E; simplify_eq.
  split; [by apply Hf|]. destruct (Hf op Hop) as (u & Hu & _).
  exists (locked_row (time_at (w_clock w)) u). by rewrite Hw1, decide_True, Hu.
Qed.

(** C9: coins handed out by a selection stay out of every later selection, by any wallet and
    for any amount, for as long as nobody unlocks, restores or prunes them: no coin is in two
    withdrawals at once. *)
Theorem selections_exclusive wid1 amount1 w0 ops1 t1 w1 w2 wid2 amount2 ops2 t2 w3 :
  SelectForAmount wid1 amount1 w0 = (Ok (ops1, t1), w1) →
  rtc (coin_step ops1) w1 w2 →
  SelectForAmount wid2 amount2 w2 = (Ok (ops2, t2), w3) →
  ops1 ## ops2.
Proof.
  intros E1%SelectForAmount_locks Hs E2%SelectForAmount_locks op H1 H2.
  destruct (LockUTXOs_holds _ _ _ _ E1 H1) as [_ Hheld].
  destruct (LockUTXOs_holds _ _ _ _ E2 H2) as [(u & Hu & Hfree) _].
  assert (Hend : coin_held op (w_store w2)).
  { clear E1 E2 H2 Hu Hfree. induction Hs as [|x y z Hxy _ IH]; [done|].
    apply IH. by eapply coin_held_step. }
  destruct Hend as (v & Hv & Hne). congruence.
Qed.

End mem.

(** ** Witnesses *)

Section witnesses.
Definition btc_rt : GoRuntime := simple_runtime 1.
#[local] Existing Instances btc_rt simple_uuid.

Definition coin (op : string) (v : string) : UTXO :=
  mkUTXO op 7%N v "P2WPKH" 6 UTXOLockStateFree None None EmptyString 1.
Definition coins_world : World :=
  (for_each TrackUTXO [coin "a:0" "30"; coin "b:0" "100"; coin "c:1" "50"] NewWorld).2.

Example select_runs :
  (SelectForAmount 7%N 120 coins_world).1 = Ok (["b:0"; "c:1"]%string, 150).
Proof. vm_compute. reflexivity. Qed.

Lemma coins_world_keyed : utxos_keyed (w_store coins_world).
Proof.
  change (map_Forall (λ op u, UTXO_Outpoint u = op) (utxos (w_store coins_world))).
  apply (bool_decide_unpack _). vm_compute. exact I.
Defined.

Lemma SelectForAmount_spec_witness :
  ∃ coins w', SelectForAmount 7%N 120 coins_world = (Ok (["b:0"; "c:1"]%string, 150), w') ∧
    ["b:0"; "c:1"]%string = map UTXO_Outpoint coins ∧
    utxos (w_store w') !! "a:0"%string = utxos (w_store coins_world) !! "a:0"%string.
Proof.
  destruct (SelectForAmount 7%N 120 coins_world) as [r w'] eqn:E.
  assert (Hr : r = Ok (["b:0"; "c:1"]%string, 150)) by (rewrite <-select_runs, E; reflexivity).
  subst r. pose proof (SelectForAmount_spec _ _ _ _ _ coins_world_keyed E) as H.
  destruct H as (coins & Hops & _ & _ & _ & _ & Hw). exists coins, w'.
  split; [reflexivity|]. split; [exact Hops|]. apply (Hw "a:0"%string).
Defined.

Lemma SelectForAmount_optimal_witness :
  is_ok (SelectForAmount 7%N 120 coins_world).1 = true ↔
    120 ≤ value_sum (free_coins 7%N coins_world).
Proof.
  destruct (SelectForAmount_optimal 7%N 120 coins_world coins_world_keyed) as [H _].
  - apply (bool_decide_unpack _). vm_compute. exact I.
  - vm_compute. discriminate.
  - exact H.
Defined.

Lemma selections_exclusive_witness :
  ["b:0"; "c:1"]%string ## ["a:0"]%string.
Proof.
  destruct (SelectForAmount 7%N 120 coins_world) as [r1 w1] eqn:E1.
  destruct (SelectForAmount 7%N 20 w1) as [r2 w2] eqn:E2.
  assert (H1 : r1 = Ok (["b:0"; "c:1"]%string, 150)) by (rewrite <-select_runs, E1; reflexivity).
  assert (H2 : r2 = Ok (["a:0"]%string, 30)).
  { replace r2 with (SelectForAmount 7%N 20 (SelectForAmount 7%N 120 coins_world).2).1
      by (by rewrite E1; simpl; rewrite E2). vm_compute. reflexivity. }
  subst r1 r2. exact (selections_exclusive _ _ _ _ _ _ _ _ _ _ _ _ E1 (rtc_refl _ _) E2).
Defined.
End witnesses.
