(* ===== verification/Keymapping.v ===== *)
(** * Keymapping: wallet to MPC key (internal/keymapping/keymapping.go)

    A wallet's mappings are kept in the order they were bound.  Rotation puts the current
    mapping into cooling and makes the new key current; expiry retires what has cooled down.
    The invariant [keys_wf] is stated on one wallet's list and lifted to the store. *)

From S2P Require Import Prelude GoLib Extern Domain Storage Memstore MemstoreFacts Config.
From S2P Require Import Outbox.
From stdpp Require Import sorting.

Local Open Scope Z_scope.

Section keymapping.
Context {W : Type} {UL : UuidLib} {ST : Store W} {EF : Effects W}.
Variable (em : Emitter W) (cfg : Config).

Definition Bind (walletID : UUID) (keyID : string) : GoM W unit :=
  now ← time_Now;
  BindKeyMapping (mkKeyMapping walletID keyID now None RotationStateCurrent now).

Definition Rotate (walletID : UUID) (newKeyID : string) : GoM W unit :=
  RotateKeyMapping walletID newKeyID (KeyCoolingPeriod cfg);;
  emit em (mkEvent "key.rotated" (Some walletID)
    [("new_key_id", AStr newKeyID);
     ("cooling_period", AStr (Duration_String (KeyCoolingPeriod cfg)))])%string.

Definition ResolveActive (walletID : UUID) : GoM W (list KeyMapping) :=
  r ← try (ResolveActiveKey walletID);
  match r with
  | Ok mappings => mret mappings
  | Err err =>
      if errors_Is err ErrNoRows
      then fail (Wrapf "no active key for wallet %s: %w" [FUuid walletID] err)
      else fail err
  end.

Definition ResolveActiveKeyID (walletID : UUID) : GoM W string :=
  ms ← ResolveActive walletID;
  match ms with
  | [] => fail (Errorf "no active key for wallet %s" [FUuid walletID])
  | m :: _ => mret (KM_KeyID m)
  end.

Definition ExpireCooling : GoM W unit := Storage.ExpireCooling.
End keymapping.

(** ** One wallet's mappings *)

Definition state_is (st : string) (m : KeyMapping) : bool := bool_decide (KM_RotationState m = st).

(** Distinct keys, exactly one of them current, and a deadline on exactly the others. *)
Record keys_wf (l : list KeyMapping) : Prop := {
  kw_nodup : NoDup (map KM_KeyID l);
  kw_current : ∃ m, List.filter Mem.is_current l = [m];
  kw_deadline m : m ∈ l →
    (KM_RotationState m = RotationStateCurrent ∧ KM_ActiveTo m = None) ∨
    ((KM_RotationState m = RotationStateCooling ∨ KM_RotationState m = RotationStateRetired) ∧
     is_Some (KM_ActiveTo m));
}.

(** Every wallet that has mappings has well-formed ones, under its own id. *)
Definition keyMappings_wf (s : MemStore) : Prop :=
  ∀ u l, keyMappings s !! u = Some l → keys_wf l ∧ Forall (λ m, KM_WalletID m = u) l.

Lemma cool_key now m : KM_KeyID (Mem.cool now m) = KM_KeyID m.
Proof. unfold Mem.cool. by destruct (Mem.is_current m). Qed.
Lemma cool_wallet now m : KM_WalletID (Mem.cool now m) = KM_WalletID m.
Proof. unfold Mem.cool. by destruct (Mem.is_current m). Qed.
Lemma cool_not_current now m : Mem.is_current (Mem.cool now m) = false.
Proof. unfold Mem.cool. by destruct (Mem.is_current m) eqn:E. Qed.
Lemma cool_current t m :
  KM_RotationState m = RotationStateCurrent →
  Mem.cool t m = KM_with RotationStateCooling (KM_ActiveFrom m) (Some t) m.
Proof. intros H. unfold Mem.cool, Mem.is_current. by rewrite H, bool_decide_eq_true_2. Qed.
Lemma expire_key now m : KM_KeyID (Mem.expire now m) = KM_KeyID m.
Proof. unfold Mem.expire. destruct (KM_ActiveTo m); [|done]. by destruct (_ && _). Qed.
Lemma expire_current now m : Mem.is_current (Mem.expire now m) = Mem.is_current m.
Proof.
  unfold Mem.expire. destruct (KM_ActiveTo m); [|done].
  destruct (Mem.is_cooling m) eqn:E; simpl; [|done]. destruct (now >? z); [|done].
  apply bool_decide_eq_true in E. unfold Mem.is_current. simpl. by rewrite E.
Qed.

Definition activate (now : Z) (m : KeyMapping) : KeyMapping :=
  KM_with RotationStateCurrent now None m.

(** What rotation leaves behind: everything cooled, then the new key made current. *)
Definition rotated (u : UUID) (newKeyID : string) (now cooling : Z) (l : list KeyMapping) :
    list KeyMapping :=
  let cooled := map (Mem.cool (now + cooling)) l in
  default (cooled ++ [mkKeyMapping u newKeyID now None RotationStateCurrent now])
    (Mem.reactivate newKeyID now cooled).

(** [reactivate] touches the first mapping with the key, when there is one. *)
Lemma reactivate_spec k now l :
  match Mem.reactivate k now l with
  | Some l' => ∃ l1 m l2, l = l1 ++ m :: l2 ∧ KM_KeyID m = k ∧ l' = l1 ++ activate now m :: l2
  | None => k ∉ map KM_KeyID l
  end.
Proof.
  induction l as [|m l IH]; simpl; [by apply not_elem_of_nil|].
  case_bool_decide as Hk.
  - exists [], m, l. done.
  - destruct (Mem.reactivate k now l) as [l'|]; simpl.
    + destruct IH as (l1 & m' & l2 & -> & ? & ->). by exists (m :: l1), m', l2.
    + rewrite not_elem_of_cons. auto.
Qed.

Lemma filter_none {A} (p : A → bool) l : (∀ x, x ∈ l → p x = false) → List.filter p l = [].
Proof.
  induction l as [|x l IH]; intros H; simpl; [done|].
  rewrite H by (by left). apply IH. intros y Hy. apply H. by right.
Qed.

(** The rotated list: the new key current, every other mapping as [cool] left it. *)
Lemma rotated_spec u k now cooling l :
  NoDup (map KM_KeyID l) →
  ∃ l1 m l2, rotated u k now cooling l = l1 ++ m :: l2 ∧
    KM_KeyID m = k ∧ KM_RotationState m = RotationStateCurrent ∧ KM_ActiveFrom m = now ∧
    KM_ActiveTo m = None ∧
    (∀ x, x ∈ l1 ++ l2 ↔ ∃ y, y ∈ l ∧ KM_KeyID y ≠ k ∧ x = Mem.cool (now + cooling) y) ∧
    NoDup (map KM_KeyID (l1 ++ m :: l2)).
Proof.
  intros HN. unfold rotated. set (cooled := map _ l).
  assert (HNc : NoDup (map KM_KeyID cooled)).
  { unfold cooled. rewrite map_map. erewrite map_ext; [exact HN|]. intros; apply cool_key. }
  pose proof (reactivate_spec k now cooled) as HR.
  assert (Hcool : ∀ x, x ∈ cooled ↔ ∃ y, y ∈ l ∧ x = Mem.cool (now + cooling) y).
  { intros x. unfold cooled. rewrite list_elem_of_fmap. naive_solver. }
  destruct (Mem.reactivate k now cooled) as [l'|]; simpl.
  - destruct HR as (l1 & m & l2 & Ec & Hm & ->). exists l1, (activate now m), l2.
    assert (Hids : map KM_KeyID (l1 ++ activate now m :: l2) = map KM_KeyID cooled)
      by (by rewrite Ec, !map_app).
    do 5 (split; [done|]). split; [|by rewrite Hids].
    rewrite Ec, map_app in HNc. cbn in HNc. apply list.NoDup_app in HNc as (_ & Hd & HN2).
    apply list.NoDup_cons in HN2 as [Hm2 _].
    assert (Hnk : ∀ x, x ∈ l1 ++ l2 → KM_KeyID x ≠ k).
    { intros x [Hx|Hx]%elem_of_app Hk; apply (list_elem_of_fmap_2 KM_KeyID) in Hx.
      - apply (Hd _ Hx). rewrite Hk, <-Hm. by left.
      - apply Hm2. by rewrite Hm, <-Hk. }
    intros x. split.
    + intros Hx. pose proof (Hnk x Hx) as Hne.
      assert (x ∈ cooled) as (y & ? & ->)%Hcool by (rewrite Ec; set_solver).
      exists y. by rewrite cool_key in Hne.
    + intros (y & Hy & Hne & ->). assert (Hin : Mem.cool (now + cooling) y ∈ cooled)
        by (apply Hcool; eauto). rewrite Ec in Hin.
      assert (Mem.cool (now + cooling) y ≠ m) by (intros E; rewrite <-(cool_key (now + cooling)),
        E in Hne; done). set_solver.
  - exists cooled, (mkKeyMapping u k now None RotationStateCurrent now), [].
    do 5 (split; [done|]). split.
    + intros x. rewrite app_nil_r, Hcool. split.
      * intros (y & Hy & ->). exists y. split; [done|]. split; [|done]. intros Hk. apply HR.
        unfold cooled. rewrite map_map. apply list_elem_of_fmap. exists y.
        by rewrite cool_key.
      * intros (y & ? & _ & ?). eauto.
    + rewrite map_app. apply list.NoDup_app. split; [done|]. split; [|apply NoDup_singleton].
      intros x Hx. simpl. rewrite list_elem_of_singleton. by intros ->.
Qed.

Definition deadline_ok (m : KeyMapping) : Prop :=
  (KM_RotationState m = RotationStateCurrent ∧ KM_ActiveTo m = None) ∨
  ((KM_RotationState m = RotationStateCooling ∨ KM_RotationState m = RotationStateRetired) ∧
   is_Some (KM_ActiveTo m)).

Lemma cool_deadline t m : deadline_ok m → deadline_ok (Mem.cool t m).
Proof.
  unfold Mem.cool. destruct (Mem.is_current m); [|done]. intros _. right. simpl. eauto.
Qed.

Lemma rotated_wf u k now cooling l :
  l = [] ∨ keys_wf l → keys_wf (rotated u k now cooling l).
Proof.
  intros Hl. assert (HN : NoDup (map KM_KeyID l) ∧ ∀ m, m ∈ l → deadline_ok m).
  { destruct Hl as [->|[? _ ?]]; [|done]. split; [constructor|]. intros m H.
    by apply elem_of_nil in H. }
  destruct HN as [HN Hd].
  destruct (rotated_spec u k now cooling l HN)
    as (l1 & m & l2 & -> & Hk & Hst & _ & Hto & Hrest & HN').
  assert (Hnc : ∀ x, x ∈ l1 ++ l2 → Mem.is_current x = false ∧ deadline_ok x).
  { intros x (y & Hy & _ & ->)%Hrest. split; [apply cool_not_current|]. apply cool_deadline.
    by apply Hd. }
  split; [done| |].
  - exists m. rewrite List.filter_app. simpl. unfold Mem.is_current at 2. rewrite Hst.
    rewrite bool_decide_eq_true_2 by done.
    rewrite !filter_none; [done|..]; intros x Hx; apply Hnc; set_solver.
  - intros x. rewrite elem_of_app, elem_of_cons. intros [Hx|[->|Hx]].
    + apply Hnc. set_solver.
    + by left.
    + apply Hnc. set_solver.
Qed.

Lemma rotated_wallet u k now cooling l :
  Forall (λ m, KM_WalletID m = u) l → Forall (λ m, KM_WalletID m = u) (rotated u k now cooling l).
Proof.
  intros Hl. unfold rotated. set (cooled := map _ l).
  assert (Hc : Forall (λ m, KM_WalletID m = u) cooled).
  { unfold cooled. rewrite Forall_map. eapply Forall_impl; [exact Hl|]. intros m Hm.
    by rewrite cool_wallet. }
  pose proof (reactivate_spec k now cooled) as HR.
  destruct (Mem.reactivate k now cooled) as [l'|]; simpl.
  - destruct HR as (l1 & m & l2 & Ec & _ & ->). rewrite Ec in Hc.
    rewrite !Forall_app, !Forall_cons in Hc |- *. naive_solver.
  - apply Forall_app. split; [done|]. by apply Forall_singleton.
Qed.

Lemma expired_wf now l : keys_wf l → keys_wf (map (Mem.expire now) l).
Proof.
  intros [HN [m Hm] Hd]. split.
  - rewrite map_map. erewrite map_ext; [exact HN|]. intros; apply expire_key.
  - exists (Mem.expire now m). change [Mem.expire now m] with (map (Mem.expire now) [m]).
    rewrite <-Hm. clear. induction l as [|x l IH]; simpl; [done|].
    rewrite expire_current. destruct (Mem.is_current x); simpl; by rewrite IH.
  - intros x (y & -> & Hy)%list_elem_of_fmap. specialize (Hd y Hy).
    unfold Mem.expire. destruct (KM_ActiveTo y) as [to|] eqn:E; [|by rewrite E].
    destruct (Mem.is_cooling y && (now >? to)); [|by rewrite E].
    right. simpl. split; [by right|]. by eexists.
Qed.

Lemma expired_wallet now u l :
  Forall (λ m, KM_WalletID m = u) l → Forall (λ m, KM_WalletID m = u) (map (Mem.expire now) l).
Proof.
  intros H. rewrite Forall_map. eapply Forall_impl; [exact H|]. intros m <-.
  unfold compose, Mem.expire.
  destruct (KM_ActiveTo m); [|done]. by destruct (_ && _).
Qed.

(** ** The store's invariant *)

Section mem.
Context {GR : GoRuntime} {UL : UuidLib}.
Variable (em : Emitter World) (cfg : Config).
Context {EM : AuditEmitter em}.

Lemma RotateKeyMapping_run u k cooling w :
  RotateKeyMapping u k cooling w =
    (Ok (), set_store (set_keyMappings
              (insert u (rotated u k (time_at (w_clock w)) cooling
                 (Mem.mappings_of u (keyMappings (w_store w))))) (w_store w)) (tick w)).
Proof. reflexivity. Qed.

Lemma keyMappings_wf_insert u l s :
  keyMappings_wf s → keys_wf l → Forall (λ m, KM_WalletID m = u) l →
  keyMappings_wf (set_keyMappings (insert u l) s).
Proof.
  intros Hs Hl Hu u' l'. simpl. destruct (decide (u = u')) as [<-|Hne].
  - rewrite lookup_insert_eq. by intros [= <-].
  - rewrite lookup_insert_ne by done. apply Hs.
Qed.

Lemma mappings_of_wf u s :
  keyMappings_wf s →
  (Mem.mappings_of u (keyMappings s) = [] ∨ keys_wf (Mem.mappings_of u (keyMappings s))) ∧
  Forall (λ m, KM_WalletID m = u) (Mem.mappings_of u (keyMappings s)).
Proof.
  intros Hs. unfold Mem.mappings_of. destruct (keyMappings s !! u) as [l|] eqn:E; simpl.
  - destruct (Hs u l E). auto.
  - split; [by left|]. constructor.
Qed.

Lemma Rotate_wf u k : respects (on_store (preserving keyMappings_wf)) (Rotate em cfg u k).
Proof.
  unfold Rotate. apply respects_bind; [exact _| |intros _].
  - intros w Hw. rewrite RotateKeyMapping_run. simpl.
    destruct (mappings_of_wf u _ Hw). apply keyMappings_wf_insert; [done| |].
    + by apply rotated_wf.
    + by apply rotated_wallet.
  - apply (respects_emit em GKeys); [|done]. apply preserving_reads.
    intros s s' Hs. unfold keyMappings_wf. simpl in Hs. by rewrite Hs.
Qed.

Lemma ExpireCooling_wf :
  respects (on_store (preserving keyMappings_wf)) (ExpireCooling (W:=World)).
Proof.
  intros w Hw u l. simpl. rewrite lookup_fmap_Some. intros (l0 & <- & Hl0).
  destruct (Hw u l0 Hl0). split; [by apply expired_wf|by apply expired_wallet].
Qed.

Definition clashes (m : KeyMapping) (l : list KeyMapping) : bool :=
  existsb (λ ex, Mem.is_current ex && Mem.is_current m) l.

Lemma BindKeyMapping_run m w :
  let l := Mem.mappings_of (KM_WalletID m) (keyMappings (w_store w)) in
  (clashes m l = true →
     BindKeyMapping m w = (Err (New "current key mapping already exists"), w)) ∧
  (clashes m l = false → ∃ from created w', BindKeyMapping m w = (Ok (), w') ∧
     keyMappings (w_store w') =
       <[KM_WalletID m := l ++ [KM_with_created from created m]]> (keyMappings (w_store w))).
Proof.
  unfold clashes. split; intros E; unfold BindKeyMapping, memstore, Mem.BindKeyMapping; mem_cbv;
    rewrite E; [done|].
  unfold Mem.created_or_now. repeat case_bool_decide; mem_cbv; eexists _, _, _; by split.
Qed.

(** A binding succeeds only for a wallet that has no mapping yet. *)
Lemma Bind_run u k w :
  keyMappings_wf (w_store w) →
  let l := Mem.mappings_of u (keyMappings (w_store w)) in
  (l = [] ∧ ∃ from c w', Bind u k w = (Ok (), w') ∧
     keyMappings (w_store w') =
       <[u := [mkKeyMapping u k from None RotationStateCurrent c]]> (keyMappings (w_store w))) ∨
  (keys_wf l ∧ Bind u k w = (Err (New "current key mapping already exists"), tick w)).
Proof.
  intros Hw l. destruct (mappings_of_wf u _ Hw) as [Hl _]. fold l in Hl.
  set (m := mkKeyMapping u k (time_at (w_clock w)) None RotationStateCurrent
              (time_at (w_clock w))).
  destruct (BindKeyMapping_run m (tick w)) as [Hbad Hgood]. simpl in Hbad, Hgood.
  fold l in Hbad, Hgood. unfold Bind. mem_cbv. fold m. destruct Hl as [Hl|Hl].
  - left. split; [done|]. rewrite Hl in Hgood. destruct Hgood as (from & c & w' & E & Hw');
      [done|]. exists from, c, w'. by split.
  - right. split; [done|]. apply Hbad, existsb_exists. destruct Hl as [_ [m' Hm'] _].
    assert (Hin : In m' (List.filter Mem.is_current l)) by (rewrite Hm'; by left).
    apply List.filter_In in Hin as [? Hc]. exists m'. by rewrite Hc.
Qed.

Lemma Bind_wf u k : respects (on_store (preserving keyMappings_wf)) (Bind u k).
Proof.
  intros w Hw. destruct (Bind_run u k w Hw) as [(_ & from & c & w' & -> & E)|(_ & ->)];
    [|exact Hw].
  intros u' l'. simpl. rewrite E. destruct (decide (u = u')) as [<-|Hne].
  - rewrite lookup_insert_eq. intros [= <-]. split; [|by apply Forall_singleton]. split.
    + apply NoDup_singleton.
    + by eexists.
    + intros m ->%list_elem_of_singleton. by left.
  - rewrite lookup_insert_ne by done. apply Hw.
Qed.
(** ** Properties *)

(** A call of the service, or any step of the rest of the program that leaves the key mappings
    alone. *)
Inductive key_step : World → World → Prop :=
  | ks_bind u k w : key_step w (Bind u k w).2
  | ks_rotate u k w : key_step w (Rotate em cfg u k w).2
  | ks_expire w : key_step w (ExpireCooling w).2
  | ks_other w w' : keyMappings (w_store w') = keyMappings (w_store w) → key_step w w'.

Lemma key_step_wf w w' :
  key_step w w' → keyMappings_wf (w_store w) → keyMappings_wf (w_store w').
Proof.
  destruct 1 as [u k w|u k w|w|w w' E].
  - exact (Bind_wf u k w).
  - exact (Rotate_wf u k w).
  - exact (ExpireCooling_wf w).
  - intros Hw u l. rewrite E. apply Hw.
Qed.

(** C16: however bindings, rotations and expiries are interleaved, a wallet that has mappings
    has exactly one current mapping, its key ids are distinct, and exactly the mappings that
    are not current carry a deadline. *)
Theorem one_current_key w0 w u l :
  keyMappings (w_store w0) = ∅ → rtc key_step w0 w →
  keyMappings (w_store w) !! u = Some l →
  NoDup (map KM_KeyID l) ∧
  (∃ m, m ∈ l ∧ List.filter Mem.is_current l = [m] ∧ KM_ActiveTo m = None) ∧
  (∀ m, m ∈ l → KM_WalletID m = u ∧
     (KM_RotationState m = RotationStateCurrent ↔ KM_ActiveTo m = None)).
Proof.
  intros H0 Hs Hl. assert (Hwf : keyMappings_wf (w_store w)).
  { assert (keyMappings_wf (w_store w0)) by (intros u' l'; by rewrite H0, lookup_empty).
    clear H0 Hl. induction Hs; eauto using key_step_wf. }
  destruct (Hwf u l Hl) as [[HN [m Hm] Hd] Hu]. rewrite Forall_forall in Hu.
  split; [done|]. split.
  - assert (Hin : In m (List.filter Mem.is_current l)) by (rewrite Hm; by left).
    apply List.filter_In in Hin as [Hin Hc]. apply list_elem_of_In in Hin.
    exists m. split; [done|]. split; [done|]. apply bool_decide_eq_true in Hc.
    destruct (Hd m Hin) as [[_ ?]|[[Hs'|Hs'] _]]; [done|..]; rewrite Hs' in Hc; discriminate.
  - intros x Hx. split; [auto|].
    destruct (Hd x Hx) as [[-> ->]|[[->| ->] [t ->]]]; split; discriminate || done.
Qed.

Lemma Rotate_run u k w :
  ∃ w', Rotate em cfg u k w = (Ok (), w') ∧
    keyMappings (w_store w') =
      <[u := rotated u k (time_at (w_clock w)) (KeyCoolingPeriod cfg)
               (Mem.mappings_of u (keyMappings (w_store w)))]> (keyMappings (w_store w)).
Proof.
  unfold Rotate. go_cbv. rewrite RotateKeyMapping_run. go_cbv.
  match goal with |- context [emit em ?ev ?w0] => destruct (emit_step em ev w0) as (w' & E & F) end.
  exists w'. split; [exact E|]. destruct F as [F _]. exact (F GKeys ltac:(discriminate)).
Qed.

(** Rotation always succeeds.  The new key becomes the current one, active from now; the
    key that was current starts cooling until the configured period has passed; mappings that
    were already cooling or retired, and every other wallet, are left alone. *)
Theorem Rotate_spec u k w :
  keyMappings_wf (w_store w) →
  ∃ w' l', Rotate em cfg u k w = (Ok (), w') ∧
    keyMappings (w_store w') !! u = Some l' ∧
    (∃ m, List.filter Mem.is_current l' = [m] ∧ KM_KeyID m = k ∧
       KM_ActiveFrom m = time_at (w_clock w)) ∧
    (∀ m, m ∈ Mem.mappings_of u (keyMappings (w_store w)) → KM_KeyID m ≠ k →
       (if Mem.is_current m
        then KM_with RotationStateCooling (KM_ActiveFrom m)
               (Some (time_at (w_clock w) + KeyCoolingPeriod cfg)) m
        else m) ∈ l') ∧
    (∀ u', u' ≠ u → keyMappings (w_store w') !! u' = keyMappings (w_store w) !! u').
Proof.
  intros Hw. destruct (Rotate_run u k w) as (w' & E & Hw').
  destruct (mappings_of_wf u _ Hw) as [Hl _].
  set (l := Mem.mappings_of u (keyMappings (w_store w))) in *.
  set (now := time_at (w_clock w)) in *.
  pose proof (rotated_wf u k now (KeyCoolingPeriod cfg) l Hl) as [_ [mc Hmc] _].
  assert (HN : NoDup (map KM_KeyID l)) by (destruct Hl as [->|[? _ _]]; [constructor|done]).
  destruct (rotated_spec u k now (KeyCoolingPeriod cfg) l HN)
    as (l1 & m & l2 & El & Hk & Hst & Hfrom & _ & Hrest & _).
  exists w', (rotated u k now (KeyCoolingPeriod cfg) l). split; [done|].
  split; [by rewrite Hw', lookup_insert_eq|]. split; [|split].
  - exists mc. split; [done|].
    assert (Hin : In m (List.filter Mem.is_current (rotated u k now (KeyCoolingPeriod cfg) l))).
    { apply List.filter_In. split; [rewrite El; apply list_elem_of_In; set_solver|].
      unfold Mem.is_current. by rewrite Hst. }
    rewrite Hmc in Hin. destruct Hin as [->|[]]. done.
  - intros x Hx Hne. rewrite El.
    assert (Hc : Mem.cool (now + KeyCoolingPeriod cfg) x ∈ l1 ++ l2) by (apply Hrest; eauto).
    unfold Mem.cool in Hc. set_solver.
  - intros u' Hne. by rewrite Hw', lookup_insert_ne.
Qed.

(** The mappings that can sign, oldest first. *)
Definition active_keys (u : UUID) (w : World) : list KeyMapping :=
  List.filter (λ m, Mem.is_current m || Mem.is_cooling m)
    (Mem.mappings_of u (keyMappings (w_store w))).

Lemma ResolveActiveKeyID_run u w :
  (ResolveActiveKeyID u w).2 = w ∧
  match (ResolveActiveKeyID u w).1 with
  | Ok k => ∃ m, m ∈ active_keys u w ∧ KM_KeyID m = k ∧
              ∀ m', m' ∈ active_keys u w → KM_ActiveFrom m ≤ KM_ActiveFrom m'
  | Err e => active_keys u w = [] ∧ errors_Is e ErrNoRows = true
  end.
Proof.
  unfold ResolveActiveKeyID, ResolveActive, ResolveActiveKey, memstore, Mem.ResolveActiveKey.
  mem_cbv. fold (active_keys u w). set (L := active_keys u w).
  set (S := sort_Slice (λ a b, KM_ActiveFrom a <? KM_ActiveFrom b) L).
  assert (HS : StronglySorted (λ a b, (KM_ActiveFrom b <? KM_ActiveFrom a) = false) S)
    by (apply sort_Slice_sorted, strict_weak_ltb).
  assert (HP : S ≡ₚ L) by apply sort_Slice_perm.
  destruct L as [|m0 L0] eqn:EL; [done|].
  destruct S as [|m S'] eqn:ES; [by apply Permutation_nil in HP|].
  simpl. split; [done|]. exists m. split; [|split; [done|]].
  - rewrite <-HP. by left.
  - intros m'. rewrite <-HP, elem_of_cons. intros [->|Hm']; [done|].
    inversion HS as [|? ? _ HF]; subst. rewrite Forall_forall in HF. specialize (HF m' Hm').
    simpl in HF. lia.
Qed.

(** The signing key of a wallet is the one, among the current and the cooling mappings,
    that has been active for the longest time; there is none exactly when the wallet has no
    such mapping, and the error is then a no-rows error. *)
Theorem ResolveActiveKeyID_spec u w :
  (ResolveActiveKeyID u w).2 = w ∧
  match (ResolveActiveKeyID u w).1 with
  | Ok k => ∃ m, m ∈ active_keys u w ∧ KM_KeyID m = k ∧
              ∀ m', m' ∈ active_keys u w → KM_ActiveFrom m ≤ KM_ActiveFrom m'
  | Err e => active_keys u w = [] ∧ errors_Is e ErrNoRows = true
  end.
Proof. apply ResolveActiveKeyID_run. Qed.

(** A cooling key is retired by the first expiry run after its deadline and by none
    before; the rotation that started the cooling decides the deadline, and expiry never
    touches the current key. *)
Theorem cooled_key_retires u k w w1 w2 m0 :
  keyMappings_wf (w_store w) →
  m0 ∈ Mem.mappings_of u (keyMappings (w_store w)) →
  KM_RotationState m0 = RotationStateCurrent → KM_KeyID m0 ≠ k →
  Rotate em cfg u k w = (Ok (), w1) →
  keyMappings (w_store w2) = keyMappings (w_store w1) →
  let l3 := Mem.mappings_of u (keyMappings (w_store (ExpireCooling w2).2)) in
  (∃ m, m ∈ l3 ∧ KM_KeyID m = KM_KeyID m0 ∧
     KM_RotationState m =
       (if time_at (w_clock w2) >? time_at (w_clock w) + KeyCoolingPeriod cfg
        then RotationStateRetired else RotationStateCooling)) ∧
  (∃ m, m ∈ l3 ∧ KM_KeyID m = k ∧ KM_RotationState m = RotationStateCurrent).
Proof.
  intros Hw Hm0 Hcur Hne E1 E2. destruct (Rotate_run u k w) as (w1' & E & Hw1).
  rewrite E in E1. simplify_eq. destruct (mappings_of_wf u _ Hw) as [Hl _].
  set (l := Mem.mappings_of u (keyMappings (w_store w))) in *.
  set (now := time_at (w_clock w)) in *.
  assert (HN : NoDup (map KM_KeyID l)) by (destruct Hl as [->|[? _ _]]; [constructor|done]).
  destruct (rotated_spec u k now (KeyCoolingPeriod cfg) l HN)
    as (l1 & m & l2 & El & Hk & Hst & _ & _ & Hrest & _).
  assert (E3 : Mem.mappings_of u (keyMappings (w_store (ExpireCooling w2).2)) =
               map (Mem.expire (time_at (w_clock w2))) (l1 ++ m :: l2)).
  { unfold Mem.mappings_of. simpl. rewrite lookup_fmap, E2, Hw1, lookup_insert_eq. simpl.
    by rewrite El. }
  intros l3. unfold l3. rewrite E3. clear l3. split.
  - assert (Hc : Mem.cool (now + KeyCoolingPeriod cfg) m0 ∈ l1 ++ l2) by (apply Hrest; eauto).
    exists (Mem.expire (time_at (w_clock w2)) (Mem.cool (now + KeyCoolingPeriod cfg) m0)).
    split; [apply list_elem_of_fmap_2; apply elem_of_app in Hc;
      rewrite elem_of_app, elem_of_cons; destruct Hc; eauto|].
    split; [by rewrite expire_key, cool_key|].
    rewrite cool_current by done. unfold Mem.expire. simpl.
    by destruct (_ >? _).
  - exists (Mem.expire (time_at (w_clock w2)) m). split; [|split].
    + apply list_elem_of_fmap_2. rewrite elem_of_app, elem_of_cons. eauto.
    + by rewrite expire_key.
    + assert (Hc : Mem.is_current (Mem.expire (time_at (w_clock w2)) m) = true).
      { rewrite expire_current. unfold Mem.is_current. by rewrite Hst. }
      by apply bool_decide_eq_true in Hc.
Qed.

(** While the old key is cooling it is still the one that signs: right after a rotation
    to a new key, the service resolves the key that was just rotated out. *)
Theorem ResolveActiveKeyID_after_rotation u k w m0 :
  Mem.mappings_of u (keyMappings (w_store w)) = [m0] →
  KM_RotationState m0 = RotationStateCurrent → KM_KeyID m0 ≠ k →
  KM_ActiveFrom m0 < time_at (w_clock w) →
  (ResolveActiveKeyID u (Rotate em cfg u k w).2).1 = Ok (KM_KeyID m0).
Proof.
  intros Hl Hcur Hne Hlt. destruct (Rotate_run u k w) as (w' & E & Hw'). rewrite E. simpl.
  set (now := time_at (w_clock w)) in *.
  assert (HA : active_keys u w' = [KM_with RotationStateCooling (KM_ActiveFrom m0)
                 (Some (now + KeyCoolingPeriod cfg)) m0;
               mkKeyMapping u k now None RotationStateCurrent now]).
  { unfold active_keys, Mem.mappings_of. rewrite Hw', lookup_insert_eq. simpl. rewrite Hl.
    unfold rotated. cbn [map]. rewrite cool_current by done. simpl.
    by rewrite bool_decide_eq_false_2. }
  destruct (ResolveActiveKeyID_run u w') as [_ Hr]. rewrite HA in Hr.
  destruct (ResolveActiveKeyID u w').1 as [k'|e]; [|by destruct Hr].
  destruct Hr as (m & Hm & <- & Hmin).
  rewrite elem_of_cons, list_elem_of_singleton in Hm. destruct Hm as [->| ->]; [done|].
  specialize (Hmin _ (list_elem_of_here _ _)). simpl in Hmin. lia.
Qed.
End mem.

(** ** Witnesses *)

Section witnesses.
Definition key_rt : GoRuntime := simple_runtime 1.
#[local] Existing Instances key_rt simple_uuid.

Definition key_cfg : Config := service_config 7 12 6 "finalized" (SpecFloat.S754_zero false) 0 5000000.
Definition bound_world : World := (Bind 7%N "k1" NewWorld).2.
Definition rotated_world : World := (Rotate EmitterService key_cfg 7%N "k2" bound_world).2.

Example keys_after_rotation :
  map (λ m, (KM_KeyID m, KM_RotationState m))
      (Mem.mappings_of 7%N (keyMappings (w_store rotated_world)))
  = [("k1", "COOLING"); ("k2", "CURRENT")]%string.
Proof. vm_compute. reflexivity. Qed.

Lemma bound_world_wf : keyMappings_wf (w_store bound_world).
Proof.
  apply (key_step_wf EmitterService key_cfg NewWorld); [apply ks_bind|].
  intros u l H. assert (keyMappings (w_store NewWorld) !! u = None) by apply lookup_empty.
  congruence.
Defined.

Lemma one_current_key_witness :
  ∃ l, keyMappings (w_store rotated_world) !! 7%N = Some l ∧ NoDup (map KM_KeyID l).
Proof.
  destruct (keyMappings (w_store rotated_world) !! 7%N) as [l|] eqn:E;
    [|vm_compute in E; discriminate].
  exists l. split; [reflexivity|].
  apply (one_current_key EmitterService key_cfg NewWorld rotated_world 7%N l);
    [reflexivity| |exact E].
  apply (rtc_l _ _ bound_world); [exact (ks_bind _ _ 7%N "k1" NewWorld)|].
  apply rtc_once. exact (ks_rotate _ _ 7%N "k2" bound_world).
Defined.

Lemma Rotate_spec_witness :
  ∃ w' l', Rotate EmitterService key_cfg 7%N "k2" bound_world = (Ok (), w') ∧
    keyMappings (w_store w') !! 7%N = Some l' ∧
    ∃ m, List.filter Mem.is_current l' = [m] ∧ KM_KeyID m = "k2"%string.
Proof.
  destruct (Rotate_spec EmitterService key_cfg 7%N "k2" bound_world bound_world_wf)
    as (w' & l' & E & Hl & (m & Hm & Hk & _) & _).
  exists w', l'. split; [exact E|]. split; [exact Hl|]. by exists m.
Defined.

Lemma cooled_key_retires_witness :
  ∃ m, m ∈ Mem.mappings_of 7%N (keyMappings (w_store (ExpireCooling rotated_world).2)) ∧
       KM_KeyID m = "k1"%string ∧ KM_RotationState m = RotationStateCooling.
Proof.
  destruct (Mem.mappings_of 7%N (keyMappings (w_store bound_world))) as [|m0 l0] eqn:E0;
    [vm_compute in E0; discriminate|].
  assert (Hm0 : KM_KeyID m0 = "k1"%string ∧ KM_RotationState m0 = RotationStateCurrent).
  { vm_compute in E0. injection E0 as <- _. by split. }
  destruct Hm0 as [Hk0 Hst0].
  destruct (cooled_key_retires EmitterService key_cfg 7%N "k2" bound_world rotated_world
              rotated_world m0 bound_world_wf) as [(m & Hm & Hk & Hst) _].
  - rewrite E0. by left.
  - exact Hst0.
  - by rewrite Hk0.
  - vm_compute. reflexivity.
  - reflexivity.
  - exists m. split; [exact Hm|]. split; [by rewrite Hk|exact Hst].
Defined.

Lemma ResolveActiveKeyID_after_rotation_witness :
  (ResolveActiveKeyID 7%N rotated_world).1 = Ok "k1"%string.
Proof.
  set (m0 := mkKeyMapping 7 "k1" 1 None RotationStateCurrent 1).
  apply (ResolveActiveKeyID_after_rotation EmitterService key_cfg 7%N "k2" bound_world m0);
    vm_compute; congruence || reflexivity.
Defined.
End witnesses.
