(* ===== verification/Rlp.v ===== *)
(** * Rlp: the RLP encoder of the transaction builder (internal/withdrawal/txbuilder.go)

    The encoder as written, and a decoder for RLP lists of byte strings, written from the
    format and independent of the encoder, against which the encoder is proved correct. *)

From S2P Require Import Prelude GoLib Bytes.

Local Open Scope Z_scope.

(** The tail of a buffer from its first nonzero byte on. *)
Fixpoint from_nonzero (l : bytes) : option bytes :=
  match l with
  | [] => None
  | c :: r => if c =? 0 then from_nonzero r else Some l
  end.

Definition bigUint (n : Z) : bytes :=
  if n =? 0 then []
  else let b := be64 n in default (drop 7 b) (from_nonzero b).

Definition rlpEncodeLenPrefix (n offset longOffset : Z) : bytes :=
  if n <=? 55 then [(n + offset) `mod` 256]
  else
    let lenBytes := bigUint n in
    (longOffset + Z.of_nat (length lenBytes)) `mod` 256 :: lenBytes.

Definition rlpEncodeItem (b : bytes) : bytes :=
  let enc := rlpEncodeLenPrefix (Z.of_nat (length b)) 128 183 ++ b in
  match b with
  | [x] => if x <? 128 then b else enc
  | _ => enc
  end.

Definition evmEncodeList (elems : list bytes) : bytes :=
  let inner := concat (map rlpEncodeItem elems) in
  rlpEncodeLenPrefix (Z.of_nat (length inner)) 192 247 ++ inner.

(** ** The reference decoder *)

(** Splits off [n] bytes. *)
Definition split_at (n : Z) (l : bytes) : option (bytes * bytes) :=
  if bool_decide (n ≤ Z.of_nat (length l))
  then Some (take (Z.to_nat n) l, drop (Z.to_nat n) l) else None.

(** The content announced by the head byte [b], and what follows it. *)
Definition decode_content (b base : Z) (l : bytes) : option (bytes * bytes) :=
  if b <=? base + 55 then split_at (b - base) l
  else '(len, l) ← split_at (b - (base + 55)) l; split_at (be_value len) l.

Definition rlp_decode_item (l : bytes) : option (bytes * bytes) :=
  match l with
  | [] => None
  | b :: r =>
      if b <? 128 then Some ([b], r)
      else if b <? 192 then decode_content b 128 r
      else None
  end.

Fixpoint rlp_decode_items (fuel : nat) (l : bytes) : option (list bytes) :=
  match l, fuel with
  | [], _ => Some []
  | _, O => None
  | _, S fuel =>
      '(x, r) ← rlp_decode_item l;
      xs ← rlp_decode_items fuel r;
      Some (x :: xs)
  end.

(** A whole buffer that holds one list. *)
Definition rlp_decode_list (l : bytes) : option (list bytes) :=
  match l with
  | [] => None
  | b :: r =>
      if b <? 192 then None
      else
        '(inner, rest) ← decode_content b 192 r;
        match rest with [] => rlp_decode_items (length inner) inner | _ => None end
  end.

(** ** Lengths *)

Lemma from_nonzero_spec l :
  Forall is_byte l → be_value l ≠ 0 →
  ∃ r, from_nonzero l = Some r ∧ be_value r = be_value l ∧ Forall is_byte r ∧ canonical r.
Proof.
  induction 1 as [|c l Hc Hl IH]; intros Hv; simpl; [done|].
  destruct (Z.eqb_spec c 0) as [->|Hne].
  - rewrite be_value_cons, Z.mul_0_l, Z.add_0_l in Hv |- *. auto.
  - exists (c :: l). split; [done|]. split; [done|]. split; [by constructor|done].
Qed.

(** On machine words [bigUint] is the big integer's own encoding. *)
Lemma bigUint_big_Bytes n : 0 ≤ n ≤ max_uint64 → bigUint n = big_Bytes n.
Proof.
  intros Hn. unfold bigUint. destruct (Z.eqb_spec n 0) as [->|Hne]; [reflexivity|].
  pose proof (be64_value n Hn) as Hv.
  destruct (from_nonzero_spec (be64 n) (be64_bytes n)) as (r & -> & Hr & HB & HC); [lia|].
  simpl. destruct (big_Bytes_spec n) as (Hv' & HB' & HC').
  apply canonical_inj; auto. lia.
Qed.

Lemma bigUint_spec n :
  0 ≤ n ≤ max_uint64 →
  be_value (bigUint n) = n ∧ Forall is_byte (bigUint n) ∧ (length (bigUint n) ≤ 8)%nat.
Proof.
  intros Hn. rewrite bigUint_big_Bytes by done. destruct (big_Bytes_spec n) as (Hv & HB & _).
  split; [lia|]. split; [done|]. apply big_Bytes_length. unfold max_uint64 in Hn.
  change (256 ^ Z.of_nat 8) with (2 ^ 64). lia.
Qed.

Lemma split_at_app l1 l2 : split_at (Z.of_nat (length l1)) (l1 ++ l2) = Some (l1, l2).
Proof.
  unfold split_at. rewrite bool_decide_eq_true_2 by (rewrite length_app; lia).
  by rewrite Nat2Z.id, take_app_length, drop_app_length.
Qed.

(** The prefix and the content together decode to the content. *)
Lemma decode_prefix base l rest :
  base = 128 ∨ base = 192 → Z.of_nat (length l) ≤ max_int64 →
  ∃ b r, rlpEncodeLenPrefix (Z.of_nat (length l)) base (base + 55) ++ l ++ rest = b :: r ∧
    base ≤ b < base + 64 ∧ decode_content b base r = Some (l, rest).
Proof.
  intros Hbase Hlen. unfold rlpEncodeLenPrefix, decode_content.
  destruct (Z.leb_spec (Z.of_nat (length l)) 55) as [Hs|Hl].
  - rewrite Z.mod_small by lia. eexists _, _. split; [reflexivity|]. split; [lia|].
    destruct (Z.leb_spec (Z.of_nat (length l) + base) (base + 55)); [|lia].
    replace (Z.of_nat (length l) + base - base) with (Z.of_nat (length l)) by lia.
    apply split_at_app.
  - destruct (bigUint_spec (Z.of_nat (length l))) as (Hv & _ & Hk);
      [unfold max_int64, max_uint64 in *; lia|].
    set (k := Z.of_nat (length (bigUint (Z.of_nat (length l))))) in *.
    assert (0 < k ≤ 8).
    { split; [|lia]. unfold k. destruct (bigUint (Z.of_nat (length l))) eqn:E; [|simpl; lia].
      unfold be_value in Hv. simpl in Hv. lia. }
    rewrite Z.mod_small by lia. eexists _, _. split; [reflexivity|]. split; [lia|].
    destruct (Z.leb_spec (base + 55 + k) (base + 55)); [lia|].
    replace (base + 55 + k - (base + 55)) with k by lia.
    unfold k. rewrite split_at_app. simpl. rewrite Hv. apply split_at_app.
Qed.

Lemma rlp_decode_item_encode b rest :
  Forall is_byte b → Z.of_nat (length b) ≤ max_int64 →
  rlp_decode_item (rlpEncodeItem b ++ rest) = Some (b, rest).
Proof.
  intros Hb Hlen.
  assert (Henc : rlp_decode_item
            ((rlpEncodeLenPrefix (Z.of_nat (length b)) 128 183 ++ b) ++ rest) = Some (b, rest)).
  { rewrite <-app_assoc.
    destruct (decode_prefix 128 b rest) as (h & r & E & Hh & Hd); [by left|done|].
    change (128 + 55) with 183 in E. rewrite E. simpl.
    destruct (Z.ltb_spec h 128); [lia|]. destruct (Z.ltb_spec h 192); [done|lia]. }
  unfold rlpEncodeItem. destruct b as [|x [|y b]]; [exact Henc| |exact Henc].
  destruct (x <? 128) eqn:Ex; [|exact Henc]. simpl. by rewrite Ex.
Qed.

Lemma rlpEncodeItem_length b : (0 < length (rlpEncodeItem b))%nat ∧
  (length b ≤ length (rlpEncodeItem b))%nat.
Proof.
  assert (H : (0 < length (rlpEncodeLenPrefix (Z.of_nat (length b)) 128 183 ++ b))%nat ∧
     (length b ≤ length (rlpEncodeLenPrefix (Z.of_nat (length b)) 128 183 ++ b))%nat).
  { rewrite length_app. unfold rlpEncodeLenPrefix. destruct (_ <=? _); simpl; lia. }
  unfold rlpEncodeItem. destruct b as [|x [|y b]]; [exact H| |exact H].
  destruct (x <? 128); [simpl; lia|exact H].
Qed.

Lemma rlp_decode_items_encode elems fuel :
  Forall (Forall is_byte) elems →
  Z.of_nat (length (concat (map rlpEncodeItem elems))) ≤ max_int64 →
  (length (concat (map rlpEncodeItem elems)) ≤ fuel)%nat →
  rlp_decode_items fuel (concat (map rlpEncodeItem elems)) = Some elems.
Proof.
  intros HF. revert fuel. induction HF as [|x xs Hx _ IH]; intros fuel Hlen Hfuel.
  - by destruct fuel.
  - cbn [map concat] in *. rewrite length_app in Hlen, Hfuel.
    destruct (rlpEncodeItem_length x) as [Hpos Hle].
    destruct fuel as [|fuel]; [lia|].
    destruct (rlpEncodeItem x ++ concat (map rlpEncodeItem xs)) as [|h r] eqn:E.
    { apply (f_equal length) in E. rewrite length_app in E. simpl in E. lia. }
    cbn [rlp_decode_items]. rewrite <-E, rlp_decode_item_encode by (done || lia). simpl.
    rewrite IH by lia. done.
Qed.

Lemma evmEncodeList_decode elems :
  Forall (Forall is_byte) elems →
  Z.of_nat (length (concat (map rlpEncodeItem elems))) ≤ max_int64 →
  rlp_decode_list (evmEncodeList elems) = Some elems.
Proof.
  intros HF Hlen. unfold evmEncodeList.
  set (inner := concat (map rlpEncodeItem elems)) in *.
  destruct (decode_prefix 192 inner []) as (h & r & E & Hh & Hd); [by right|done|].
  rewrite app_nil_r in E. change (192 + 55) with 247 in E. rewrite E.
  unfold rlp_decode_list. destruct (Z.ltb_spec h 192); [lia|]. rewrite Hd. simpl.
  by apply rlp_decode_items_encode.
Qed.

(** C13: the list encoder is correct for every list of byte strings of a size a Go slice can
    have: the reference decoder reads back exactly the elements, so two different lists never
    share an encoding. *)
Theorem evmEncodeList_roundtrip elems elems' :
  Forall (Forall is_byte) elems → Forall (Forall is_byte) elems' →
  Z.of_nat (length (concat (map rlpEncodeItem elems))) ≤ max_int64 →
  Z.of_nat (length (concat (map rlpEncodeItem elems'))) ≤ max_int64 →
  rlp_decode_list (evmEncodeList elems) = Some elems ∧
  (evmEncodeList elems = evmEncodeList elems' → elems = elems').
Proof.
  intros H1 H2 L1 L2. split; [by apply evmEncodeList_decode|]. intros E.
  pose proof (evmEncodeList_decode elems H1 L1) as E1.
  pose proof (evmEncodeList_decode elems' H2 L2) as E2. rewrite E in E1. congruence.
Qed.

(** The published example ["cat", "dog"], and a string longer than 55 bytes. *)
Example rlp_cat_dog :
  evmEncodeList [bytes_of_string "cat"; bytes_of_string "dog"]
  = [200; 131; 99; 97; 116; 131; 100; 111; 103].
Proof. reflexivity. Qed.

Lemma evmEncodeList_roundtrip_witness :
  rlp_decode_list (evmEncodeList [repeat 7 300; [5]; []]) = Some [repeat 7 300; [5]; []] ∧
  (evmEncodeList [repeat 7 300; [5]; []] = evmEncodeList [[1]] → [repeat 7 300; [5]; []] = [[1]]).
Proof.
  apply (evmEncodeList_roundtrip [repeat 7 300; [5]; []] [[1]]).
  - repeat constructor; vm_compute; congruence.
  - repeat constructor; vm_compute; congruence.
  - vm_compute. congruence.
  - vm_compute. congruence.
Defined.
