(* ===== verification/Evm.v ===== *)
(** * Evm: legacy EIP-155 transactions (internal/withdrawal/txbuilder.go)

    Address parsing, the signing payload and the assembly of the signed transaction.  Keccak
    is a parameter; everything up to the hash is modelled. *)

From S2P Require Import Prelude GoLib Bytes Extern Domain Storage Rlp.

Local Open Scope Z_scope.

(** What a chain's builder returns: the bytes the signer signs, and how to put its signature
    into the transaction. *)
Record UnsignedTx := mkUnsignedTx {
  UT_Chain : Chain;
  UT_Payload : bytes;
  UT_Assemble : bytes → res bytes;
}.

(** Amounts and addresses of the variables in the package. *)
Definition EVMChainID : Z := 1.
Definition EVMGasPrice : Z := 1000000000.
Definition EVMGasLimit : Z := 21000.

Record evmLegacyTx := newEVMLegacyTx {
  tx_Nonce : Z;
  tx_GasPrice : Z;
  tx_GasLimit : Z;
  tx_To : bytes;
  tx_Value : Z;
  tx_Data : bytes;
}.

Definition stripZero (b : bytes) : bytes := match b with [] => [] | _ => b end.

(** The six elements both encodings share. *)
Definition tx_elems (tx : evmLegacyTx) : list bytes :=
  [bigUint (tx_Nonce tx); big_Bytes (tx_GasPrice tx); bigUint (tx_GasLimit tx); tx_To tx;
   big_Bytes (tx_Value tx); stripZero (tx_Data tx)].

Definition evmEncodeLegacyForSigning (tx : evmLegacyTx) (chainID : Z) : bytes :=
  evmEncodeList (tx_elems tx ++ [big_Bytes chainID; []; []]).

Record evmSignedLegacyTx := evmAssembleLegacyTx {
  stx_tx : evmLegacyTx;
  stx_R : Z;
  stx_S : Z;
  stx_V : Z;
}.

Definition evmEncodeSignedTx (t : evmSignedLegacyTx) : bytes :=
  evmEncodeList (tx_elems (stx_tx t) ++
                 [big_Bytes (stx_V t); big_Bytes (stx_R t); big_Bytes (stx_S t)]).

(** [(r, s, v)] of a compact signature. *)
Definition evmSigFromMPC (sig : bytes) (chainID : Z) : res (Z * Z * Z) :=
  if negb (length sig =? 65)%nat
  then Err (Errorf "evm: signature must be 65 bytes, got %d" [FInt (Z.of_nat (length sig))])
  else
    let header := nth 0 sig 0 in
    if (header <? 27) || (34 <? header)
    then Err (Errorf "evm: invalid recovery header %d" [FInt header])
    else
      let recoveryID := header - 27 in
      let recoveryID := if 4 <=? recoveryID then recoveryID - 4 else recoveryID in
      let r := be_value (take 32 (drop 1 sig)) in
      let s := be_value (take 32 (drop 33 sig)) in
      Ok (r, s, chainID * 2 + (35 + recoveryID)).

Definition hexNibble (c : Z) : option Z :=
  if (48 <=? c) && (c <=? 57) then Some (c - 48)
  else if (97 <=? c) && (c <=? 102) then Some (c - 97 + 10)
  else if (65 <=? c) && (c <=? 70) then Some (c - 65 + 10)
  else None.

(** The loop over the hex digits, two at a time. *)
Fixpoint hex_pairs (l : bytes) : option bytes :=
  match l with
  | c1 :: c2 :: l =>
      hi ← hexNibble c1;
      lo ← hexNibble c2;
      rest ← hex_pairs l;
      Some (Z.lor (Z.shiftl hi 4) lo :: rest)
  | _ => Some []
  end.

Definition parseEVMAddress (str : string) : res bytes :=
  let s := TrimSpace (bytes_of_string str) in
  if negb (has_prefix (bytes_of_string "0x") s) || negb (length s =? 42)%nat
  then Err (Errorf "invalid EVM address %q" [FStr (string_of_bytes s)])
  else
    match hex_pairs (drop 2 s) with
    | Some out => Ok out
    | None => Err (Errorf "invalid hex in EVM address %q" [FStr (string_of_bytes s)])
    end.

Section build.
Context {CL : CryptoLib}.

Definition evmSigningHash (tx : evmLegacyTx) (chainID : Z) : bytes :=
  keccak256 (evmEncodeLegacyForSigning tx chainID).

Definition buildEVMUnsignedTx (w : Wallet) (wr : WithdrawalRequest) (nonce : Z) :
    res UnsignedTx :=
  match parseEVMAddress (WR_ToAddress wr) with
  | Err err => Err (Wrapf "evm to_address: %w" [] err)
  | Ok to =>
      match big_SetString (WR_Amount wr) with
      | None => Err (Errorf "evm amount parse: %q" [FStr (WR_Amount wr)])
      | Some value =>
          let nonce := if nonce <? 0 then 0 else nonce in
          let tx := newEVMLegacyTx nonce EVMGasPrice EVMGasLimit to value [] in
          Ok (mkUnsignedTx (Wallet_Chain w) (evmSigningHash tx EVMChainID)
                (λ signature,
                   match evmSigFromMPC signature EVMChainID with
                   | Err err => Err err
                   | Ok (r, s, v) => Ok (evmEncodeSignedTx (evmAssembleLegacyTx tx r s v))
                   end))
      end
  end.
End build.

(** ** Facts *)

(** What the Go types guarantee, and amounts that fit 256 bits. *)
Record tx_ok (tx : evmLegacyTx) : Prop := {
  to_nonce : 0 ≤ tx_Nonce tx ≤ max_uint64;
  to_price : 0 ≤ tx_GasPrice tx < 2 ^ 256;
  to_limit : 0 ≤ tx_GasLimit tx ≤ max_uint64;
  to_to : Forall is_byte (tx_To tx) ∧ length (tx_To tx) = 20%nat;
  to_value : Z.abs (tx_Value tx) < 2 ^ 256;
  to_data : Forall is_byte (tx_Data tx) ∧ Z.of_nat (length (tx_Data tx)) ≤ 2 ^ 62;
}.

Lemma stripZero_id b : stripZero b = b.
Proof. by destruct b. Qed.

Lemma big_Bytes_ok z : Z.abs z < 2 ^ 256 →
  Forall is_byte (big_Bytes z) ∧ (length (big_Bytes z) ≤ 32)%nat.
Proof.
  intros Hz. split; [apply big_Bytes_spec|]. apply big_Bytes_length.
  change (256 ^ Z.of_nat 32) with (2 ^ 256). done.
Qed.

Lemma tx_elems_ok tx :
  tx_ok tx →
  Forall (λ b, Forall is_byte b ∧ Z.of_nat (length b) ≤ 2 ^ 62) (tx_elems tx).
Proof.
  intros [Hn Hp Hl [Ht Ht'] Hv [Hd Hd']]. unfold tx_elems. rewrite stripZero_id.
  destruct (bigUint_spec _ Hn) as (_ & ? & ?), (bigUint_spec _ Hl) as (_ & ? & ?).
  destruct (big_Bytes_ok (tx_GasPrice tx)) as [? ?]; [lia|].
  destruct (big_Bytes_ok (tx_Value tx) Hv) as [? ?].
  repeat constructor; auto; lia.
Qed.

Lemma rlpEncodeItem_upper b :
  Z.of_nat (length b) ≤ 2 ^ 62 → (length (rlpEncodeItem b) ≤ length b + 9)%nat.
Proof.
  intros Hb. assert (Hp : (length (rlpEncodeLenPrefix (Z.of_nat (length b)) 128 183) ≤ 9)%nat).
  { unfold rlpEncodeLenPrefix. destruct (_ <=? _); simpl; [lia|].
    destruct (bigUint_spec (Z.of_nat (length b))) as (_ & _ & ?); [unfold max_uint64; lia|lia]. }
  unfold rlpEncodeItem. destruct b as [|x [|y b]]; [..|rewrite length_app; lia].
  - rewrite length_app. lia.
  - destruct (x <? 128); [simpl; lia|]. rewrite length_app. lia.
Qed.

(** Nine elements, only one of them possibly long, fit comfortably. *)
Lemma tx_list_decodes tx a b c :
  tx_ok tx →
  Forall (λ x, Forall is_byte x ∧ (length x ≤ 33)%nat) [a; b; c] →
  rlp_decode_list (evmEncodeList (tx_elems tx ++ [a; b; c])) = Some (tx_elems tx ++ [a; b; c]).
Proof.
  intros Htx Habc. pose proof (tx_elems_ok tx Htx) as HE.
  apply evmEncodeList_decode.
  - apply Forall_app. split; [eapply list.Forall_impl; [exact HE|] | eapply list.Forall_impl; [exact Habc|]]; simpl; tauto.
  - destruct Htx as [Hn Hp Hl [_ Ht] Hv [_ Hd]].
    destruct (bigUint_spec _ Hn) as (_ & _ & L1), (bigUint_spec _ Hl) as (_ & _ & L3).
    destruct (big_Bytes_ok (tx_GasPrice tx)) as [_ L2]; [lia|].
    destruct (big_Bytes_ok (tx_Value tx) Hv) as [_ L5].
    repeat match type of Habc with
      | Forall _ (_ :: _) => apply list.Forall_cons in Habc as [[_ ?] Habc] end.
    unfold tx_elems. rewrite stripZero_id. cbn [app map concat]. rewrite !length_app.
    pose proof (rlpEncodeItem_upper (bigUint (tx_Nonce tx)) ltac:(lia)).
    pose proof (rlpEncodeItem_upper (big_Bytes (tx_GasPrice tx)) ltac:(lia)).
    pose proof (rlpEncodeItem_upper (bigUint (tx_GasLimit tx)) ltac:(lia)).
    pose proof (rlpEncodeItem_upper (tx_To tx) ltac:(lia)).
    pose proof (rlpEncodeItem_upper (big_Bytes (tx_Value tx)) ltac:(lia)).
    pose proof (rlpEncodeItem_upper (tx_Data tx) ltac:(lia)).
    pose proof (rlpEncodeItem_upper a ltac:(lia)). pose proof (rlpEncodeItem_upper b ltac:(lia)).
    pose proof (rlpEncodeItem_upper c ltac:(lia)).
    cbn [length]. unfold max_int64. lia.
Qed.

Lemma bigUint_inj a b :
  0 ≤ a ≤ max_uint64 → 0 ≤ b ≤ max_uint64 → bigUint a = bigUint b → a = b.
Proof.
  intros Ha Hb E. destruct (bigUint_spec a Ha) as [<- _], (bigUint_spec b Hb) as [<- _].
  by rewrite E.
Qed.

Lemma chain_ok c : 0 ≤ c < 2 ^ 256 →
  Forall (λ x, Forall is_byte x ∧ (length x ≤ 33)%nat) [big_Bytes c; []; []].
Proof.
  intros Hc. destruct (big_Bytes_ok c) as [? ?]; [lia|].
  rewrite !list.Forall_cons, !list.Forall_nil. simpl. split_and!; auto; lia.
Qed.

(** The fields of a transaction with its amount taken absolutely: [big.Int.Bytes] has no sign. *)
Definition unsigned_amount (tx : evmLegacyTx) : evmLegacyTx :=
  newEVMLegacyTx (tx_Nonce tx) (tx_GasPrice tx) (tx_GasLimit tx) (tx_To tx)
    (Z.abs (tx_Value tx)) (tx_Data tx).

Lemma tx_elems_unsigned tx : tx_elems (unsigned_amount tx) = tx_elems tx.
Proof. unfold tx_elems, big_Bytes. simpl. by rewrite Z.abs_involutive. Qed.

Lemma tx_elems_inj tx tx' :
  tx_ok tx → tx_ok tx' → tx_elems tx = tx_elems tx' → unsigned_amount tx = unsigned_amount tx'.
Proof.
  intros H H' E. unfold tx_elems in E. rewrite !stripZero_id in E. injection E as E1 E2 E3 E4 E5 E6.
  apply bigUint_inj in E1, E3; try apply H; try apply H'. apply big_Bytes_inj in E2, E5.
  pose proof (to_price _ H). pose proof (to_price _ H'). unfold unsigned_amount. f_equal; auto. lia.
Qed.

(** C12: two EVM transactions, with fields in the range of their types, are hashed for signing as
    the same bytes exactly when they are for the same chain and agree in the nonce, the gas terms,
    the recipient, the data and the absolute value of the amount.  So the signature binds the
    transaction and the chain, except for the sign of the amount, which is not signed although
    negative amounts are accepted; with amounts that are not negative the transactions are
    equal. *)
Theorem evm_signing_binds tx tx' c c' :
  tx_ok tx → tx_ok tx' → 0 ≤ c < 2 ^ 256 → 0 ≤ c' < 2 ^ 256 →
  (evmEncodeLegacyForSigning tx c = evmEncodeLegacyForSigning tx' c' ↔
     unsigned_amount tx = unsigned_amount tx' ∧ c = c') ∧
  (0 ≤ tx_Value tx → 0 ≤ tx_Value tx' →
   evmEncodeLegacyForSigning tx c = evmEncodeLegacyForSigning tx' c' → tx = tx' ∧ c = c').
Proof.
  intros H H' Hc Hc'.
  assert (HI : evmEncodeLegacyForSigning tx c = evmEncodeLegacyForSigning tx' c' →
    unsigned_amount tx = unsigned_amount tx' ∧ c = c').
  { intros E. unfold evmEncodeLegacyForSigning in E.
    pose proof (tx_list_decodes tx _ _ _ H (chain_ok c Hc)) as D.
    rewrite E, (tx_list_decodes tx' _ _ _ H' (chain_ok c' Hc')) in D. apply (inj Some) in D.
    apply app_inj_1 in D as [D1 D2]; [|reflexivity]. split; [by apply tx_elems_inj|].
    injection D2 as D2. apply big_Bytes_inj in D2. lia. }
  split; [split; [exact HI|]|].
  - intros [E ->]. unfold evmEncodeLegacyForSigning.
    by rewrite <-tx_elems_unsigned, E, tx_elems_unsigned.
  - intros Hv Hv' [E ->]%HI. split; [|done]. unfold unsigned_amount in E.
    rewrite !Z.abs_eq in E by done. destruct tx, tx'. simpl in E. by injection E as -> -> -> -> -> ->.
Qed.

(** ** Assembly *)

Lemma be_value_take32 l : Forall is_byte l → Z.abs (be_value (take 32 l)) < 2 ^ 256.
Proof.
  intros Hl. pose proof (be_value_bound (take 32 l) (Forall_take _ 32 _ Hl)) as [H0 H1].
  rewrite Z.abs_eq by done. eapply Z.lt_le_trans; [exact H1|].
  change (2 ^ 256) with (256 ^ 32). apply Z.pow_le_mono_r; [lia|].
  pose proof (length_take l 32). lia.
Qed.

(** Any 65-byte signature with a valid header gives an encoding that reads back as the
    signed fields. *)
Lemma assemble_decodes tx sig c :
  tx_ok tx → 0 ≤ c < 2 ^ 64 → Forall is_byte sig →
  length sig = 65%nat → 27 ≤ nth 0 sig 0 ≤ 34 →
  ∃ r s v, evmSigFromMPC sig c = Ok (r, s, v) ∧
    r = be_value (take 32 (drop 1 sig)) ∧ s = be_value (take 32 (drop 33 sig)) ∧
    v = 35 + 2 * c + (nth 0 sig 0 - 27) `mod` 4 ∧
    rlp_decode_list (evmEncodeSignedTx (evmAssembleLegacyTx tx r s v)) =
      Some (tx_elems tx ++ [big_Bytes v; big_Bytes r; big_Bytes s]).
Proof.
  intros Htx Hc Hsig Hlen Hh. unfold evmSigFromMPC. rewrite Hlen. cbn [Nat.eqb negb].
  destruct (Z.ltb_spec (nth 0 sig 0) 27), (Z.ltb_spec 34 (nth 0 sig 0)); try lia. cbn [orb].
  set (h := nth 0 sig 0) in *.
  assert (Hrec : (if 4 <=? h - 27 then h - 27 - 4 else h - 27) = (h - 27) `mod` 4).
  { destruct (Z.leb_spec 4 (h - 27)); Z.to_euclidean_division_equations; lia. }
  rewrite Hrec. eexists _, _, _. split; [reflexivity|]. split; [done|]. split; [done|].
  split; [lia|]. unfold evmEncodeSignedTx. cbn [stx_tx stx_R stx_S stx_V].
  apply tx_list_decodes; [done|].
  assert (Hb : ∀ z, Z.abs z < 2 ^ 256 →
            Forall is_byte (big_Bytes z) ∧ (length (big_Bytes z) ≤ 33)%nat).
  { intros z Hz. destruct (big_Bytes_ok z Hz). split; [done|lia]. }
  pose proof (Z.mod_pos_bound (h - 27) 4 ltac:(lia)).
  rewrite !list.Forall_cons. split_and!; [..|by apply list.Forall_nil];
    apply Hb; try (apply be_value_take32; by apply Forall_drop); lia.
Qed.

(** ** Address parsing *)

Definition hex_char (upper : bool) (n : Z) : Z :=
  if n <? 10 then 48 + n else if upper then 65 + (n - 10) else 97 + (n - 10).

(** A byte as two hex digits, each in either case. *)
Definition hex_byte (x : Z * bool * bool) : bytes :=
  let '(b, u1, u2) := x in [hex_char u1 (b / 16); hex_char u2 (b `mod` 16)].

Lemma hexNibble_char u n : 0 ≤ n < 16 → hexNibble (hex_char u n) = Some n.
Proof.
  intros Hn. assert (Hc : n ∈ [0; 1; 2; 3; 4; 5; 6; 7; 8; 9; 10; 11; 12; 13; 14; 15])
    by (rewrite !elem_of_cons; lia).
  rewrite !elem_of_cons, elem_of_nil in Hc. destruct u;
    repeat (destruct Hc as [->|Hc]; [reflexivity|]); done.
Qed.

Lemma hexNibble_range c n : hexNibble c = Some n → 0 ≤ n < 16.
Proof. unfold hexNibble. repeat case_match; intros; simplify_eq; lia. Qed.

Lemma nibbles_join hi lo : 0 ≤ hi → 0 ≤ lo < 16 → Z.lor (Z.shiftl hi 4) lo = 16 * hi + lo.
Proof.
  intros Hh Hl. rewrite Z.shiftl_mul_pow2 by lia. change (2 ^ 4) with 16.
  assert (E : Z.land (hi * 16) lo = 0);
    [|pose proof (Z.add_lor_land (hi * 16) lo) as Hadd; rewrite E in Hadd; lia].
  apply Z.bits_inj'. intros i Hi. rewrite Z.land_spec, Z.bits_0.
  change 16 with (2 ^ 4). destruct (Z.lt_ge_cases i 4).
  - rewrite Z.mul_pow2_bits_low by lia. done.
  - rewrite andb_comm. replace (Z.testbit lo i) with false; [done|]. symmetry.
    destruct (decide (lo = 0)) as [->|]; [by rewrite Z.bits_0|].
    apply Z.bits_above_log2; [lia|]. apply Z.log2_lt_pow2; [lia|].
    pose proof (Z.pow_le_mono_r 2 4 i). lia.
Qed.

Lemma hex_pairs_print l :
  Forall (λ x, is_byte x.1.1) l → hex_pairs (concat (map hex_byte l)) = Some (map (λ x, x.1.1) l).
Proof.
  induction 1 as [|[[b u1] u2] l Hb _ IH]; [done|]. simpl in Hb. unfold is_byte in Hb.
  cbn [map concat hex_byte app hex_pairs].
  pose proof (Z.mod_pos_bound b 16 ltac:(lia)).
  rewrite !hexNibble_char by (Z.to_euclidean_division_equations; lia). simpl. rewrite IH. simpl.
  rewrite nibbles_join by (Z.to_euclidean_division_equations; lia).
  do 2 f_equal. pose proof (Z.div_mod b 16). lia.
Qed.

Lemma hex_pairs_shape n l out :
  length l = (2 * n)%nat → hex_pairs l = Some out → length out = n ∧ Forall is_byte out.
Proof.
  revert l out. induction n as [|n IH]; intros l out Hlen.
  - destruct l; [|discriminate]. intros [= <-]. by split.
  - destruct l as [|c1 [|c2 l]]; [simpl in Hlen; lia..|]. simpl in Hlen. cbn [hex_pairs].
    destruct (hexNibble c1) as [hi|] eqn:E1; [|discriminate].
    destruct (hexNibble c2) as [lo|] eqn:E2; [|discriminate]. simpl.
    destruct (hex_pairs l) as [r|] eqn:E3; [|discriminate]. simpl. intros [= <-].
    destruct (IH l r) as [<- HB]; [lia|done|]. split; [done|]. constructor; [|done].
    apply hexNibble_range in E1, E2. rewrite nibbles_join by lia. unfold is_byte. lia.
Qed.

(** Hex digits and the prefix are not white space, at either end. *)
Definition far_from (c : Z) (p : bytes) : Prop :=
  match p with [] => False | h :: _ => h ≠ c end.

Lemma TrimSpace_id c1 m c2 :
  Forall (far_from c1) space_runes → Forall (far_from c2) (map (@rev Z) space_runes) →
  TrimSpace (c1 :: m ++ [c2]) = c1 :: m ++ [c2].
Proof.
  assert (Hfar : ∀ c l runes, Forall (far_from c) runes →
            Forall (λ p, has_prefix p (c :: l) = false) runes).
  { intros c l runes H. eapply list.Forall_impl; [exact H|]. intros [|h p] Hp; [done|].
    simpl in *. destruct (Z.eqb_spec h c); [done|reflexivity]. }
  intros H1 H2. unfold TrimSpace. rewrite strip_id by auto. cbv zeta.
  assert (E : rev (c1 :: m ++ [c2]) = c2 :: rev (c1 :: m)).
  { change (c1 :: m ++ [c2]) with ((c1 :: m) ++ [c2]). by rewrite rev_app_distr. }
  rewrite E, strip_id by auto. rewrite <-E. apply rev_involutive.
Qed.

Lemma bytes_of_string_of_bytes l :
  Forall is_byte l → bytes_of_string (string_of_bytes l) = l.
Proof.
  induction 1 as [|b l Hb _ IH]; [done|]. simpl. rewrite IH. f_equal.
  unfold byte_char. rewrite Ascii.N_ascii_embedding; unfold is_byte in Hb; lia.
Qed.

Lemma hex_char_far u n :
  0 ≤ n < 16 → Forall (far_from (hex_char u n)) (map (@rev Z) space_runes).
Proof.
  intros Hn. assert (Hr : 48 ≤ hex_char u n < 128).
  { unfold hex_char. destruct (Z.ltb_spec n 10); [lia|]. destruct u; lia. }
  repeat (constructor; [simpl; lia|]). constructor.
Qed.

Definition hex_text (l : list (Z * bool * bool)) : bytes := concat (map hex_byte l).

Lemma hex_text_length l : length (hex_text l) = (2 * length l)%nat.
Proof. unfold hex_text. induction l as [|[[b u1] u2] l IH]; simpl in *; lia. Qed.

Lemma hex_text_bytes l : Forall (λ x, is_byte x.1.1) l → Forall is_byte (hex_text l).
Proof.
  assert (Hc : ∀ u n, 0 ≤ n < 16 → is_byte (hex_char u n)).
  { intros u n Hn. unfold is_byte, hex_char. destruct (Z.ltb_spec n 10); [lia|].
    destruct u; lia. }
  unfold hex_text. induction 1 as [|[[b u1] u2] l Hb _ IH]; [constructor|].
  simpl in *. unfold is_byte in Hb.
  do 2 (apply list.Forall_cons; split; [apply Hc; Z.to_euclidean_division_equations; lia|]).
  exact IH.
Qed.

Lemma parseEVMAddress_print l :
  length l = 20%nat → Forall (λ x, is_byte x.1.1) l →
  parseEVMAddress (string_of_bytes (bytes_of_string "0x" ++ hex_text l)) = Ok (map (λ x, x.1.1) l).
Proof.
  intros Hlen HB. unfold parseEVMAddress.
  rewrite bytes_of_string_of_bytes
    by (apply Forall_app; split; [repeat constructor; lia|by apply hex_text_bytes]).
  pose proof (hex_text_length l) as Hlen2. rewrite Hlen in Hlen2. unfold hex_text in Hlen2 |- *.
  pose proof (hex_pairs_print l HB) as Hp.
  destruct l as [|[[b u1] u2] l0 _] using rev_ind; [discriminate|].
  assert (Hb : is_byte b) by (apply Forall_app in HB as [_ HB]; by inversion HB).
  rewrite map_app, concat_app in Hlen2, Hp |- *.
  set (m := concat (map hex_byte l0)) in *. cbn [map concat hex_byte app] in Hlen2, Hp |- *.
  assert (E : bytes_of_string "0x" ++ m ++ [hex_char u1 (b / 16); hex_char u2 (b `mod` 16)] =
              48 :: (120 :: m ++ [hex_char u1 (b / 16)]) ++ [hex_char u2 (b `mod` 16)]).
  { change (bytes_of_string "0x") with [48; 120]. cbn [app]. by rewrite <-app_assoc. }
  rewrite E, TrimSpace_id.
  - rewrite <-E. cbn [negb orb]. change (bytes_of_string "0x") with [48; 120].
    cbn [app has_prefix Z.eqb andb negb orb]. rewrite Pos.eqb_refl. cbn [length].
    rewrite Hlen2. cbn [Nat.eqb Nat.mul Nat.add Pos.eqb andb negb orb skipn drop].
    by rewrite drop_0, Hp.
  - repeat (constructor; [simpl; lia|]). constructor.
  - apply hex_char_far. apply Z.mod_pos_bound. lia.
Qed.

(** Every 20-byte address, written with the 0x prefix and each hex digit in either case,
    parses to its bytes, so a checksummed and a plain spelling name the same recipient; and
    whatever string is accepted gives exactly 20 bytes. *)
Theorem parseEVMAddress_roundtrip :
  (∀ l, length l = 20%nat → Forall (λ x, is_byte x.1.1) l →
     parseEVMAddress (string_of_bytes (bytes_of_string "0x" ++ concat (map hex_byte l))) =
       Ok (map (λ x, x.1.1) l)) ∧
  (∀ s out, parseEVMAddress s = Ok out → length out = 20%nat ∧ Forall is_byte out).
Proof.
  split; [exact parseEVMAddress_print|].
  intros s out. unfold parseEVMAddress. set (l := TrimSpace (bytes_of_string s)).
  destruct (negb (has_prefix _ l) || negb (length l =? 42)%nat) eqn:E; [discriminate|].
  apply orb_false_iff in E as [_ E]. apply negb_false_iff, Nat.eqb_eq in E.
  destruct (hex_pairs (drop 2 l)) as [o|] eqn:Eo; [|discriminate]. intros [= <-].
  apply (hex_pairs_shape 20) in Eo; [done|]. rewrite length_drop. lia.
Qed.

(** ** The builder *)

Section builder.
Context {CL : CryptoLib}.

(** The transaction a withdrawal stands for. *)
Definition transfer_tx (nonce : Z) (to : bytes) (value : Z) : evmLegacyTx :=
  newEVMLegacyTx (Z.max 0 nonce) EVMGasPrice EVMGasLimit to value [].

Lemma transfer_tx_ok nonce to value :
  nonce ≤ max_int64 → Forall is_byte to → length to = 20%nat → Z.abs value < 2 ^ 256 →
  tx_ok (transfer_tx nonce to value).
Proof.
  intros Hn HB Hl Hv. unfold max_int64 in Hn. split; simpl; unfold max_uint64, EVMGasPrice, EVMGasLimit; try lia.
  - by split.
  - by split; [constructor|].
Qed.

Lemma buildEVM_ok w wr nonce to value :
  parseEVMAddress (WR_ToAddress wr) = Ok to → big_SetString (WR_Amount wr) = Some value →
  buildEVMUnsignedTx w wr nonce =
    Ok (mkUnsignedTx (Wallet_Chain w) (evmSigningHash (transfer_tx nonce to value) EVMChainID)
          (λ signature,
             match evmSigFromMPC signature EVMChainID with
             | Err err => Err err
             | Ok (r, s, v) =>
                 Ok (evmEncodeSignedTx (evmAssembleLegacyTx (transfer_tx nonce to value) r s v))
             end)).
Proof.
  intros Hto Hv. unfold buildEVMUnsignedTx. rewrite Hto, Hv. unfold transfer_tx.
  assert (E : (if nonce <? 0 then 0 else nonce) = Z.max 0 nonce)
    by (destruct (Z.ltb_spec nonce 0); lia). by rewrite E.
Qed.

(** A withdrawal whose recipient and amount parse always builds.  The signer is given
    the hash of the EIP-155 encoding of the transfer; a 65-byte signature with a valid header
    assembles into an encoding that reads back as the same transfer with the signature's own
    r and s and with v = 37 + recovery id; any other signature is rejected. *)
Theorem buildEVM_assembles w wr nonce to value :
  parseEVMAddress (WR_ToAddress wr) = Ok to → big_SetString (WR_Amount wr) = Some value →
  Forall is_byte to → length to = 20%nat →
  nonce ≤ max_int64 → Z.abs value < 2 ^ 256 →
  ∃ u, buildEVMUnsignedTx w wr nonce = Ok u ∧
    UT_Payload u = keccak256 (evmEncodeLegacyForSigning (transfer_tx nonce to value) 1) ∧
    ∀ sig, Forall is_byte sig →
      if decide (length sig = 65%nat ∧ 27 ≤ nth 0 sig 0 ≤ 34) then
        ∃ out, UT_Assemble u sig = Ok out ∧
          rlp_decode_list out = Some (tx_elems (transfer_tx nonce to value) ++
            [big_Bytes (37 + (nth 0 sig 0 - 27) `mod` 4);
             big_Bytes (be_value (take 32 (drop 1 sig)));
             big_Bytes (be_value (take 32 (drop 33 sig)))])
      else is_ok (UT_Assemble u sig) = false.
Proof.
  intros Hto Hv HB Hl Hn Hval. eexists. split; [by apply buildEVM_ok|]. split; [done|].
  intros sig Hsig. cbn [UT_Assemble]. case_decide as Hd.
  - destruct Hd as [Hlen Hh].
    destruct (assemble_decodes (transfer_tx nonce to value) sig EVMChainID)
      as (r & s & v & -> & -> & -> & -> & Hdec); auto;
      [by apply transfer_tx_ok|unfold EVMChainID; lia|].
    eexists. split; [reflexivity|]. exact Hdec.
  - unfold evmSigFromMPC. destruct (Nat.eqb_spec (length sig) 65); [|done]. cbn [negb].
    destruct (Z.ltb_spec (nth 0 sig 0) 27); [done|].
    destruct (Z.ltb_spec 34 (nth 0 sig 0)); [done|]. destruct Hd. lia.
Qed.

Definition WR_with_amount (amount : string) (wr : WithdrawalRequest) : WithdrawalRequest :=
  mkWithdrawal (WR_ID wr) (WR_WalletID wr) (WR_ToAddress wr) (WR_Asset wr) amount (WR_State wr)
    (WR_PolicyDecisionID wr) (WR_FailureReason wr) (WR_TxHash wr) (WR_NonceValue wr)
    (WR_ReservedOutpoints wr) (WR_SignedTxBytes wr) (WR_CreatedAt wr) (WR_UpdatedAt wr).

(** The sign of the amount is lost: a withdrawal of a negative amount builds, and what
    is signed and sent is the transfer of its absolute value. *)
Theorem buildEVM_drops_sign w wr nonce n to :
  parseEVMAddress (WR_ToAddress wr) = Ok to → 0 < n →
  ∃ u u', buildEVMUnsignedTx w (WR_with_amount (FormatInt (- n)) wr) nonce = Ok u ∧
    buildEVMUnsignedTx w (WR_with_amount (FormatInt n) wr) nonce = Ok u' ∧
    UT_Payload u = UT_Payload u' ∧ ∀ sig, UT_Assemble u sig = UT_Assemble u' sig.
Proof.
  intros Hto Hn.
  assert (E : tx_elems (transfer_tx nonce to (- n)) = tx_elems (transfer_tx nonce to n)).
  { unfold tx_elems, big_Bytes. simpl. by rewrite Z.abs_opp. }
  eexists _, _. split; [apply (buildEVM_ok _ _ _ to (- n)); simpl;
                        [done|apply big_SetString_FormatInt]|].
  split; [apply (buildEVM_ok _ _ _ to n); simpl; [done|apply big_SetString_FormatInt]|].
  simpl. unfold evmSigningHash, evmEncodeLegacyForSigning, evmEncodeSignedTx.
  cbn [stx_tx]. by rewrite E.
Qed.
End builder.

(** ** Witnesses *)

Section witnesses.
#[local] Existing Instance simple_crypto.

Definition eth_to : string := "0x52908400098527886E0F7030069857D2E4169EE7".
Definition eth_to_bytes : bytes :=
  match parseEVMAddress eth_to with Ok b => b | Err _ => [] end.
Definition eth_wallet : Wallet :=
  mkWallet 7 ChainEthereum WalletTypeHot "w" WalletStateActive "k" "mpc" None None 1 1.
Definition eth_wr (amount : string) : WithdrawalRequest :=
  mkWithdrawal 9 7 eth_to "ETH" amount WithdrawalStateWhitelisted EmptyString EmptyString
    EmptyString None [] [] 1 1.
Definition sample_tx (v : Z) : evmLegacyTx := transfer_tx 3 eth_to_bytes v.
Definition sample_sig : bytes := 28 :: replicate 32 1 ++ replicate 32 2.

Lemma sample_tx_ok v : Z.abs v < 2 ^ 256 → tx_ok (sample_tx v).
Proof.
  intros Hv. apply transfer_tx_ok; [vm_compute; congruence| |reflexivity|done].
  apply (bool_decide_unpack _). vm_compute. exact I.
Defined.

Lemma evm_signing_binds_witness :
  evmEncodeLegacyForSigning (sample_tx (-5)) 1 = evmEncodeLegacyForSigning (sample_tx 5) 1 ∧
  evmEncodeLegacyForSigning (sample_tx 5) 1 ≠ evmEncodeLegacyForSigning (sample_tx 6) 1.
Proof.
  destruct (evm_signing_binds (sample_tx (-5)) (sample_tx 5) 1 1) as [[_ H1] _];
    [by apply sample_tx_ok|by apply sample_tx_ok|split; vm_compute; congruence..|].
  destruct (evm_signing_binds (sample_tx 5) (sample_tx 6) 1 1) as [[H2 _] _];
    [by apply sample_tx_ok|by apply sample_tx_ok|split; vm_compute; congruence..|].
  split; [apply H1; split; reflexivity|].
  intros E. apply H2 in E as [E _]. discriminate E.
Defined.

Lemma buildEVM_assembles_witness :
  ∃ u, buildEVMUnsignedTx eth_wallet (eth_wr "1000") 3 = Ok u ∧
    ∃ out, UT_Assemble u sample_sig = Ok out ∧
      rlp_decode_list out = Some (tx_elems (sample_tx 1000) ++
        [[38]; replicate 32 1; replicate 32 2]).
Proof.
  destruct (buildEVM_assembles eth_wallet (eth_wr "1000") 3 eth_to_bytes 1000)
    as (u & Hu & _ & Hs); [reflexivity|reflexivity|apply (bool_decide_unpack _); vm_compute; exact I
      |reflexivity|vm_compute; congruence|vm_compute; congruence|].
  exists u. split; [exact Hu|]. specialize (Hs sample_sig).
  rewrite decide_True in Hs by (split; [reflexivity|vm_compute; split; congruence]).
  apply Hs, (bool_decide_unpack _). vm_compute. exact I.
Defined.

Lemma buildEVM_drops_sign_witness :
  ∃ u u', buildEVMUnsignedTx eth_wallet (eth_wr "-1000") 3 = Ok u ∧
    buildEVMUnsignedTx eth_wallet (eth_wr "1000") 3 = Ok u' ∧ UT_Payload u = UT_Payload u'.
Proof.
  destruct (buildEVM_drops_sign eth_wallet (eth_wr "0") 3 1000 eth_to_bytes)
    as (u & u' & H1 & H2 & H3 & _); [reflexivity|reflexivity|].
  exists u, u'. split; [exact H1|]. split; [exact H2|exact H3].
Defined.
End witnesses.
