(* ===== verification/Sha256.v ===== *)
(** * Sha256: [crypto/sha256]

    The transaction builder hashes the wallet id and a constant with the standard library's
    SHA-256, so the function is defined in full (FIPS 180-4) on 32-bit words in [Z]. *)

From S2P Require Import Prelude GoLib Bytes.

Local Open Scope Z_scope.

Definition w32 (z : Z) : Z := z `mod` 2 ^ 32.
Definition rotr (n x : Z) : Z := Z.lor (Z.shiftr x n) (w32 (Z.shiftl x (32 - n))).
Definition ch (x y z : Z) : Z := Z.lxor (Z.land x y) (Z.land (Z.lxor x (2 ^ 32 - 1)) z).
Definition maj (x y z : Z) : Z := Z.lxor (Z.lxor (Z.land x y) (Z.land x z)) (Z.land y z).
Definition bsig0 (x : Z) : Z := Z.lxor (Z.lxor (rotr 2 x) (rotr 13 x)) (rotr 22 x).
Definition bsig1 (x : Z) : Z := Z.lxor (Z.lxor (rotr 6 x) (rotr 11 x)) (rotr 25 x).
Definition ssig0 (x : Z) : Z := Z.lxor (Z.lxor (rotr 7 x) (rotr 18 x)) (Z.shiftr x 3).
Definition ssig1 (x : Z) : Z := Z.lxor (Z.lxor (rotr 17 x) (rotr 19 x)) (Z.shiftr x 10).

(** The constants are the leading fractional bits of roots of the first primes: the cube roots
    of the first 64, the square roots of the first 8. *)
Definition small_primes : list Z :=
  let divides p d := Z.eqb (p mod Z.of_nat d) 0 in
  List.filter (λ p, negb (existsb (divides p) (seq 2 (Z.to_nat p - 2))))
    (map Z.of_nat (seq 2 310)).

(** The largest [r < 2 ^ n + acc] with [r * r * r <= x], one bit per turn. *)
Fixpoint cube_root (n : nat) (acc x : Z) : Z :=
  match n with
  | O => acc
  | S n =>
      let try_bit := acc + 2 ^ Z.of_nat n in
      cube_root n (if try_bit * try_bit * try_bit <=? x then try_bit else acc) x
  end.

Definition sha_k : list Z :=
  Eval vm_compute in map (λ p, w32 (cube_root 36 0 (p * 2 ^ 96))) small_primes.
Definition sha_init : list Z :=
  Eval vm_compute in map (λ p, w32 (Z.sqrt (p * 2 ^ 64))) (take 8 small_primes).

(** The message schedule, newest word first, extended by [n] words. *)
Fixpoint schedule (n : nat) (ws : list Z) : list Z :=
  match n with
  | O => ws
  | S n =>
      schedule n
        (w32 (ssig1 (nth 1 ws 0) + nth 6 ws 0 + ssig0 (nth 14 ws 0) + nth 15 ws 0) :: ws)
  end.

Definition sha_round (st : list Z) (kw : Z * Z) : list Z :=
  match st with
  | [a; b; c; d; e; f; g; h] =>
      let t1 := h + bsig1 e + ch e f g + kw.1 + kw.2 in
      let t2 := bsig0 a + maj a b c in
      [w32 (t1 + t2); a; b; c; w32 (d + t1); e; f; g]
  | _ => st
  end.

Definition sha_block (st : list Z) (block : bytes) : list Z :=
  let word i := be_value (take 4 (drop (4 * i) block)) in
  let ws := rev (schedule 48 (rev (map word (seq 0 16)))) in
  zip_with (λ a b, w32 (a + b)) st (foldl sha_round st (zip sha_k ws)).

Definition sha_pad (msg : bytes) : bytes :=
  let n := Z.of_nat (length msg) in
  msg ++ 128 :: replicate (Z.to_nat ((55 - n) `mod` 64)) 0 ++ be64 (8 * n).

Fixpoint sha_blocks (n : nat) (st : list Z) (l : bytes) : list Z :=
  match n with
  | O => st
  | S n => sha_blocks n (sha_block st (take 64 l)) (drop 64 l)
  end.

Definition be32 (n : Z) : bytes := drop 4 (be64 n).

Definition Sum256 (msg : bytes) : bytes :=
  let l := sha_pad msg in
  concat (map be32 (sha_blocks (length l / 64) sha_init l)).

(** The published vectors for "abc" and for the two-block message. *)
Example Sum256_abc :
  be_value (Sum256 (bytes_of_string "abc")) =
  0xba7816bf8f01cfea414140de5dae2223b00361a396177a9cb410ff61f20015ad.
Proof. vm_compute. reflexivity. Qed.
Example Sum256_two_blocks :
  be_value (Sum256 (bytes_of_string "abcdbcdecdefdefgefghfghighijhijkijkljklmklmnlmnomnopnopq")) =
  0x248d6a61d20638b8e5c026930c3e6039a33ce45964ff2167f6ecedd419db06c1.
Proof. vm_compute. reflexivity. Qed.

Lemma be32_length n : length (be32 n) = 4%nat.
Proof. reflexivity. Qed.

Lemma sha_round_length st kw : length st = 8%nat → length (sha_round st kw) = 8%nat.
Proof. intros H. do 9 (destruct st as [|? st]; try discriminate). reflexivity. Qed.

Lemma sha_block_length st b : length st = 8%nat → length (sha_block st b) = 8%nat.
Proof.
  intros H. unfold sha_block. rewrite length_zip_with.
  assert (HF : ∀ l s, length s = 8%nat → length (foldl sha_round s l) = 8%nat).
  { induction l as [|x l IH]; intros s Hs; simpl; [done|]. by apply IH, sha_round_length. }
  rewrite HF by done. lia.
Qed.

Lemma Sum256_length msg : length (Sum256 msg) = 32%nat.
Proof.
  unfold Sum256. set (n := (length (sha_pad msg) / 64)%nat). set (l := sha_pad msg).
  assert (H : ∀ n st l, length st = 8%nat → length (sha_blocks n st l) = 8%nat).
  { clear. induction n as [|n IH]; intros st l H; simpl; [done|]. by apply IH, sha_block_length. }
  assert (H8 : length (sha_blocks n sha_init l) = 8%nat) by (by apply H).
  destruct (sha_blocks n sha_init l) as [|? r]; [discriminate|].
  do 8 (destruct r as [|? r]; try discriminate). reflexivity.
Qed.

(** Nothing below needs to run the hash while proving. *)
#[global] Opaque Sum256.
