(* ===== verification/Solana.v ===== *)
(** * Solana: transfer messages (internal/withdrawal/txbuilder.go) *)

From S2P Require Import Prelude GoLib Bytes Extern Domain Storage Sha256 Evm.

Local Open Scope Z_scope.

Definition ed25519_SignatureSize : nat := 64.

Section solana.
Context {UL : UuidLib} {CL : CryptoLib}.

Definition decodeSolanaPubkey (s : string) : res bytes :=
  let dec := base58_Decode s in
  if (length dec =? 0)%nat && negb (bool_decide (s = "11111111111111111111111111111111"%string))
  then Err (Errorf "base58 decode %q" [FStr s])
  else if negb (length dec =? 32)%nat
  then Err (Errorf "pubkey %q must be 32 bytes, got %d" [FStr s; FInt (Z.of_nat (length dec))])
  else Ok dec.

(** [mustDecodeSolanaPubkey] runs when the package is loaded; it does not panic, by
    [base58_Decode_ones]. *)
Definition solanaSystemProgram : bytes :=
  match decodeSolanaPubkey "11111111111111111111111111111111" with
  | Ok b => b
  | Err _ => []
  end.

Definition buildSolanaMessage (from to : bytes) (lamports : Z) (blockhash : bytes) : bytes :=
  let ixData := 2 :: le64 lamports in
  let accounts := [from; to; solanaSystemProgram] in
  [1; 0; 1] ++ [Z.of_nat (length accounts)] ++ concat accounts ++ blockhash ++
  [1; 2; 2; 0; 1] ++ [Z.of_nat (length ixData)] ++ ixData.

Definition buildSolanaTransaction (message : bytes) (signatures : list bytes) : bytes :=
  [Z.of_nat (length signatures) `mod` 256] ++ concat signatures ++ message.

Definition solana_blockhash : bytes :=
  Sum256 (bytes_of_string "solana-recent-blockhash-placeholder").

Definition buildSolanaUnsignedTx (wr : WithdrawalRequest) : res UnsignedTx :=
  let from := Sum256 (bytes_of_string (uuid_String (WR_WalletID wr))) in
  match decodeSolanaPubkey (WR_ToAddress wr) with
  | Err err => Err (Wrapf "solana to_address: %w" [] err)
  | Ok to =>
      match ParseUint (WR_Amount wr) 64 with
      | (_, Some _) => Err (Wrapf "solana amount parse: %w" [] (New "strconv.ParseUint"))
      | (lamports, None) =>
          let msg := buildSolanaMessage from to lamports solana_blockhash in
          Ok (mkUnsignedTx ChainSolana msg
                (λ signature,
                   if negb (length signature =? ed25519_SignatureSize)%nat
                   then Err (Errorf "solana: signature must be %d bytes, got %d"
                               [FInt 64; FInt (Z.of_nat (length signature))])
                   else Ok (buildSolanaTransaction msg [signature])))
      end
  end.

(** ** Facts *)

Lemma solanaSystemProgram_zero : solanaSystemProgram = replicate 32 0.
Proof. unfold solanaSystemProgram, decodeSolanaPubkey. by rewrite base58_Decode_ones. Qed.

Lemma decodeSolanaPubkey_length s b : decodeSolanaPubkey s = Ok b → length b = 32%nat.
Proof.
  unfold decodeSolanaPubkey. destruct (_ && _); [discriminate|].
  destruct (Nat.eqb_spec (length (base58_Decode s)) 32); [|discriminate]. by intros [= <-].
Qed.

(** The fields of a message, read at their fixed offsets. *)
Definition message_to (m : bytes) : bytes := take 32 (drop 36 m).
Definition message_from (m : bytes) : bytes := take 32 (drop 4 m).
Definition message_blockhash (m : bytes) : bytes := take 32 (drop 100 m).
Definition message_lamports (m : bytes) : Z := le_value (drop 139 m).

Lemma message_fields from to lamports blockhash :
  length from = 32%nat → length to = 32%nat → length blockhash = 32%nat →
  0 ≤ lamports ≤ max_uint64 →
  let m := buildSolanaMessage from to lamports blockhash in
  message_from m = from ∧ message_to m = to ∧ message_blockhash m = blockhash ∧
  message_lamports m = lamports.
Proof.
  intros Hf Ht Hb Hl. unfold buildSolanaMessage. cbn [concat length].
  rewrite app_nil_r, <-!app_assoc, solanaSystemProgram_zero.
  unfold message_from, message_to, message_blockhash, message_lamports.
  set (rest := [1; 2; 2; 0; 1] ++ _). cbn [app drop skipn].
  assert (Hskip : ∀ n (a b : bytes), length a = 32%nat → drop (32 + n) (a ++ b) = drop n b)
    by (intros n a b <-; apply drop_app_add).
  change 135%nat with (32 + (32 + (32 + (32 + 7))))%nat.
  change 96%nat with (32 + (32 + (32 + 0)))%nat.
  change (drop 32) with (@drop Z (32 + 0)).
  rewrite !Hskip by done. rewrite !drop_0, !take_app_length' by done.
  split_and!; auto. unfold rest. cbn [app drop skipn]. by apply le64_value.
Qed.

(** C15: the bytes the signer signs determine the transfer: sender, recipient, lamports and
    blockhash can be read back from the message at fixed offsets, so two different transfers
    never share a message. *)
Theorem solana_message_binds from to lamports bh from' to' lamports' bh' :
  length from = 32%nat → length to = 32%nat → length bh = 32%nat →
  length from' = 32%nat → length to' = 32%nat → length bh' = 32%nat →
  0 ≤ lamports ≤ max_uint64 → 0 ≤ lamports' ≤ max_uint64 →
  buildSolanaMessage from to lamports bh = buildSolanaMessage from' to' lamports' bh' →
  from = from' ∧ to = to' ∧ lamports = lamports' ∧ bh = bh'.
Proof.
  intros H1 H2 H3 H1' H2' H3' Hl Hl' E.
  destruct (message_fields from to lamports bh) as (F1 & F2 & F3 & F4); auto.
  destruct (message_fields from' to' lamports' bh') as (G1 & G2 & G3 & G4); auto.
  rewrite E in *. split_and!; congruence.
Qed.

Lemma ParseUint_bound s n : ParseUint s 64 = (n, None) → 0 ≤ n ≤ max_uint64.
Proof.
  intros E. pose proof (ParseUint_range s 64 ltac:(lia)) as H. rewrite E in H.
  unfold max_uint64. simpl in H. lia.
Qed.

(** When a Solana withdrawal builds, its message carries the decoded recipient and
    exactly the requested lamports, which fit 64 bits and carry no sign; a signature is
    accepted exactly when it has 64 bytes, and then stands in front of the signed message. *)
Theorem buildSolana_spec wr u :
  buildSolanaUnsignedTx wr = Ok u →
  decodeSolanaPubkey (WR_ToAddress wr) = Ok (message_to (UT_Payload u)) ∧
  ParseUint (WR_Amount wr) 64 = (message_lamports (UT_Payload u), None) ∧
  message_from (UT_Payload u) = Sum256 (bytes_of_string (uuid_String (WR_WalletID wr))) ∧
  (∀ sig, UT_Assemble u sig =
     if decide (length sig = 64%nat) then Ok (1 :: sig ++ UT_Payload u)
     else Err (Errorf "solana: signature must be %d bytes, got %d"
                 [FInt 64; FInt (Z.of_nat (length sig))])).
Proof.
  unfold buildSolanaUnsignedTx. destruct (decodeSolanaPubkey _) as [to|e] eqn:Eto; [|discriminate].
  destruct (ParseUint _ 64) as [n [err|]] eqn:En; [discriminate|]. intros [= <-].
  cbn [UT_Payload UT_Assemble].
  destruct (message_fields (Sum256 (bytes_of_string (uuid_String (WR_WalletID wr)))) to n
              solana_blockhash) as (F1 & F2 & F3 & F4).
  - apply Sum256_length.
  - by eapply decodeSolanaPubkey_length.
  - apply Sum256_length.
  - by eapply ParseUint_bound.
  - set (msg := buildSolanaMessage _ _ _ _) in *. clearbody msg. rewrite F1, F2, F4.
    split_and!; auto. intros sig. clear.
    destruct (Nat.eqb_spec (length sig) ed25519_SignatureSize) as [E|E];
      unfold ed25519_SignatureSize in E; case_decide; try done.
    unfold buildSolanaTransaction. cbn [length concat]. by rewrite app_nil_r.
Qed.
End solana.

(** ** Witnesses *)

Section witnesses.
#[local] Existing Instances simple_uuid simple_crypto.

Definition sol_wr : WithdrawalRequest :=
  mkWithdrawal 9 7 "abcdefghijklmnopqrstuvwxyz012345" "SOL" "5000" WithdrawalStateWhitelisted
    EmptyString EmptyString EmptyString None [] [] 1 1.

Lemma solana_message_binds_witness :
  replicate 32 1 = replicate 32 1 ∧ replicate 32 2 = replicate 32 2 ∧ (5 = 5 :> Z) ∧
  replicate 32 3 = replicate 32 3.
Proof.
  apply (solana_message_binds (replicate 32 1) (replicate 32 2) 5 (replicate 32 3)
           (replicate 32 1) (replicate 32 2) 5 (replicate 32 3));
    first [reflexivity | split; vm_compute; congruence].
Defined.

Lemma buildSolana_spec_witness :
  ∃ u, buildSolanaUnsignedTx sol_wr = Ok u ∧
    ParseUint "5000" 64 = (message_lamports (UT_Payload u), None).
Proof.
  destruct (buildSolanaUnsignedTx sol_wr) as [u|e] eqn:E; [|vm_compute in E; discriminate].
  exists u. split; [reflexivity|]. apply (buildSolana_spec sol_wr u E).
Defined.
End witnesses.
