(* ===== verification/Btc.v ===== *)
(** * Btc: SegWit transactions (internal/withdrawal/txbuilder.go)

    btcd is a parameter ([BtcLib]): address decoding, output scripts, transaction ids, the
    witness sighash and the wire serialisation.  [MsgTx] holds what the builder puts into a
    [wire.MsgTx]. *)

From S2P Require Import Prelude GoLib Bytes Extern Domain Storage Evm.

Local Open Scope Z_scope.

Record OutPoint := mkOutPoint { op_Hash : bytes; op_Index : Z }.
Record TxIn := mkTxIn { ti_PreviousOutPoint : OutPoint; ti_Sequence : Z; ti_Witness : list bytes }.
Record TxOut := mkTxOut { to_Value : Z; to_PkScript : bytes }.
Record MsgTx := mkMsgTx { mt_Version : Z; mt_TxIn : list TxIn; mt_TxOut : list TxOut }.

Class BtcLib := {
  BtcAddress : Type;
  btcutil_DecodeAddress : string → res BtcAddress;
  NewAddressWitnessPubKeyHash : bytes → res BtcAddress;
  txscript_PayToAddrScript : BtcAddress → res bytes;
  chainhash_NewHashFromStr : string → res bytes;
  (** [CalcWitnessSigHash(pkHash, NewTxSigHashes(tx, fetcher), SigHashAll, tx, i, amount)]. *)
  CalcWitnessSigHash : bytes → list (OutPoint * TxOut) → MsgTx → nat → Z → res bytes;
  wire_Serialize : MsgTx → res bytes;
  (** A hash of 20 bytes makes an address; a sighash has 32 bytes. *)
  NewAddressWitnessPubKeyHash_ok : ∀ h, length h = 20%nat →
    is_ok (NewAddressWitnessPubKeyHash h) = true;
  CalcWitnessSigHash_length : ∀ k f tx i a sh, CalcWitnessSigHash k f tx i a = Ok sh →
    length sh = 32%nat;
}.

Definition sighashType : Z := 1.

Section btc.
Context {BL : BtcLib}.

Definition parseOutpoint (s : string) : res OutPoint :=
  match split_first ":" s with
  | None => Err (New "outpoint must be txid:vout")
  | Some (txid, vout) =>
      match chainhash_NewHashFromStr txid with
      | Err err => Err (Wrapf "parse txid: %w" [] err)
      | Ok h =>
          match ParseUint vout 32 with
          | (_, Some _) => Err (Wrapf "parse vout: %w" [] (New "strconv.ParseUint"))
          | (n, None) => Ok (mkOutPoint h n)
          end
      end
  end.

Definition btcAddrScript (addr : string) : res bytes :=
  match btcutil_DecodeAddress addr with
  | Err err => Err err
  | Ok a => txscript_PayToAddrScript a
  end.

(** The placeholder previous output script; its error is dropped.  The address constructor
    does not fail on 20 bytes, so [mustP2WPKHAddr] does not panic. *)
Definition placeholder_script : bytes :=
  match NewAddressWitnessPubKeyHash (replicate 20 0) with
  | Ok a => match txscript_PayToAddrScript a with Ok s => s | Err _ => [] end
  | Err _ => []
  end.

(** The loop over the outpoints: the inputs and the previous outputs recorded for them. *)
Fixpoint btc_inputs (perInputAmount : Z) (outpoints : list string) :
    res (list TxIn * list (OutPoint * TxOut)) :=
  match outpoints with
  | [] => Ok ([], [])
  | op :: outpoints =>
      match parseOutpoint op with
      | Err err => Err (Wrapf "btc outpoint %q: %w" [FStr op] err)
      | Ok o =>
          match btc_inputs perInputAmount outpoints with
          | Err err => Err err
          | Ok (ins, prevs) =>
              Ok (mkTxIn o 0xfffffffd [] :: ins,
                  (o, mkTxOut perInputAmount placeholder_script) :: prevs)
          end
      end
  end.

(** The loop over the inputs that concatenates the sighashes. *)
Fixpoint btc_sighashes (prevs : list (OutPoint * TxOut)) (tx : MsgTx) (amount : Z) (i n : nat) :
    res bytes :=
  match n with
  | O => Ok []
  | S n =>
      match CalcWitnessSigHash (replicate 20 0) prevs tx i amount with
      | Err err => Err (Wrapf "sighash input %d: %w" [FInt (Z.of_nat i)] err)
      | Ok sh =>
          match btc_sighashes prevs tx amount (S i) n with
          | Err err => Err err
          | Ok rest => Ok (sh ++ rest)
          end
      end
  end.

(** The witness stack of input [i]: the 64 signature bytes with the hash type, and an empty
    public key. *)
Definition btc_witness (signature : bytes) (i : nat) : list bytes :=
  [take 64 (drop (64 * i) signature) ++ [sighashType]; replicate 33 0].

Definition btc_sign (tx : MsgTx) (signature : bytes) : MsgTx :=
  mkMsgTx (mt_Version tx)
    (imap (λ i t, mkTxIn (ti_PreviousOutPoint t) (ti_Sequence t) (btc_witness signature i))
       (mt_TxIn tx))
    (mt_TxOut tx).

Definition btc_assemble (tx : MsgTx) (signature : bytes) : res bytes :=
  if (length signature <? 64 * length (mt_TxIn tx))%nat
  then Err (Errorf "btc: signature too short (%d bytes for %d inputs)"
              [FInt (Z.of_nat (length signature)); FInt (Z.of_nat (length (mt_TxIn tx)))])
  else
    match wire_Serialize (btc_sign tx signature) with
    | Err err => Err (Wrapf "btc serialize: %w" [] err)
    | Ok buf => Ok buf
    end.

Definition buildBTCUnsignedTx (wr : WithdrawalRequest) (outpoints : list string) :
    res UnsignedTx :=
  match outpoints with
  | [] => Err (New "btc: no reserved outpoints")
  | _ =>
      match ParseInt (WR_Amount wr) with
      | (_, Some _) => Err (Wrapf "btc amount parse: %w" [] (New "strconv.ParseInt"))
      | (amount, None) =>
          match btcAddrScript (WR_ToAddress wr) with
          | Err err => Err (Wrapf "btc to_address: %w" [] err)
          | Ok toScript =>
              let perInputAmount := Z.quot amount (Z.of_nat (length outpoints)) in
              match btc_inputs perInputAmount outpoints with
              | Err err => Err err
              | Ok (ins, prevs) =>
                  let tx := mkMsgTx 2 ins [mkTxOut amount toScript] in
                  match btc_sighashes prevs tx perInputAmount 0 (length ins) with
                  | Err err => Err err
                  | Ok payload => Ok (mkUnsignedTx ChainBitcoin payload (btc_assemble tx))
                  end
              end
          end
      end
  end.

(** ** Facts *)

Lemma btc_inputs_spec a ops ins prevs :
  btc_inputs a ops = Ok (ins, prevs) →
  length ins = length ops ∧ length prevs = length ops ∧
  Forall2 (λ op i, parseOutpoint op = Ok (ti_PreviousOutPoint i) ∧ ti_Witness i = []) ops ins ∧
  Forall (λ p, to_Value p.2 = a) prevs.
Proof.
  revert ins prevs. induction ops as [|op ops IH]; intros ins prevs; simpl.
  - intros [= <- <-]. split_and!; constructor.
  - destruct (parseOutpoint op) as [o|] eqn:Eo; [|discriminate].
    destruct (btc_inputs a ops) as [[ins' prevs']|]; [|discriminate]. intros [= <- <-].
    destruct (IH _ _ eq_refl) as (? & ? & ? & ?). simpl. split_and!; auto; by constructor.
Qed.

Lemma btc_sighashes_length prevs tx a i n l :
  btc_sighashes prevs tx a i n = Ok l → length l = (32 * n)%nat.
Proof.
  revert i l. induction n as [|n IH]; intros i l; simpl; [by intros [= <-]|].
  destruct (CalcWitnessSigHash _ _ _ _ _) as [sh|] eqn:Es; [|discriminate].
  apply CalcWitnessSigHash_length in Es.
  destruct (btc_sighashes prevs tx a (S i) n) as [rest|] eqn:Er; [|discriminate].
  intros [= <-]. rewrite length_app, Es, (IH _ _ Er). lia.
Qed.

(** C14: a Bitcoin withdrawal that builds spends exactly the reserved outpoints, in order,
    and pays exactly one output: the parsed amount, to the script of the recipient.  The
    signer is handed one 32-byte hash per input; a signature of at least 64 bytes per input
    is cut into one witness per input, and a shorter one is refused. *)
Theorem buildBTC_spec wr ops u :
  buildBTCUnsignedTx wr ops = Ok u →
  ∃ tx amount script,
    ParseInt (WR_Amount wr) = (amount, None) ∧ btcAddrScript (WR_ToAddress wr) = Ok script ∧
    ops ≠ [] ∧
    Forall2 (λ op i, parseOutpoint op = Ok (ti_PreviousOutPoint i)) ops (mt_TxIn tx) ∧
    mt_TxOut tx = [mkTxOut amount script] ∧
    length (UT_Payload u) = (32 * length ops)%nat ∧
    ∀ sig, UT_Assemble u sig =
      if decide (64 * length ops ≤ length sig)%nat
      then match wire_Serialize (btc_sign tx sig) with
           | Ok buf => Ok buf
           | Err err => Err (Wrapf "btc serialize: %w" [] err)
           end
      else Err (Errorf "btc: signature too short (%d bytes for %d inputs)"
                  [FInt (Z.of_nat (length sig)); FInt (Z.of_nat (length ops))]).
Proof.
  unfold buildBTCUnsignedTx. destruct ops as [|op0 ops0]; [discriminate|].
  set (ops := op0 :: ops0) in *.
  destruct (ParseInt (WR_Amount wr)) as [amount [err|]]; [discriminate|].
  destruct (btcAddrScript (WR_ToAddress wr)) as [script|]; [|discriminate]. cbv zeta.
  destruct (btc_inputs _ ops) as [[ins prevs]|] eqn:Ei; [|discriminate].
  destruct (btc_inputs_spec _ _ _ _ Ei) as (Hlen & _ & HF & _).
  set (tx := mkMsgTx 2 ins [mkTxOut amount script]).
  destruct (btc_sighashes prevs tx _ 0 (length ins)) as [payload|] eqn:Es; [|discriminate].
  intros [= <-]. exists tx, amount, script. cbn [UT_Payload UT_Assemble].
  split_and!; try done.
  - eapply List.Forall2_impl; [|exact HF]. intros o i. simpl. tauto.
  - by rewrite (btc_sighashes_length _ _ _ _ _ _ Es), Hlen.
  - intros sig. unfold btc_assemble. change (mt_TxIn tx) with ins. rewrite Hlen.
    destruct (Nat.ltb_spec (length sig) (64 * length ops)); case_decide; try lia; [done|].
    by destruct (wire_Serialize _).
Qed.
End btc.

(** ** A concrete library and witnesses *)

Definition simple_btc : BtcLib.
Proof.
  refine {| BtcAddress := bytes; btcutil_DecodeAddress := λ s, Ok (bytes_of_string s);
            NewAddressWitnessPubKeyHash := λ h, Ok h; txscript_PayToAddrScript := λ a, Ok a;
            chainhash_NewHashFromStr := λ s, Ok (bytes_of_string s);
            CalcWitnessSigHash := λ _ _ _ i a, Ok (replicate 24 (Z.of_nat i) ++ be64 a);
            wire_Serialize := λ tx, Ok (concat (map (λ i, concat (ti_Witness i)) (mt_TxIn tx))) |}.
  - done.
  - intros k f tx i a sh [= <-]. reflexivity.
Defined.

Section witnesses.
#[local] Existing Instance simple_btc.

Definition btc_wr : WithdrawalRequest :=
  mkWithdrawal 9 7 "bc1q" "BTC" "120" WithdrawalStateWhitelisted
    EmptyString EmptyString EmptyString None [] [] 1 1.

Lemma buildBTC_spec_witness :
  ∃ u tx, buildBTCUnsignedTx btc_wr ["b:0"; "c:1"]%string = Ok u ∧
    mt_TxOut tx = [mkTxOut 120 (bytes_of_string "bc1q")] ∧ length (UT_Payload u) = 64%nat.
Proof.
  destruct (buildBTCUnsignedTx btc_wr ["b:0"; "c:1"]%string) as [u|e] eqn:E;
    [|vm_compute in E; discriminate].
  destruct (buildBTC_spec btc_wr ["b:0"; "c:1"]%string u E)
    as (tx & amount & script & Ha & Hs & _ & _ & Ho & Hp & _).
  exists u, tx. split; [reflexivity|]. split; [|exact Hp]. rewrite Ho.
  vm_compute in Ha. vm_compute in Hs. injection Ha as <-. injection Hs as <-. reflexivity.
Defined.
End witnesses.
