(* ===== verification/TxBuilder.v ===== *)
(** * TxBuilder: the chain dispatch of the transaction builder (internal/withdrawal/txbuilder.go) *)

From S2P Require Import Prelude GoLib Bytes Extern Domain Storage Evm Solana Btc.

Local Open Scope Z_scope.

Section build.
Context {UL : UuidLib} {CL : CryptoLib} {BL : BtcLib}.

Definition BuildUnsignedTx (w : Wallet) (wr : WithdrawalRequest) (nonce : Z)
    (outpoints : list string) : res UnsignedTx :=
  if IsEVM (Wallet_Chain w) then buildEVMUnsignedTx w wr nonce
  else if bool_decide (Wallet_Chain w = ChainBitcoin) then buildBTCUnsignedTx wr outpoints
  else if bool_decide (Wallet_Chain w = ChainSolana) then buildSolanaUnsignedTx wr
  else Err (Errorf "unsupported chain %q" [FStr (Wallet_Chain w)]).

(** Only a supported chain builds. *)
Lemma BuildUnsignedTx_chain w wr n ops u :
  BuildUnsignedTx w wr n ops = Ok u → ValidChain (Wallet_Chain w) = true.
Proof.
  unfold BuildUnsignedTx. rewrite ValidChain_cases. destruct (IsEVM _); [by left|].
  do 2 (case_bool_decide; [auto|]). discriminate.
Qed.
End build.
