(* ===== verification/Withdrawal.v ===== *)
(** * Withdrawal: the withdrawal flow (internal/withdrawal/withdrawal.go)

    Whitelist check, resource reservation, signing, broadcast, confirmation, failure and
    reorg.  The policy engine, the MPC signer, the blockchain gateway and the key lookup are
    the fields of [Clients]; like every body they may fail, and what they may do to the world
    is a hypothesis of the theorems that need one. *)

From S2P Require Import Prelude GoLib Bytes Extern Domain Storage Memstore MemstoreFacts.
From S2P Require Import Lock Outbox Nonce Utxo Evm Btc TxBuilder.

Local Open Scope Z_scope.

(** [policy.CheckRequest] and [policy.CheckResponse]. *)
Record CheckRequest := mkCheckRequest {
  CR_WalletID : string;
  CR_ToAddress : string;
  CR_Asset : string;
  CR_Amount : string;
}.
Record CheckResponse := mkCheckResponse {
  Approved : bool;
  DecisionID : string;
  Reason : string;
}.

(** [grpcclient.SignRequest] and [grpcclient.BroadcastRequest]. *)
Record SignRequest := mkSignRequest { SR_KeyID : string; SR_TxBytes : bytes; SR_WalletID : UUID }.
Record BroadcastRequest := mkBroadcastRequest {
  BR_Chain : string;
  BR_TxBytes : bytes;
  BR_WalletID : UUID;
}.

Record CreateRequest := mkCreateRequest {
  Req_WalletID : UUID;
  Req_ToAddress : string;
  Req_Asset : string;
  Req_Amount : string;
}.

(** [CheckWhitelist] returns the pair [(dec, err)]; [Sign] and [BroadcastTx] return the field of
    the response the service reads; a nil [KeyLookup] is [None]. *)
Record Clients (W : Type) := mkClients {
  CheckWhitelist : CheckRequest → GoM W (option CheckResponse * option error);
  Sign : SignRequest → GoM W bytes;
  BroadcastTx : BroadcastRequest → GoM W string;
  KeyLookup : option (UUID → GoM W string);
}.
Arguments CheckWhitelist {W} _ _.
Arguments Sign {W} _ _.
Arguments BroadcastTx {W} _ _.
Arguments KeyLookup {W} _.

Section withdrawal.
Context {W : Type} {GR : GoRuntime} {UL : UuidLib} {CL : CryptoLib} {BL : BtcLib}.
Context {ST : Store W} {LK : Locker W} {EF : Effects W}.
Variable (cl : Clients W) (em : Emitter W) (others : GoM W unit).

Definition decisionID (dec : option CheckResponse) (err : option error) : string :=
  match err, dec with
  | Some _, _ => "error"
  | None, None => "nil"
  | None, Some d => DecisionID d
  end.

(** [err != nil || dec == nil || !dec.Approved]. *)
Definition rejected (dec : option CheckResponse) (err : option error) : bool :=
  match err, dec with
  | None, Some d => negb (Approved d)
  | _, _ => true
  end.

Definition check_request (wr : WithdrawalRequest) : CheckRequest :=
  mkCheckRequest (uuid_String (WR_WalletID wr)) (WR_ToAddress wr) (WR_Asset wr) (WR_Amount wr).

Definition withdrawal_event (typ : string) (wID : UUID) (payload : list (string * any)) : Event :=
  mkEvent typ (Some wID) payload.

(** What Create does with the answer of the policy engine. *)
Definition apply_decision (wr : WithdrawalRequest) (dec : option CheckResponse)
    (err : option error) (now : Z) : GoM W WithdrawalRequest :=
  match dec with
  | Some d =>
      if rejected dec err then
        let reason := if bool_decide (Reason d = EmptyString) then "policy_error"%string
                      else Reason d in
        ignore (UpdateWithdrawalState (WR_ID wr) WithdrawalStateFailed reason EmptyString
                  (DecisionID d));;
        mret (WR_with_state WithdrawalStateFailed (DecisionID d) reason EmptyString now wr)
      else
        UpdateWithdrawalState (WR_ID wr) WithdrawalStateWhitelisted EmptyString EmptyString
          (DecisionID d);;
        mret (WR_with_state WithdrawalStateWhitelisted (DecisionID d) EmptyString EmptyString
                now wr)
  | None =>
      ignore (UpdateWithdrawalState (WR_ID wr) WithdrawalStateFailed "policy_error" EmptyString
                EmptyString);;
      mret (WR_with_state WithdrawalStateFailed EmptyString "policy_error" EmptyString now wr)
  end.

Definition Create (req : CreateRequest) : GoM W WithdrawalRequest :=
  w ← wrap "get wallet: %w" [] (GetWallet (Req_WalletID req));
  if bool_decide (Wallet_State w = WalletStateRetired) then fail (Sentinel ErrWalletRetired)
  else if bool_decide (Wallet_State w = WalletStatePaused) then fail (New "wallet is paused")
  else
    now ← time_Now;
    id ← uuid_New;
    let wr := mkWithdrawal id (Req_WalletID req) (Req_ToAddress req) (Req_Asset req)
                (Req_Amount req) WithdrawalStatePending EmptyString EmptyString EmptyString None
                [] [] now now in
    wrap "create withdrawal: %w" [] (CreateWithdrawal wr);;
    emit em (withdrawal_event "withdrawal.created" (Req_WalletID req)
      [("id", AUuid id); ("to", AStr (Req_ToAddress req)); ("asset", AStr (Req_Asset req));
       ("amount", AStr (Req_Amount req))])%string;;
    '(dec, err) ← CheckWhitelist cl (check_request wr);
    emit em (withdrawal_event "withdrawal.whitelist_checked" (Req_WalletID req)
      [("id", AUuid id); ("decision_id", AStr (decisionID dec err))])%string;;
    apply_decision wr dec err now.

Definition rollback (w : Wallet) (n : Z) (ops : list string) : GoM W unit :=
  (if (0 <=? n) && IsEVM (Wallet_Chain w)
   then ignore (RollbackNonce (Wallet_ID w) (Wallet_Chain w) n) else mret ());;
  match ops with
  | [] => mret ()
  | _ => ignore (Unlock ops)
  end.

Definition noncePtr (wr : WithdrawalRequest) : Z := default (-1) (WR_NonceValue wr).

(** The resources the chain needs: a nonce on the EVM chains, coins on Bitcoin. *)
Definition reserve (id : UUID) (wr : WithdrawalRequest) (w : Wallet) : GoM W (Z * list string) :=
  if IsEVM (Wallet_Chain w) then
    n ← wrap "reserve nonce: %w" [] (ReserveNonce others (WR_WalletID wr) (Wallet_Chain w));
    ignore (UpdateWithdrawalNonce id n);;
    mret (n, [])
  else if bool_decide (Wallet_Chain w = ChainBitcoin) then
    let amountInt := fst (ParseInt (WR_Amount wr)) in
    r ← try (SelectForAmount (WR_WalletID wr) amountInt);
    match r with
    | Err err =>
        ignore (RollbackNonce (WR_WalletID wr) (Wallet_Chain w) (-1));;
        fail (Wrapf "select utxos: %w" [] err)
    | Ok (ops, _) =>
        r ← try (UpdateWithdrawalOutpoints id ops);
        match r with
        | Err err => rollback w (-1) ops;; fail (Wrapf "persist outpoints: %w" [] err)
        | Ok _ => mret (-1, ops)
        end
    end
  else mret (-1, []).

(** [rollback], then the failed state, then the error. *)
Definition abort (id : UUID) (w : Wallet) (n : Z) (ops : list string) (reason : string)
    (e : error) : GoM W unit :=
  rollback w n ops;;
  ignore (UpdateWithdrawalState id WithdrawalStateFailed reason EmptyString EmptyString);;
  fail e.

(** Build, sign, assemble and store, with the rollback on each failure. *)
Definition sign_and_store (id : UUID) (wr : WithdrawalRequest) (w : Wallet) (keyID : string)
    (n : Z) (ops : list string) : GoM W unit :=
  match BuildUnsignedTx w wr n ops with
  | Err err => rollback w n ops;; fail (Wrapf "build unsigned tx: %w" [] err)
  | Ok unsigned =>
      r ← try (Sign cl (mkSignRequest keyID (UT_Payload unsigned) (WR_WalletID wr)));
      match r with
      | Err err => abort id w n ops "sign_failed" (Wrapf "sign: %w" [] err)
      | Ok signature =>
          match UT_Assemble unsigned signature with
          | Err err => abort id w n ops "assemble_failed" (Wrapf "assemble signed tx: %w" [] err)
          | Ok signedBytes =>
              r ← try (UpdateWithdrawalSignedTx id signedBytes);
              match r with
              | Err err => rollback w n ops;; fail (Wrapf "persist signed tx: %w" [] err)
              | Ok _ =>
                  UpdateWithdrawalState id WithdrawalStateSigned EmptyString EmptyString EmptyString;;
                  emit em (withdrawal_event "withdrawal.signed" (WR_WalletID wr)
                    [("id", AUuid id); ("nonce", AInt n); ("utxos", AStrs ops);
                     ("signed_bytes_len", AInt (Z.of_nat (length signedBytes)))])%string
              end
          end
      end
  end.

Definition ConstructAndSign (id : UUID) : GoM W unit :=
  wr ← GetWithdrawal id;
  if negb (bool_decide (WR_State wr = WithdrawalStateWhitelisted))
  then fail (Errorf "withdrawal not in whitelisted state (is %s)" [FStr (WR_State wr)])
  else
    w ← GetWallet (WR_WalletID wr);
    keyID ← match KeyLookup cl with
            | Some lookup => wrap "resolve key: %w" [] (lookup (WR_WalletID wr))
            | None => mret EmptyString
            end;
    '(n, ops) ← reserve id wr w;
    sign_and_store id wr w keyID n ops.

Definition Broadcast (id : UUID) : GoM W unit :=
  wr ← GetWithdrawal id;
  if negb (bool_decide (WR_State wr = WithdrawalStateSigned))
  then fail (Errorf "withdrawal not signed (is %s)" [FStr (WR_State wr)])
  else
    w ← GetWallet (WR_WalletID wr);
    match WR_SignedTxBytes wr with
    | [] => fail (Errorf "withdrawal %s has no signed tx bytes" [FUuid id])
    | _ =>
        r ← try (BroadcastTx cl (mkBroadcastRequest (Wallet_Chain w) (WR_SignedTxBytes wr)
                                   (WR_WalletID wr)));
        match r with
        | Err err =>
            abort id w (noncePtr wr) (WR_ReservedOutpoints wr) "broadcast_failed"
              (Wrapf "broadcast: %w" [] err)
        | Ok txHash =>
            (if bool_decide (Wallet_Chain w = ChainBitcoin) then
               match WR_ReservedOutpoints wr with
               | [] => mret ()
               | ops => ignore (MarkSpent ops txHash)
               end
             else mret ());;
            (if IsEVM (Wallet_Chain w) then
               match WR_NonceValue wr with
               | Some n => ignore (CommitNonce (WR_WalletID wr) (Wallet_Chain w) n)
               | None => mret ()
               end
             else mret ());;
            UpdateWithdrawalState id WithdrawalStateBroadcast EmptyString txHash EmptyString;;
            emit em (withdrawal_event "withdrawal.broadcast" (WR_WalletID wr)
              [("id", AUuid id); ("tx_hash", AStr txHash)])%string
        end
    end.

Definition Confirm (id : UUID) (txHash : string) : GoM W unit :=
  wr ← GetWithdrawal id;
  if negb (bool_decide (WR_State wr = WithdrawalStateBroadcast))
  then fail (Errorf "withdrawal not broadcast (is %s)" [FStr (WR_State wr)])
  else
    UpdateWithdrawalState id WithdrawalStateConfirmed EmptyString txHash EmptyString;;
    emit em (withdrawal_event "withdrawal.confirmed" (WR_WalletID wr)
      [("id", AUuid id); ("tx_hash", AStr txHash)])%string.

Definition Fail (id : UUID) (reason : string) : GoM W unit :=
  wr ← GetWithdrawal id;
  w ← GetWallet (WR_WalletID wr);
  rollback w (noncePtr wr) [];;
  UpdateWithdrawalState id WithdrawalStateFailed reason EmptyString EmptyString;;
  emit em (withdrawal_event "withdrawal.failed" (WR_WalletID wr)
    [("id", AUuid id); ("reason", AStr reason)])%string.

Definition OnReorg (id : UUID) (outpoints : list string) : GoM W unit :=
  wr ← GetWithdrawal id;
  RestoreOnReorg outpoints;;
  if bool_decide (WR_State wr = WithdrawalStateConfirmed)
  then UpdateWithdrawalState id WithdrawalStateBroadcast "reorg" EmptyString EmptyString
  else mret ().
End withdrawal.
