(* ===== verification/Scenario.v ===== *)
(** * Scenario: one concrete process

    The packages, the clients and a few worlds reached by running the flow; the witnesses of
    the withdrawal theorems evaluate on them. *)

From S2P Require Import Prelude GoLib Bytes Extern Domain Storage Memstore MemstoreFacts.
From S2P Require Import Lock Outbox Nonce Utxo Evm Btc TxBuilder Withdrawal.

Local Open Scope Z_scope.

Module Scenario.
Definition rt : GoRuntime := simple_runtime 1.
#[export] Existing Instances rt simple_uuid simple_crypto simple_btc.

Definition good_to : string := "0x52908400098527886E0F7030069857D2E4169EE7".
Definition bad_to : string := "0x0000000000000000000000000000000000000bad".

Definition eth_wallet : Wallet :=
  mkWallet 7 ChainEthereum WalletTypeHot "eth" WalletStateActive "k" "mpc" None None 1 1.
Definition btc_wallet : Wallet :=
  mkWallet 8 ChainBitcoin WalletTypeHot "btc" WalletStateActive "k" "mpc" None None 1 1.
Definition coin (o : string) (v : Z) : UTXO :=
  mkUTXO o 8 (FormatInt v) "p2wpkh" 6 UTXOLockStateFree None None EmptyString 1.

Definition start : World :=
  ((CreateWallet eth_wallet;; CreateWallet btc_wallet;;
   InsertUTXO (coin "aa:0" 50);; InsertUTXO (coin "bb:1" 90))%string NewWorld).2.

(** The policy engine refuses one address; the signer and the gateway answer. *)
Definition approved (q : CheckRequest) : Prop := CR_ToAddress q ≠ bad_to.
Definition signature : bytes := 28 :: replicate 32 1 ++ replicate 32 2.
Definition clients : Clients World := {|
  CheckWhitelist := λ q, mret (if decide (CR_ToAddress q = bad_to)
    then (Some (mkCheckResponse false "d0" "address not whitelisted"), None)
    else (Some (mkCheckResponse true "d1" EmptyString), None))%string;
  Sign := λ _, mret signature;
  BroadcastTx := λ _, mret "0xhash"%string;
  KeyLookup := Some (λ _, mret "mpc-key"%string);
|}.
(** The same clients with a signer that answers [r], with a policy engine that times out, and
    with one that approves everything. *)
Definition signer_with (r : res bytes) : Clients World := {|
  CheckWhitelist := CheckWhitelist clients;
  Sign := λ _, ret_res r;
  BroadcastTx := BroadcastTx clients;
  KeyLookup := None;
|}.
Definition policy_with (dec : option CheckResponse) (err : option error) : Clients World := {|
  CheckWhitelist := λ _, mret (dec, err);
  Sign := Sign clients;
  BroadcastTx := BroadcastTx clients;
  KeyLookup := KeyLookup clients;
|}.
Definition no_policy : Clients World := policy_with None (Some (New "timeout")).
Definition yes : CheckResponse := mkCheckResponse true "d1" EmptyString.
Definition em : Emitter World := EmitterService.
Definition others : GoM World unit := mret ().

Definition eth_req (amount : string) : CreateRequest := mkCreateRequest 7 good_to "ETH" amount.
Definition btc_req (amount : string) : CreateRequest :=
  mkCreateRequest 8 "bc1qdest" "BTC" amount.

Definition created : World := (Create clients em (eth_req "1000") start).2.
Definition row_id : UUID := 1%N.
Definition signed : World := (ConstructAndSign clients em others row_id created).2.
Definition sent : World := (Broadcast clients em row_id signed).2.
Definition confirmed : World := (Confirm em row_id "0xhash" sent).2.

Definition state_of (w : World) (id : UUID) : option string :=
  WR_State <$> withdrawals (w_store w) !! id.

Example run_to_confirmed :
  map (λ w, state_of w row_id) [start; created; signed; sent; confirmed] =
    [None; Some WithdrawalStateWhitelisted; Some WithdrawalStateSigned;
     Some WithdrawalStateBroadcast; Some WithdrawalStateConfirmed].
Proof. vm_compute. reflexivity. Qed.
End Scenario.
