(* ===== verification/WithdrawalSafety.v ===== *)
(** * WithdrawalSafety: the policy gate

    A withdrawal past the whitelist check asks for what the policy engine approved.  The
    invariant is a relation between stores that every store call of the flow respects, so it
    holds at every moment of a handler and for any interleaving of handlers. *)

From S2P Require Import Prelude GoLib Bytes Extern Domain Storage Memstore MemstoreFacts.
From S2P Require Import Lock Outbox Nonce Utxo Evm Btc TxBuilder Withdrawal Scenario.

Local Open Scope Z_scope.

(** The states a withdrawal reaches only through an approval. *)
Definition gated (st : string) : Prop :=
  st ∈ [WithdrawalStateWhitelisted; WithdrawalStateSigned; WithdrawalStateBroadcast;
        WithdrawalStateConfirmed].

(** ** The update of a row's state as one write *)

Definition terminal (st : string) : bool :=
  bool_decide (st = WithdrawalStateConfirmed) || bool_decide (st = WithdrawalStateFailed).

Section rows.
Context {GR : GoRuntime} {UL : UuidLib}.

Definition wr_key (r : WithdrawalRequest) : string :=
  Mem.withdrawalDedupKey (WR_WalletID r) (WR_ToAddress r) (WR_Amount r) (WR_Asset r).

(** Reaching a terminal state frees the in-flight key. *)
Definition settle (st : string) (r : WithdrawalRequest) (infl : gmap string bool) :
    gmap string bool :=
  if terminal st then delete (wr_key r) infl else infl.

Definition moved (st reason tx pd : string) (now : Z) (r : WithdrawalRequest) :
    WithdrawalRequest :=
  WR_with_state st (Mem.set_nonempty pd (WR_PolicyDecisionID r))
    (Mem.set_nonempty reason (WR_FailureReason r)) (Mem.set_nonempty tx (WR_TxHash r)) now r.

Lemma set_inflight_id s : set_inflight (λ m, m) s = s.
Proof. by destruct s. Qed.
Lemma set_store_id w : set_store (w_store w) w = w.
Proof. by destruct w. Qed.

Lemma UpdateWithdrawalState_run id st reason tx pd w row :
  withdrawals (w_store w) !! id = Some row →
  UpdateWithdrawalState id st reason tx pd w =
    (Ok (), set_store (set_withdrawals (insert id (moved st reason tx pd (time_at (w_clock w)) row))
                         (set_inflight (settle st row) (w_store w))) (tick w)).
Proof.
  intros Hrow. unfold UpdateWithdrawalState, memstore, Mem.UpdateWithdrawalState. mem_cbv.
  rewrite Hrow. unfold settle, terminal, wr_key.
  destruct (bool_decide (st = WithdrawalStateConfirmed) ||
            bool_decide (st = WithdrawalStateFailed)); mem_cbv; [done|].
  by rewrite set_inflight_id.
Qed.

Lemma UpdateWithdrawalState_missing id st reason tx pd w :
  withdrawals (w_store w) !! id = None →
  UpdateWithdrawalState id st reason tx pd w =
    (Err (Wrapf "withdrawal not found: %w" [] (Sentinel ErrNoRows)), w).
Proof.
  intros Hrow. unfold UpdateWithdrawalState, memstore, Mem.UpdateWithdrawalState. mem_cbv.
  by rewrite Hrow.
Qed.

Lemma CreateWithdrawal_taken wr w :
  withdrawals (w_store w) !! WR_ID wr = None →
  inflightWithdrawals (w_store w) !! wr_key wr = Some true →
  CreateWithdrawal wr w = (Err (Sentinel ErrDuplicateWithdrawal), w).
Proof.
  unfold CreateWithdrawal, memstore, Mem.CreateWithdrawal, wr_key. mem_cbv.
  intros -> ->. done.
Qed.

Lemma GetWithdrawal_run id w :
  GetWithdrawal id w =
    (match withdrawals (w_store w) !! id with
     | Some row => Ok row
     | None => Err (Wrapf "withdrawal not found: %w" [] (Sentinel ErrNoRows))
     end, w).
Proof.
  unfold GetWithdrawal, memstore, Mem.GetWithdrawal. mem_cbv. by destruct (_ !! id).
Qed.
End rows.

Section gate.
(** The requests the policy engine has approved. *)
Variable approved : CheckRequest → Prop.
Context {UL : UuidLib}.

Definition gate (s : MemStore) : Prop :=
  ∀ id row, withdrawals s !! id = Some row → gated (WR_State row) → approved (check_request row).

(** What is asked for in a row never changes. *)
Definition rows_keep (s s' : MemStore) : Prop :=
  ∀ id row, withdrawals s !! id = Some row →
    ∃ row', withdrawals s' !! id = Some row' ∧ check_request row' = check_request row.

Definition gate_rel (s s' : MemStore) : Prop := gate s → gate s' ∧ rows_keep s s'.

(** The row [id] is there and asks for [q]. *)
Definition asks (id : UUID) (q : CheckRequest) (s : MemStore) : Prop :=
  ∃ row, withdrawals s !! id = Some row ∧ check_request row = q.
Definition gate_at (id : UUID) (q : CheckRequest) (s s' : MemStore) : Prop :=
  asks id q s → gate_rel s s'.

#[export] Instance gate_rel_preorder : PreOrder gate_rel.
Proof.
  split.
  - intros s Hs. split; [done|]. intros id row H. eauto.
  - intros a b c Hab Hbc Ha. destruct (Hab Ha) as [Hb Rab], (Hbc Hb) as [Hc Rbc].
    split; [done|]. intros id row H. destruct (Rab id row H) as (r1 & H1 & E1).
    destruct (Rbc id r1 H1) as (r2 & H2 & E2). exists r2. split; [done|congruence].
Qed.

#[export] Instance gate_at_preorder id q : PreOrder (gate_at id q).
Proof.
  split.
  - intros s _. reflexivity.
  - intros a b c Hab Hbc Ha Hg. destruct (Hab Ha Hg) as [Hb Rab].
    assert (asks id q b) as Hq.
    { destruct Ha as (row & H & <-). destruct (Rab id row H) as (r' & ? & ?). by exists r'. }
    destruct (Hbc Hq Hb) as [Hc Rbc]. split; [done|]. intros id' row H.
    destruct (Rab id' row H) as (r1 & H1 & E1), (Rbc id' r1 H1) as (r2 & H2 & E2).
    exists r2. split; [done|congruence].
Qed.

#[export] Instance gate_rel_reads : Reads GWithdrawals gate_rel.
Proof.
  intros s s' [E _] Hs. unfold gate, rows_keep in *. rewrite E. split; [done|]. eauto.
Qed.

#[export] Instance gate_at_reads id q : Reads GWithdrawals (gate_at id q).
Proof. intros s s' H _. by apply (reads_same (k:=GWithdrawals)). Qed.

Lemma gate_rel_at {A} id q (m : GoM World A) :
  respects (on_store gate_rel) m → respects (on_store (gate_at id q)) m.
Proof. intros Hm w _. apply Hm. Qed.

(** Overwriting one row with one that asks for the same. *)
Lemma gate_rel_update id row row' f s :
  withdrawals s !! id = Some row → check_request row' = check_request row →
  (gated (WR_State row') → gate s → approved (check_request row)) →
  gate_rel s (set_withdrawals (insert id row') (set_inflight f s)).
Proof.
  intros Hrow Hreq Hok Hs. split.
  - intros id' r. simpl. destruct (decide (id = id')) as [<-|Hne].
    + rewrite lookup_insert_eq. intros [= <-] Hg. rewrite Hreq. by apply Hok.
    + rewrite lookup_insert_ne by done. apply Hs.
  - intros id' r Hr. simpl. destruct (decide (id = id')) as [<-|Hne].
    + rewrite lookup_insert_eq. exists row'. split; [done|congruence].
    + rewrite lookup_insert_ne by done. eauto.
Qed.

Section store.
Context {GR : GoRuntime}.

Lemma gate_update_build id f :
  (∀ now r, check_request (f now r) = check_request r ∧ WR_State (f now r) = WR_State r) →
  respects (on_store gate_rel) (Mem.update_build id f).
Proof.
  intros Hf w. unfold Mem.update_build. mem_cbv. unfold on_store.
  destruct (withdrawals (w_store w) !! id) as [row|] eqn:E; simpl; [|reflexivity].
  destruct (Hf (time_at (w_clock w)) row) as [Hq Hst].
  rewrite <-(set_inflight_id (w_store w)) at 2.
  apply (gate_rel_update id row); [done|done|]. rewrite Hst. intros Hg Hs. by apply (Hs id).
Qed.

Lemma gate_Nonce id n : respects (on_store gate_rel) (UpdateWithdrawalNonce id n).
Proof. by apply gate_update_build. Qed.
Lemma gate_Outpoints id l : respects (on_store gate_rel) (UpdateWithdrawalOutpoints id l).
Proof. by apply gate_update_build. Qed.
Lemma gate_SignedTx id l : respects (on_store gate_rel) (UpdateWithdrawalSignedTx id l).
Proof. by apply gate_update_build. Qed.

Lemma gate_UpdateState id q st reason tx pd :
  (gated st → approved q) →
  respects (on_store (gate_at id q)) (UpdateWithdrawalState id st reason tx pd).
Proof.
  intros Hst w (row & Hrow & <-). rewrite (UpdateWithdrawalState_run _ _ _ _ _ _ row Hrow).
  apply (gate_rel_update id row); auto.
Qed.
Lemma gate_UpdateState_failed id reason tx pd :
  respects (on_store gate_rel)
    (UpdateWithdrawalState id WithdrawalStateFailed reason tx pd).
Proof.
  intros w. destruct (withdrawals (w_store w) !! id) as [row|] eqn:E.
  - rewrite (UpdateWithdrawalState_run _ _ _ _ _ _ row E).
    apply (gate_rel_update id row); [done|done|].
    unfold gated. rewrite !elem_of_cons, elem_of_nil. intros [H|[H|[H|[H|[]]]]]; discriminate H.
  - rewrite (UpdateWithdrawalState_missing _ _ _ _ _ _ E). reflexivity.
Qed.

Lemma CreateWithdrawal_ok wr w w' :
  CreateWithdrawal wr w = (Ok (), w') →
  withdrawals (w_store w) !! WR_ID wr = None ∧
  default false (inflightWithdrawals (w_store w) !! wr_key wr) = false ∧
  ∃ c u, w_store w' = set_withdrawals (insert (WR_ID wr) (WR_with_times c u wr))
           (set_inflight (insert (wr_key wr) true) (w_store w)).
Proof.
  unfold CreateWithdrawal, memstore, Mem.CreateWithdrawal, wr_key, Mem.created_or_now. mem_cbv.
  destruct (withdrawals (w_store w) !! WR_ID wr); [discriminate|].
  destruct (default false _) eqn:E; [discriminate|].
  case_bool_decide; mem_cbv; intros [= <-]; (split; [done|]); (split; [done|]);
    by eexists _, _.
Qed.

Lemma CreateWithdrawal_err wr w e w' :
  CreateWithdrawal wr w = (Err e, w') →
  w' = w ∧ (is_Some (withdrawals (w_store w) !! WR_ID wr) ∨
            default false (inflightWithdrawals (w_store w) !! wr_key wr) = true ∧
            e = Sentinel ErrDuplicateWithdrawal).
Proof.
  unfold CreateWithdrawal, memstore, Mem.CreateWithdrawal, wr_key, Mem.created_or_now. mem_cbv.
  destruct (withdrawals (w_store w) !! WR_ID wr); [intros [= <- <-]; eauto|].
  destruct (default false _) eqn:E; [intros [= <- <-]; auto|].
  case_bool_decide; mem_cbv; discriminate.
Qed.

Lemma gate_Create wr w w' :
  WR_State wr = WithdrawalStatePending → CreateWithdrawal wr w = (Ok (), w') →
  gate_rel (w_store w) (w_store w') ∧ asks (WR_ID wr) (check_request wr) (w_store w').
Proof.
  intros Hst (Hnone & _ & c & u & ->)%CreateWithdrawal_ok. split.
  - intros Hs. split.
    + intros id r. simpl. destruct (decide (WR_ID wr = id)) as [<-|Hne].
      * rewrite lookup_insert_eq. intros [= <-]. simpl. rewrite Hst. unfold gated.
        rewrite !elem_of_cons, elem_of_nil. intros [H|[H|[H|[H|[]]]]]; discriminate H.
      * rewrite lookup_insert_ne by done. apply Hs.
    + intros id r Hr. simpl. exists r. split; [|done]. rewrite lookup_insert_ne; [done|].
      intros <-. congruence.
  - eexists. simpl. by rewrite lookup_insert_eq.
Qed.
End store.

(** ** The handlers *)

Section handlers.
Context {GR : GoRuntime} {CL : CryptoLib} {BL : BtcLib}.
Variable (cl : Clients World) (em : Emitter World) (others : GoM World unit).
Context {EM : AuditEmitter em}.

(** What the other processes and goroutines may do during a call: anything that respects the
    same relation, the service's own handlers included.  An approval by the policy client is
    what [approved] records. *)
Record gate_env : Prop := {
  ge_policy q : respects (on_store gate_rel) (CheckWhitelist cl q);
  ge_approves q w d w' : CheckWhitelist cl q w = (Ok (Some d, None), w') →
    Approved d = true → approved q;
  ge_sign q : respects (on_store gate_rel) (Sign cl q);
  ge_broadcast q : respects (on_store gate_rel) (BroadcastTx cl q);
  ge_lookup f u : KeyLookup cl = Some f → respects (on_store gate_rel) (f u);
  ge_others : respects (on_store gate_rel) others;
}.
Hypothesis env : gate_env.

#[local] Hint Resolve gate_Nonce gate_Outpoints gate_SignedTx gate_UpdateState_failed
  ge_policy ge_sign ge_broadcast ge_lookup ge_others env : gorel.

Lemma gate_emit ev : respects (on_store gate_rel) (emit em ev).
Proof. apply (respects_emit em GWithdrawals gate_rel). discriminate. Qed.
#[local] Hint Resolve gate_emit : gorel.
#[local] Hint Extern 1 (respects (on_store gate_rel) _) =>
  (other_group GWithdrawals gate_rel) : gorel.

Lemma gate_ReserveNonce u c : respects (on_store gate_rel) (ReserveNonce others u c).
Proof.
  unfold ReserveNonce. generalize retries. intros n. induction n as [|n IH]; cbn [reserve_loop].
  - go_respects.
  - go_respects.
Qed.

Lemma gate_rollback w n ops : respects (on_store gate_rel) (rollback w n ops).
Proof. unfold rollback, RollbackNonce, Unlock. go_respects. Qed.
#[local] Hint Resolve gate_ReserveNonce gate_rollback : gorel.

Lemma gate_reserve id wr w : respects (on_store gate_rel) (reserve others id wr w).
Proof. unfold reserve, SelectForAmount, RollbackNonce. go_respects. Qed.
#[local] Hint Resolve gate_reserve : gorel.
#[local] Hint Extern 2 (respects (on_store (gate_at _ _)) _) =>
  (apply gate_rel_at; solve [eauto 3 with gorel]) : gorel.

(** A handler that starts by reading its row may use that the row was approved if its state
    says so, and keeps knowing what the row asks for. *)
Lemma gate_read {A} id (f : WithdrawalRequest → GoM World A) :
  (∀ row, (gated (WR_State row) → approved (check_request row)) →
     respects (on_store (gate_at id (check_request row))) (f row)) →
  respects (on_store gate_rel) (GetWithdrawal id ≫= f).
Proof.
  intros Hf w. unfold mbind, GoM_bind. rewrite GetWithdrawal_run.
  destruct (withdrawals (w_store w) !! id) as [row|] eqn:E; [|reflexivity].
  intros Hs. apply (Hf row); [exact (Hs id row E)|by exists row|done].
Qed.

Lemma gate_abort id w n ops reason e :
  respects (on_store gate_rel) (abort id w n ops reason e).
Proof. unfold abort. go_respects. Qed.
#[local] Hint Resolve gate_abort : gorel.

(** Moving an approved row on, then reporting it. *)
Lemma gate_advance id q st reason tx ev :
  approved q →
  respects (on_store (gate_at id q))
    (UpdateWithdrawalState id st reason tx EmptyString;; emit em ev).
Proof. intros Hq. go_respects. by apply gate_UpdateState. Qed.

Lemma gate_sign_and_store id wr w k n ops :
  approved (check_request wr) →
  respects (on_store (gate_at id (check_request wr))) (sign_and_store cl em id wr w k n ops).
Proof. intros Hq. unfold sign_and_store. go_respects; by apply gate_UpdateState. Qed.

Ltac gated_state :=
  unfold gated; rewrite !elem_of_cons; auto 8.

Lemma gate_ConstructAndSign id :
  respects (on_store gate_rel) (ConstructAndSign cl em others id).
Proof.
  unfold ConstructAndSign. apply gate_read. intros row Hrow.
  case_bool_decide as Hst; cbn [negb]; [|go_respects].
  assert (Hq : approved (check_request row)) by (apply Hrow; rewrite Hst; gated_state).
  go_respects. by apply gate_sign_and_store.
Qed.

Lemma gate_Broadcast id : respects (on_store gate_rel) (Broadcast cl em id).
Proof.
  unfold Broadcast. apply gate_read. intros row Hrow.
  case_bool_decide as Hst; cbn [negb]; [|go_respects].
  assert (Hq : approved (check_request row)) by (apply Hrow; rewrite Hst; gated_state).
  unfold MarkSpent, CommitNonce. go_respects; by apply gate_UpdateState.
Qed.

Lemma gate_Confirm id tx : respects (on_store gate_rel) (Confirm em id tx).
Proof.
  unfold Confirm. apply gate_read. intros row Hrow.
  case_bool_decide as Hst; cbn [negb]; [|go_respects].
  apply gate_advance, Hrow. rewrite Hst. gated_state.
Qed.

Lemma gate_OnReorg id ops : respects (on_store gate_rel) (OnReorg id ops).
Proof.
  unfold OnReorg. apply gate_read. intros row Hrow. unfold RestoreOnReorg.
  case_bool_decide as Hst; go_respects.
  apply gate_UpdateState. intros _. apply Hrow. rewrite Hst. gated_state.
Qed.

Lemma gate_Fail id reason : respects (on_store gate_rel) (Fail em id reason).
Proof. unfold Fail. go_respects. Qed.

Lemma gate_Create_handler req : respects (on_store gate_rel) (Create cl em req).
Proof.
  unfold Create. apply respects_bind; [exact _|go_respects|intros w].
  case_bool_decide; [go_respects|]. case_bool_decide; [go_respects|].
  apply respects_bind; [exact _|go_respects|intros now].
  apply respects_bind; [exact _|go_respects|intros id]. cbv zeta.
  set (wr := mkWithdrawal id _ _ _ _ _ _ _ _ _ _ _ _ _).
  intros w0. unfold mbind at 1, GoM_bind at 1, wrap.
  destruct (CreateWithdrawal wr w0) as [[[]|e] w1] eqn:E.
  2: { apply CreateWithdrawal_err in E as [-> _]. reflexivity. }
  apply gate_Create in E as [Hrel Hasks]; [|done].
  unfold on_store. etrans; [exact Hrel|].
  match goal with |- gate_rel _ (w_store (?m w1).2) =>
    assert (Hm : respects (on_store (gate_at id (check_request wr))) m) end.
  2: { by apply Hm. }
  clear dependent w0 w1. apply respects_bind; [exact _|go_respects|intros _].
  apply respects_bind_run; [exact _|go_respects|]. intros w1 [dec err] w2 Epol.
  apply respects_bind; [exact _|go_respects|intros _].
  unfold apply_decision. destruct dec as [d|]; [|go_respects]. destruct (rejected (Some d) err) eqn:Erej; [go_respects|].
  assert (Hq : approved (check_request wr)).
  { destruct err as [e|]; [discriminate|]. eapply ge_approves; [exact env|exact Epol|].
    simpl in Erej. by apply negb_false_iff. }
  go_respects. by apply gate_UpdateState.
Qed.

(** Any handler of the service, with any outcome, or a step of the rest of the program that
    leaves the withdrawals alone. *)
Inductive wd_step : World → World → Prop :=
  | wd_create req w : wd_step w (Create cl em req w).2
  | wd_sign id w : wd_step w (ConstructAndSign cl em others id w).2
  | wd_broadcast id w : wd_step w (Broadcast cl em id w).2
  | wd_confirm id tx w : wd_step w (Confirm em id tx w).2
  | wd_fail id reason w : wd_step w (Fail em id reason w).2
  | wd_reorg id ops w : wd_step w (OnReorg id ops w).2
  | wd_other w w' : withdrawals (w_store w') = withdrawals (w_store w) → wd_step w w'.

Lemma wd_step_gate w w' : wd_step w w' → gate_rel (w_store w) (w_store w').
Proof.
  destruct 1 as [req w|id w|id w|id tx w|id r w|id ops w|w w' E].
  - exact (gate_Create_handler req w).
  - exact (gate_ConstructAndSign id w).
  - exact (gate_Broadcast id w).
  - exact (gate_Confirm id tx w).
  - exact (gate_Fail id r w).
  - exact (gate_OnReorg id ops w).
  - intros Hs. unfold gate, rows_keep. rewrite E. split; [done|]. eauto.
Qed.

Lemma wd_run_gate w w' : rtc wd_step w w' → gate_rel (w_store w) (w_store w').
Proof.
  induction 1 as [|x y z Hxy _ IH]; [reflexivity|]. etrans; [by eapply wd_step_gate|exact IH].
Qed.

(** From a store without withdrawals the gate holds along every run. *)
Lemma wd_run_gated w0 w :
  withdrawals (w_store w0) = ∅ → rtc wd_step w0 w → gate (w_store w).
Proof.
  intros H0 Hrun. apply (wd_run_gate _ _ Hrun). intros i r. by rewrite H0, lookup_empty.
Qed.
End handlers.

(** C1: the policy gate.  Starting from a store without withdrawals, after any sequence of
    handler runs (in which the policy engine, the signer, the gateway and other goroutines
    may interleave further handler steps at every external call), every withdrawal that is
    whitelisted, signed, broadcast or confirmed asks for a transfer that the policy engine
    has approved; and what a withdrawal asks for never changes. *)
Theorem policy_gate {GR : GoRuntime} {CL : CryptoLib} {BL : BtcLib}
    (cl : Clients World) (em : Emitter World) (others : GoM World unit) w0 w1 w2 id row :
  AuditEmitter em → gate_env cl others →
  withdrawals (w_store w0) = ∅ →
  rtc (wd_step cl em others) w0 w1 → rtc (wd_step cl em others) w1 w2 →
  withdrawals (w_store w1) !! id = Some row →
  (gated (WR_State row) → approved (check_request row)) ∧
  ∃ row', withdrawals (w_store w2) !! id = Some row' ∧
    check_request row' = check_request row ∧
    (gated (WR_State row') → approved (check_request row)).
Proof.
  intros EM env H0 S1 S2 Hrow.
  pose proof (wd_run_gated _ _ _ env _ _ H0 S1) as G1. split; [exact (G1 id row Hrow)|].
  destruct (wd_run_gate _ _ _ env _ _ S2 G1) as [G2 K2].
  destruct (K2 id row Hrow) as (row' & Hr' & E).
  exists row'. split; [done|]. split; [done|]. rewrite <-E. exact (G2 id row' Hr').
Qed.
End gate.

Section witnesses.
Import Scenario.

Lemma clients_gate_env : gate_env approved clients others.
Proof.
  split.
  - intros q. apply respects_ret, _.
  - intros q w d w'. unfold approved. simpl. destruct (decide _); intros [= <- <-]; done.
  - intros q. apply respects_ret, _.
  - intros q. apply respects_ret, _.
  - intros f u [= <-]. apply respects_ret, _.
  - apply respects_ret, _.
Defined.

Lemma policy_gate_witness :
  ∃ row, withdrawals (w_store created) !! row_id = Some row ∧
    gated (WR_State row) ∧ approved (check_request row) ∧
    ∃ row', withdrawals (w_store signed) !! row_id = Some row' ∧
      check_request row' = check_request row ∧
      (gated (WR_State row') → approved (check_request row)).
Proof.
  destruct (withdrawals (w_store created) !! row_id) as [row|] eqn:E; [|vm_compute in E; discriminate E].
  exists row. split; [done|].
  assert (Hg : gated (WR_State row)).
  { vm_compute in E. injection E as <-. apply (bool_decide_unpack _). vm_compute. exact I. }
  split; [done|].
  destruct (policy_gate approved clients em others start created signed row_id row) as [H1 H2];
    [exact _|exact clients_gate_env|vm_compute; reflexivity| | |exact E|].
  - apply rtc_once. exact (wd_create clients em others (eth_req "1000") start).
  - apply rtc_once. exact (wd_sign clients em others row_id created).
  - split; [by apply H1|exact H2].
Defined.
End witnesses.
