(* ===== verification/Lifecycle.v ===== *)
(** * Lifecycle: the withdrawal state machine

    The abstract machine keeps, for each withdrawal, the key of the transfer it asks for and
    its state, together with the marks of the transfers in flight.  Every handler of the
    withdrawal flow refines it; the life cycle and the rule "one live withdrawal per transfer"
    are then facts of the abstract machine, proved by induction over its steps. *)

From S2P Require Import Prelude GoLib Bytes Extern Domain Storage Memstore MemstoreFacts.
From S2P Require Import Lock Outbox Nonce Utxo Evm Btc TxBuilder Withdrawal Scenario.
From S2P Require Import WithdrawalSafety.

Local Open Scope Z_scope.

(** ** The abstract machine *)

Record machine := mkMachine {
  table : gmap UUID (string * string);   (** transfer key and state *)
  marks : gmap string bool;              (** transfers in flight *)
}.

Definition a_created (id : UUID) (k : string) (a : machine) : machine :=
  mkMachine (<[id := (k, WithdrawalStatePending)]> (table a)) (<[k := true]> (marks a)).

Definition a_moved (id : UUID) (k to : string) (a : machine) : machine :=
  mkMachine (<[id := (k, to)]> (table a)) (if terminal to then delete k (marks a) else marks a).

(** The transitions of the handlers: forward, demoted by a reorg, failed at any time. *)
Definition edge (from to : string) : bool :=
  bool_decide ((from, to) ∈
    [(WithdrawalStatePending, WithdrawalStateWhitelisted);
     (WithdrawalStateWhitelisted, WithdrawalStateSigned);
     (WithdrawalStateSigned, WithdrawalStateBroadcast);
     (WithdrawalStateBroadcast, WithdrawalStateConfirmed);
     (WithdrawalStateConfirmed, WithdrawalStateBroadcast)])
  || bool_decide (to = WithdrawalStateFailed).

(** [orderly] steps never leave a terminal state. *)
Inductive astep (orderly : bool) : machine → machine → Prop :=
  | a_create a id k :
      table a !! id = None → default false (marks a !! k) = false →
      astep orderly a (a_created id k a)
  | a_move a id k from to :
      table a !! id = Some (k, from) → edge from to = true →
      (orderly = true → terminal from = false) →
      astep orderly a (a_moved id k to a).

(** A live withdrawal holds the mark of its transfer, and holds it alone. *)
Record inflight_ok (a : machine) : Prop := {
  io_marked id k st : table a !! id = Some (k, st) → terminal st = false →
    marks a !! k = Some true;
  io_unique id1 id2 k st1 st2 : table a !! id1 = Some (k, st1) → table a !! id2 = Some (k, st2) →
    terminal st1 = false → terminal st2 = false → id1 = id2;
}.

Ltac at_id := match goal with
  | |- context [<[?i := _]> _ !! ?j] =>
      destruct (decide (i = j)) as [->|];
      [rewrite lookup_insert_eq | rewrite lookup_insert_ne by done]
  end.

Lemma inflight_created id k a :
  table a !! id = None → default false (marks a !! k) = false →
  inflight_ok a → inflight_ok (a_created id k a).
Proof.
  intros Hnone Hfree [Hm Hu].
  assert (Hfresh : ∀ i st, table a !! i = Some (k, st) → terminal st = false → False).
  { intros i st Hi Hst. rewrite (Hm i k st Hi Hst) in Hfree. discriminate. }
  split; simpl.
  - intros i k' st. at_id; [intros [= <- <-] _; by rewrite lookup_insert_eq|]. intros Hi Hst.
    rewrite lookup_insert_ne; [eauto|]. intros ->. by eapply Hfresh.
  - intros i j k' s1 s2. repeat at_id; try done.
    + intros [= <- <-] Hj _ Hs. exfalso. by eapply Hfresh.
    + intros Hi [= <- <-] Hs _. exfalso. by eapply Hfresh.
    + eauto.
Qed.

Lemma inflight_moved id k from to a :
  table a !! id = Some (k, from) → terminal from = false →
  inflight_ok a → inflight_ok (a_moved id k to a).
Proof.
  intros Hid Hlive [Hm Hu]. split; simpl.
  - intros i k' st. at_id.
    + intros [= <- <-] ->. eauto.
    + intros Hi Hst. destruct (terminal to); [|eauto]. rewrite lookup_delete_ne; [eauto|].
      intros ->. eauto.
  - intros i j k' s1 s2. repeat at_id; try done.
    + intros [= <- <-] Hj _ Hs. eauto.
    + intros Hi [= <- <-] Hs _. eauto.
    + eauto.
Qed.

Lemma astep_inflight a b : astep true a b → inflight_ok a → inflight_ok b.
Proof.
  destruct 1; [by apply inflight_created | eapply inflight_moved; eauto].
Qed.

Lemma asteps_inflight a b : rtc (astep true) a b → inflight_ok a → inflight_ok b.
Proof. induction 1; [done|]. eauto using astep_inflight. Qed.

Lemma inflight_empty m : inflight_ok (mkMachine ∅ m).
Proof. split; simpl; intros *; rewrite lookup_empty; discriminate. Qed.

(** What a step does to one row. *)
Lemma astep_row o a b id k st :
  astep o a b → table a !! id = Some (k, st) →
  ∃ st', table b !! id = Some (k, st') ∧
    (st' = st ∨ edge st st' = true ∧ (o = true → terminal st = false)).
Proof.
  destruct 1 as [a i k' Hn Hm|a i k' from to Hi He Ho]; simpl; intros Hrow; at_id; try congruence;
    eauto.
  rewrite Hi in Hrow. injection Hrow as -> ->. eauto 6.
Qed.

Definition path : relation string := rtc (λ s t, edge s t = true).

Lemma asteps_row o a b id k st :
  rtc (astep o) a b → table a !! id = Some (k, st) →
  ∃ st', table b !! id = Some (k, st') ∧ path st st' ∧
    (o = true → terminal st = true → st' = st).
Proof.
  intros H. revert st. induction H as [a|a b c H1 _ IH]; intros st Hst.
  - exists st. split; [done|]. split; [apply rtc_refl|done].
  - destruct (astep_row o a b id k st H1 Hst) as (s1 & Hs1 & Hd).
    destruct (IH s1 Hs1) as (s2 & Hs2 & Hp & Ht). exists s2. split; [done|].
    destruct Hd as [->|[He Ho]]; [done|]. split; [by eapply rtc_l|].
    intros Hot Hterm. rewrite Ho in Hterm by done. discriminate.
Qed.

(** A failed withdrawal stays failed. *)
Lemma path_failed st : path WithdrawalStateFailed st → st = WithdrawalStateFailed.
Proof.
  remember WithdrawalStateFailed as f eqn:Ef. induction 1 as [|x y z H _ IH]; [done|]. subst x.
  assert (Hy : y = WithdrawalStateFailed); [|by rewrite (IH Hy)]. clear IH. unfold edge in H. apply orb_true_iff in H as [H|H].
  - exfalso. apply bool_decide_eq_true in H. rewrite !elem_of_cons, elem_of_nil in H.
    destruct H as [H|[H|[H|[H|[H|[]]]]]]; discriminate H.
  - by apply bool_decide_eq_true in H.
Qed.

(** ** The abstraction of a store *)

Section refinement.
Context {UL : UuidLib}.

Definition machine_of (s : MemStore) : machine :=
  mkMachine ((λ r, (wr_key r, WR_State r)) <$> withdrawals s) (inflightWithdrawals s).

(** Steps the machine does not see. *)
Definition unseen : relation MemStore := framing machine_of.

(** At most one move of the row [id], which is in state [st], to one of [tos]. *)
Definition moves (id : UUID) (k st : string) (tos : list string) (s s' : MemStore) : Prop :=
  table (machine_of s) !! id = Some (k, st) →
  machine_of s' = machine_of s ∨
  ∃ to, to ∈ tos ∧ machine_of s' = a_moved id k to (machine_of s).

Lemma lookup_table s id :
  table (machine_of s) !! id = (λ r, (wr_key r, WR_State r)) <$> withdrawals s !! id.
Proof. apply lookup_fmap. Qed.

#[export] Instance unseen_preorder : PreOrder unseen.
Proof. apply framing_preorder. Qed.
#[export] Instance unseen_reads : Reads GWithdrawals unseen.
Proof. intros s s' [E1 E2]. unfold unseen, framing, machine_of. by rewrite E1, E2. Qed.

(** An unseen step before or after a move is absorbed by it. *)
Lemma unseen_moves {A B} id k st tos (m : GoM World A) (f : A → GoM World B) :
  respects (on_store unseen) m → (∀ a, respects (on_store (moves id k st tos)) (f a)) →
  respects (on_store (moves id k st tos)) (m ≫= f).
Proof.
  intros Hm Hf. eapply respects_seq; [| |exact Hm|exact Hf].
  - intros a b H _. by left.
  - intros a b c H1 H2. unfold on_store, unseen, framing, moves in *. by rewrite <-H1.
Qed.
Lemma moves_unseen {A B} id k st tos (m : GoM World A) (f : A → GoM World B) :
  respects (on_store (moves id k st tos)) m → (∀ a, respects (on_store unseen) (f a)) →
  respects (on_store (moves id k st tos)) (m ≫= f).
Proof.
  intros Hm Hf. eapply respects_seq; [| |exact Hm|exact Hf].
  - done.
  - intros a b c H1 H2. unfold on_store, unseen, framing, moves in *. by rewrite H2.
Qed.
Lemma unseen_is_moves {A} id k st tos (m : GoM World A) :
  respects (on_store unseen) m → respects (on_store (moves id k st tos)) m.
Proof. intros Hm w _. left. apply Hm. Qed.

Section store.
Context {GR : GoRuntime}.

Lemma unseen_build id f :
  (∀ now r, wr_key (f now r) = wr_key r ∧ WR_State (f now r) = WR_State r) →
  respects (on_store unseen) (Mem.update_build id f).
Proof.
  intros Hf w. unfold Mem.update_build. mem_cbv. unfold on_store, unseen, framing.
  destruct (withdrawals (w_store w) !! id) as [row|] eqn:E; simpl; [|done].
  unfold machine_of. simpl. f_equal. rewrite fmap_insert. apply insert_id.
  rewrite lookup_fmap, E. simpl. by destruct (Hf (time_at (w_clock w)) row) as [-> ->].
Qed.

Lemma unseen_Nonce id n : respects (on_store unseen) (UpdateWithdrawalNonce id n).
Proof. by apply unseen_build. Qed.
Lemma unseen_Outpoints id l : respects (on_store unseen) (UpdateWithdrawalOutpoints id l).
Proof. by apply unseen_build. Qed.
Lemma unseen_SignedTx id l : respects (on_store unseen) (UpdateWithdrawalSignedTx id l).
Proof. by apply unseen_build. Qed.

(** The state write, in the machine. *)
Lemma UpdateWithdrawalState_machine id row st reason tx pd w :
  withdrawals (w_store w) !! id = Some row →
  machine_of (w_store (UpdateWithdrawalState id st reason tx pd w).2) =
    a_moved id (wr_key row) st (machine_of (w_store w)).
Proof.
  intros Hrow. rewrite (UpdateWithdrawalState_run _ _ _ _ _ _ row Hrow). simpl.
  unfold machine_of, a_moved, settle. simpl. f_equal. by rewrite fmap_insert.
Qed.

Lemma moves_UpdateState id k st tos to reason tx pd :
  to ∈ tos → respects (on_store (moves id k st tos)) (UpdateWithdrawalState id to reason tx pd).
Proof.
  intros Hto w. unfold on_store, moves. rewrite lookup_table.
  destruct (withdrawals (w_store w) !! id) as [row|] eqn:E; [|discriminate].
  intros [= <- <-]. right. exists to. by rewrite (UpdateWithdrawalState_machine id row).
Qed.

(** A handler that starts by reading its row. *)
Definition run_of (id : UUID) (from : string → Prop) (tos : list string) : relation MemStore :=
  λ s s', machine_of s' = machine_of s ∨
    ∃ k st to, table (machine_of s) !! id = Some (k, st) ∧ from st ∧ to ∈ tos ∧
      machine_of s' = a_moved id k to (machine_of s).

Lemma run_of_read {A} id (from : string → Prop) tos (f : WithdrawalRequest → GoM World A) :
  (∀ row, from (WR_State row) →
     respects (on_store (moves id (wr_key row) (WR_State row) tos)) (f row)) →
  (∀ row, ¬ from (WR_State row) → respects (on_store unseen) (f row)) →
  (∀ st, Decision (from st)) →
  respects (on_store (run_of id from tos)) (GetWithdrawal id ≫= f).
Proof.
  intros Hin Hout Hdec w. unfold mbind, GoM_bind. rewrite GetWithdrawal_run.
  destruct (withdrawals (w_store w) !! id) as [row|] eqn:E; [|by left].
  destruct (decide (from (WR_State row))) as [Hf|Hf]; [|left; by apply Hout].
  assert (Hrow : table (machine_of (w_store w)) !! id = Some (wr_key row, WR_State row))
    by by rewrite lookup_table, E.
  destruct (Hin row Hf w Hrow) as [H|(to & Hto & H)]; [by left|right; eauto 8].
Qed.
End store.

(** ** The handlers *)

Section handlers.
Context {GR : GoRuntime} {CL : CryptoLib} {BL : BtcLib}.
Variable (cl : Clients World) (em : Emitter World) (others : GoM World unit).
Context {EM : AuditEmitter em}.

(** The calls that leave the process may do anything to the world but write the withdrawals
    table: no second handler runs meanwhile on the same rows. *)
Record quiet_env : Prop := {
  qe_policy q : respects (on_store (same GWithdrawals)) (CheckWhitelist cl q);
  qe_sign q : respects (on_store (same GWithdrawals)) (Sign cl q);
  qe_broadcast q : respects (on_store (same GWithdrawals)) (BroadcastTx cl q);
  qe_lookup f u : KeyLookup cl = Some f → respects (on_store (same GWithdrawals)) (f u);
  qe_others : respects (on_store (same GWithdrawals)) others;
}.
Hypothesis env : quiet_env.

Lemma same_unseen {A} (m : GoM World A) :
  respects (on_store (same GWithdrawals)) m → respects (on_store unseen) m.
Proof. intros Hm w. exact (reads_same (k:=GWithdrawals) _ _ (Hm w)). Qed.

Lemma unseen_policy q : respects (on_store unseen) (CheckWhitelist cl q).
Proof. apply same_unseen, env. Qed.
Lemma unseen_sign q : respects (on_store unseen) (Sign cl q).
Proof. apply same_unseen, env. Qed.
Lemma unseen_broadcast q : respects (on_store unseen) (BroadcastTx cl q).
Proof. apply same_unseen, env. Qed.
Lemma unseen_lookup f u : KeyLookup cl = Some f → respects (on_store unseen) (f u).
Proof. intros. by apply same_unseen, env. Qed.
Lemma unseen_others : respects (on_store unseen) others.
Proof. apply same_unseen, env. Qed.
Lemma unseen_emit ev : respects (on_store unseen) (emit em ev).
Proof. apply (respects_emit em GWithdrawals unseen). discriminate. Qed.

#[local] Hint Resolve unseen_Nonce unseen_Outpoints unseen_SignedTx unseen_policy unseen_sign
  unseen_broadcast unseen_lookup unseen_others unseen_emit : gorel.
#[local] Hint Extern 1 (respects (on_store unseen) _) => (other_group GWithdrawals unseen) : gorel.

Lemma unseen_ReserveNonce u c : respects (on_store unseen) (ReserveNonce others u c).
Proof.
  unfold ReserveNonce. generalize retries. intros n. induction n; cbn [reserve_loop]; go_respects.
Qed.
Lemma unseen_rollback w n ops : respects (on_store unseen) (rollback w n ops).
Proof. unfold rollback, RollbackNonce, Unlock. go_respects. Qed.
#[local] Hint Resolve unseen_ReserveNonce unseen_rollback : gorel.
Lemma unseen_reserve id wr w : respects (on_store unseen) (reserve others id wr w).
Proof. unfold reserve, SelectForAmount, RollbackNonce. go_respects. Qed.
#[local] Hint Resolve unseen_reserve : gorel.

(** Walks a handler: unseen parts before and after its one state write. *)
Ltac moves_tac :=
  repeat first
    [ progress intros
    | solve [apply unseen_is_moves; go_respects]
    | match goal with
      | |- respects _ (UpdateWithdrawalState _ _ _ _ _) =>
          apply moves_UpdateState; rewrite !elem_of_cons; auto 8
      | |- respects _ (ignore _) => apply respects_ignore
      | |- respects _ (_ ≫= _) => first
          [ apply unseen_moves; [solve [go_respects]|]
          | apply moves_unseen; [|solve [go_respects]] ]
      | |- respects _ (match ?x with _ => _ end) => destruct x eqn:?
      | |- respects _ (if ?x then _ else _) => destruct x eqn:?
      end ].

Lemma run_ConstructAndSign id :
  respects (on_store (run_of id (eq WithdrawalStateWhitelisted)
                             [WithdrawalStateSigned; WithdrawalStateFailed]))
    (ConstructAndSign cl em others id).
Proof.
  unfold ConstructAndSign. apply run_of_read; [intros row <-|intros row Hne|solve_decision].
  - rewrite bool_decide_true by done. cbn [negb]. unfold sign_and_store, abort. moves_tac.
  - rewrite bool_decide_false by congruence. cbn [negb]. go_respects.
Qed.

Lemma run_Broadcast id :
  respects (on_store (run_of id (eq WithdrawalStateSigned)
                             [WithdrawalStateBroadcast; WithdrawalStateFailed]))
    (Broadcast cl em id).
Proof.
  unfold Broadcast, abort, MarkSpent, CommitNonce.
  apply run_of_read; [intros row <-|intros row Hne|solve_decision].
  - rewrite bool_decide_true by done. cbn [negb]. moves_tac.
  - rewrite bool_decide_false by congruence. cbn [negb]. go_respects.
Qed.

Lemma run_Confirm id tx :
  respects (on_store (run_of id (eq WithdrawalStateBroadcast) [WithdrawalStateConfirmed]))
    (Confirm em id tx).
Proof.
  unfold Confirm. apply run_of_read; [intros row <-|intros row Hne|solve_decision].
  - rewrite bool_decide_true by done. cbn [negb]. moves_tac.
  - rewrite bool_decide_false by congruence. cbn [negb]. go_respects.
Qed.

Lemma run_OnReorg id ops :
  respects (on_store (run_of id (eq WithdrawalStateConfirmed) [WithdrawalStateBroadcast]))
    (OnReorg id ops).
Proof.
  unfold OnReorg, RestoreOnReorg.
  apply run_of_read; [intros row <-|intros row Hne|solve_decision].
  - apply unseen_moves; [go_respects|intros _].
    rewrite bool_decide_true by done. moves_tac.
  - rewrite bool_decide_false by congruence. go_respects.
Qed.

Lemma run_Fail id reason :
  respects (on_store (run_of id (λ _, True) [WithdrawalStateFailed])) (Fail em id reason).
Proof.
  unfold Fail. apply run_of_read; [intros row _; moves_tac|done|intros; apply _].
Qed.

Definition request_key (req : CreateRequest) : string :=
  Mem.withdrawalDedupKey (Req_WalletID req) (Req_ToAddress req) (Req_Amount req) (Req_Asset req).

(** A run of Create: nothing, or a new row under a free key, then one move. *)
Definition created (k : string) (s s' : MemStore) : Prop :=
  machine_of s' = machine_of s ∨
  ∃ id, table (machine_of s) !! id = None ∧ default false (marks (machine_of s) !! k) = false ∧
    let a := a_created id k (machine_of s) in
    machine_of s' = a ∨
    ∃ to, to ∈ [WithdrawalStateWhitelisted; WithdrawalStateFailed] ∧ machine_of s' = a_moved id k to a.

Lemma CreateWithdrawal_machine wr w w' :
  CreateWithdrawal wr w = (Ok (), w') → WR_State wr = WithdrawalStatePending →
  table (machine_of (w_store w)) !! WR_ID wr = None ∧
  default false (marks (machine_of (w_store w)) !! wr_key wr) = false ∧
  machine_of (w_store w') = a_created (WR_ID wr) (wr_key wr) (machine_of (w_store w)).
Proof.
  intros (Hn & Hf & c & u & ->)%CreateWithdrawal_ok Hst. rewrite lookup_table, Hn.
  split; [done|]. split; [done|]. unfold machine_of, a_created. simpl. f_equal.
  rewrite fmap_insert. simpl. by rewrite Hst.
Qed.

Lemma created_unseen {A B} k (m : GoM World A) (f : A → GoM World B) :
  respects (on_store unseen) m → (∀ a, respects (on_store (created k)) (f a)) →
  respects (on_store (created k)) (m ≫= f).
Proof.
  intros Hm Hf. eapply respects_seq; [| |exact Hm|exact Hf].
  - intros a b H. by left.
  - intros a b c H1 H2. unfold on_store, unseen, framing, created in *. by rewrite <-H1.
Qed.

Lemma run_Create req : respects (on_store (created (request_key req))) (Create cl em req).
Proof.
  unfold Create. apply created_unseen; [go_respects|intros w].
  assert (Hfail : ∀ e, respects (on_store (created (request_key req)))
                         (fail e : GoM World WithdrawalRequest)) by (intros e w'; by left).
  case_bool_decide; [apply Hfail|]. case_bool_decide; [apply Hfail|]. clear Hfail.
  apply created_unseen; [go_respects|intros now].
  apply created_unseen; [go_respects|intros id]. cbv zeta.
  set (wr := mkWithdrawal id _ _ _ _ _ _ _ _ _ _ _ _ _).
  intros w0. unfold mbind at 1, GoM_bind at 1, wrap.
  destruct (CreateWithdrawal wr w0) as [[[]|e] w1] eqn:E.
  2: { apply CreateWithdrawal_err in E as [-> _]. by left. }
  apply CreateWithdrawal_machine in E as (Hn & Hf & E); [|done].
  match goal with |- on_store _ _ (?m w1).2 =>
    assert (Hm : respects (on_store (moves id (request_key req) WithdrawalStatePending
      [WithdrawalStateWhitelisted; WithdrawalStateFailed])) m) by (clear E w1; unfold apply_decision; moves_tac) end.
  right. exists id. split; [done|]. split; [done|]. cbv zeta.
  specialize (Hm w1). unfold on_store, moves in Hm. rewrite E in Hm. apply Hm.
  by apply lookup_insert_eq.
Qed.

(** ** Refinement *)

(** The handlers one after the other; a step [orderly] does not fail a withdrawal that is
    already confirmed or failed, and does not undo a confirmation. *)
Inductive handler_step (orderly : bool) : World → World → Prop :=
  | hs_create req w : handler_step orderly w (Create cl em req w).2
  | hs_sign id w : handler_step orderly w (ConstructAndSign cl em others id w).2
  | hs_broadcast id w : handler_step orderly w (Broadcast cl em id w).2
  | hs_confirm id tx w : handler_step orderly w (Confirm em id tx w).2
  | hs_fail id reason w :
      (orderly = true → ∀ r, withdrawals (w_store w) !! id = Some r →
        terminal (WR_State r) = false) →
      handler_step orderly w (Fail em id reason w).2
  | hs_reorg id ops w :
      (orderly = true → ∀ r, withdrawals (w_store w) !! id = Some r →
        WR_State r ≠ WithdrawalStateConfirmed) →
      handler_step orderly w (OnReorg id ops w).2
  | hs_other w w' : same GWithdrawals (w_store w) (w_store w') → handler_step orderly w w'.

Definition machine_at (w : World) : machine := machine_of (w_store w).

Lemma run_of_steps o id from tos w w' :
  on_store (run_of id from tos) w w' →
  (∀ k st to, table (machine_at w) !! id = Some (k, st) → from st → to ∈ tos →
     edge st to = true ∧ (o = true → terminal st = false)) →
  rtc (astep o) (machine_at w) (machine_at w').
Proof.
  intros [H|(k & st & to & Hk & Hf & Ht & H)] Hedge; unfold machine_at; rewrite H.
  - apply rtc_refl.
  - destruct (Hedge k st to Hk Hf Ht). apply rtc_once. by eapply a_move.
Qed.

Lemma created_steps o k w w' :
  on_store (created k) w w' → rtc (astep o) (machine_at w) (machine_at w').
Proof.
  intros [H|(id & Hn & Hf & H)]; unfold machine_at; [rewrite H; apply rtc_refl|].
  apply rtc_l with (a_created id k (machine_of (w_store w))); [by apply a_create|].
  destruct H as [->|(to & Hto & ->)]; [apply rtc_refl|]. apply rtc_once.
  eapply a_move; [apply lookup_insert_eq| |done].
  rewrite !elem_of_cons, elem_of_nil in Hto. by destruct Hto as [->|[->|[]]].
Qed.

Ltac edges :=
  intros k st to Hk; intros; split; [|intros]; subst; try done;
  repeat match goal with
    | H : _ ∈ [] |- _ => by apply elem_of_nil in H
    | H : _ ∈ _ :: _ |- _ => apply elem_of_cons in H as [->|H]
    end; try (vm_compute; reflexivity).

Lemma handler_step_refines o w w' :
  handler_step o w w' → rtc (astep o) (machine_at w) (machine_at w').
Proof.
  destruct 1 as [req w|id w|id w|id tx w|id r w Hg|id ops w Hg|w w' H].
  - exact (created_steps _ _ _ _ (run_Create req w)).
  - apply (run_of_steps _ _ _ _ _ _ (run_ConstructAndSign id w)). edges.
  - apply (run_of_steps _ _ _ _ _ _ (run_Broadcast id w)). edges.
  - apply (run_of_steps _ _ _ _ _ _ (run_Confirm id tx w)). edges.
  - apply (run_of_steps _ _ _ _ _ _ (run_Fail id r w)). edges.
    + unfold edge. by rewrite orb_true_r.
    + unfold machine_at in Hk. rewrite lookup_table in Hk.
      destruct (_ !! id) eqn:E; [|discriminate]. injection Hk as <- <-. eauto.
  - apply (run_of_steps _ _ _ _ _ _ (run_OnReorg id ops w)). edges.
    unfold machine_at in Hk. rewrite lookup_table in Hk.
    destruct (_ !! id) as [x|] eqn:E; [|discriminate]. injection Hk as Hk1 Hk2.
    exfalso. by eapply Hg.
  - unfold machine_at. assert (E : machine_of (w_store w') = machine_of (w_store w)).
    { exact (reads_same (k:=GWithdrawals) (Q:=unseen) _ _ H). }
    rewrite E. apply rtc_refl.
Qed.

Lemma handler_steps_refine o w w' :
  rtc (handler_step o) w w' → rtc (astep o) (machine_at w) (machine_at w').
Proof.
  induction 1 as [|w1 w2 w3 H _ IH]; [apply rtc_refl|].
  etrans; [by apply handler_step_refines|exact IH].
Qed.
End handlers.
End refinement.

(** ** The theorems *)

Section theorems.
Context {GR : GoRuntime} {UL : UuidLib} {CL : CryptoLib} {BL : BtcLib}.

(** C3: refinement, when no second handler writes the withdrawals table while a handler is in a
    call that leaves the process (the policy engine, the signer, the gateway, the key lookup) or
    sleeps: any sequence of calls of Create, ConstructAndSign, Broadcast, Confirm, Fail and
    OnReorg, with any outcomes, is a run of the abstract machine on transfer keys and states.
    Without that condition it is false: see [fail_during_sign]. *)
Theorem withdrawals_refine_machine (cl : Clients World) (em : Emitter World)
    (others : GoM World unit) orderly w w' :
  AuditEmitter em → quiet_env cl others →
  rtc (handler_step cl em others orderly) w w' →
  rtc (astep orderly) (machine_at w) (machine_at w').
Proof. intros EM env. by apply handler_steps_refine. Qed.

(** The life cycle of a withdrawal.  Along any run its row stays, asks for the same
    transfer, and moves only along the edges of the state machine; a failed withdrawal stays
    failed, and in an orderly run so does a confirmed one. *)
Theorem withdrawal_life_cycle (cl : Clients World) (em : Emitter World)
    (others : GoM World unit) orderly w w' id r :
  AuditEmitter em → quiet_env cl others →
  rtc (handler_step cl em others orderly) w w' →
  withdrawals (w_store w) !! id = Some r →
  ∃ r', withdrawals (w_store w') !! id = Some r' ∧ wr_key r' = wr_key r ∧
    path (WR_State r) (WR_State r') ∧
    (WR_State r = WithdrawalStateFailed → WR_State r' = WithdrawalStateFailed) ∧
    (orderly = true → terminal (WR_State r) = true → WR_State r' = WR_State r).
Proof.
  intros EM env Hrun Hr. apply handler_steps_refine in Hrun; [|done|done].
  destruct (asteps_row _ _ _ id (wr_key r) (WR_State r) Hrun) as (st & Hst & Hp & Ho).
  { unfold machine_at. by rewrite lookup_table, Hr. }
  unfold machine_at in Hst. rewrite lookup_table in Hst.
  destruct (withdrawals (w_store w') !! id) as [r'|]; [|discriminate].
  injection Hst as Hk <-. exists r'. split_and!; [done..| |done].
  intros E. apply path_failed. by rewrite <-E.
Qed.

Lemma Create_duplicate (cl : Clients World) (em : Emitter World) req w wal :
  wallets (w_store w) !! Req_WalletID req = Some wal → Wallet_State wal = WalletStateActive →
  withdrawals (w_store w) !! uuid_at (w_ids w) = None →
  inflightWithdrawals (w_store w) !! request_key req = Some true →
  Create cl em req w =
    (Err (Wrapf "create withdrawal: %w" [] (Sentinel ErrDuplicateWithdrawal)), next_id (tick w)).
Proof.
  intros Hwal Hact Hfresh Hmark. unfold Create.
  assert (Eg : GetWallet (Req_WalletID req) w = (Ok wal, w)) by by rewrite GetWallet_run, Hwal.
  step_ok Eg. rewrite Hact. cbn [bool_decide]. rewrite !bool_decide_false by done.
  erewrite bind_Ok; [|reflexivity]. erewrite bind_Ok; [|reflexivity]. cbv zeta.
  apply bind_Err, wrap_Err. by apply CreateWithdrawal_taken.
Qed.

(** C4: one withdrawal in flight per transfer.  Under the condition on external calls of
    [quiet_env], in any orderly run from an empty table no two live withdrawals ask for the same
    transfer, and creating a live withdrawal's transfer again is refused as a duplicate without
    touching the store. *)
Theorem one_in_flight (cl : Clients World) (em : Emitter World) (others : GoM World unit) w0 w :
  AuditEmitter em → quiet_env cl others →
  withdrawals (w_store w0) = ∅ → rtc (handler_step cl em others true) w0 w →
  (∀ id1 id2 r1 r2,
     withdrawals (w_store w) !! id1 = Some r1 → withdrawals (w_store w) !! id2 = Some r2 →
     terminal (WR_State r1) = false → terminal (WR_State r2) = false →
     wr_key r1 = wr_key r2 → id1 = id2) ∧
  (∀ id r req wal,
     withdrawals (w_store w) !! id = Some r → terminal (WR_State r) = false →
     request_key req = wr_key r →
     wallets (w_store w) !! Req_WalletID req = Some wal → Wallet_State wal = WalletStateActive →
     withdrawals (w_store w) !! uuid_at (w_ids w) = None →
     Create cl em req w =
       (Err (Wrapf "create withdrawal: %w" [] (Sentinel ErrDuplicateWithdrawal)),
        next_id (tick w))).
Proof.
  intros EM env H0 Hrun. apply handler_steps_refine in Hrun; [|done|done].
  apply asteps_inflight in Hrun as [Hm Hu].
  2: { unfold machine_at, machine_of. rewrite H0, fmap_empty. apply inflight_empty. }
  unfold machine_at in *.
  assert (Hrow : ∀ id r, withdrawals (w_store w) !! id = Some r →
    table (machine_of (w_store w)) !! id = Some (wr_key r, WR_State r))
    by (intros id r H; by rewrite lookup_table, H).
  split.
  - intros id1 id2 r1 r2 H1 H2 L1 L2 E. apply Hrow in H1, H2. rewrite <-E in H2. by eapply Hu.
  - intros id r req wal Hr Hl Ek Hwal Hact Hfresh.
    apply (Create_duplicate _ _ _ _ wal); [done..|]. rewrite Ek. exact (Hm _ _ _ (Hrow _ _ Hr) Hl).
Qed.
End theorems.

Section witnesses.
Import Scenario.

Lemma clients_quiet : quiet_env clients others.
Proof.
  split; [intros q|intros q|intros q|intros f u [= <-]|];
    apply respects_ret, on_store_preorder, same_preorder.
Defined.

Lemma run_to_sent : rtc (handler_step clients em others true) start sent.
Proof.
  eapply rtc_l; [exact (hs_create clients em others true (eth_req "1000") start)|].
  eapply rtc_l; [exact (hs_sign clients em others true row_id created)|].
  eapply rtc_l; [exact (hs_broadcast clients em others true row_id signed)|]. apply rtc_refl.
Defined.

Lemma withdrawals_refine_machine_witness :
  rtc (astep true) (machine_at start) (machine_at sent).
Proof.
  exact (withdrawals_refine_machine clients em others true start sent _ clients_quiet run_to_sent).
Defined.

(** The condition on the external calls is needed: ConstructAndSign does not look at the state
    again after the signer answered.  When the withdrawal is failed during the signing, it is
    signed all the same, while the failure has freed its transfer, so that the same transfer
    can be created and approved a second time; no run of the machine does that. *)
Definition fails_meanwhile : Clients World := {|
  CheckWhitelist := CheckWhitelist clients;
  Sign := λ _, ignore (Fail em row_id "given up");; mret signature;
  BroadcastTx := BroadcastTx clients;
  KeyLookup := KeyLookup clients;
|}.
Definition revived : World := (ConstructAndSign fails_meanwhile em others row_id created).2.

Lemma fail_during_sign :
  state_of (Fail em row_id "given up" created).2 row_id = Some WithdrawalStateFailed ∧
  state_of revived row_id = Some WithdrawalStateSigned ∧
  is_ok (Create fails_meanwhile em (eth_req "1000") revived).1 = true ∧
  ¬ rtc (astep true) (machine_at created) (machine_at revived).
Proof.
  split_and!; [vm_compute; reflexivity..|]. intros Hrun.
  assert (H0 : inflight_ok (machine_at created)).
  { eapply asteps_inflight; [|exact (inflight_empty ∅)].
    exact (handler_step_refines clients em others clients_quiet true start created
             (hs_create clients em others true (eth_req "1000") start)). }
  destruct (asteps_inflight _ _ Hrun H0) as [Hm _].
  destruct (table (machine_at revived) !! row_id) as [[k st]|] eqn:E;
    [|vm_compute in E; discriminate E].
  specialize (Hm row_id k st E). vm_compute in E. injection E as <- <-.
  vm_compute in Hm. discriminate (Hm eq_refl).
Qed.

Lemma withdrawal_life_cycle_witness :
  ∃ r r', withdrawals (w_store created) !! row_id = Some r ∧
    withdrawals (w_store signed) !! row_id = Some r' ∧ wr_key r' = wr_key r ∧
    path (WR_State r) (WR_State r').
Proof.
  destruct (withdrawals (w_store created) !! row_id) as [r|] eqn:E; [|vm_compute in E; discriminate E].
  destruct (withdrawal_life_cycle clients em others true created signed row_id r)
    as (r' & H1 & H2 & H3 & _); [exact _|exact clients_quiet| |exact E|].
  - apply rtc_once. exact (hs_sign clients em others true row_id created).
  - exists r, r'. split; [done|]. split; [exact H1|]. split; [exact H2|exact H3].
Defined.

Lemma one_in_flight_witness :
  Create clients em (eth_req "1000") sent =
    (Err (Wrapf "create withdrawal: %w" [] (Sentinel ErrDuplicateWithdrawal)),
     next_id (tick sent)).
Proof.
  destruct (withdrawals (w_store sent) !! row_id) as [r|] eqn:E; [|vm_compute in E; discriminate E].
  destruct (one_in_flight clients em others start sent) as [_ H];
    [exact _|exact clients_quiet|vm_compute; reflexivity|exact run_to_sent|].
  apply (H row_id r (eth_req "1000") eth_wallet); [exact E|..];
    try (vm_compute in E; injection E as <-); vm_compute; reflexivity.
Defined.
End witnesses.
