(* ===== verification/WithdrawalSpec.v ===== *)
(** * WithdrawalSpec: what each withdrawal handler does, branch by branch

    The functional behaviour of the handlers on the memstore: the decision of Create is
    fail-closed, a failed signature gives the nonce or the coins back, a signed withdrawal
    carries the bytes it was assembled to; and what Fail and OnReorg leave behind. *)

From S2P Require Import Prelude GoLib Bytes Extern Domain Storage Memstore MemstoreFacts.
From S2P Require Import Lock Outbox Nonce Utxo Evm Btc TxBuilder Withdrawal Scenario.
From S2P Require Import WithdrawalSafety Lifecycle.

Local Open Scope Z_scope.

(** ** The calls, as writes to the store *)

Section calls.
Context {GR : GoRuntime} {UL : UuidLib}.

(** [m] succeeds with [a], turns the store into [s'], and keeps the locks. *)
Definition does {A} (m : GoM World A) (w : World) (a : A) (s' : MemStore) (w' : World) : Prop :=
  m w = (Ok a, w') ∧ w_store w' = s' ∧ w_locks w' = w_locks w.

Lemma UpdateWithdrawalState_does id st reason tx pd w row :
  withdrawals (w_store w) !! id = Some row →
  ∃ now w', does (UpdateWithdrawalState id st reason tx pd) w ()
    (set_withdrawals (insert id (moved st reason tx pd now row))
       (set_inflight (settle st row) (w_store w))) w'.
Proof.
  intros Hrow. do 2 eexists. split; [by apply UpdateWithdrawalState_run|done].
Qed.

Lemma update_build_does id f w row :
  withdrawals (w_store w) !! id = Some row →
  ∃ now w', does (Mem.update_build id f) w ()
    (set_withdrawals (insert id (f now row)) (w_store w)) w'.
Proof.
  intros Hrow. exists (time_at (w_clock w)). eexists. unfold does, Mem.update_build. mem_cbv.
  by rewrite Hrow.
Qed.

Lemma ReserveNonce_does others u c w :
  w_locks w !! nonce_lock u c = None →
  ∃ row w', does (ReserveNonce others u c) w (pending w u c)
      (set_nonces (insert (Mem.nonceKey u c) row) (w_store w)) w' ∧
    Nonce_PendingNonce row = wrap64 (pending w u c + 1).
Proof.
  intros Hl. unfold ReserveNonce, retries. cbn [reserve_loop].
  set (l := nonce_lock u c) in *. unfold does. do 2 eexists.
  erewrite bind_Ok; [|apply wrap_Ok; by apply Acquire_free]. cbn [negb].
  unfold IncrementPendingNonce, memstore, Mem.IncrementPendingNonce. mem_cbv.
  erewrite Release_own; [|simpl; by rewrite lookup_insert_eq].
  split; [split; [reflexivity|split; [reflexivity|]]|reflexivity].
  simpl. by rewrite delete_insert_id.
Qed.

(** Taking back the last reservation. *)
Lemma RollbackNonce_does u c n w row :
  nonces (w_store w) !! Mem.nonceKey u c = Some row →
  Nonce_PendingNonce row = wrap64 (n + 1) →
  ∃ row' w', does (RollbackNonce u c n) w ()
      (set_nonces (insert (Mem.nonceKey u c) row') (w_store w)) w' ∧
    Nonce_PendingNonce row' = n.
Proof.
  intros Hrow Hp. unfold RollbackNonce, RollbackPendingNonce, memstore, Mem.RollbackPendingNonce,
    does. mem_cbv. rewrite Hrow, bool_decide_true by done. mem_cbv.
  do 2 eexists. split; [split; [reflexivity|done]|reflexivity].
Qed.

Lemma emit_does (em : Emitter World) `{!AuditEmitter em} ev w :
  ∃ w', emit em ev w = (Ok (), w') ∧ only GAudit (w_store w) (w_store w') ∧
    w_locks w' = w_locks w.
Proof. destruct (emit_step em ev w) as (w' & E & H & Hl & _). eauto. Qed.

(** A loop that rewrites the row of each outpoint. *)
Lemma rewrite_all (f : UTXO → UTXO) ops w :
  (∀ u, f (f u) = f u) →
  (∀ op, op ∈ ops → is_Some (utxos (w_store w) !! op)) →
  ∃ us w', does (for_each (λ op,
      us ← get_st utxos;
      match us !! op with
      | None => fail (Errorf "utxo not found: %s" [FStr op])
      | Some u => put_st (set_utxos (insert op (f u)))
      end) ops) w () (set_utxos (λ _, us) (w_store w)) w' ∧
    ∀ op, us !! op = if decide (op ∈ ops) then f <$> utxos (w_store w) !! op
                     else utxos (w_store w) !! op.
Proof.
  intros Hf. revert w. induction ops as [|o ops IH]; intros w Hin; cbn [for_each].
  - exists (utxos (w_store w)), w. split; [split; [done|split; [by destruct (w_store w)|done]]|].
    intros op. by rewrite decide_False by set_solver.
  - destruct (Hin o) as [u Hu]; [set_solver|].
    destruct (IH (set_store (set_utxos (insert o (f u)) (w_store w)) w))
      as (us & w' & (E & Es & El) & Hus).
    { intros op Hop. simpl. destruct (decide (op = o)) as [->|].
      - by rewrite lookup_insert_eq.
      - rewrite lookup_insert_ne by done. apply Hin. set_solver. }
    exists us, w'. split; [split; [|done]|].
    + unfold does. mem_cbv. rewrite Hu. mem_cbv. exact E.
    + intros op. rewrite Hus. simpl. destruct (decide (op = o)) as [->|Hne].
      * rewrite lookup_insert_eq, Hu. rewrite (decide_True (P:=o ∈ o :: ops)) by set_solver.
        case_decide; [|done]. simpl. by rewrite Hf.
      * rewrite lookup_insert_ne by done. repeat case_decide; set_solver.
Qed.

(** The rows a restore frees and a broadcast spends. *)
Definition freed_row (now : Z) (u : UTXO) : UTXO :=
  UTXO_with_lock UTXOLockStateFree None None EmptyString now u.
Definition spent_row (tx : string) (now : Z) (u : UTXO) : UTXO :=
  UTXO_with_lock UTXOLockStateSpent (UTXO_LockedAt u) (Some now) tx now u.

Definition rewritten (f : UTXO → UTXO) (ops : list string) (w : World) (us : gmap string UTXO) :
    Prop :=
  ∀ op, us !! op = if decide (op ∈ ops) then f <$> utxos (w_store w) !! op
                   else utxos (w_store w) !! op.

Lemma RestoreUTXOs_does ops w :
  (∀ op, op ∈ ops → is_Some (utxos (w_store w) !! op)) →
  ∃ now us w', does (RestoreUTXOs ops) w () (set_utxos (λ _, us) (w_store w)) w' ∧
    rewritten (freed_row now) ops w us.
Proof.
  intros Hin. exists (time_at (w_clock w)).
  destruct (rewrite_all (freed_row (time_at (w_clock w))) ops (tick w))
    as (us & w' & (E & Es & El) & H); [done|done|].
  exists us, w'. split; [|exact H]. split; [exact E|done].
Qed.

Lemma MarkUTXOsSpent_does ops tx w :
  (∀ op, op ∈ ops → is_Some (utxos (w_store w) !! op)) →
  ∃ now us w', does (MarkUTXOsSpent ops tx) w () (set_utxos (λ _, us) (w_store w)) w' ∧
    rewritten (spent_row tx now) ops w us.
Proof.
  intros Hin. exists (time_at (w_clock w)).
  destruct (rewrite_all (spent_row tx (time_at (w_clock w))) ops (tick w))
    as (us & w' & (E & Es & El) & H); [done|done|].
  exists us, w'. split; [|exact H]. split; [exact E|done].
Qed.
End calls.

(** ** Create *)

Section create.
Context {GR : GoRuntime} {UL : UuidLib}.
Variable (cl : Clients World) (em : Emitter World).
Context {EM : AuditEmitter em}.

(** The policy client answers [(dec, err)] and leaves the withdrawals alone. *)
Definition policy_answers (dec : option CheckResponse) (err : option error) : Prop :=
  ∀ q w, ∃ w', CheckWhitelist cl q w = (Ok (dec, err), w') ∧
    same GWithdrawals (w_store w) (w_store w').

(** The state and the reason a decision leads to. *)
Definition decided_state (dec : option CheckResponse) (err : option error) : string :=
  if rejected dec err then WithdrawalStateFailed else WithdrawalStateWhitelisted.
Definition decided_reason (dec : option CheckResponse) (err : option error) : string :=
  if rejected dec err then
    match dec with
    | Some d => if bool_decide (Reason d = EmptyString) then "policy_error" else Reason d
    | None => "policy_error"
    end
  else EmptyString.

Lemma CreateWithdrawal_run wr w :
  withdrawals (w_store w) !! WR_ID wr = None →
  default false (inflightWithdrawals (w_store w) !! wr_key wr) = false →
  ∃ c w', CreateWithdrawal wr w = (Ok (), w') ∧
    withdrawals (w_store w') = <[WR_ID wr := WR_with_times c c wr]> (withdrawals (w_store w)) ∧
    inflightWithdrawals (w_store w') = <[wr_key wr := true]> (inflightWithdrawals (w_store w)).
Proof.
  intros Hn Hf. unfold wr_key in *. unfold CreateWithdrawal, memstore, Mem.CreateWithdrawal,
    Mem.created_or_now. mem_cbv. rewrite Hn, Hf. mem_cbv.
  case_bool_decide; mem_cbv; do 2 eexists; (split; [reflexivity|]); done.
Qed.

(** The two writes of the stored row, after the row was created. *)
Lemma Create_final id st reason pd w row :
  withdrawals (w_store w) !! id = Some row →
  ∃ now w', UpdateWithdrawalState id st reason EmptyString pd w = (Ok (), w') ∧
    withdrawals (w_store w') =
      <[id := moved st reason EmptyString pd now row]> (withdrawals (w_store w)) ∧
    inflightWithdrawals (w_store w') = settle st row (inflightWithdrawals (w_store w)).
Proof.
  intros H. destruct (UpdateWithdrawalState_does id st reason EmptyString pd w row H)
    as (now & w' & E & Es & _). exists now, w'. by rewrite Es.
Qed.

Lemma emit_keeps ev w :
  ∃ w', emit em ev w = (Ok (), w') ∧ same GWithdrawals (w_store w) (w_store w').
Proof.
  destruct (emit_does em ev w) as (w' & E & H & _). exists w'. split; [done|by apply H].
Qed.

(** The last step of Create, on the row it stored. *)
Lemma apply_decision_run wr row dec err now w :
  withdrawals (w_store w) !! WR_ID wr = Some row → WR_FailureReason row = EmptyString →
  WR_FailureReason wr = EmptyString →
  ∃ ret row' w', apply_decision wr dec err now w = (Ok ret, w') ∧
    withdrawals (w_store w') = <[WR_ID wr := row']> (withdrawals (w_store w)) ∧
    inflightWithdrawals (w_store w') =
      (if rejected dec err then delete (wr_key row) (inflightWithdrawals (w_store w))
       else inflightWithdrawals (w_store w)) ∧
    WR_ID row' = WR_ID row ∧ wr_key row' = wr_key row ∧
    WR_State row' = decided_state dec err ∧ WR_FailureReason row' = decided_reason dec err ∧
    WR_State ret = decided_state dec err ∧ WR_FailureReason ret = decided_reason dec err.
Proof.
  intros Hrow Hr Hr'. unfold apply_decision, decided_state, decided_reason.
  assert (Hnone : rejected None err = true) by by destruct err.
  destruct dec as [d|]; [destruct (rejected (Some d) err); cbv zeta|rewrite Hnone].
  all: match goal with
    | |- context [UpdateWithdrawalState ?i ?st ?re ?tx ?pd] =>
        destruct (Create_final i st re pd w row Hrow) as (n & w' & E & Kw & Ki)
    end; step_ok E; do 3 eexists; (split; [reflexivity|]); (split; [exact Kw|]);
    (split; [exact Ki|]); cbn; unfold Mem.set_nonempty; rewrite ?Hr; split_and!; try done;
    by repeat case_bool_decide.
Qed.

(** C5: Create is fail-closed.  A missing, retired or paused wallet and a transfer already in
    flight are refused with the store untouched; otherwise the row is stored, and it is
    whitelisted, its transfer in flight, only if the policy engine answered without error and
    approved; on an error, on no answer and on a refusal it is failed and nothing is in
    flight. *)
Theorem Create_spec req w dec err :
  policy_answers dec err →
  withdrawals (w_store w) !! uuid_at (w_ids w) = None →
  match wallets (w_store w) !! Req_WalletID req with
  | None => Create cl em req w =
      (Err (Wrapf "get wallet: %w" [] (Wrapf "wallet not found: %w" [] (Sentinel ErrNoRows))), w)
  | Some wal =>
      if decide (Wallet_State wal = WalletStateRetired)
      then Create cl em req w = (Err (Sentinel ErrWalletRetired), w)
      else if decide (Wallet_State wal = WalletStatePaused)
      then Create cl em req w = (Err (New "wallet is paused"), w)
      else if decide (inflightWithdrawals (w_store w) !! request_key req = Some true)
      then Create cl em req w =
        (Err (Wrapf "create withdrawal: %w" [] (Sentinel ErrDuplicateWithdrawal)),
         next_id (tick w))
      else ∃ ret row w', Create cl em req w = (Ok ret, w') ∧
        withdrawals (w_store w') = <[uuid_at (w_ids w) := row]> (withdrawals (w_store w)) ∧
        WR_ID row = uuid_at (w_ids w) ∧ wr_key row = request_key req ∧
        WR_State row = decided_state dec err ∧ WR_FailureReason row = decided_reason dec err ∧
        WR_State ret = WR_State row ∧ WR_FailureReason ret = WR_FailureReason row ∧
        inflightWithdrawals (w_store w') !! request_key req =
          (if rejected dec err then None else Some true)
  end.
Proof.
  intros Hpol Hfresh. unfold Create.
  destruct (wallets (w_store w) !! Req_WalletID req) as [wal|] eqn:Ew.
  2: { apply bind_Err, wrap_Err. by rewrite GetWallet_run, Ew. }
  assert (Eg : GetWallet (Req_WalletID req) w = (Ok wal, w)) by by rewrite GetWallet_run, Ew.
  step_ok Eg. case_decide as Hr; [by rewrite bool_decide_true|].
  rewrite (bool_decide_false _ Hr). case_decide as Hp; [by rewrite bool_decide_true|].
  rewrite (bool_decide_false _ Hp).
  erewrite bind_Ok; [|reflexivity]. erewrite bind_Ok; [|reflexivity]. cbv zeta.
  set (id := uuid_at (w_ids (tick w))). set (w1 := next_id (tick w)).
  set (wr := mkWithdrawal id _ _ _ _ _ _ _ _ _ _ _ _ _).
  case_decide as Hf; [by apply bind_Err, wrap_Err, (CreateWithdrawal_taken wr w1)|].
  destruct (CreateWithdrawal_run wr w1) as (c & w2 & EC & Ews & Eis); [exact Hfresh| |].
  { change (wr_key wr) with (request_key req). simpl.
    revert Hf. by destruct (inflightWithdrawals _ !! _) as [[]|]. }
  step_ok EC. destruct (emit_keeps (withdrawal_event "withdrawal.created" (Req_WalletID req)
    [("id", AUuid id); ("to", AStr (Req_ToAddress req)); ("asset", AStr (Req_Asset req));
     ("amount", AStr (Req_Amount req))])%string w2) as (w3 & E3 & K3w & K3i). step_ok E3.
  destruct (Hpol (check_request wr) w3) as (w4 & E4 & K4w & K4i). step_ok E4.
  destruct (emit_keeps (withdrawal_event "withdrawal.whitelist_checked" (Req_WalletID req)
    [("id", AUuid id); ("decision_id", AStr (decisionID dec err))])%string w4)
    as (w5 & E5 & K5w & K5i). step_ok E5.
  rewrite K4w, K3w, Ews in K5w. rewrite K4i, K3i, Eis in K5i.
  destruct (apply_decision_run wr (WR_with_times c c wr) dec err (time_at (w_clock w)) w5)
    as (ret & row & w6 & E6 & K6w & K6i & H6); [rewrite K5w; apply lookup_insert_eq|done|done|].
  rewrite K5w, insert_insert_eq in K6w. rewrite K5i in K6i. exists ret, row, w6.
  split; [exact E6|]. split; [exact K6w|]. destruct H6 as (-> & -> & H6). split; [done|].
  split; [done|]. destruct H6 as (-> & -> & -> & ->). split_and!; try done.
  rewrite K6i. destruct (rejected dec err); [apply lookup_delete_eq|apply lookup_insert_eq].
Qed.
End create.

(** ** ConstructAndSign *)

Section sign.
Context {GR : GoRuntime} {UL : UuidLib} {CL : CryptoLib} {BL : BtcLib}.
Variable (cl : Clients World) (em : Emitter World) (others : GoM World unit).
Context {EM : AuditEmitter em}.

(** The key lookup, when there is one, gives [keyID]; the signer answers [r] to everything.
    Neither touches the store. *)
Definition resolves (keyID : string) : Prop :=
  match KeyLookup cl with
  | None => keyID = EmptyString
  | Some f => ∀ u w, f u w = (Ok keyID, w)
  end.
Definition signs (r : res bytes) : Prop :=
  ∀ q w, ∃ w', Sign cl q w = (r, w') ∧ w_store w' = w_store w ∧ w_locks w' = w_locks w.

(** The row is ready to be signed, from this wallet. *)
Definition ready (id : UUID) (row : WithdrawalRequest) (wal : Wallet) (w : World) : Prop :=
  withdrawals (w_store w) !! id = Some row ∧ WR_State row = WithdrawalStateWhitelisted ∧
  wallets (w_store w) !! WR_WalletID row = Some wal ∧ Wallet_ID wal = WR_WalletID row.

Lemma ConstructAndSign_start id row wal w keyID :
  ready id row wal w → resolves keyID →
  ConstructAndSign cl em others id w =
    ('(n, ops) ← reserve others id row wal; sign_and_store cl em id row wal keyID n ops) w.
Proof.
  intros (Hrow & Hst & Hwal & _) Hkey. unfold ConstructAndSign.
  erewrite bind_Ok; [|by rewrite GetWithdrawal_run, Hrow].
  rewrite bool_decide_true by done. cbn [negb].
  erewrite bind_Ok; [|by rewrite GetWallet_run, Hwal].
  unfold resolves in Hkey. destruct (KeyLookup cl) as [f|].
  - erewrite bind_Ok; [done|]. by apply wrap_Ok.
  - subst keyID. by erewrite bind_Ok.
Qed.

(** The row's place after a run: state, reason and build fields. *)
Definition outcome (id : UUID) (st reason : string) (n : option Z) (ops : list string)
    (tx : bytes) (w : World) : Prop :=
  ∃ row, withdrawals (w_store w) !! id = Some row ∧ WR_State row = st ∧
    WR_FailureReason row = reason ∧ WR_NonceValue row = n ∧ WR_ReservedOutpoints row = ops ∧
    WR_SignedTxBytes row = tx.

Lemma pending_store w u c :
  pending w u c = Nonce_PendingNonce (default (Mem.zero_nonce u c)
                    (nonces (w_store w) !! Mem.nonceKey u c)).
Proof. done. Qed.

Section evm.
Variable (id : UUID) (row : WithdrawalRequest) (wal : Wallet) (w : World).
#[local] Abbreviation c := (Wallet_Chain wal) (only parsing).
#[local] Abbreviation n := (pending w (WR_WalletID row) c) (only parsing).
Hypothesis Hready : ready id row wal w.
Hypothesis Hevm : IsEVM c = true.
Hypothesis Hlock : w_locks w !! nonce_lock (WR_WalletID row) c = None.
Hypothesis Hn : 0 ≤ n < max_int64.

Definition with_nonce (now : Z) : WithdrawalRequest :=
  WR_with_build (Some n) (WR_ReservedOutpoints row) (WR_SignedTxBytes row) now row.

Lemma reserve_evm :
  ∃ nr now w', does (reserve others id row wal) w (n, [])
      (set_withdrawals (insert id (with_nonce now))
         (set_nonces (insert (Mem.nonceKey (WR_WalletID row) c) nr) (w_store w))) w' ∧
    Nonce_PendingNonce nr = wrap64 (n + 1).
Proof.
  destruct Hready as (Hrow & _). unfold reserve.  rewrite Hevm.
  destruct (ReserveNonce_does others _ c w Hlock) as (nr & w1 & (E1 & S1 & L1) & Hp).
  destruct (update_build_does id (λ now r, WR_with_build (Some n) (WR_ReservedOutpoints r)
    (WR_SignedTxBytes r) now r) w1 row) as (now & w2 & E2 & S2 & L2); [by rewrite S1|].
  exists nr, now, w2. split; [|exact Hp]. unfold does.
  erewrite bind_Ok; [|by apply wrap_Ok]. erewrite bind_Ok; [|eapply ignore_run; exact E2].
  split; [done|]. rewrite S2, S1, L2. done.
Qed.

(** The nonce goes back: every counter is as it was before the reservation. *)
Lemma rollback_evm nr now w1 :
  w_store w1 = set_withdrawals (insert id (with_nonce now))
    (set_nonces (insert (Mem.nonceKey (WR_WalletID row) c) nr) (w_store w)) →
  Nonce_PendingNonce nr = wrap64 (n + 1) →
  ∃ nr' w', rollback wal n [] w1 = (Ok (), w') ∧
    w_store w' = set_withdrawals (insert id (with_nonce now))
      (set_nonces (insert (Mem.nonceKey (WR_WalletID row) c) nr') (w_store w)) ∧
    Nonce_PendingNonce nr' = n.
Proof.
  intros S1 Hp. destruct Hready as (_ & _ & _ & Hid). unfold rollback. 
  rewrite Hevm, (proj2 (Z.leb_le 0 n)) by lia. cbn [andb]. rewrite Hid.
  destruct (RollbackNonce_does (WR_WalletID row) c n w1 nr) as (nr' & w2 & (E2 & S2 & L2) & Hp');
    [rewrite S1; apply lookup_insert_eq|done|].
  exists nr', w2. split; [|split; [|exact Hp']].
  - erewrite bind_Ok; [reflexivity|eapply ignore_run; exact E2].
  - rewrite S2, S1. unfold set_nonces, set_withdrawals. simpl. by rewrite insert_insert_eq.
Qed.

Definition unreserved (w' : World) : Prop :=
  (∀ u' c', pending w' u' c' = pending w u' c') ∧ utxos (w_store w') = utxos (w_store w).

Lemma unreserved_store w' nr :
  nonces (w_store w') = <[Mem.nonceKey (WR_WalletID row) c := nr]> (nonces (w_store w)) →
  utxos (w_store w') = utxos (w_store w) → Nonce_PendingNonce nr = n → unreserved w'.
Proof.
  intros Sn Su Hp. split; [|done]. intros u' c'. rewrite !pending_store, Sn.
  destruct (decide (Mem.nonceKey (WR_WalletID row) c = Mem.nonceKey u' c')) as [Ek|Hne].
  - apply nonceKey_inj in Ek as [<- <-]. by rewrite lookup_insert_eq.
  - by rewrite lookup_insert_ne.
Qed.

(** The failure path: the nonce back, the row failed, its transfer free again. *)
Lemma abort_evm nr now reason e w1 :
  w_store w1 = set_withdrawals (insert id (with_nonce now))
    (set_nonces (insert (Mem.nonceKey (WR_WalletID row) c) nr) (w_store w)) →
  Nonce_PendingNonce nr = wrap64 (n + 1) → reason ≠ EmptyString →
  ∃ w', abort id wal n [] reason e w1 = (Err e, w') ∧ unreserved w' ∧
    outcome id WithdrawalStateFailed reason (Some n) (WR_ReservedOutpoints row)
      (WR_SignedTxBytes row) w' ∧
    inflightWithdrawals (w_store w') !! wr_key row = None.
Proof.
  intros S1 Hp Hreason. unfold abort.
  destruct (rollback_evm nr now w1 S1 Hp) as (nr' & w2 & E2 & S2 & Hp'). step_ok E2.
  destruct (UpdateWithdrawalState_does id WithdrawalStateFailed reason EmptyString EmptyString w2
    (with_nonce now)) as (now' & w3 & E3 & S3 & L3); [rewrite S2; apply lookup_insert_eq|].
  step_ok E3. rewrite S2 in S3. exists w3. split; [done|]. split_and!.
  - eapply unreserved_store; [by rewrite S3|by rewrite S3|exact Hp'].
  - eexists. rewrite S3. simpl. split; [apply lookup_insert_eq|]. simpl.
    unfold Mem.set_nonempty. by rewrite (bool_decide_false _ Hreason).
  - rewrite S3. unfold settle. cbn. apply lookup_delete_eq.
Qed.

(** C6: ConstructAndSign on an EVM chain, from the free nonce lock on, with a key lookup and a
    signer that leave the store and the locks alone, the signer answering [r].  If the
    transaction cannot be built over the reserved nonce, or the signer or the assembly of its
    answer fails, every nonce counter and coin is as before.  After a failed build the row is not
    failed: it stays whitelisted and in flight, with the nonce that was given back still in it.
    After the other two the row is failed with the reason and its transfer is free again.
    Otherwise the row is signed, holds the assembled bytes and the nonce, and the counter moved
    past it. *)
Theorem ConstructAndSign_evm keyID r :
  resolves keyID → signs r →
  ∃ res w', ConstructAndSign cl em others id w = (res, w') ∧
    let failed reason := unreserved w' ∧
      outcome id WithdrawalStateFailed reason (Some n) (WR_ReservedOutpoints row)
        (WR_SignedTxBytes row) w' ∧
      inflightWithdrawals (w_store w') !! wr_key row = None in
    match BuildUnsignedTx wal row n [], r with
    | Err e, _ =>
        res = Err (Wrapf "build unsigned tx: %w" [] e) ∧ unreserved w' ∧
        outcome id WithdrawalStateWhitelisted (WR_FailureReason row) (Some n)
          (WR_ReservedOutpoints row) (WR_SignedTxBytes row) w' ∧
        inflightWithdrawals (w_store w') = inflightWithdrawals (w_store w)
    | Ok _, Err e => res = Err (Wrapf "sign: %w" [] e) ∧ failed "sign_failed"%string
    | Ok u, Ok signature =>
        match UT_Assemble u signature with
        | Err e =>
            res = Err (Wrapf "assemble signed tx: %w" [] e) ∧ failed "assemble_failed"%string
        | Ok signedBytes =>
            res = Ok () ∧ pending w' (WR_WalletID row) c = n + 1 ∧
            outcome id WithdrawalStateSigned (WR_FailureReason row) (Some n)
              (WR_ReservedOutpoints row) signedBytes w' ∧
            inflightWithdrawals (w_store w') = inflightWithdrawals (w_store w)
        end
    end.
Proof.
  intros Hkey Hsign. rewrite (ConstructAndSign_start _ _ _ _ _ Hready Hkey).
  destruct reserve_evm as (nr & now & w1 & (E1 & S1 & L1) & Hp).
  erewrite bind_Ok by exact E1. unfold sign_and_store.
  destruct (BuildUnsignedTx wal row n []) as [u|e].
  2: { destruct (rollback_evm nr now w1 S1 Hp) as (nr' & w2 & E2 & S2 & Hp'). step_ok E2.
       do 2 eexists. split; [done|]. split; [done|]. split_and!; [|eexists|by rewrite S2].
       - eapply unreserved_store; [by rewrite S2|by rewrite S2|exact Hp'].
       - rewrite S2. split; [apply lookup_insert_eq|]. by destruct Hready as (_ & ? & _). }
  destruct (Hsign (mkSignRequest keyID (UT_Payload u) (WR_WalletID row)) w1)
    as (w2 & E2 & S2 & L2). step_ok E2. rewrite S1 in S2.
  destruct r as [signature|e].
  2: { destruct (abort_evm nr now "sign_failed" (Wrapf "sign: %w" [] e) w2 S2 Hp)
         as (w' & E & H); [done|]. eauto. }
  destruct (UT_Assemble u signature) as [tx|e].
  2: { destruct (abort_evm nr now "assemble_failed" (Wrapf "assemble signed tx: %w" [] e) w2 S2 Hp)
         as (w' & E & H); [done|]. eauto. }
  destruct (update_build_does id (λ now r, WR_with_build (WR_NonceValue r)
    (WR_ReservedOutpoints r) tx now r) w2 (with_nonce now)) as (now3 & w3 & E3 & S3 & L3);
    [rewrite S2; apply lookup_insert_eq|].
  erewrite bind_Ok; [|eapply try_run; exact E3].
  destruct (UpdateWithdrawalState_does id WithdrawalStateSigned EmptyString EmptyString EmptyString
    w3 _ ltac:(rewrite S3; apply lookup_insert_eq)) as (now4 & w4 & E4 & S4 & L4).
  step_ok E4.
  match goal with |- ∃ res w', emit em ?ev w4 = _ ∧ _ =>
    destruct (emit_does em ev w4) as (w5 & E5 & K5 & _) end.
  destruct (K5 GWithdrawals) as [K5w K5i]; [done|]. pose proof (K5 GNonces) as K5n.
  simpl in K5n. rewrite S4, S3, S2 in K5w, K5i, K5n. simpl in K5w, K5i, K5n.
  do 2 eexists. split; [exact E5|]. split; [done|]. split_and!.
  - rewrite (pending_store w5), K5n by done. rewrite lookup_insert_eq. cbn [default from_option]. etrans; [exact Hp|].
    apply wrap64_id. unfold in_int64, min_int64. lia.
  - eexists. rewrite K5w. split; [apply lookup_insert_eq|]. done.
  - exact K5i.
Qed.
End evm.

Section btc.
Variable (id : UUID) (row : WithdrawalRequest) (wal : Wallet) (w : World).
#[local] Abbreviation amount := (fst (ParseInt (WR_Amount row))) (only parsing).
Hypothesis Hready : ready id row wal w.
Hypothesis Hbtc : Wallet_Chain wal = ChainBitcoin.
Hypothesis Hkeyed : utxos_keyed (w_store w).
(** No nonce is ever reserved on Bitcoin. *)
Hypothesis Hnonce : nonces (w_store w) !! Mem.nonceKey (WR_WalletID row) ChainBitcoin = None.

(** Every coin has the lock state it has in [w]. *)
Definition coins_as_before (w' : World) : Prop :=
  ∀ op, UTXO_LockState <$> utxos (w_store w') !! op = UTXO_LockState <$> utxos (w_store w) !! op.

(** The coins of [ops] are locked, and were free; the others are as in [w]. *)
Definition coins_locked (ops : list string) (w' : World) : Prop :=
  (∀ op, op ∈ ops → utxo_in UTXOLockStateFree op w ∧ utxo_in UTXOLockStateLocked op w') ∧
  (∀ op, op ∉ ops → utxos (w_store w') !! op = utxos (w_store w) !! op).

Lemma select_btc :
  (∃ ops total w', SelectForAmount (WR_WalletID row) amount w = (Ok (ops, total), w') ∧
     coins_locked ops w' ∧ only GUtxos (w_store w) (w_store w')) ∨
  (∃ have, SelectForAmount (WR_WalletID row) amount w =
     (Err (Errorf "insufficient funds: need %d have %d" [FInt amount; FInt have]), w)).
Proof.
  destruct (SelectForAmount_run (WR_WalletID row) amount w Hkeyed)
    as (L & HP & _ & [(coins & rest & w1 & E & HL & _ & _ & Hw1)|[E _]]); [left|right; eauto].
  do 3 eexists. split; [exact E|]. split; [split|].
  - intros op Hop. apply list_elem_of_fmap in Hop as Hu. destruct Hu as (u & -> & Hu).
    destruct (elem_of_free_coins (WR_WalletID row) u w Hkeyed) as (H1 & _ & H2).
    { rewrite <-HP, HL. apply elem_of_app. by left. }
    split; [by exists u|]. eexists. rewrite Hw1, decide_True, H1 by done. done.
  - intros op Hop. by rewrite Hw1, decide_False.
  - assert (HR : respects (on_store (only GUtxos)) (SelectForAmount (WR_WalletID row) amount))
      by (unfold SelectForAmount; go_respects).
    specialize (HR w). by rewrite E in HR.
Qed.

Lemma rollback_btc ops w1 :
  coins_locked ops w1 →
  ∃ w', rollback wal (-1) ops w1 = (Ok (), w') ∧ coins_as_before w' ∧
    same GWithdrawals (w_store w1) (w_store w').
Proof.
  intros [Hin Hout]. unfold rollback. cbn [Z.leb Z.compare andb].
  erewrite bind_Ok by reflexivity. destruct ops as [|o ops].
  - exists w1. split; [done|]. split; [|done]. intros op. rewrite Hout; [done|]. apply not_elem_of_nil.
  - destruct (RestoreUTXOs_does (o :: ops) w1) as (now & us & w' & (E & S & _) & Hus).
    { intros op Hop. destruct (Hin op Hop) as [_ (u & Hu & _)]. by exists u. }
    exists w'. split; [by eapply ignore_run|]. split; [|by rewrite S].
    intros op. rewrite S. simpl. rewrite Hus. case_decide as Hop; [|by rewrite Hout].
    destruct (Hin op Hop) as [(u & Hu & Hf) (u' & Hu' & _)]. rewrite Hu, Hu'. simpl. by rewrite Hf.
Qed.

(** The reservation: coins locked and recorded in the row, or nothing. *)
Lemma reserve_btc :
  (∃ ops now w', reserve others id row wal w = (Ok (-1, ops), w') ∧ coins_locked ops w' ∧
     withdrawals (w_store w') = <[id := WR_with_build (WR_NonceValue row) ops
       (WR_SignedTxBytes row) now row]> (withdrawals (w_store w)) ∧
     inflightWithdrawals (w_store w') = inflightWithdrawals (w_store w)) ∨
  (∃ have, reserve others id row wal w =
     (Err (Wrapf "select utxos: %w" [] (Errorf "insufficient funds: need %d have %d"
        [FInt amount; FInt have])), w)).
Proof.
  destruct Hready as (Hrow & _). unfold reserve. rewrite Hbtc. change (IsEVM ChainBitcoin) with false. cbn iota.
  rewrite bool_decide_true by done. 
  destruct select_btc as [(ops & t & w1 & E & Hc & Ho)|(have & E)]; [left|right].
  - destruct (Ho GWithdrawals) as [Hw Hi]; [done|]. rewrite <-Hw in Hrow.
    destruct (update_build_does id (λ now r, WR_with_build (WR_NonceValue r) ops
      (WR_SignedTxBytes r) now r) w1 row Hrow) as (now & w2 & E2 & S2 & _).
    exists ops, now, w2. erewrite bind_Ok by (by apply try_run). cbn beta iota.
    erewrite bind_Ok by (eapply try_run; exact E2). split; [done|].
    rewrite S2. simpl. rewrite Hw, Hi. split; [|done].
    split; [|intros op Hop; rewrite S2; by apply Hc].
    intros op Hop. destruct (proj1 Hc op Hop) as [? (u & ? & ?)]. split; [done|].
    exists u. by rewrite S2.
  - exists have. erewrite bind_Ok by (by apply try_run). cbn beta iota. erewrite bind_Ok; [done|].
    eapply ignore_run. unfold RollbackNonce, RollbackPendingNonce, memstore,
      Mem.RollbackPendingNonce. mem_cbv. by rewrite Hnonce.
Qed.

Lemma coins_frame w1 w2 : utxos (w_store w2) = utxos (w_store w1) →
  (coins_as_before w1 → coins_as_before w2) ∧ ∀ ops, coins_locked ops w1 → coins_locked ops w2.
Proof.
  intros E. unfold coins_as_before, coins_locked, utxo_in. rewrite E. auto.
Qed.

Lemma abort_btc ops reason e w1 :
  coins_locked ops w1 → ∃ w', abort id wal (-1) ops reason e w1 = (Err e, w') ∧ coins_as_before w'.
Proof.
  intros Hc. unfold abort. destruct (rollback_btc ops w1 Hc) as (w2 & E2 & H2 & _). step_ok E2.
  destruct (UpdateWithdrawalState id WithdrawalStateFailed reason EmptyString EmptyString w2)
    as [res w3] eqn:E3. step_ok E3. exists w3. split; [done|]. eapply coins_frame; [|exact H2].
  pose proof (proj1 (UpdateWithdrawalState_only id WithdrawalStateFailed reason EmptyString
    EmptyString w2) GUtxos ltac:(done)) as H. by rewrite E3 in H.
Qed.

(** C7: ConstructAndSign on Bitcoin, whatever the signer answers: if it returns an error, for
    lack of funds or at any later stage, every coin has the lock state it had before; if it
    succeeds, the coins it picked went from free to locked, no other coin changed, and the
    signed row names exactly them. *)
Theorem ConstructAndSign_btc keyID r :
  resolves keyID → signs r →
  ∃ res w', ConstructAndSign cl em others id w = (res, w') ∧
    match res with
    | Err _ => coins_as_before w'
    | Ok _ => ∃ ops tx, coins_locked ops w' ∧
        outcome id WithdrawalStateSigned (WR_FailureReason row) (WR_NonceValue row) ops tx w'
    end.
Proof.
  intros Hkey Hsign. rewrite (ConstructAndSign_start _ _ _ _ _ Hready Hkey).
  destruct reserve_btc as [(ops & now & w1 & E1 & Hc1 & Hw1 & _)|(have & E1)].
  2: { do 2 eexists. split; [by apply bind_Err|]. by intros op. }
  erewrite bind_Ok by exact E1. unfold sign_and_store.
  destruct (BuildUnsignedTx wal row (-1) ops) as [u|e].
  2: { destruct (rollback_btc ops w1 Hc1) as (w2 & E2 & H2 & _). step_ok E2. by do 2 eexists. }
  destruct (Hsign (mkSignRequest keyID (UT_Payload u) (WR_WalletID row)) w1)
    as (w2 & E2 & S2 & L2). step_ok E2.
  assert (Hc2 : coins_locked ops w2) by (eapply coins_frame; [by rewrite S2|exact Hc1]).
  rewrite <-S2 in Hw1. destruct r as [signature|e].
  2: { destruct (abort_btc ops "sign_failed" (Wrapf "sign: %w" [] e) w2 Hc2) as (w3 & E3 & H3).
       do 2 eexists. by split. }
  destruct (UT_Assemble u signature) as [tx|e].
  2: { destruct (abort_btc ops "assemble_failed" (Wrapf "assemble signed tx: %w" [] e) w2 Hc2)
         as (w3 & E3 & H3). do 2 eexists. by split. }
  edestruct (update_build_does id (λ now r, WR_with_build (WR_NonceValue r)
    (WR_ReservedOutpoints r) tx now r) w2) as (now3 & w3 & E3 & S3 & L3);
    [rewrite Hw1; apply lookup_insert_eq|].
  erewrite bind_Ok; [|eapply try_run; exact E3].
  destruct (UpdateWithdrawalState_does id WithdrawalStateSigned EmptyString EmptyString EmptyString
    w3 _ ltac:(rewrite S3; apply lookup_insert_eq)) as (now4 & w4 & E4 & S4 & L4).
  step_ok E4.
  match goal with |- ∃ res w', emit em ?ev w4 = _ ∧ _ =>
    destruct (emit_does em ev w4) as (w5 & E5 & K5 & _) end.
  destruct (K5 GWithdrawals) as [K5w _]; [done|]. pose proof (K5 GUtxos) as K5u. simpl in K5u.
  do 2 eexists. split; [exact E5|]. exists ops, tx. split.
  - eapply coins_frame; [|exact Hc2]. by rewrite K5u, S4, S3.
  - eexists. rewrite K5w, S4. split; [apply lookup_insert_eq|]. done.
Qed.
End btc.
End sign.

(** ** Broadcast *)

Lemma match_nonempty {A B} (l : list A) (a b : B) :
  l ≠ [] → match l with [] => a | _ => b end = b.
Proof. by destruct l. Qed.

Section broadcast.
Context {GR : GoRuntime} {UL : UuidLib}.
Variable (cl : Clients World) (em : Emitter World).
Context {EM : AuditEmitter em}.
Variable (id : UUID) (row : WithdrawalRequest) (wal : Wallet) (w : World).
#[local] Abbreviation c := (Wallet_Chain wal) (only parsing).
#[local] Abbreviation ops := (WR_ReservedOutpoints row) (only parsing).
Hypothesis Hrow : withdrawals (w_store w) !! id = Some row.
Hypothesis Hsigned : WR_State row = WithdrawalStateSigned.
Hypothesis Hbytes : WR_SignedTxBytes row ≠ [].
Hypothesis Hwal : wallets (w_store w) !! WR_WalletID row = Some wal.
Hypothesis Hcoins : ∀ op, op ∈ ops → is_Some (utxos (w_store w) !! op).

(** The gateway answers [r] and does not touch the store. *)
Definition gateway_answers (r : res string) : Prop :=
  ∀ q w, ∃ w', BroadcastTx cl q w = (r, w') ∧ w_store w' = w_store w.

(** A step on the coins and one on the counters, as Broadcast makes them. *)
Lemma spend_step tx w0 :
  w_store w0 = w_store w →
  ∃ now us w', (if bool_decide (c = ChainBitcoin) then
       match ops with [] => mret () | s :: l => ignore (MarkSpent (s :: l) tx) end else mret ()) w0
       = (Ok (), w') ∧ w_store w' = set_utxos (λ _, us) (w_store w) ∧
    rewritten (spent_row tx now) (if decide (c = ChainBitcoin) then ops else []) w us.
Proof.
  intros S0. assert (Hid : w_store w0 = set_utxos (λ _, utxos (w_store w)) (w_store w) ∧
    ∀ now, rewritten (spent_row tx now) [] w (utxos (w_store w))).
  { split; [rewrite S0; by destruct (w_store w)|]. intros now op. by rewrite decide_False by set_solver. }
  case_bool_decide as Hc; [rewrite decide_True by done|rewrite decide_False by done].
  2: { exists 0, (utxos (w_store w)), w0. split; [done|]. split; [apply Hid|apply Hid]. }
  destruct ops as [|o l] eqn:Eo.
  { exists 0, (utxos (w_store w)), w0. split; [done|]. split; [apply Hid|apply Hid]. }
  destruct (MarkUTXOsSpent_does (o :: l) tx w0) as (now & us & w' & (E & S & _) & H).
  { rewrite S0. exact Hcoins. }
  exists now, us, w'. split; [by eapply ignore_run|]. split; [by rewrite S, S0|].
  intros op. rewrite H, S0. done.
Qed.

Lemma commit_step w0 :
  ∃ w', (if IsEVM c then match WR_NonceValue row with
           | Some n => ignore (CommitNonce (WR_WalletID row) c n) | None => mret () end
         else mret ()) w0 = (Ok (), w') ∧ only GNonces (w_store w0) (w_store w') ∧
    ∀ n, IsEVM c = true → WR_NonceValue row = Some n → 0 ≤ n < max_int64 →
      0 < pending w0 (WR_WalletID row) c →
      (∀ u' c', pending w' u' c' = pending w0 u' c') ∧
      broadcast w' (WR_WalletID row) c = Z.max (n + 1) (broadcast w0 (WR_WalletID row) c).
Proof.
  destruct (IsEVM c); [|exists w0; split; [done|split; [reflexivity|done]]].
  destruct (WR_NonceValue row) as [n|]; [|exists w0; split; [done|split; [reflexivity|done]]].
  assert (HR : respects (on_store (only GNonces)) (CommitNonce (WR_WalletID row) c n))
    by (unfold CommitNonce; go_respects).
  specialize (HR w0). destruct (CommitNonce (WR_WalletID row) c n w0) as [r w1] eqn:E.
  exists w1. split; [by eapply ignore_run|]. split; [exact HR|]. intros m _ [= <-] Hn Hp.
  destruct (store_advance (NonceStore:=mem_nonces) w0 (WR_WalletID row) c n I Hn Hp) as (r2 & w2 & E2 & _ & Hp2 & Hb2).
  pose proof (mem_advance_ok (WR_WalletID row) c n w0) as Hr. rewrite E2 in Hr. simpl in Hr.
  unfold CommitNonce in E. rewrite E2 in E. injection E as _ <-. split; [exact Hp2|].
  rewrite Hb2, Hr. unfold at_key. by rewrite decide_True.
Qed.

(** Broadcast of a signed withdrawal.  When the gateway takes the transaction, the row is
    broadcast under its hash, on Bitcoin exactly the coins of the row are spent by it, and on
    an EVM chain the broadcast counter reaches one past the row's nonce; the transfer stays in
    flight. *)
Theorem Broadcast_sent txHash :
  gateway_answers (Ok txHash) →
  ∃ w' row', Broadcast cl em id w = (Ok (), w') ∧
    withdrawals (w_store w') = <[id := row']> (withdrawals (w_store w)) ∧
    WR_State row' = WithdrawalStateBroadcast ∧
    WR_TxHash row' = (if decide (txHash = EmptyString) then WR_TxHash row else txHash) ∧
    inflightWithdrawals (w_store w') = inflightWithdrawals (w_store w) ∧
    (∃ now, rewritten (spent_row txHash now) (if decide (c = ChainBitcoin) then ops else []) w
       (utxos (w_store w'))) ∧
    (∀ n, IsEVM c = true → WR_NonceValue row = Some n → 0 ≤ n < max_int64 →
       0 < pending w (WR_WalletID row) c →
       pending w' (WR_WalletID row) c = pending w (WR_WalletID row) c ∧
       broadcast w' (WR_WalletID row) c = Z.max (n + 1) (broadcast w (WR_WalletID row) c)).
Proof.
  intros Hgw. unfold Broadcast. erewrite bind_Ok by (by rewrite GetWithdrawal_run, Hrow).
  rewrite bool_decide_true by done. cbn [negb].
  erewrite bind_Ok by (by rewrite GetWallet_run, Hwal).
  rewrite match_nonempty by done. 
  destruct (Hgw (mkBroadcastRequest c (WR_SignedTxBytes row) (WR_WalletID row)) w)
    as (w1 & E1 & S1).
  step_ok E1. destruct (spend_step txHash w1 S1) as (now & us & w2 & E2 & S2 & Hus). step_ok E2.
  destruct (commit_step w2) as (w3 & E3 & K3 & Hcnt). step_ok E3.
  destruct (K3 GWithdrawals) as [K3w K3i]; [done|]. pose proof (K3 GUtxos ltac:(done)) as K3u.
  rewrite S2 in K3w, K3i, K3u. simpl in K3w, K3i, K3u.
  destruct (UpdateWithdrawalState_does id WithdrawalStateBroadcast EmptyString txHash EmptyString
    w3 row) as (now4 & w4 & E4 & S4 & _); [by rewrite K3w|]. step_ok E4.
  match goal with |- ∃ w' row', emit em ?ev w4 = _ ∧ _ =>
    destruct (emit_does em ev w4) as (w5 & E5 & K5 & _) end.
  destruct (K5 GWithdrawals) as [K5w K5i]; [done|]. pose proof (K5 GUtxos ltac:(done)) as K5u.
  pose proof (K5 GNonces ltac:(done)) as K5n. rewrite S4 in K5w, K5i, K5u, K5n.
  simpl in K5w, K5i, K5u, K5n. rewrite K3w in K5w.
  exists w5. eexists. split; [exact E5|]. split; [exact K5w|]. split; [done|]. split.
  { unfold moved. cbn. unfold Mem.set_nonempty. repeat case_decide; repeat case_bool_decide; congruence. }
  split; [by rewrite K5i, <-K3i|]. split; [exists now; by rewrite K5u, K3u|].
  intros n Hevm Hn Hr Hp. destruct (Hcnt n Hevm Hn Hr) as [Hp' Hb'].
  { rewrite (pending_store w2), S2. exact Hp. }
  assert (Hw2 : ∀ u c, mem_row w2 u c = mem_row w u c) by (intros u' c'; unfold mem_row; by rewrite S2).
  assert (Hw5 : ∀ u c, mem_row w5 u c = mem_row w3 u c) by (intros u' c'; unfold mem_row; by rewrite K5n).
  specialize (Hp' (WR_WalletID row) c). cbn [pending broadcast mem_nonces] in *.
  rewrite !Hw5, Hp', Hb', !Hw2. done.
Qed.
End broadcast.

(** ** Fail and OnReorg *)

Section after.
Context {GR : GoRuntime} {UL : UuidLib}.
Variable (em : Emitter World).
Context {EM : AuditEmitter em}.

Lemma RollbackNonce_locks u c n w : w_locks (RollbackNonce u c n w).2 = w_locks w.
Proof.
  unfold RollbackNonce, RollbackPendingNonce, memstore, Mem.RollbackPendingNonce.
  mem_cbv. by destruct (_ !! _); [case_bool_decide|].
Qed.

(** Fail's two writes: the nonce rollback and the row. *)
Lemma Fail_run id reason w row wal :
  withdrawals (w_store w) !! id = Some row →
  wallets (w_store w) !! WR_WalletID row = Some wal →
  ∃ w1 w', (if (0 <=? noncePtr row) && IsEVM (Wallet_Chain wal)
            then ignore (RollbackNonce (Wallet_ID wal) (Wallet_Chain wal) (noncePtr row))
            else mret ()) w = (Ok (), w1) ∧
    Fail em id reason w = (Ok (), w') ∧ nonces (w_store w') = nonces (w_store w1) ∧
    utxos (w_store w') = utxos (w_store w) ∧
    (∃ now, withdrawals (w_store w') =
       <[id := moved WithdrawalStateFailed reason EmptyString EmptyString now row]>
         (withdrawals (w_store w))) ∧
    inflightWithdrawals (w_store w') = delete (wr_key row) (inflightWithdrawals (w_store w)) ∧
    w_locks w' = w_locks w.
Proof.
  intros Hrow Hwal.
  assert (H1 : ∃ w1, (if (0 <=? noncePtr row) && IsEVM (Wallet_Chain wal)
            then ignore (RollbackNonce (Wallet_ID wal) (Wallet_Chain wal) (noncePtr row))
            else mret ()) w = (Ok (), w1) ∧ only GNonces (w_store w) (w_store w1) ∧
            w_locks w1 = w_locks w).
  { destruct (_ && _); [|exists w; split; [done|split; [reflexivity|done]]].
    assert (HR : respects (on_store (only GNonces))
      (RollbackNonce (Wallet_ID wal) (Wallet_Chain wal) (noncePtr row)))
      by (unfold RollbackNonce; go_respects).
    specialize (HR w). pose proof (RollbackNonce_locks (Wallet_ID wal) (Wallet_Chain wal)
      (noncePtr row) w) as HL. unfold ignore.
    destruct (RollbackNonce _ _ _ w) as [res w1]. by exists w1. }
  destruct H1 as (w1 & E1 & K1 & L1). exists w1.
  destruct (K1 GWithdrawals) as [Kw Ki]; [done|]. pose proof (K1 GUtxos ltac:(done)) as Ku.
  simpl in Ku. destruct (UpdateWithdrawalState_does id WithdrawalStateFailed reason EmptyString
    EmptyString w1 row) as (now & w2 & E2 & S2 & L2); [by rewrite Kw|].
  destruct (emit_does em (withdrawal_event "withdrawal.failed" (WR_WalletID row)
    [("id", AUuid id); ("reason", AStr reason)])%string w2) as (w3 & E3 & K3 & L3).
  destruct (K3 GWithdrawals) as [Kw3 Ki3]; [done|]. pose proof (K3 GUtxos ltac:(done)) as Ku3.
  pose proof (K3 GNonces ltac:(done)) as Kn3. simpl in Ku3, Kn3.
  exists w3. split; [exact E1|]. split.
  - unfold Fail. erewrite bind_Ok by (by rewrite GetWithdrawal_run, Hrow).
    erewrite bind_Ok by (by rewrite GetWallet_run, Hwal). unfold rollback.
    erewrite bind_Ok by (erewrite bind_Ok by exact E1; reflexivity).
    step_ok E2. exact E3.
  - rewrite Kn3, Ku3, Kw3, Ki3, L3, L2, L1, S2. simpl. rewrite Kw, Ki, Ku. eauto 6.
Qed.

(** Fail gives back the nonce but no coin: the outpoints the withdrawal reserved keep the
    lock they have, while the row that names them is failed and its transfer is free to be
    asked for again. *)
Theorem Fail_keeps_coins_locked id reason w row wal :
  withdrawals (w_store w) !! id = Some row →
  wallets (w_store w) !! WR_WalletID row = Some wal →
  ∃ w', Fail em id reason w = (Ok (), w') ∧
    outcome id WithdrawalStateFailed (Mem.set_nonempty reason (WR_FailureReason row))
      (WR_NonceValue row) (WR_ReservedOutpoints row) (WR_SignedTxBytes row) w' ∧
    utxos (w_store w') = utxos (w_store w) ∧
    inflightWithdrawals (w_store w') !! wr_key row = None.
Proof.
  intros Hrow Hwal. destruct (Fail_run id reason w row wal Hrow Hwal)
    as (w1 & w' & _ & E & _ & Hu & (now & Hw) & Hi & _).
  exists w'. split; [exact E|]. rewrite Hu, Hi.
  split; [eexists; rewrite Hw; split; [apply lookup_insert_eq|done]|].
  split; [done|]. apply lookup_delete_eq.
Qed.

(** The row [id] is there and was built over the nonce [n]. *)
Definition holds_nonce (id : UUID) (n : Z) (w : World) : Prop :=
  ∃ row, withdrawals (w_store w) !! id = Some row ∧ WR_NonceValue row = Some n.

(** The nonce of a withdrawal can be given back twice.  A withdrawal that failed while
    being signed keeps its nonce in its row; once another withdrawal holds the same number,
    failing the first one again makes the next reservation hand that number out a second
    time. *)
Theorem Fail_frees_nonce_in_use others id1 id2 reason w row1 row2 wal n :
  withdrawals (w_store w) !! id1 = Some row1 → WR_State row1 = WithdrawalStateFailed →
  withdrawals (w_store w) !! id2 = Some row2 → id1 ≠ id2 →
  WR_WalletID row1 = WR_WalletID row2 →
  wallets (w_store w) !! WR_WalletID row1 = Some wal → Wallet_ID wal = WR_WalletID row1 →
  IsEVM (Wallet_Chain wal) = true →
  WR_NonceValue row1 = Some n → WR_NonceValue row2 = Some n → 0 ≤ n < max_int64 →
  pending w (Wallet_ID wal) (Wallet_Chain wal) = n + 1 →
  w_locks w !! nonce_lock (Wallet_ID wal) (Wallet_Chain wal) = None →
  ∃ w' w'', Fail em id1 reason w = (Ok (), w') ∧ holds_nonce id2 n w' ∧
    ReserveNonce others (Wallet_ID wal) (Wallet_Chain wal) w' = (Ok n, w'').
Proof.
  intros H1 Hs1 H2 Hne Eid Hwal Hid Hevm Hn1 Hn2 Hn Hp Hl.
  destruct (Fail_run id1 reason w row1 wal H1 Hwal)
    as (w1 & w' & E1 & E & Hnonces & _ & (now & Hw) & _ & Hlocks).
  unfold noncePtr in E1. rewrite Hn1, Hevm in E1. simpl in E1.
  rewrite (proj2 (Z.leb_le 0 n)) in E1 by lia. cbn [andb] in E1.
  destruct (store_rollback (NonceStore:=mem_nonces) w (Wallet_ID wal) (Wallet_Chain wal) n I Hn) as (k & w2 & ER & _ & HpR & _).
  pose proof (mem_rollback_ok (Wallet_ID wal) (Wallet_Chain wal) n w) as Hk. rewrite ER in Hk. simpl in Hk.
  rewrite Hk in HpR. destruct k as [k|]; [|done].
  assert (w2 = w1) as ->.
  { unfold RollbackNonce in E1. go_cbv in E1. rewrite ER in E1. by injection E1. }
  destruct (ReserveNonce_does others (Wallet_ID wal) (Wallet_Chain wal) w')
    as (nr & w3 & (E3 & _) & _); [by rewrite Hlocks|].
  exists w', w3. split; [exact E|]. split; [exists row2; by rewrite Hw, lookup_insert_ne|].
  rewrite E3. do 2 f_equal. rewrite pending_store, Hnonces, <-pending_store, HpR, bool_decide_eq_true_2 by done.
  unfold at_key. by rewrite decide_True.
Qed.

(** C40: a reorg reopens a transfer without its mark.  OnReorg takes a confirmed withdrawal
    back to broadcast but does not put its transfer in flight again, so the same transfer can
    be created and approved once more while the first one is live. *)
Theorem OnReorg_reopens_transfer {CL : CryptoLib} {BL : BtcLib} (cl : Clients World) id row w
    req wal d :
  withdrawals (w_store w) !! id = Some row → WR_State row = WithdrawalStateConfirmed →
  inflightWithdrawals (w_store w) !! wr_key row = None →
  policy_answers cl (Some d) None → Approved d = true →
  request_key req = wr_key row →
  wallets (w_store w) !! Req_WalletID req = Some wal → Wallet_State wal = WalletStateActive →
  withdrawals (w_store w) !! uuid_at (w_ids w) = None →
  ∃ w1 ret w2, OnReorg id [] w = (Ok (), w1) ∧ Create cl em req w1 = (Ok ret, w2) ∧
    ∃ row1 row2, withdrawals (w_store w2) !! id = Some row1 ∧
      withdrawals (w_store w2) !! uuid_at (w_ids w) = Some row2 ∧ id ≠ uuid_at (w_ids w) ∧
      wr_key row1 = wr_key row2 ∧
      WR_State row1 = WithdrawalStateBroadcast ∧ WR_State row2 = WithdrawalStateWhitelisted.
Proof.
  intros Hrow Hst Hmark Hpol Happ Hkey Hwal Hact Hfresh.
  assert (Hne : id ≠ uuid_at (w_ids w)) by congruence.
  set (w1 := set_store (set_withdrawals (insert id (moved WithdrawalStateBroadcast "reorg"
    EmptyString EmptyString (time_at (S (w_clock w))) row))
    (set_inflight (settle WithdrawalStateBroadcast row) (w_store w))) (tick (tick w))).
  assert (E1 : OnReorg id [] w = (Ok (), w1)).
  { unfold OnReorg. erewrite bind_Ok by (by rewrite GetWithdrawal_run, Hrow).
    rewrite bool_decide_true by done.
    erewrite bind_Ok by reflexivity. exact (UpdateWithdrawalState_run id _ _ _ _ (tick w) row Hrow). }
  pose proof (Create_spec cl em req w1 (Some d) None Hpol) as H.
  change (w_ids w1) with (w_ids w) in H. change (wallets (w_store w1)) with (wallets (w_store w)) in H.
  rewrite Hwal in H. rewrite Hact in H.
  assert (Em : inflightWithdrawals (w_store w1) = inflightWithdrawals (w_store w)) by reflexivity.
  rewrite !decide_False in H; [|rewrite Em, Hkey, Hmark; done|done|done].
  destruct H as (ret & row2 & w2 & E2 & Hw2 & _ & Hk2 & Hs2 & _).
  { simpl. by rewrite lookup_insert_ne. }
  exists w1, ret, w2. split; [exact E1|]. split; [exact E2|]. eexists _, row2. rewrite Hw2.
  rewrite lookup_insert_ne, lookup_insert_eq by done. simpl. rewrite lookup_insert_eq.
  split; [done|]. split; [done|]. split; [done|]. split; [by rewrite Hk2|]. split; [done|].
  rewrite Hs2. unfold decided_state. simpl. by rewrite Happ.
Qed.
End after.

(** ** Witnesses *)

Section witnesses.
Import Scenario.

Definition the_row (w : World) (id : UUID) : WithdrawalRequest :=
  default (mkWithdrawal 0 0 EmptyString EmptyString EmptyString EmptyString EmptyString
             EmptyString EmptyString None [] [] 0 0) (withdrawals (w_store w) !! id).

Lemma policy_silent : policy_answers no_policy None (Some (New "timeout")).
Proof. intros q w. by exists w. Defined.

Lemma Create_spec_witness :
  ∃ ret row w', Create no_policy em (eth_req "1000") start = (Ok ret, w') ∧
    withdrawals (w_store w') !! row_id = Some row ∧ WR_State row = WithdrawalStateFailed ∧
    inflightWithdrawals (w_store w') !! request_key (eth_req "1000") = None.
Proof.
  destruct (Create_spec no_policy em (eth_req "1000") start None (Some (New "timeout")))
    as (ret & row & w' & E & Hw & _ & _ & Hs & _ & _ & _ & Hi);
    [exact policy_silent|vm_compute; reflexivity|].
  exists ret, row, w'. split; [exact E|]. split; [rewrite Hw; apply lookup_insert_eq|].
  split; [exact Hs|exact Hi].
Defined.

Lemma clients_sign r : signs (signer_with r) r.
Proof. intros q w. by exists w. Defined.

Lemma created_ready : ready row_id (the_row created row_id) eth_wallet created.
Proof. split_and!; vm_compute; reflexivity. Defined.

Lemma ConstructAndSign_evm_witness :
  ∃ res w', ConstructAndSign (signer_with (Err (New "hsm down"))) em others row_id created
      = (res, w') ∧
    res = Err (Wrapf "sign: %w" [] (New "hsm down")) ∧ unreserved created w'.
Proof.
  destruct (ConstructAndSign_evm (signer_with (Err (New "hsm down"))) em others row_id
    (the_row created row_id) eth_wallet created created_ready) with
    (keyID := EmptyString) (r := Err (New "hsm down") : res bytes) as (res & w' & E & H);
    [reflexivity|vm_compute; reflexivity|vm_compute; split; congruence|reflexivity
    |exact (clients_sign (Err (New "hsm down")))|].
  exists res, w'. split; [exact E|].
  assert (Hn : pending created (WR_WalletID (the_row created row_id)) (Wallet_Chain eth_wallet) = 0)
    by (vm_compute; reflexivity).
  assert (Hb : is_ok (BuildUnsignedTx eth_wallet (the_row created row_id) 0 []) = true)
    by (vm_compute; reflexivity).
  rewrite Hn in H. destruct (BuildUnsignedTx eth_wallet (the_row created row_id) 0 []);
    [destruct H as [H1 (H2 & _)]; split; [exact H1|exact H2]|discriminate Hb].
Defined.

Definition btc_created : World := (Create clients em (btc_req "80") start).2.
Lemma btc_ready : ready row_id (the_row btc_created row_id) btc_wallet btc_created.
Proof. split_and!; vm_compute; reflexivity. Defined.
Lemma btc_keyed : utxos_keyed (w_store btc_created).
Proof.
  change (map_Forall (λ op u, UTXO_Outpoint u = op) (utxos (w_store btc_created))).
  apply (bool_decide_unpack _). vm_compute. exact I.
Defined.

Lemma ConstructAndSign_btc_witness :
  ∃ w', ConstructAndSign (signer_with (Err (New "hsm down"))) em others row_id btc_created
      = (Err (Wrapf "sign: %w" [] (New "hsm down")), w') ∧ coins_as_before btc_created w'.
Proof.
  destruct (ConstructAndSign_btc (signer_with (Err (New "hsm down"))) em others row_id
    (the_row btc_created row_id) btc_wallet btc_created btc_ready) with
    (keyID := EmptyString) (r := Err (New "hsm down") : res bytes) as (res & w' & E & H);
    [reflexivity|exact btc_keyed|vm_compute; reflexivity|reflexivity
    |exact (clients_sign (Err (New "hsm down")))|].
  assert (Er : res = Err (Wrapf "sign: %w" [] (New "hsm down"))).
  { replace res with (ConstructAndSign (signer_with (Err (New "hsm down"))) em others row_id
      btc_created).1 by (by rewrite E). vm_compute. reflexivity. }
  rewrite Er in E, H. exists w'. split; [exact E|exact H].
Defined.

Definition btc_signed : World := (ConstructAndSign clients em others row_id btc_created).2.
Lemma btc_coins op :
  op ∈ WR_ReservedOutpoints (the_row btc_signed row_id) → is_Some (utxos (w_store btc_signed) !! op).
Proof.
  revert op. apply list.Forall_forall. apply (bool_decide_unpack _). vm_compute. exact I.
Defined.

Lemma Broadcast_sent_witness :
  ∃ w', Broadcast clients em row_id btc_signed = (Ok (), w') ∧
    state_of w' row_id = Some WithdrawalStateBroadcast ∧
    UTXO_LockState <$> utxos (w_store w') !! "bb:1"%string = Some UTXOLockStateSpent.
Proof.
  destruct (Broadcast_sent clients em row_id (the_row btc_signed row_id) btc_wallet btc_signed)
    with (txHash := "0xhash"%string) as (w' & row' & E & Hw & Hs & _ & _ & (now & Hu) & _);
    [vm_compute; reflexivity|vm_compute; reflexivity|vm_compute; discriminate
    |vm_compute; reflexivity|exact btc_coins|by intros q w; exists w|].
  exists w'. split; [exact E|]. split.
  - unfold state_of. rewrite Hw, lookup_insert_eq. simpl. by rewrite Hs.
  - rewrite (Hu "bb:1"%string). vm_compute. reflexivity.
Defined.

Lemma Fail_keeps_coins_locked_witness :
  ∃ w', Fail em row_id "cancelled" btc_signed = (Ok (), w') ∧
    UTXO_LockState <$> utxos (w_store w') !! "bb:1"%string = Some UTXOLockStateLocked.
Proof.
  destruct (Fail_keeps_coins_locked em row_id "cancelled" btc_signed (the_row btc_signed row_id)
    btc_wallet) as (w' & E & _ & Hu & _); [vm_compute; reflexivity..|].
  exists w'. split; [exact E|]. rewrite Hu. vm_compute. reflexivity.
Defined.

(** The first withdrawal fails while being signed, the second one is signed. *)
Definition after_failure : World :=
  (ConstructAndSign (signer_with (Err (New "hsm down"))) em others row_id created).2.
Definition second_id : UUID := uuid_at (w_ids after_failure).
Definition second_signed : World :=
  (ConstructAndSign clients em others second_id
     (Create clients em (eth_req "2000") after_failure).2).2.

Lemma Fail_frees_nonce_in_use_witness :
  ∃ w' w'', Fail em row_id "give up" second_signed = (Ok (), w') ∧
    holds_nonce second_id 0 w' ∧
    ReserveNonce others 7%N ChainEthereum w' = (Ok 0, w'').
Proof.
  destruct (Fail_frees_nonce_in_use em others row_id second_id "give up" second_signed
    (the_row second_signed row_id) (the_row second_signed second_id) eth_wallet 0)
    as (w' & w'' & E & Hw & ER);
    [vm_compute; first [reflexivity|discriminate|split; congruence]..|].
  exists w', w''. split; [exact E|]. split; [exact Hw|exact ER].
Defined.

Lemma OnReorg_reopens_transfer_witness :
  ∃ w1 ret w2, OnReorg row_id [] confirmed = (Ok (), w1) ∧
    Create (policy_with (Some yes) None) em (eth_req "1000") w1 = (Ok ret, w2).
Proof.
  destruct (OnReorg_reopens_transfer em (policy_with (Some yes) None) row_id
    (the_row confirmed row_id) confirmed (eth_req "1000") eth_wallet yes)
    as (w1 & ret & w2 & E1 & E2 & _);
    [vm_compute; reflexivity|vm_compute; reflexivity|vm_compute; reflexivity
    |intros q w; exists w; split; [reflexivity|by split]|vm_compute; reflexivity..|].
  exists w1, ret, w2. split; [exact E1|exact E2].
Defined.
End witnesses.
