(* ===== verification/Balance.v ===== *)
(** * Balance: balance tracking (internal/balance/balance.go)

    Confirmation and reorg events on the balance of a (wallet, asset), and its locked part.
    Amounts are decimals held as strings.  The restore callback and the funding callback are
    optional fields of the service, as in the code. *)

From S2P Require Import Prelude GoLib Extern Domain Storage Memstore.
From S2P Require Import MemstoreFacts Config Outbox.
From Stdlib Require Import Qcanon.

Local Open Scope Z_scope.

Record ConfirmationEvent := mkConfirmationEvent {
  CE_WalletID : UUID;
  CE_Asset : string;
  CE_Amount : string;
  CE_Confirmations : Z;
  CE_BlockHeight : Z;
  CE_EventID : string;
  CE_IsFinalized : bool;
  CE_Chain : Chain;
}.

Record ReorgEvent := mkReorgEvent {
  RE_WalletID : UUID;
  RE_Asset : string;
  RE_BlockHeight : Z;
  RE_EventID : string;
  RE_Outpoints : list string;
}.

Definition max64 (a b : Z) : Z := if a >? b then a else b.

Section balance.
Context {W : Type} {DL : DecimalLib} {ST : Store W} {EF : Effects W}.
Variable (em : Emitter W) (cfg : Config).
(** [UTXORestore] and [OnConfirmedDecrease]; a nil callback is [None]. *)
Variable (restore : option (list string → GoM W unit)).
Variable (onDecrease : option (UUID → string → GoM W unit)).

Definition parseDec (s : string) : Dec :=
  if bool_decide (s = EmptyString) then dec_Zero
  else match dec_NewFromString s with Some d => d | None => dec_Zero end.
Definition formatDec (n : Dec) : string := dec_String n.

Definition threshold (chain : Chain) : Z :=
  if bool_decide (chain = ChainBitcoin) then ConfirmationsBTC cfg
  else if bool_decide (chain = ChainSolana) then 1
  else if IsEVM chain then ConfirmationsEVM cfg
  else ConfirmationsEVM cfg.

Definition isConfirmed (ev : ConfirmationEvent) : bool :=
  if bool_decide (CE_Chain ev = ChainSolana) then CE_IsFinalized ev
  else threshold (CE_Chain ev) <=? CE_Confirmations ev.

(** [cur, err := GetBalance(...)], with a missing row as nil. *)
Definition current_balance (walletID : UUID) (asset : string) : GoM W (option Balance) :=
  r ← try (GetBalance walletID asset);
  match r with
  | Ok b => mret (Some b)
  | Err err => if errors_Is err ErrNoRows then mret None else fail err
  end.

Definition empty_balance (walletID : UUID) (asset : string) : Balance :=
  mkBalance walletID asset EmptyString EmptyString EmptyString 0 0.

Definition event_record (id : UUID) (ev : ConfirmationEvent) : BalanceEvent :=
  mkBalanceEvent id (CE_WalletID ev) (CE_Asset ev) (CE_BlockHeight ev) (CE_EventID ev).

(** The body of the confirmation transaction. *)
Definition confirm_tx (ev : ConfirmationEvent) : GoM W unit :=
  cur ← current_balance (CE_WalletID ev) (CE_Asset ev);
  let cur := default (empty_balance (CE_WalletID ev) (CE_Asset ev)) cur in
  let amount := parseDec (CE_Amount ev) in
  let confirmed := if isConfirmed ev then dec_Add (parseDec (Balance_Confirmed cur)) amount
                   else parseDec (Balance_Confirmed cur) in
  let pending := if isConfirmed ev then parseDec (Balance_Pending cur)
                 else dec_Add (parseDec (Balance_Pending cur)) amount in
  now ← time_Now;
  UpsertBalance (mkBalance (CE_WalletID ev) (CE_Asset ev) (formatDec confirmed)
    (formatDec pending) (Balance_Locked cur) (max64 (Balance_LastBlockSeen cur) (CE_BlockHeight ev))
    now);;
  emit em (mkEvent "wallet.balance.updated" (Some (CE_WalletID ev))
    [("asset", AStr (CE_Asset ev)); ("confirmed", AStr (formatDec confirmed));
     ("pending", AStr (formatDec pending)); ("block_height", AInt (CE_BlockHeight ev));
     ("confirmations", AInt (CE_Confirmations ev))])%string.

Definition ApplyConfirmationEvent (ev : ConfirmationEvent) : GoM W unit :=
  beID ← uuid_New;
  r ← try (RecordBalanceEvent (event_record beID ev));
  match r with
  | Err err => if errors_Is err ErrDuplicateEvent then mret () else fail err
  | Ok _ =>
      InTx (confirm_tx ev);;
      match onDecrease with
      | Some f =>
          if isConfirmed ev && dec_IsNegative (parseDec (CE_Amount ev))
          then ignore (f (CE_WalletID ev) (CE_Asset ev)) else mret ()
      | None => mret ()
      end
  end.

Definition reorg_tx (ev : ReorgEvent) : GoM W unit :=
  cur ← current_balance (RE_WalletID ev) (RE_Asset ev);
  match cur with
  | None => mret ()
  | Some cur =>
      let pending := dec_Add (parseDec (Balance_Pending cur)) (parseDec (Balance_Confirmed cur)) in
      now ← time_Now;
      UpsertBalance (mkBalance (RE_WalletID ev) (RE_Asset ev) (formatDec dec_Zero)
        (formatDec pending) (Balance_Locked cur) (Balance_LastBlockSeen cur) now)
  end.

Definition ApplyReorgEvent (ev : ReorgEvent) : GoM W unit :=
  InTx (reorg_tx ev);;
  match restore, RE_Outpoints ev with
  | Some f, (_ :: _) as ops => wrap "restore utxos: %w" [] (f ops)
  | _, _ => mret ()
  end;;
  emit em (mkEvent "wallet.balance.updated" (Some (RE_WalletID ev))
    [("asset", AStr (RE_Asset ev)); ("reorg", ABool true);
     ("block_height", AInt (RE_BlockHeight ev))])%string.

Definition GetBalances (walletID : UUID) : GoM W (list Balance) := ListBalances walletID.

(** The body of AddLocked and ReleaseLocked; [f] is the change of the locked part. *)
Definition locked_tx (walletID : UUID) (asset : string) (f : Dec → Dec) : GoM W unit :=
  cur ← GetBalance walletID asset;
  let locked := f (parseDec (Balance_Locked cur)) in
  now ← time_Now;
  UpsertBalance (mkBalance walletID asset (Balance_Confirmed cur) (Balance_Pending cur)
    (formatDec locked) (Balance_LastBlockSeen cur) now).

Definition AddLocked (walletID : UUID) (asset amount : string) : GoM W unit :=
  InTx (locked_tx walletID asset (λ locked, dec_Add locked (parseDec amount))).

Definition ReleaseLocked (walletID : UUID) (asset amount : string) : GoM W unit :=
  InTx (locked_tx walletID asset (λ locked,
    let locked := dec_Sub locked (parseDec amount) in
    if dec_IsNegative locked then dec_Zero else locked)).
End balance.

(** ** Values *)

Section values.
Context {DL : DecimalLib} {UL : UuidLib}.

(** The number a balance string stands for, and the confirmed and pending value of a wallet in
    an asset; no row is worth nothing. *)
Definition val (s : string) : Qc := dec_val (parseDec s).

Lemma val_empty : val EmptyString = 0%Qc.
Proof. unfold val, parseDec. rewrite bool_decide_true by done. apply dec_Zero_val. Qed.

Lemma val_format d : val (formatDec d) = dec_val d.
Proof.
  unfold val, parseDec, formatDec. rewrite bool_decide_false by apply dec_String_nonempty.
  by destruct (dec_String_parse d) as (b & -> & ->).
Qed.

Definition row_of (w : World) (u : UUID) (a : string) : option Balance :=
  balances (w_store w) !! Mem.balanceKey u a.
Definition confirmed_of (w : World) (u : UUID) (a : string) : Qc :=
  from_option (λ b, val (Balance_Confirmed b)) 0%Qc (row_of w u a).
Definition pending_of (w : World) (u : UUID) (a : string) : Qc :=
  from_option (λ b, val (Balance_Pending b)) 0%Qc (row_of w u a).

Lemma balanceKey_inj u a u' a' : Mem.balanceKey u a = Mem.balanceKey u' a' → u = u' ∧ a = a'.
Proof.
  intros E. apply join_inj in E as [E ->]; [|apply uuid_String_no_bar..].
  by apply uuid_String_inj in E.
Qed.

Lemma row_of_insert w w' u a row u' a' :
  balances (w_store w') = <[Mem.balanceKey u a := row]> (balances (w_store w)) →
  row_of w' u' a' = if decide (u' = u ∧ a' = a) then Some row else row_of w u' a'.
Proof.
  intros E. unfold row_of. rewrite E. case_decide as Hd.
  - destruct Hd as [-> ->]. apply lookup_insert_eq.
  - apply lookup_insert_ne. intros [-> ->]%balanceKey_inj. by apply Hd.
Qed.

(** The key a confirmation event is recorded under. *)
Definition event_key (ev : ConfirmationEvent) : string :=
  Mem.balanceEventKey (event_record uuid_Nil ev).
Definition recorded (w : World) (ev : ConfirmationEvent) : bool :=
  default false (balanceEvents (w_store w) !! event_key ev).

Lemma recorded_key w ev ev' :
  event_key ev' = event_key ev → recorded w ev' = recorded w ev.
Proof. unfold recorded. by intros ->. Qed.
End values.

(** ** The operations on the memstore *)

Section ops.
Context {GR : GoRuntime} {UL : UuidLib} {DL : DecimalLib}.
Variable (em : Emitter World) (cfg : Config).
Variable (restore : option (list string → GoM World unit)).
Variable (onDecrease : option (UUID → string → GoM World unit)).
Context {EM : AuditEmitter em}.
Hypothesis restore_frame : ∀ f l, restore = Some f → respects (on_store (same GBalances)) (f l).
Hypothesis decrease_frame :
  ∀ f u a, onDecrease = Some f → respects (on_store (same GBalances)) (f u a).

Lemma current_balance_run u a w : current_balance u a w = (Ok (row_of w u a), w).
Proof.
  unfold current_balance, GetBalance, memstore, Mem.GetBalance, row_of. mem_cbv.
  by destruct (_ !! _).
Qed.

Lemma UpsertBalance_run b w :
  UpsertBalance b w =
    (Ok (), set_store (set_balances (insert (Mem.balanceKey (Balance_WalletID b) (Balance_Asset b))
       (Balance_with_updated (time_at (w_clock w)) b)) (w_store w)) (tick w)).
Proof. reflexivity. Qed.

(** What one operation does to the balances: at most one row is written. *)
Definition writes_row (u : UUID) (a : string) (row : Balance) (w w' : World) : Prop :=
  balances (w_store w') = <[Mem.balanceKey u a := row]> (balances (w_store w)) ∧
  balanceEvents (w_store w') = balanceEvents (w_store w).

Lemma confirm_tx_run ev w :
  ∃ row w', InTx (confirm_tx em cfg ev) w = (Ok (), w') ∧
    writes_row (CE_WalletID ev) (CE_Asset ev) row w w' ∧
    (let add := val (CE_Amount ev) in
     let u := CE_WalletID ev in let a := CE_Asset ev in
     val (Balance_Confirmed row) =
       (if isConfirmed cfg ev then confirmed_of w u a + add else confirmed_of w u a)%Qc ∧
     val (Balance_Pending row) =
       (if isConfirmed cfg ev then pending_of w u a else pending_of w u a + add)%Qc).
Proof.
  set (w0 := set_depth (S (w_depth w)) w). set (u := CE_WalletID ev). set (a := CE_Asset ev).
  set (cur := default (empty_balance u a) (row_of w u a)).
  assert (Hcur : val (Balance_Confirmed cur) = confirmed_of w u a ∧
                 val (Balance_Pending cur) = pending_of w u a).
  { unfold cur, confirmed_of, pending_of. destruct (row_of w u a); [done|]. simpl.
    split; apply val_empty. }
  destruct Hcur as [Hc Hp]. unfold val in Hc, Hp.
  eassert (E : ∃ w', confirm_tx em cfg ev w0 = (Ok (), w') ∧ writes_row u a _ w w').
  { unfold confirm_tx. erewrite bind_Ok by apply current_balance_run. cbv zeta.
    erewrite bind_Ok by reflexivity. erewrite bind_Ok by apply UpsertBalance_run.
    match goal with |- ∃ w', emit em ?e ?w1 = _ ∧ _ =>
      destruct (emit_step em e w1) as (w2 & E2 & K2 & _) end.
    destruct (K2 GBalances) as [Kb Ke]; [done|]. exists w2. split; [exact E2|].
    split; [exact Kb|exact Ke]. }
  destruct E as (w1 & E1 & Hw). eexists _, _. split; [by apply InTx_ok|]. split; [exact Hw|].
  cbv zeta. simpl. fold u a. change (row_of w0 u a) with (row_of w u a). fold cur.
  rewrite !val_format. unfold val. destruct (isConfirmed cfg ev); rewrite ?dec_Add_val, ?Hc, ?Hp;
    done.
Qed.

(** Recording an event: once. *)
Lemma record_run id ev w :
  RecordBalanceEvent (event_record id ev) w =
    if recorded w ev then (Err (Sentinel ErrDuplicateEvent), w)
    else (Ok (), set_store (set_balanceEvents (insert (event_key ev) true) (w_store w)) w).
Proof.
  unfold RecordBalanceEvent, memstore, Mem.RecordBalanceEvent, recorded, event_key. mem_cbv.
  change (Mem.balanceEventKey (event_record id ev))
    with (Mem.balanceEventKey (event_record uuid_Nil ev)).
  by destruct (default false _).
Qed.

Lemma decrease_run ev w :
  ∃ w', match onDecrease with
        | Some f =>
            if isConfirmed cfg ev && dec_IsNegative (parseDec (CE_Amount ev))
            then ignore (f (CE_WalletID ev) (CE_Asset ev)) else mret ()
        | None => mret ()
        end w = (Ok (), w') ∧ same GBalances (w_store w) (w_store w').
Proof.
  destruct onDecrease as [f|] eqn:Ef; [destruct (_ && _)|]; [|exists w; done..].
  pose proof (decrease_frame f (CE_WalletID ev) (CE_Asset ev) eq_refl w) as H. unfold ignore.
  destruct (f _ _ w) as [r w']. by exists w'.
Qed.

(** A confirmation event is applied once.  The first time, its amount is added to the
    confirmed value of the wallet in the asset if the event is deep enough, and to the pending
    value otherwise, the other one staying; every other balance stays, and the event is
    recorded.  From then on the same (wallet, asset, block height, event id) is accepted and
    changes no balance. *)
Lemma ApplyConfirmationEvent_values ev w :
  ∃ w', ApplyConfirmationEvent em cfg onDecrease ev w = (Ok (), w') ∧
    recorded w' ev = true ∧
    (∀ ev', event_key ev' ≠ event_key ev → recorded w' ev' = recorded w ev') ∧
    (∀ u a, confirmed_of w' u a =
       (if decide (recorded w ev = false ∧ isConfirmed cfg ev = true ∧
                   u = CE_WalletID ev ∧ a = CE_Asset ev)
        then confirmed_of w u a + val (CE_Amount ev) else confirmed_of w u a)%Qc) ∧
    (∀ u a, pending_of w' u a =
       (if decide (recorded w ev = false ∧ isConfirmed cfg ev = false ∧
                   u = CE_WalletID ev ∧ a = CE_Asset ev)
        then pending_of w u a + val (CE_Amount ev) else pending_of w u a)%Qc).
Proof.
  unfold ApplyConfirmationEvent. erewrite bind_Ok by reflexivity.
  pose proof (record_run (uuid_at (w_ids w)) ev (next_id w)) as ER.
  change (recorded (next_id w) ev) with (recorded w ev) in ER.
  destruct (recorded w ev) eqn:Er; step_ok ER.
  { exists (next_id w). split; [done|]. split; [done|]. split; [done|].
    split; intros u a; rewrite decide_False by naive_solver; done. }
  destruct (confirm_tx_run ev (set_store (set_balanceEvents (insert (event_key ev) true)
    (w_store (next_id w))) (next_id w))) as (row & w1 & E1 & [Wb We] & Hc & Hp).
  step_ok E1. destruct (decrease_run ev w1) as (w2 & E2 & K2b & K2e).
  exists w2. split; [exact E2|].
  assert (Hrow : ∀ u a, row_of w2 u a =
    if decide (u = CE_WalletID ev ∧ a = CE_Asset ev) then Some row else row_of w u a).
  { intros u a. unfold row_of at 1. rewrite K2b. by apply (row_of_insert w). }
  unfold recorded in *. rewrite K2e, We. simpl. rewrite lookup_insert_eq. split; [done|].
  split; [intros ev' Hne; by rewrite lookup_insert_ne|].
  split; intros u a; unfold confirmed_of, pending_of; rewrite Hrow;
    (destruct (decide (u = CE_WalletID ev ∧ a = CE_Asset ev)) as [[-> ->]|Hne]; cbn [from_option];
     [rewrite ?Hc, ?Hp|by rewrite decide_False by naive_solver]);
    destruct (isConfirmed cfg ev); first [rewrite decide_True by done|rewrite decide_False by naive_solver];
    done.
Qed.

Lemma reorg_tx_run ev w :
  ∃ w', InTx (reorg_tx ev) w = (Ok (), w') ∧ balanceEvents (w_store w') = balanceEvents (w_store w) ∧
    (∀ u a, confirmed_of w' u a = if decide (u = RE_WalletID ev ∧ a = RE_Asset ev) then 0%Qc
                                  else confirmed_of w u a) ∧
    (∀ u a, pending_of w' u a = if decide (u = RE_WalletID ev ∧ a = RE_Asset ev)
       then (pending_of w u a + confirmed_of w u a)%Qc else pending_of w u a).
Proof.
  set (w0 := set_depth (S (w_depth w)) w). set (u := RE_WalletID ev). set (a := RE_Asset ev).
  destruct (row_of w u a) as [cur|] eqn:Ecur.
  - eassert (E : ∃ w', reorg_tx ev w0 = (Ok (), w') ∧ writes_row u a _ w w').
    { unfold reorg_tx. erewrite bind_Ok by apply current_balance_run. fold u a.
      change (row_of w0 u a) with (row_of w u a). rewrite Ecur. cbv zeta.
      erewrite bind_Ok by reflexivity. rewrite UpsertBalance_run. eexists. split; [reflexivity|].
      split; reflexivity. }
    destruct E as (w1 & E1 & Wb & We). eexists. split; [by apply InTx_ok|]. split; [exact We|].
    split; intros u' a'; unfold confirmed_of, pending_of;
      rewrite (row_of_insert w (set_depth (w_depth w) w1) u a _ u' a' Wb);
      (case_decide as Hd; [destruct Hd as [-> ->]|done]); cbn [from_option Balance_Confirmed
        Balance_Pending Balance_with_updated]; rewrite val_format; rewrite ?dec_Zero_val; [done|].
    by rewrite Ecur, dec_Add_val.
  - assert (E : reorg_tx ev w0 = (Ok (), w0)).
    { unfold reorg_tx. erewrite bind_Ok by apply current_balance_run. fold u a.
      change (row_of w0 u a) with (row_of w u a). by rewrite Ecur. }
    eexists. split; [by apply InTx_ok|]. split; [done|].
    split; intros u' a'; (case_decide as Hd; [destruct Hd as [-> ->]|done]);
      unfold confirmed_of, pending_of; change (row_of (set_depth (w_depth w) w0) u a) with
        (row_of w u a); rewrite Ecur; simpl; ring.
Qed.

(** Locking and releasing: the row keeps all but its locked part. *)
Lemma locked_tx_run u a f w :
  match row_of w u a with
  | Some cur => ∃ row w', InTx (locked_tx u a f) w = (Ok (), w') ∧ writes_row u a row w w' ∧
      Balance_Confirmed row = Balance_Confirmed cur ∧ Balance_Pending row = Balance_Pending cur ∧
      Balance_Locked row = formatDec (f (parseDec (Balance_Locked cur)))
  | None => InTx (locked_tx u a f) w =
      (Err (Wrapf "balance not found: %w" [] (Sentinel ErrNoRows)), w)
  end.
Proof.
  set (w0 := set_depth (S (w_depth w)) w).
  assert (Eg : GetBalance u a w0 = (match row_of w u a with
    | Some cur => Ok cur
    | None => Err (Wrapf "balance not found: %w" [] (Sentinel ErrNoRows)) end, w0)).
  { unfold GetBalance, memstore, Mem.GetBalance. mem_cbv.
    change (balances (w_store w0) !! Mem.balanceKey u a) with (row_of w u a).
    by destruct (row_of w u a). }
  destruct (row_of w u a) as [cur|] eqn:Ecur.
  - eassert (E : locked_tx u a f w0 = (Ok (), _)).
    { unfold locked_tx. step_ok Eg. cbv zeta. erewrite bind_Ok by reflexivity.
      apply UpsertBalance_run. }
    eexists _, _. split; [by apply InTx_ok|]. by split_and!.
  - apply InTx_noop. unfold locked_tx. by step_err Eg.
Qed.

Lemma locked_tx_values u a f w :
  balanceEvents (w_store (InTx (locked_tx u a f) w).2) = balanceEvents (w_store w) ∧
  ∀ u' a', confirmed_of (InTx (locked_tx u a f) w).2 u' a' = confirmed_of w u' a' ∧
           pending_of (InTx (locked_tx u a f) w).2 u' a' = pending_of w u' a'.
Proof.
  pose proof (locked_tx_run u a f w) as H. destruct (row_of w u a) as [cur|] eqn:Ecur.
  - destruct H as (row & w' & -> & [Wb We] & Hc & Hp & _). split; [exact We|]. intros u' a'.
    unfold confirmed_of, pending_of. cbn [snd]. rewrite (row_of_insert w _ u a row u' a' Wb).
    case_decide as Hd; [destruct Hd as [-> ->]|done]. rewrite Ecur. simpl. by rewrite Hc, Hp.
  - by rewrite H.
Qed.

(** AddLocked and ReleaseLocked.  With a balance row the locked value goes up by the
    amount, or down by it but never below zero; without one both report it missing and the
    store stays. *)
Lemma locked_spec u a amount w :
  match row_of w u a with
  | None =>
      let missing := (Err (Wrapf "balance not found: %w" [] (Sentinel ErrNoRows)), w) in
      AddLocked u a amount w = missing ∧ ReleaseLocked u a amount w = missing
  | Some cur => ∃ w1 w2 r1 r2, AddLocked u a amount w = (Ok (), w1) ∧
      ReleaseLocked u a amount w = (Ok (), w2) ∧ row_of w1 u a = Some r1 ∧
      row_of w2 u a = Some r2 ∧
      val (Balance_Locked r1) = (val (Balance_Locked cur) + val amount)%Qc ∧
      val (Balance_Locked r2) =
        (if decide (val (Balance_Locked cur) - val amount < 0)%Qc then 0
         else val (Balance_Locked cur) - val amount)%Qc
  end.
Proof.
  unfold AddLocked, ReleaseLocked.
  set (f := λ locked, dec_Add locked (parseDec amount)).
  set (g := λ locked, let locked := dec_Sub locked (parseDec amount) in
              if dec_IsNegative locked then dec_Zero else locked).
  pose proof (locked_tx_run u a f w) as H1. pose proof (locked_tx_run u a g w) as H2.
  destruct (row_of w u a) as [cur|]; [|by split].
  destruct H1 as (r1 & w1 & E1 & [W1 _] & _ & _ & L1), H2 as (r2 & w2 & E2 & [W2 _] & _ & _ & L2).
  exists w1, w2, r1, r2. split; [exact E1|]. split; [exact E2|].
  rewrite (row_of_insert w w1 u a r1 u a W1), (row_of_insert w w2 u a r2 u a W2).
  rewrite !decide_True by done. split; [done|]. split; [done|]. rewrite L1, L2, !val_format.
  unfold f, g, val. cbv zeta. rewrite dec_Add_val. split; [done|].
  pose proof (dec_IsNegative_val (dec_Sub (parseDec (Balance_Locked cur)) (parseDec amount))) as Hn.
  rewrite dec_Sub_val in Hn. case_decide as Hd.
  - by rewrite (proj2 Hn Hd), dec_Zero_val.
  - destruct (dec_IsNegative _); [by destruct Hd; apply Hn|]. apply dec_Sub_val.
Qed.

(** A reorg demotes everything confirmed, whatever else it then does. *)
Lemma reorg_values ev w :
  let w' := (ApplyReorgEvent em restore ev w).2 in
  balanceEvents (w_store w') = balanceEvents (w_store w) ∧
  (∀ u a, confirmed_of w' u a = if decide (u = RE_WalletID ev ∧ a = RE_Asset ev) then 0%Qc
                                else confirmed_of w u a) ∧
  (∀ u a, pending_of w' u a = if decide (u = RE_WalletID ev ∧ a = RE_Asset ev)
     then (pending_of w u a + confirmed_of w u a)%Qc else pending_of w u a).
Proof.
  cbv zeta. unfold ApplyReorgEvent. destruct (reorg_tx_run ev w) as (w1 & E1 & He & Hc & Hp).
  step_ok E1.
  match goal with |- context [(?m w1).2] =>
    assert (HR : respects (on_store (same GBalances)) m) end.
  { apply respects_bind; [exact _| |intros _].
    - destruct restore as [f|] eqn:Ef; [|go_respects]. destruct (RE_Outpoints ev); [go_respects|].
      apply respects_wrap. by apply restore_frame.
    - by apply (respects_emit em GBalances (same GBalances)). }
  destruct (HR w1) as [Kb Ke]. unfold confirmed_of, pending_of, row_of in *.
  rewrite Kb, Ke. done.
Qed.

(** ** The ledger

    What the service has accepted so far: the confirmation events it applied, each once.  A
    step is a call of the service, with any outcome, or anything else the program does that
    leaves the balances alone. *)

Inductive bstep : World * list ConfirmationEvent → World * list ConfirmationEvent → Prop :=
  | bs_confirm w ev l :
      bstep (w, l) ((ApplyConfirmationEvent em cfg onDecrease ev w).2,
                    if recorded w ev then l else ev :: l)
  | bs_reorg w ev l : bstep (w, l) ((ApplyReorgEvent em restore ev w).2, l)
  | bs_lock w u a amount l : bstep (w, l) ((AddLocked u a amount w).2, l)
  | bs_release w u a amount l : bstep (w, l) ((ReleaseLocked u a amount w).2, l)
  | bs_other w w' l : same GBalances (w_store w) (w_store w') → bstep (w, l) (w', l).

(** The sum of the amounts applied to one (wallet, asset). *)
Definition ledger_sum (u : UUID) (a : string) (l : list ConfirmationEvent) : Qc :=
  foldr (λ ev s, if decide (CE_WalletID ev = u ∧ CE_Asset ev = a) then val (CE_Amount ev) + s
                 else s)%Qc 0%Qc l.

Record ledger_inv (s : World * list ConfirmationEvent) : Prop := {
  li_total u a : (confirmed_of s.1 u a + pending_of s.1 u a)%Qc = ledger_sum u a s.2;
  li_nodup : NoDup (map event_key s.2);
  li_recorded ev : recorded s.1 ev = true ↔ event_key ev ∈ map event_key s.2;
}.

Lemma ledger_frame w w' l :
  balanceEvents (w_store w') = balanceEvents (w_store w) →
  (∀ u a, confirmed_of w' u a + pending_of w' u a = confirmed_of w u a + pending_of w u a)%Qc →
  ledger_inv (w, l) → ledger_inv (w', l).
Proof.
  intros He Ht [H1 H2 H3]. split; simpl in *; [|done|].
  - intros u a. by rewrite Ht.
  - intros ev. unfold recorded. rewrite He. apply H3.
Qed.

Lemma ledger_confirm w ev l :
  ledger_inv (w, l) →
  ledger_inv ((ApplyConfirmationEvent em cfg onDecrease ev w).2,
              if recorded w ev then l else ev :: l).
Proof.
  intros [H1 H2 H3]. simpl in *.
  destruct (ApplyConfirmationEvent_values ev w) as (w' & E & Hr & Hr' & Hc & Hp).
  rewrite E. destruct (recorded w ev) eqn:Er; split; simpl.
  - intros u a. rewrite Hc, Hp, !decide_False by naive_solver. apply H1.
  - done.
  - intros ev'. destruct (decide (event_key ev' = event_key ev)) as [Ek|Hne].
    + rewrite (recorded_key w' ev ev' Ek), Hr, Ek. rewrite <-H3. by rewrite Er.
    + rewrite Hr' by done. apply H3.
  - intros u a. rewrite Hc, Hp. destruct (decide (CE_WalletID ev = u ∧ CE_Asset ev = a)) as [[<- <-]|Hn].
    + rewrite <-H1. destruct (isConfirmed cfg ev);
        [rewrite decide_True, decide_False by naive_solver|rewrite decide_False, decide_True by naive_solver];
        ring.
    + rewrite !decide_False by naive_solver. apply H1.
  - apply list.NoDup_cons. split; [|done]. rewrite <-H3. by rewrite Er.
  - intros ev'. rewrite elem_of_cons. destruct (decide (event_key ev' = event_key ev)) as [Ek|Hne].
    + rewrite (recorded_key w' ev ev' Ek), Hr. naive_solver.
    + rewrite Hr' by done. rewrite H3. naive_solver.
Qed.

Lemma ledger_step s s' : bstep s s' → ledger_inv s → ledger_inv s'.
Proof.
  destruct 1 as [w ev l|w ev l|w u a am l|w u a am l|w w' l [Hb He]].
  - apply ledger_confirm.
  - destruct (reorg_values ev w) as (He & Hc & Hp). apply ledger_frame; [done|].
    intros u a. rewrite Hc, Hp. case_decide; ring.
  - destruct (locked_tx_values u a (λ x, dec_Add x (parseDec am)) w) as [He Hv].
    apply ledger_frame; [exact He|]. intros u' a'. destruct (Hv u' a') as [Hc Hp].
    unfold AddLocked. by rewrite Hc, Hp.
  - unfold ReleaseLocked. match goal with |- context [locked_tx u a ?f] =>
      destruct (locked_tx_values u a f w) as [He Hv] end.
    apply ledger_frame; [exact He|]. intros u' a'. destruct (Hv u' a') as [Hc Hp].
    by rewrite Hc, Hp.
  - apply ledger_frame; [done|]. intros u a. unfold confirmed_of, pending_of, row_of. by rewrite Hb.
Qed.

(** A deposit does not move from pending to confirmed.  Seen first too shallow and then
    deep enough: under the same block and event id the second report is dropped and the value
    stays pending for good; under a new one it is added to the confirmed value and stays in the
    pending one too. *)
Lemma deposit_counted_in_both ev ev' w w1 w2 :
  CE_WalletID ev' = CE_WalletID ev → CE_Asset ev' = CE_Asset ev → CE_Amount ev' = CE_Amount ev →
  isConfirmed cfg ev = false → isConfirmed cfg ev' = true → recorded w ev = false →
  recorded w ev' = false →
  ApplyConfirmationEvent em cfg onDecrease ev w = (Ok (), w1) →
  ApplyConfirmationEvent em cfg onDecrease ev' w1 = (Ok (), w2) →
  let u := CE_WalletID ev in
  let a := CE_Asset ev in
  pending_of w2 u a = (pending_of w u a + val (CE_Amount ev))%Qc ∧
  confirmed_of w2 u a =
    (if decide (event_key ev' = event_key ev) then confirmed_of w u a
     else confirmed_of w u a + val (CE_Amount ev))%Qc.
Proof.
  intros Eu Ea Ev Hs Hd Hr Hr' E1 E2.
  destruct (ApplyConfirmationEvent_values ev w) as (x & F1 & R1 & O1 & C1 & P1).
  rewrite E1 in F1. injection F1 as <-.
  destruct (ApplyConfirmationEvent_values ev' w1) as (x & F2 & _ & _ & C2 & P2).
  rewrite E2 in F2. injection F2 as <-. cbv zeta.
  assert (R : recorded w1 ev' = if decide (event_key ev' = event_key ev) then true else false).
  { destruct (decide _) as [Hk|Hk]; [|by rewrite (O1 ev' Hk)].
    by rewrite (recorded_key w1 ev ev' Hk). }
  rewrite C2, P2, C1, P1, R, Eu, Ea, Ev, Hs, Hd, Hr.
  rewrite (decide_True (P:=false = false ∧ _)) by done.
  destruct (decide (event_key ev' = event_key ev)).
  - rewrite !decide_False by naive_solver. done.
  - rewrite (decide_False (P:=_ ∧ true = false ∧ _)) by naive_solver.
    rewrite (decide_True (P:=false = false ∧ true = true ∧ _)) by done.
    by rewrite (decide_False (P:=_ ∧ false = true ∧ _)) by naive_solver.
Qed.
(** C30: the ledger is one of reports, not of deposits.  However confirmations, reorgs, locks and
    releases are interleaved, the confirmed and the pending value of a wallet in an asset sum
    up to the amounts of the reports applied to it, and no report, that is no (wallet, asset,
    height, event id), is among them twice.  A deposit is not moved from pending to confirmed, as
    the code's comment says, when it is reported first too shallow and then deep enough: a deep
    report under a new key adds it to the confirmed value while it stays in the pending one, and
    one under the old key is dropped and leaves it pending. *)
Theorem balance_ledger w0 w l :
  balances (w_store w0) = ∅ → balanceEvents (w_store w0) = ∅ →
  rtc bstep (w0, []) (w, l) →
  NoDup (map event_key l) ∧
  (∀ u a, (confirmed_of w u a + pending_of w u a)%Qc = ledger_sum u a l) ∧
  ∀ shallow deep w1 w2,
    CE_WalletID deep = CE_WalletID shallow → CE_Asset deep = CE_Asset shallow →
    CE_Amount deep = CE_Amount shallow →
    isConfirmed cfg shallow = false → isConfirmed cfg deep = true →
    event_key shallow ∉ map event_key l → event_key deep ∉ map event_key l →
    ApplyConfirmationEvent em cfg onDecrease shallow w = (Ok (), w1) →
    ApplyConfirmationEvent em cfg onDecrease deep w1 = (Ok (), w2) →
    let u := CE_WalletID shallow in
    let a := CE_Asset shallow in
    let amount := val (CE_Amount shallow) in
    pending_of w2 u a = (pending_of w u a + amount)%Qc ∧
    confirmed_of w2 u a = (if decide (event_key deep = event_key shallow) then confirmed_of w u a
                           else confirmed_of w u a + amount)%Qc.
Proof.
  intros Hb He Hrun.
  assert (H0 : ledger_inv (w0, [])).
  { split; simpl.
    - intros u a. unfold confirmed_of, pending_of, row_of. rewrite Hb, lookup_empty. simpl. ring.
    - constructor.
    - intros ev. unfold recorded. rewrite He, lookup_empty, elem_of_nil. by split. }
  assert (HI : ledger_inv (w, l)).
  { remember (w0, []) as s0 eqn:Es. remember (w, l) as s1 eqn:Es1. clear Es Es1 Hb He w0 w l.
    induction Hrun as [|x y z Hxy _ IH]; [done|]. by apply IH, (ledger_step x). }
  destruct HI as [H1 H2 H3]. simpl in *. split; [done|]. split; [done|].
  assert (Hnew : ∀ ev, event_key ev ∉ map event_key l → recorded w ev = false).
  { intros ev Hn. apply not_true_iff_false. by rewrite H3. }
  intros shallow deep w1 w2 Eu Ea Ev Hs Hd Ns Nd E1 E2.
  by apply (deposit_counted_in_both shallow deep w w1 w2); auto.
Qed.
End ops.

(** ** Witnesses *)

Section witnesses.
Definition bal_rt : GoRuntime := simple_runtime 1.
#[local] Existing Instances bal_rt simple_uuid simple_decimal.

Definition bal_cfg : Config := service_config 7 12 6 "finalized" (SpecFloat.S754_zero false) 0 5000000.
Definition deposit (confirmations height : Z) (id : string) : ConfirmationEvent :=
  mkConfirmationEvent 7 "ETH" "1000" confirmations height id false ChainEthereum.
Definition apply (ev : ConfirmationEvent) (w : World) : World :=
  (ApplyConfirmationEvent EmitterService bal_cfg None ev w).2.
Definition shallow_world : World := apply (deposit 1 100 "a") NewWorld.

Definition deep_world : World := apply (deposit 12 101 "b") shallow_world.

Lemma balance_ledger_witness :
  NoDup (map event_key [deposit 1 100 "a"]) ∧
  (confirmed_of shallow_world 7%N "ETH" + pending_of shallow_world 7%N "ETH")%Qc =
    ledger_sum 7%N "ETH" [deposit 1 100 "a"] ∧
  pending_of deep_world 7%N "ETH" = (pending_of NewWorld 7%N "ETH" + val "1000")%Qc ∧
  confirmed_of deep_world 7%N "ETH" = (confirmed_of NewWorld 7%N "ETH" + val "1000")%Qc.
Proof.
  destruct (balance_ledger EmitterService bal_cfg None None
    ltac:(intros; discriminate) ltac:(intros; discriminate)
    NewWorld shallow_world [deposit 1 100 "a"]) as (H1 & H2 & _); [reflexivity|reflexivity| |].
  { apply rtc_once.
    exact (bs_confirm EmitterService bal_cfg None None NewWorld (deposit 1 100 "a") []). }
  destruct (balance_ledger EmitterService bal_cfg None None
    ltac:(intros; discriminate) ltac:(intros; discriminate)
    NewWorld NewWorld []) as (_ & _ & H3); [reflexivity|reflexivity|constructor|].
  split; [exact H1|]. split; [exact (H2 7%N "ETH"%string)|].
  destruct (H3 (deposit 1 100 "a") (deposit 12 101 "b") shallow_world deep_world) as [HP HC];
    [reflexivity..|apply not_elem_of_nil|apply not_elem_of_nil| | |].
  - vm_compute. reflexivity.
  - vm_compute. reflexivity.
  - split; [exact HP|]. etrans; [exact HC|]. vm_compute. reflexivity.
Defined.

Lemma deposit_counted_in_both_witness :
  let w2 := apply (deposit 12 101 "b") shallow_world in
  pending_of w2 7%N "ETH" = (pending_of NewWorld 7%N "ETH" + val "1000")%Qc ∧
  confirmed_of w2 7%N "ETH" =
    (if decide (event_key (deposit 12 101 "b") = event_key (deposit 1 100 "a"))
     then confirmed_of NewWorld 7%N "ETH" else confirmed_of NewWorld 7%N "ETH" + val "1000")%Qc.
Proof.
  apply (deposit_counted_in_both EmitterService bal_cfg None ltac:(intros; discriminate)
    (deposit 1 100 "a") (deposit 12 101 "b") NewWorld shallow_world); vm_compute; reflexivity.
Defined.
End witnesses.
