(* ===== verification/Funding.v ===== *)
(** * Funding: treasury funding requests (internal/funding/funding.go)

    A hot wallet that drops below the configured minimum asks Treasury Orchestration for funds.
    The treasury client is an argument; it may fail, and a nil client is [None].  The threshold
    is a binary64 number, as in the code. *)

From S2P Require Import Prelude GoLib Extern Domain Storage Memstore.
From S2P Require Import MemstoreFacts Config Outbox Balance.
From Stdlib Require Import SpecFloat.

Local Open Scope Z_scope.

Record TreasuryRequest := mkTreasuryRequest {
  TR_FundingRequestID : UUID;
  TR_WalletID : UUID;
  TR_Asset : string;
  TR_Amount : string;
  TR_IdempotencyKey : string;
  TR_Reason : string;
}.

(** The integer part of a finite number, towards zero. *)
Definition trunc (f : spec_float) : option Z :=
  match f with
  | S754_zero _ => Some 0
  | S754_finite s m e =>
      let a := if 0 <=? e then Z.pos m * 2 ^ e else Z.pos m / 2 ^ (- e) in
      Some (if s then - a else a)
  | _ => None
  end.

(** [int64(f)]; what a number outside the range gives is up to the implementation. *)
Class FloatRuntime := { int64_outside : spec_float → Z }.
Definition float_int64 `{FloatRuntime} (f : spec_float) : Z :=
  match trunc f with
  | Some z => if bool_decide (in_int64 z) then z else int64_outside f
  | None => int64_outside f
  end.

Section funding.
Context {W : Type} {DL : DecimalLib} {UL : UuidLib} {FL : FloatRuntime}.
Context {ST : Store W} {EF : Effects W}.
Variable (em : Emitter W) (cfg : Config).
Variable (treasury : option (TreasuryRequest → GoM W unit)).

Definition funding_request (id : UUID) (w : Wallet) (asset amount reason : string) (now : Z) :
    FundingRequest :=
  mkFunding id (Wallet_ID w) asset amount FundingStateRequested EmptyString reason now now.

Definition idempotency_key (w : Wallet) (asset : string) (id : UUID) : string :=
  ("fr:" +:+ uuid_String (Wallet_ID w) +:+ ":" +:+ asset +:+ ":" +:+ uuid_String id)%string.

Definition createRequest (w : Wallet) (asset amount reason : string) : GoM W unit :=
  id ← uuid_New;
  now ← time_Now;
  CreateFundingRequest (funding_request id w asset amount reason now);;
  match treasury with
  | Some RequestFunding =>
      wrap "treasury request: %w" []
        (RequestFunding (mkTreasuryRequest id (Wallet_ID w) asset amount
           (idempotency_key w asset id) reason))
  | None => mret ()
  end;;
  emit em (mkEvent "wallet.funding.requested" (Some (Wallet_ID w))
    [("asset", AStr asset); ("amount", AStr amount); ("reason", AStr reason);
     ("id", AUuid id)])%string.

(** Whether an open request exists; any error but a missing row is returned. *)
Definition open_request (walletID : UUID) (asset : string) : GoM W bool :=
  r ← try (GetOpenFundingRequest walletID asset);
  match r with
  | Ok _ => mret true
  | Err err => if errors_Is err ErrNoRows then mret false else fail err
  end.

Definition shortfall (confirmed : Dec) : string :=
  FormatInt (float_int64 (SFsub 53 1024 (HotWalletMinBalanceUSD cfg) (dec_InexactFloat64 confirmed))).

Definition EvaluateAndRequest (walletID : UUID) (asset : string) : GoM W unit :=
  w ← GetWallet walletID;
  bal ← current_balance walletID asset;
  let confirmed := match bal with Some b => parseDec (Balance_Confirmed b) | None => dec_Zero end in
  if negb (bool_decide (Wallet_Type w = WalletTypeHot)) then mret ()
  else if SFleb (HotWalletMinBalanceUSD cfg) (dec_InexactFloat64 confirmed) then mret ()
  else
    existing ← open_request walletID asset;
    if existing : bool then mret ()
    else createRequest w asset (shortfall confirmed) "auto:below_threshold".

Definition ManualRequest (walletID : UUID) (asset amount reason : string) : GoM W unit :=
  w ← GetWallet walletID;
  if bool_decide (Wallet_State w = WalletStateRetired) then fail (Sentinel ErrWalletRetired)
  else
    existing ← open_request walletID asset;
    if existing : bool then fail (Sentinel ErrDuplicateFunding)
    else createRequest w asset amount reason.

Definition MarkApproved (id : UUID) (treasuryBatchID : string) : GoM W unit :=
  UpdateFundingState id FundingStateApproved treasuryBatchID.
Definition MarkSettled (id : UUID) : GoM W unit :=
  UpdateFundingState id FundingStateSettled EmptyString.
Definition MarkRejected (id : UUID) (reason : string) : GoM W unit :=
  UpdateFundingState id FundingStateRejected EmptyString.
End funding.

(** ** On the memstore *)

Section mem.
Context {GR : GoRuntime} {UL : UuidLib} {DL : DecimalLib} {FL : FloatRuntime}.
Variable (em : Emitter World) (cfg : Config).
Context {EM : AuditEmitter em}.

Definition is_open (u : UUID) (a : string) (s : MemStore) : Prop :=
  ∃ id f, fundingReq s !! id = Some f ∧ Mem.is_open_for u a f = true.

Lemma is_open_for_spec u a f :
  Mem.is_open_for u a f = true ↔
    FR_WalletID f = u ∧ FR_Asset f = a ∧ FR_State f = FundingStateRequested.
Proof. unfold Mem.is_open_for. rewrite !andb_true_iff, !bool_decide_eq_true. tauto. Qed.

#[export] Instance is_open_dec u a s : Decision (is_open u a s).
Proof.
  destruct (existsb (Mem.is_open_for u a) (range_vals (fundingReq s))) eqn:E; [left|right].
  - apply existsb_range_vals in E as (id & f & H & Hf). by exists id, f.
  - intros (id & f & H & Hf). rewrite (existsb_range_vals_false _ _ _ _ E H) in Hf. discriminate.
Defined.

Lemma open_request_run u a w :
  open_request u a w = (Ok (bool_decide (is_open u a (w_store w))), w).
Proof.
  unfold open_request, GetOpenFundingRequest, memstore, Mem.GetOpenFundingRequest. mem_cbv.
  destruct (List.find _ _) as [f|] eqn:E.
  - apply find_range_vals_Some in E as [[id H] Hf]. mem_cbv.
    rewrite bool_decide_true; [done|by exists id, f].
  - assert (Hn : ¬ is_open u a (w_store w)).
    { intros (id & f & H & Hf). rewrite (find_range_vals_None _ _ _ _ E H) in Hf. discriminate. }
    by rewrite (bool_decide_false _ Hn).
Qed.

(** At most one request per wallet and asset is open. *)
Definition open_unique (s : MemStore) : Prop :=
  ∀ u a, unique_by (Mem.is_open_for u a) (fundingReq s).

#[export] Instance open_unique_reads : Reads GFunding (preserving open_unique).
Proof. apply preserving_reads. intros s s' E H. unfold open_unique. simpl in E. by rewrite E. Qed.

Lemma open_unique_insert id f s :
  open_unique s →
  (∀ u a, Mem.is_open_for u a f = true →
     ∀ id' f', fundingReq s !! id' = Some f' → Mem.is_open_for u a f' = true → id' = id) →
  open_unique (set_fundingReq (insert id f) s).
Proof. intros Hu Hf u a. apply unique_by_insert; eauto. Qed.

Lemma open_unique_Create f :
  respects (on_store (preserving open_unique)) (CreateFundingRequest f).
Proof.
  intros w Hu. unfold CreateFundingRequest, memstore, Mem.CreateFundingRequest,
    Mem.created_or_now. mem_cbv.
  destruct (existsb _ _) eqn:E; [exact Hu|].
  case_bool_decide; mem_cbv; (apply open_unique_insert; [exact Hu|]); intros u a Ho id' f' Hf' Ho';
    apply is_open_for_spec in Ho as (<- & <- & _); simpl in *;
    rewrite (existsb_range_vals_false _ _ _ _ E Hf') in Ho'; discriminate.
Qed.

Lemma open_unique_close id st batch :
  st ≠ FundingStateRequested →
  respects (on_store (preserving open_unique)) (UpdateFundingState id st batch).
Proof.
  intros Hst w Hu. unfold UpdateFundingState, memstore, Mem.UpdateFundingState. mem_cbv.
  destruct (fundingReq (w_store w) !! id) as [f|]; [|exact Hu]. mem_cbv.
  apply open_unique_insert; [exact Hu|]. intros u a Ho. by apply is_open_for_spec in Ho as (_ & _ & ?).
Qed.
End mem.

Section service.
Context {GR : GoRuntime} {UL : UuidLib} {DL : DecimalLib} {FL : FloatRuntime}.
Variable (em : Emitter World) (cfg : Config).
Variable (treasury : option (TreasuryRequest → GoM World unit)).
Context {EM : AuditEmitter em}.

(** ** One open request *)

Section unique.
(** The treasury call may let other handlers of the service run. *)
Hypothesis treasury_keeps :
  ∀ f q, treasury = Some f → respects (on_store (preserving open_unique)) (f q).

#[local] Hint Resolve open_unique_Create treasury_keeps : gorel.

Lemma open_unique_createRequest w a am r :
  respects (on_store (preserving open_unique)) (createRequest em treasury w a am r).
Proof.
  unfold createRequest. go_respects.
  apply (respects_emit em GFunding (preserving open_unique)). discriminate.
Qed.
#[local] Hint Resolve open_unique_createRequest : gorel.

Lemma open_unique_open_request u a :
  respects (on_store (preserving open_unique)) (open_request u a).
Proof. intros w. rewrite open_request_run. by intros ?. Qed.
Lemma open_unique_current u a :
  respects (on_store (preserving open_unique)) (current_balance u a).
Proof. intros w. rewrite current_balance_run. by intros ?. Qed.
#[local] Hint Resolve open_unique_open_request open_unique_current : gorel.

(** A call of the service, with any outcome, or a step elsewhere. *)
Inductive fstep : World → World → Prop :=
  | fs_evaluate u a w : fstep w (EvaluateAndRequest em cfg treasury u a w).2
  | fs_manual u a am r w : fstep w (ManualRequest em treasury u a am r w).2
  | fs_approved id b w : fstep w (MarkApproved id b w).2
  | fs_settled id w : fstep w (MarkSettled id w).2
  | fs_rejected id r w : fstep w (MarkRejected id r w).2
  | fs_other w w' : same GFunding (w_store w) (w_store w') → fstep w w'.

Lemma fstep_unique w w' : fstep w w' → open_unique (w_store w) → open_unique (w_store w').
Proof.
  assert (HE : ∀ u a, respects (on_store (preserving open_unique))
                        (EvaluateAndRequest em cfg treasury u a))
    by (intros; unfold EvaluateAndRequest; go_respects).
  assert (HM : ∀ u a am r, respects (on_store (preserving open_unique))
                             (ManualRequest em treasury u a am r))
    by (intros; unfold ManualRequest; go_respects).
  destruct 1 as [u a w|u a am r w|id b w|id w|id r w|w w' E].
  - exact (HE u a w).
  - exact (HM u a am r w).
  - by apply (open_unique_close id FundingStateApproved b).
  - by apply (open_unique_close id FundingStateSettled EmptyString).
  - by apply (open_unique_close id FundingStateRejected EmptyString).
  - exact (reads_same (k:=GFunding) _ _ E).
Qed.

(** At most one funding request per wallet and asset is open, however automatic and
    manual requests and the treasury's answers are interleaved. *)
Theorem one_open_request w0 w id1 id2 f1 f2 :
  fundingReq (w_store w0) = ∅ → rtc fstep w0 w →
  fundingReq (w_store w) !! id1 = Some f1 → fundingReq (w_store w) !! id2 = Some f2 →
  FR_State f1 = FundingStateRequested → FR_State f2 = FundingStateRequested →
  FR_WalletID f1 = FR_WalletID f2 → FR_Asset f1 = FR_Asset f2 → id1 = id2.
Proof.
  intros H0 Hrun H1 H2 S1 S2 Eu Ea.
  assert (Hu : open_unique (w_store w)).
  { assert (open_unique (w_store w0)) by (intros ??; rewrite H0; apply unique_by_empty).
    clear H0 H1 H2. induction Hrun; eauto using fstep_unique. }
  apply (Hu (FR_WalletID f1) (FR_Asset f1) id1 id2 f1 f2); [done|done|..];
    by apply is_open_for_spec.
Qed.
End unique.

(** ** The decision *)

(** The confirmed balance the service compares. *)
Definition funds (u : UUID) (a : string) (w : World) : Dec :=
  match row_of w u a with Some b => parseDec (Balance_Confirmed b) | None => dec_Zero end.

(** A hot wallet below the minimum with no open request. *)
Definition needs_funds (wal : Wallet) (u : UUID) (a : string) (w : World) : Prop :=
  Wallet_Type wal = WalletTypeHot ∧
  SFleb (HotWalletMinBalanceUSD cfg) (dec_InexactFloat64 (funds u a w)) = false ∧
  ¬ is_open u a (w_store w).
#[export] Instance needs_funds_dec wal u a w : Decision (needs_funds wal u a w).
Proof. unfold needs_funds. apply _. Defined.

Lemma EvaluateAndRequest_run u a w wal :
  wallets (w_store w) !! u = Some wal →
  EvaluateAndRequest em cfg treasury u a w =
    if decide (needs_funds wal u a w)
    then createRequest em treasury wal a (shortfall cfg (funds u a w)) "auto:below_threshold" w
    else (Ok (), w).
Proof.
  intros Hw. unfold EvaluateAndRequest. erewrite bind_Ok by (by rewrite GetWallet_run, Hw).
  erewrite bind_Ok by apply current_balance_run. fold (funds u a w).
  destruct (decide (Wallet_Type wal = WalletTypeHot)) as [Hh|Hh].
  2: { rewrite bool_decide_false by done. rewrite decide_False by (intros (? & _); done). done. }
  rewrite bool_decide_true by done. cbn [negb].
  destruct (SFleb _ _) eqn:Ef.
  { rewrite decide_False by (intros (_ & H & _); congruence). done. }
  erewrite bind_Ok by apply open_request_run.
  destruct (decide (is_open u a (w_store w))) as [Ho|Ho].
  - rewrite bool_decide_true by done. rewrite decide_False by (intros (_ & _ & ?); done). done.
  - rewrite bool_decide_false by done. rewrite decide_True by done. done.
Qed.

Lemma createRequest_run f wal a am r w :
  treasury = Some f → ¬ is_open (Wallet_ID wal) a (w_store w) →
  let id := uuid_at (w_ids w) in
  ∃ row w1, fundingReq (w_store w1) = <[id := row]> (fundingReq (w_store w)) ∧
    wallets (w_store w1) = wallets (w_store w) ∧
    FR_WalletID row = Wallet_ID wal ∧ FR_Asset row = a ∧ FR_State row = FundingStateRequested ∧
    FR_Amount row = am ∧
    match f (mkTreasuryRequest id (Wallet_ID wal) a am (idempotency_key wal a id) r) w1 with
    | (Err e, w2) =>
        createRequest em treasury wal a am r w = (Err (Wrapf "treasury request: %w" [] e), w2)
    | (Ok _, w2) => ∃ w3, createRequest em treasury wal a am r w = (Ok (), w3) ∧
        only GAudit (w_store w2) (w_store w3)
    end.
Proof.
  intros Hf Hno id.
  set (fr now := funding_request id wal a am r now).
  assert (E : ∃ c w1, CreateFundingRequest (fr (time_at (w_clock (next_id w)))) (tick (next_id w))
      = (Ok (), w1) ∧
    w_store w1 = set_fundingReq (insert id (FR_with_times c c (fr (time_at (w_clock (next_id w))))))
      (w_store w)).
  { unfold CreateFundingRequest, memstore, Mem.CreateFundingRequest, Mem.created_or_now. mem_cbv.
    destruct (existsb _ _) eqn:Ex.
    { destruct Hno. apply existsb_range_vals in Ex as (i & g & H & Hg). by exists i, g. }
    case_bool_decide; mem_cbv; by do 2 eexists. }
  destruct E as (c & w1 & E & S1). eexists _, w1. rewrite S1. split; [reflexivity|].
  split_and!; try done.
  set (req := mkTreasuryRequest id (Wallet_ID wal) a am (idempotency_key wal a id) r).
  set (ev := mkEvent "wallet.funding.requested" (Some (Wallet_ID wal))
    [("asset", AStr a); ("amount", AStr am); ("reason", AStr r); ("id", AUuid id)]%string).
  assert (Er : createRequest em treasury wal a am r w =
    (wrap "treasury request: %w" [] (f req);; emit em ev) w1).
  { unfold createRequest. rewrite Hf. do 2 erewrite bind_Ok by reflexivity.
    erewrite bind_Ok by exact E. reflexivity. }
  rewrite Er. destruct (f req w1) as [[x|e] w2] eqn:Et.
  - destruct (emit_step em ev w2) as (w3 & E3 & K3 & _). exists w3. split; [|exact K3].
    step_ok Et. exact E3.
  - by step_err Et.
Qed.

(** The automatic request.  Exactly when the wallet is hot, its confirmed balance is below
    the minimum and it has no open request, a request for the shortfall is stored and sent to
    the treasury once, under a key that names the wallet, the asset and the request; if the
    treasury refuses, its error is returned and the stored request stays open.  Otherwise
    nothing happens. *)
Theorem EvaluateAndRequest_spec u a w wal f :
  treasury = Some f → wallets (w_store w) !! u = Some wal → Wallet_ID wal = u →
  if decide (needs_funds wal u a w) then
    let id := uuid_at (w_ids w) in
    let amount := shortfall cfg (funds u a w) in
    ∃ row w1, fundingReq (w_store w1) = <[id := row]> (fundingReq (w_store w)) ∧
      FR_WalletID row = u ∧ FR_Asset row = a ∧ FR_State row = FundingStateRequested ∧
      FR_Amount row = amount ∧
      match f (mkTreasuryRequest id u a amount (idempotency_key wal a id)
                 "auto:below_threshold") w1 with
      | (Err e, w2) => EvaluateAndRequest em cfg treasury u a w =
          (Err (Wrapf "treasury request: %w" [] e), w2)
      | (Ok _, w2) => ∃ w3, EvaluateAndRequest em cfg treasury u a w = (Ok (), w3) ∧
          only GAudit (w_store w2) (w_store w3)
      end
  else EvaluateAndRequest em cfg treasury u a w = (Ok (), w).
Proof.
  intros Hf Hw Hid. rewrite (EvaluateAndRequest_run u a w wal Hw).
  destruct (decide (needs_funds wal u a w)) as [Hn|]; [|done]. subst u.
  destruct (createRequest_run f wal a (shortfall cfg (funds (Wallet_ID wal) a w))
    "auto:below_threshold" w Hf) as (row & w1 & H1 & _ & H2 & H3 & H4 & H5 & H6); [apply Hn|].
  exists row, w1. split_and!; done.
Qed.

(** A request the treasury did not get is not sent again.  After a failed treasury call
    every later evaluation of the same wallet and asset finds the request open and returns
    without calling the treasury, however low the balance. *)
Theorem treasury_failure_not_retried u a w wal f e w2 :
  treasury = Some f → wallets (w_store w) !! u = Some wal → Wallet_ID wal = u →
  (∀ q, respects (on_store (same GFunding)) (f q)) →
  (∀ q, respects (on_store (same GWallets)) (f q)) →
  EvaluateAndRequest em cfg treasury u a w = (Err (Wrapf "treasury request: %w" [] e), w2) →
  is_open u a (w_store w2) ∧ EvaluateAndRequest em cfg treasury u a w2 = (Ok (), w2).
Proof.
  intros Hf Hw Hid Kf Kw E. rewrite (EvaluateAndRequest_run u a w wal Hw) in E.
  destruct (decide (needs_funds wal u a w)) as [Hn|]; [|discriminate]. subst u.
  set (am := shortfall cfg (funds (Wallet_ID wal) a w)) in *.
  destruct (createRequest_run f wal a am "auto:below_threshold" w Hf)
    as (row & w1 & H1 & Hw1 & H2 & H3 & H4 & _ & H6); [apply Hn|].
  match type of H6 with context [f ?q w1] =>
    pose proof (Kf q w1) as Kf1; pose proof (Kw q w1) as Kw1; destruct (f q w1) as [[x|e'] w2'] end.
  { destruct H6 as (w3 & E3 & _). rewrite E3 in E. discriminate. }
  rewrite H6 in E. injection E as -> ->. cbn [snd] in Kf1, Kw1.
  unfold on_store, same in Kf1, Kw1.
  assert (Ho : is_open (Wallet_ID wal) a (w_store w2)).
  { exists (uuid_at (w_ids w)), row. rewrite Kf1, H1. split; [apply lookup_insert_eq|].
    by apply is_open_for_spec. }
  split; [exact Ho|]. rewrite (EvaluateAndRequest_run _ a w2 wal) by by rewrite Kw1, Hw1.
  rewrite decide_False; [done|]. by intros (_ & _ & ?).
Qed.
End service.

(** ** Witnesses *)

Section witnesses.
Definition fund_rt : GoRuntime := simple_runtime 1.
Definition fund_float : FloatRuntime := {| int64_outside := λ _, min_int64 |}.
#[local] Existing Instances fund_rt fund_float simple_uuid simple_decimal.

(** A minimum of 500, a hot wallet without a balance, a treasury that takes the request and
    one that is down. *)
Definition fund_cfg : Config :=
  service_config 7 12 6 "finalized" (binary_normalize 53 1024 500 0 false) 0 5000000.
Definition hot_wallet : Wallet :=
  mkWallet 7 ChainEthereum WalletTypeHot "hot" WalletStateActive "k" "mpc" None None 1 1.
Definition hot_world : World := (CreateWallet hot_wallet NewWorld).2.
Definition treasury_up : TreasuryRequest → GoM World unit := λ _, mret ().
Definition treasury_down : TreasuryRequest → GoM World unit := λ _, fail (New "503").

Example shortfall_of_nothing : shortfall fund_cfg dec_Zero = "500"%string.
Proof. vm_compute. reflexivity. Qed.

Definition requested_world : World :=
  (EvaluateAndRequest EmitterService fund_cfg (Some treasury_up) 7%N "ETH" hot_world).2.
Definition failed_world : World :=
  (EvaluateAndRequest EmitterService fund_cfg (Some treasury_down) 7%N "ETH" hot_world).2.

Lemma one_open_request_witness :
  ∃ id f, fundingReq (w_store requested_world) !! id = Some f ∧ FR_Amount f = "500"%string ∧
    id = id.
Proof.
  destruct (fundingReq (w_store requested_world) !! 1%N) as [f|] eqn:E;
    [|vm_compute in E; discriminate E].
  exists 1%N, f. split; [exact E|]. split; [vm_compute in E; by injection E as <-|].
  apply (one_open_request EmitterService fund_cfg (Some treasury_up)
    ltac:(intros g q [= <-]; apply respects_ret, _) hot_world requested_world 1%N 1%N f f);
    [vm_compute; reflexivity| |exact E|exact E|..]; try reflexivity;
    [|vm_compute in E; injection E as <-; reflexivity..].
  apply rtc_once. exact (fs_evaluate EmitterService fund_cfg (Some treasury_up) 7%N "ETH" hot_world).
Defined.

Lemma hot_needs_funds : needs_funds fund_cfg hot_wallet 7%N "ETH" hot_world.
Proof. apply (bool_decide_unpack _). vm_compute. exact I. Defined.

Lemma EvaluateAndRequest_spec_witness :
  ∃ row w1 w3, fundingReq (w_store w1) = <[1%N := row]> (fundingReq (w_store hot_world)) ∧
    FR_Amount row = "500"%string ∧
    EvaluateAndRequest EmitterService fund_cfg (Some treasury_up) 7%N "ETH" hot_world = (Ok (), w3).
Proof.
  pose proof (EvaluateAndRequest_spec EmitterService fund_cfg (Some treasury_up) 7%N "ETH"
    hot_world hot_wallet treasury_up eq_refl eq_refl eq_refl) as H.
  rewrite decide_True in H by exact hot_needs_funds.
  destruct H as (row & w1 & H1 & _ & _ & _ & H5 & w3 & E & _).
  exists row, w1, w3. split; [exact H1|]. split; [|exact E].
  etrans; [exact H5|]. vm_compute. reflexivity.
Defined.

Lemma treasury_failure_not_retried_witness :
  is_open 7%N "ETH" (w_store failed_world) ∧
  EvaluateAndRequest EmitterService fund_cfg (Some treasury_down) 7%N "ETH" failed_world =
    (Ok (), failed_world).
Proof.
  apply (treasury_failure_not_retried EmitterService fund_cfg (Some treasury_down) 7%N "ETH"
    hot_world hot_wallet treasury_down (New "503")); try reflexivity;
    intros q; apply respects_fail, _.
Defined.
End witnesses.
