(* ===== verification/Cache.v ===== *)
(** * Cache: the derivation cache (internal/cache/cache.go)

    The [Cache] interface, the process-local [MemCache], and what a memoizing client relies on
    ([CacheLaws]): whatever a read returns was put there, under the same key, by a write the
    client made; a call may fail, and then adds nothing.  RedisCache is in Redis.v. *)

From S2P Require Import Prelude GoLib Extern Domain Storage Memstore.

Local Open Scope Z_scope.

Class Cache (W : Type) := {
  cache_Get : string → GoM W (string * bool);
  cache_Set : string → string → Z → GoM W unit;
  cache_Del : list string → GoM W unit;
}.

Module MemCache.
Section memcache.
Context {GR : GoRuntime} {UL : UuidLib}.

Definition Get (key : string) : GoM World (string * bool) :=
  data ← gets w_cache;
  match data !! key with
  | None => modify (λ w, set_cache (delete key (w_cache w)) w);; mret (EmptyString, false)
  | Some e =>
      now ← time_Now;
      if now >? ce_exp e
      then modify (λ w, set_cache (delete key (w_cache w)) w);; mret (EmptyString, false)
      else mret (ce_value e, true)
  end.

Definition Set_ (key value : string) (ttl : Z) : GoM World unit :=
  now ← time_Now;
  modify (λ w, set_cache (<[key := mkCacheEntry value (now + ttl)]> (w_cache w)) w).

Definition Del (keys : list string) : GoM World unit :=
  for_each (λ k, modify (λ w, set_cache (delete k (w_cache w)) w)) keys.
End memcache.
End MemCache.

#[export] Instance mem_cache `{GoRuntime} `{UuidLib} : Cache World := {|
  cache_Get := MemCache.Get;
  cache_Set := MemCache.Set_;
  cache_Del := MemCache.Del;
|}.

(** ** What a client may rely on

    [cache_inv P w]: every live entry satisfies [P key value].  Reads return such entries and
    keep the invariant; so do writes of such an entry and deletions. *)

Class CacheLaws (W : Type) {C : Cache W} := {
  cache_inv : (string → string → Prop) → W → Prop;
  cache_Get_law P k w : cache_inv P w →
    cache_inv P (cache_Get k w).2 ∧ ∀ v, (cache_Get k w).1 = Ok (v, true) → P k v;
  cache_Set_law P k v ttl w : cache_inv P w → P k v → cache_inv P (cache_Set k v ttl w).2;
  cache_inv_mono (P Q : string → string → Prop) w :
    (∀ k v, P k v → Q k v) → cache_inv P w → cache_inv Q w;
  cache_Del_law P ks w : cache_inv P w → cache_inv P (cache_Del ks w).2;
}.

Section laws.
Context {GR : GoRuntime} {UL : UuidLib}.

Definition mem_cache_inv (P : string → string → Prop) (w : World) : Prop :=
  map_Forall (λ k e, P k (ce_value e)) (w_cache w).

#[export] Program Instance mem_cache_laws : CacheLaws World := {| cache_inv := mem_cache_inv |}.
Next Obligation.
  intros P k w Hw. simpl. unfold MemCache.Get. mem_cbv.
  destruct (w_cache w !! k) as [e|] eqn:E.
  - mem_cbv. destruct (_ >? _); mem_cbv; split; [by apply map_Forall_delete|done|exact Hw|].
    intros v [= <-]. exact (Hw k e E).
  - mem_cbv. split; [by apply map_Forall_delete|done].
Qed.
Next Obligation.
  intros P k v ttl w Hw Hk. simpl. unfold MemCache.Set_. mem_cbv. by apply map_Forall_insert_2.
Qed.
Next Obligation. intros P Q w HPQ Hw k e Hk. apply HPQ, (Hw k e Hk). Qed.
Next Obligation.
  intros P ks w Hw. simpl. unfold MemCache.Del. revert w Hw.
  induction ks as [|k ks IH]; intros w Hw; cbn [for_each]; [done|].
  erewrite bind_Ok by reflexivity. apply IH. by apply map_Forall_delete.
Qed.

(** A value set with a time to live is returned until it runs out, and not after. *)
Lemma Get_after_Set k v ttl w w1 :
  cache_Set k v ttl w = (Ok (), w1) →
  (cache_Get k w1).1 =
    Ok (if time_at (w_clock w1) >? time_at (w_clock w) + ttl then (EmptyString, false)
        else (v, true)).
Proof.
  simpl. unfold MemCache.Set_, MemCache.Get. mem_cbv. intros [= <-]. simpl.
  rewrite lookup_insert_eq. mem_cbv. simpl. by destruct (_ >? _).
Qed.
End laws.
