(* ===== verification/Redis.v ===== *)
(** * Redis: the clients of a Redis server (internal/lock/lock.go, internal/cache/cache.go)

    [RedisLocker] and [RedisCache] as the code writes them, over the class [Redis], which is
    the server as the client sees it: which value is live under a key, and what the four
    commands do to that.  A key may also run out between two calls.  [others] is what happens
    between the two commands of a release. *)

From S2P Require Import Prelude GoLib Extern Domain Storage Lock Cache.

Local Open Scope Z_scope.

Class Redis (W : Type) := {
  SetNX : string → string → Z → GoM W bool;
  RGet : string → GoM W (option string);
  RSet : string → string → Z → GoM W unit;
  RDel : list string → GoM W unit;
  (** The value under a key, if it has not run out. *)
  live : W → string → option string;
  SetNX_law k v ttl w :
    (∀ k', k' ≠ k → live (SetNX k v ttl w).2 k' = live w k') ∧
    match (SetNX k v ttl w).1 with
    | Ok true => live w k = None ∧ live (SetNX k v ttl w).2 k = Some v
    | Ok false => is_Some (live w k) ∧ live (SetNX k v ttl w).2 k = live w k
    | Err _ => live (SetNX k v ttl w).2 k = live w k ∨ live (SetNX k v ttl w).2 k = Some v
    end;
  RGet_law k w :
    (∀ k', live (RGet k w).2 k' = live w k') ∧ ∀ o, (RGet k w).1 = Ok o → o = live w k;
  RSet_law k v ttl w :
    (∀ k', k' ≠ k → live (RSet k v ttl w).2 k' = live w k') ∧
    (live (RSet k v ttl w).2 k = live w k ∨ live (RSet k v ttl w).2 k = Some v);
  RDel_law ks w :
    (∀ k', k' ∉ ks → live (RDel ks w).2 k' = live w k') ∧
    (∀ k', k' ∈ ks → live (RDel ks w).2 k' = None ∨ live (RDel ks w).2 k' = live w k') ∧
    (is_ok (RDel ks w).1 = true → ∀ k', k' ∈ ks → live (RDel ks w).2 k' = None);
}.

Module RedisLocker.
Section locker.
Context {W : Type} {UL : UuidLib} {EF : Effects W} {RD : Redis W}.
Variable others : GoM W unit.

Definition lock_key (name : string) : string := ("lock:" +:+ name)%string.

Definition Acquire (name : string) (ttl : Z) : GoM W (string * bool) :=
  u ← uuid_New;
  let token := uuid_String u in
  ok ← SetNX (lock_key name) token ttl;
  mret (token, ok).

(** A read and then a deletion: two commands. *)
Definition Release (name token : string) : GoM W unit :=
  cur ← RGet (lock_key name);
  match cur with
  | None => mret ()
  | Some cur =>
      if negb (bool_decide (cur = token)) then fail (New "lock token mismatch")
      else ignore others;; RDel [lock_key name]
  end.
End locker.
End RedisLocker.

Module RedisCache.
Section cache.
Context {W : Type} {RD : Redis W}.
Variable default_ttl : Z.

Definition Get (key : string) : GoM W (string * bool) :=
  v ← RGet key;
  mret (match v with Some v => (v, true) | None => (EmptyString, false) end).
Definition Set_ (key value : string) (ttl : Z) : GoM W unit :=
  RSet key value (if ttl <=? 0 then default_ttl else ttl).
Definition Del (keys : list string) : GoM W unit :=
  match keys with [] => mret () | _ => RDel keys end.
End cache.
End RedisCache.

Definition redis_locker {W} `{UuidLib, Effects W, Redis W} (others : GoM W unit) : Locker W := {|
  Lock.Acquire := RedisLocker.Acquire;
  Lock.Release := RedisLocker.Release others;
|}.
Definition redis_cache {W} `{Redis W} (ttl : Z) : Cache W := {|
  cache_Get := RedisCache.Get;
  cache_Set := RedisCache.Set_ ttl;
  cache_Del := RedisCache.Del;
|}.

(** ** The cache on Redis keeps what clients rely on *)

Section cache_laws.
Context {W : Type} {RD : Redis W} (ttl : Z).

Definition redis_inv (P : string → string → Prop) (w : W) : Prop :=
  ∀ k v, live w k = Some v → P k v.

#[export] Program Instance redis_cache_laws : CacheLaws W (C:=redis_cache ttl) := {|
  cache_inv := redis_inv
|}.
Next Obligation.
  intros P k w Hw. simpl. unfold RedisCache.Get. go_cbv.
  destruct (RGet_law k w) as [H1 H2]. destruct (RGet k w) as [[o|e] w1]; simpl in *.
  - split; [intros k' v'; rewrite H1; apply Hw|]. rewrite (H2 o eq_refl).
    intros v E. apply Hw. by destruct (live w k); simplify_eq.
  - split; [intros k' v'; rewrite H1; apply Hw|done].
Qed.
Next Obligation.
  intros P k v t w Hw Hk. simpl. unfold RedisCache.Set_.
  intros k' v'. destruct (RSet_law k v (if t <=? 0 then ttl else t) w) as [H1 H2].
  destruct (decide (k' = k)) as [->|Hne]; [|rewrite H1 by done; apply Hw].
  destruct H2 as [->| ->]; [apply Hw|]. by intros [= <-].
Qed.
Next Obligation. intros P Q w HPQ Hw k v Hk. by apply HPQ, Hw. Qed.
Next Obligation.
  intros P ks w Hw. simpl. unfold RedisCache.Del. destruct ks as [|x ks]; [done|].
  destruct (RDel_law (x :: ks) w) as (H1 & H2 & _). intros k v E.
  destruct (decide (k ∈ x :: ks)) as [Hin|Hout].
  - destruct (H2 k Hin) as [E'|E']; rewrite E' in E; [done|by apply Hw].
  - rewrite H1 in E by done. by apply Hw.
Qed.
End cache_laws.

(** ** What a lock on Redis is worth *)

Section locking.
Context {W : Type} {UL : UuidLib} {EF : Effects W} {RD : Redis W}.
Variable others : GoM W unit.
Implicit Types (w : W).

Definition holds (w : W) (name token : string) : Prop :=
  live w (RedisLocker.lock_key name) = Some token.

(** A lock that is live is granted to nobody else, and is only let go by a call with the
    token that it was read with; but a release is two commands, and when the lock runs out and
    another goroutine takes it between them, the release deletes the lock of the other. *)
Theorem redis_lock_safety name token w :
  holds w name token →
  (∀ ttl tok, (∀ u w1, uuid_New w = (Ok u, w1) → live w1 = live w) →
     (RedisLocker.Acquire name ttl w).1 ≠ Ok (tok, true)) ∧
  (∀ tok, tok ≠ token →
     is_ok (RedisLocker.Release others name tok w).1 = false ∧
     holds (RedisLocker.Release others name tok w).2 name token) ∧
  (∀ w1 w2 other, RGet (RedisLocker.lock_key name) w = (Ok (Some token), w1) →
     (others w1).2 = w2 → holds w2 name other →
     is_ok (RedisLocker.Release others name token w).1 = true →
     live (RedisLocker.Release others name token w).2 (RedisLocker.lock_key name) = None).
Proof.
  unfold holds. set (k := RedisLocker.lock_key name). intros Hl. split_and!.
  - intros ttl tok Hu E. unfold RedisLocker.Acquire in E. go_cbv in E.
    destruct (uuid_New w) as [[u|e] w1] eqn:EU; [|done]. specialize (Hu u w1 eq_refl).
    destruct (SetNX_law k (uuid_String u) ttl w1) as [_ HS]. fold k in E.
    destruct (SetNX k (uuid_String u) ttl w1) as [[[|]|e] w2]; simplify_eq.
    simpl in HS. rewrite Hu, Hl in HS. by destruct HS.
  - intros tok Hne. unfold RedisLocker.Release. fold k. go_cbv.
    destruct (RGet_law k w) as [H1 H2]. destruct (RGet k w) as [[o|e] w1]; simpl in *;
      [|split; [done|by rewrite H1]].
    rewrite (H2 o eq_refl), Hl, bool_decide_eq_false_2 by congruence. simpl.
    split; [done|by rewrite H1].
  - intros w1 w2 other Eg Ho Hh. unfold RedisLocker.Release. fold k. go_cbv.
    rewrite Eg, bool_decide_eq_true_2 by done. simpl.
    destruct (others w1) as [r w2'] eqn:EO. simpl in Ho. subst w2'.
    destruct (RDel_law [k] w2) as (_ & _ & HD). intros Hok. apply HD; [done|by left].
Qed.
End locking.

(** ** Witness *)

(** A server that holds its keys until they are deleted. *)
Record RedisWorld := mkRedisWorld { r_keys : gmap string string; r_next : N }.
Definition with_keys (f : gmap string string → gmap string string) (w : RedisWorld) : RedisWorld :=
  mkRedisWorld (f (r_keys w)) (r_next w).

Section witness.
#[local] Existing Instances simple_uuid.
#[local] Instance redis_effects : Effects RedisWorld := {|
  time_Now := mret 1;
  uuid_New := λ w, (Ok (r_next w), mkRedisWorld (r_keys w) (r_next w + 1));
|}.
#[local] Instance simple_redis : Redis RedisWorld.
Proof.
  refine {| SetNX := λ k v _ w, match r_keys w !! k with
                                | Some _ => (Ok false, w)
                                | None => (Ok true, with_keys <[k := v]> w) end;
            RGet := λ k w, (Ok (r_keys w !! k), w);
            RSet := λ k v _ w, (Ok (), with_keys <[k := v]> w);
            RDel := λ ks w, (Ok (), with_keys (λ m, foldr delete m ks) w);
            live := λ w k, r_keys w !! k |}.
  - intros k v _ w. destruct (r_keys w !! k) eqn:E; simpl.
    + rewrite E. by split.
    + rewrite lookup_insert_eq. split; [|done]. intros k' Hk. by apply lookup_insert_ne.
  - intros k w. split; [done|]. by intros o [= <-].
  - intros k v _ w. simpl. split; [intros; by apply lookup_insert_ne|]. right. apply lookup_insert_eq.
  - assert (HD : ∀ (m : gmap string string) ks k, foldr delete m ks !! k = if decide (k ∈ ks) then None else m !! k).
    { intros m ks k. induction ks as [|x ks IH]; [done|]. simpl. destruct (decide (x = k)) as [->|Hne].
      - rewrite lookup_delete_eq. by rewrite decide_True by (by left).
      - rewrite lookup_delete_ne, IH by done. repeat case_decide; set_solver. }
    intros ks w. simpl. split_and!; intros; rewrite HD; case_decide; auto; done.
Defined.

(** Between the two commands of a release the lock runs out and is taken by another. *)
Definition taken_over : GoM RedisWorld unit := modify (with_keys <["lock:l" := "other"]>%string).
Definition held_world : RedisWorld := (RedisLocker.Acquire "l" 1000 (mkRedisWorld ∅ 7)).2.

Lemma redis_lock_safety_witness :
  holds held_world "l" (uuid_String 7%N) ∧
  holds (taken_over held_world).2 "l" "other" ∧
  live (RedisLocker.Release taken_over "l" (uuid_String 7%N) held_world).2 "lock:l" = None.
Proof.
  split; [vm_compute; reflexivity|]. split; [vm_compute; reflexivity|].
  destruct (redis_lock_safety taken_over "l" (uuid_String 7%N) held_world) as (_ & _ & H).
  - vm_compute. reflexivity.
  - apply (H held_world (taken_over held_world).2 "other"%string); vm_compute; reflexivity.
Defined.
End witness.
