(* ===== verification/Postgres.v ===== *)
(** * Postgres: the SQL store (internal/storage/postgres/postgres.go, internal/migrations)

    The tables of the migrations as maps from their primary keys, one definition per statement with
    the constraints of the schema, and one definition per method of the store.  A column of
    type NUMERIC(38,18) is held as the text it reads back as: the text determines the value.
    Columns no method reads ([created_at] or [updated_at] of some tables) are left out, and
    texts are taken to be valid UTF-8 without NUL, the only ones a TEXT column accepts.

    A process is the server's committed tables, the transaction of the running goroutine, the
    number of calls made, and the rest of the process, which [pg_proc] keeps as before. *)

From S2P Require Import Prelude GoLib Sql Extern Domain Storage Memstore Lock Cache.

Local Open Scope Z_scope.

Record Db := mkDb {
  t_wallets : gmap UUID Wallet;
  t_addresses : gmap UUID Address;
  t_balances : gmap (UUID * string) Balance;
  t_events : gmap UUID BalanceEvent;
  t_utxos : gmap string UTXO;
  t_nonces : gmap (UUID * string) Nonce;
  t_withdrawals : gmap UUID WithdrawalRequest;
  t_keys : gmap (UUID * string) KeyMapping;
  t_funding : gmap UUID FundingRequest;
  t_outbox : gmap UUID AuditOutboxEvent;
  t_seq : gmap UUID Z;
}.
Definition empty_db : Db := mkDb ∅ ∅ ∅ ∅ ∅ ∅ ∅ ∅ ∅ ∅ ∅.

Definition with_wallets f d := mkDb (f (t_wallets d)) (t_addresses d) (t_balances d) (t_events d)
  (t_utxos d) (t_nonces d) (t_withdrawals d) (t_keys d) (t_funding d) (t_outbox d) (t_seq d).
Definition with_addresses f d := mkDb (t_wallets d) (f (t_addresses d)) (t_balances d) (t_events d)
  (t_utxos d) (t_nonces d) (t_withdrawals d) (t_keys d) (t_funding d) (t_outbox d) (t_seq d).
Definition with_balances f d := mkDb (t_wallets d) (t_addresses d) (f (t_balances d)) (t_events d)
  (t_utxos d) (t_nonces d) (t_withdrawals d) (t_keys d) (t_funding d) (t_outbox d) (t_seq d).
Definition with_events f d := mkDb (t_wallets d) (t_addresses d) (t_balances d) (f (t_events d))
  (t_utxos d) (t_nonces d) (t_withdrawals d) (t_keys d) (t_funding d) (t_outbox d) (t_seq d).
Definition with_utxos f d := mkDb (t_wallets d) (t_addresses d) (t_balances d) (t_events d)
  (f (t_utxos d)) (t_nonces d) (t_withdrawals d) (t_keys d) (t_funding d) (t_outbox d) (t_seq d).
Definition with_nonces f d := mkDb (t_wallets d) (t_addresses d) (t_balances d) (t_events d)
  (t_utxos d) (f (t_nonces d)) (t_withdrawals d) (t_keys d) (t_funding d) (t_outbox d) (t_seq d).
Definition with_withdrawals f d := mkDb (t_wallets d) (t_addresses d) (t_balances d) (t_events d)
  (t_utxos d) (t_nonces d) (f (t_withdrawals d)) (t_keys d) (t_funding d) (t_outbox d) (t_seq d).
Definition with_keys f d := mkDb (t_wallets d) (t_addresses d) (t_balances d) (t_events d)
  (t_utxos d) (t_nonces d) (t_withdrawals d) (f (t_keys d)) (t_funding d) (t_outbox d) (t_seq d).
Definition with_funding f d := mkDb (t_wallets d) (t_addresses d) (t_balances d) (t_events d)
  (t_utxos d) (t_nonces d) (t_withdrawals d) (t_keys d) (f (t_funding d)) (t_outbox d) (t_seq d).
Definition with_outbox f d := mkDb (t_wallets d) (t_addresses d) (t_balances d) (t_events d)
  (t_utxos d) (t_nonces d) (t_withdrawals d) (t_keys d) (t_funding d) (f (t_outbox d)) (t_seq d).
Definition with_seq f d := mkDb (t_wallets d) (t_addresses d) (t_balances d) (t_events d)
  (t_utxos d) (t_nonces d) (t_withdrawals d) (t_keys d) (t_funding d) (t_outbox d) (f (t_seq d)).

(** ** Server errors *)

Definition unique_violation : string := "23505".
Definition foreign_key_violation : string := "23503".
Definition not_null_violation : string := "23502".
Definition numeric_value_out_of_range : string := "22003".
Definition invalid_text_representation : string := "22P02".
Definition in_failed_sql_transaction : string := "25P02".
Definition serialization_failure : string := "40001".
Definition pq_error (code : string) : error := Errorf "pq: %s" [FStr code].

(** ** Transactions *)

(** An open transaction: its view of the tables, its [now()], whether a statement of it has
    failed, and the number of commits before it began. *)
Record Tx := mkTx { tx_db : Db; tx_now : Z; tx_failed : bool; tx_version : nat }.

Record PgWorld := mkPg {
  pg_db : Db;
  pg_version : nat;
  pg_tx : option Tx;
  pg_calls : nat;
  pg_proc : World;
}.
Definition NewPgWorld : PgWorld := mkPg empty_db 0 None 0 NewWorld.

Definition set_tx (t : option Tx) (w : PgWorld) : PgWorld :=
  mkPg (pg_db w) (pg_version w) t (pg_calls w) (pg_proc w).
Definition commit (d : Db) (w : PgWorld) : PgWorld :=
  mkPg d (S (pg_version w)) (pg_tx w) (pg_calls w) (pg_proc w).
Definition called (w : PgWorld) : PgWorld :=
  mkPg (pg_db w) (pg_version w) (pg_tx w) (S (pg_calls w)) (pg_proc w).
Definition tx_with_db (d : Db) (t : Tx) : Tx := mkTx d (tx_now t) (tx_failed t) (tx_version t).
Definition tx_fail (t : Tx) : Tx := mkTx (tx_db t) (tx_now t) true (tx_version t).
Definition fail_tx (w : PgWorld) : PgWorld := set_tx (tx_fail <$> pg_tx w) w.

(** The tables the running goroutine sees. *)
Definition view (w : PgWorld) : Db := match pg_tx w with Some t => tx_db t | None => pg_db w end.

Section sql.
Context {PG : PgServer}.

(** One call: it fails for an outside reason, or because the transaction has failed, or runs. *)
Definition call : GoM PgWorld unit := λ w,
  let w' := called w in
  match call_fault (pg_calls w) with
  | Some e => (Err e, fail_tx w')
  | None =>
      match pg_tx w with
      | Some t => if tx_failed t then (Err (pq_error in_failed_sql_transaction), w')
                  else (Ok tt, w')
      | None => (Ok tt, w')
      end
  end.

(** The rows a SELECT works on. *)
Definition query {A} (q : Db → A) : GoM PgWorld A := call;; gets (λ w, q (view w)).

(** A writing statement: in a transaction it changes the view of the transaction, outside it is
    committed at once; a statement that fails changes nothing and fails its transaction. *)
Definition run_stmt {A} (now : Z) (stmt : Z → GoM Db A) : GoM PgWorld A := λ w,
  match pg_tx w with
  | Some t =>
      match stmt (tx_now t) (tx_db t) with
      | (Ok a, d) => (Ok a, set_tx (Some (tx_with_db d t)) w)
      | (Err e, _) => (Err e, fail_tx w)
      end
  | None =>
      match stmt now (pg_db w) with
      | (Ok a, d) => (Ok a, commit d w)
      | (Err e, _) => (Err e, w)
      end
  end.
Definition exec {A} (stmt : Z → GoM Db A) : GoM PgWorld A :=
  n ← gets pg_calls;
  call;;
  run_stmt (now_at n) stmt.

Definition BeginTx : GoM PgWorld unit := λ w,
  let w' := called w in
  match call_fault (pg_calls w) with
  | Some e => (Err e, w')
  | None => (Ok tt, set_tx (Some (mkTx (pg_db w) (now_at (pg_calls w)) false (pg_version w))) w')
  end.

(** COMMIT.  The isolation level is serializable: what was committed by others since the
    transaction began makes it fail (the server may let some such transactions through).  A
    call that fails did not reach the server: a COMMIT whose reply is lost after the server has
    committed, which the driver reports as an error too, is not modelled. *)
Definition Commit : GoM PgWorld unit := λ w,
  let w' := set_tx None (called w) in
  match call_fault (pg_calls w), pg_tx w with
  | Some e, _ => (Err e, w')
  | None, Some t =>
      if tx_failed t then (Err (pq_error in_failed_sql_transaction), w')
      else if bool_decide (tx_version t = pg_version w) then (Ok tt, commit (tx_db t) w')
      else (Err (pq_error serialization_failure), w')
  | None, None => (Err (New "sql: no transaction"), w')
  end.

Definition Rollback : GoM PgWorld unit := modify (set_tx None).

(** ** Column types and constraints *)

Definition raise {A} (code : string) : GoM Db A := fail (pq_error code).
Definition check (b : bool) (code : string) : GoM Db unit := if b then mret () else raise code.

Definition numeric_col (s : string) : GoM Db string :=
  match numeric_in s with
  | Some n => mret (numeric_out n)
  | None => raise invalid_text_representation
  end.
Definition in_int4 (z : Z) : bool := (- 2 ^ 31 <=? z) && (z <? 2 ^ 31).
Definition int4_col (z : Z) : GoM Db unit := check (in_int4 z) numeric_value_out_of_range.
Definition int4_null (z : option Z) : GoM Db unit :=
  check (default true (in_int4 <$> z)) numeric_value_out_of_range.
Definition bigint_col (z : Z) : GoM Db unit :=
  check (bool_decide (in_int64 z)) numeric_value_out_of_range.

(** No row of another key satisfies [P]. *)
Definition none_else {K V} `{Countable K} (P : V → bool) (k : K) (m : gmap K V) : bool :=
  bool_decide (map_Forall (λ k' v, k' = k ∨ P v = false) m).
Definition unique {K V} `{Countable K} (P : V → bool) (k : K) (m : gmap K V) : GoM Db unit :=
  check (none_else P k m) unique_violation.
Definition primary_key {K V} `{Countable K} (k : K) (m : gmap K V) : GoM Db unit :=
  check (bool_decide (m !! k = None)) unique_violation.
Definition references_wallet (u : UUID) : GoM Db unit :=
  d ← gets (λ d, d); check (bool_decide (is_Some (t_wallets d !! u))) foreign_key_violation.

(** [QueryRow(...).Scan(...)]: no row is [sql.ErrNoRows]. *)
Definition scan_row {A} (r : option A) : GoM PgWorld A :=
  match r with Some a => mret a | None => fail (Sentinel ErrNoRows) end.

End sql.

(** ** The process on this store *)

(** A step of the rest of the process. *)
Definition proc_with (p : World) (w : PgWorld) : PgWorld :=
  mkPg (pg_db w) (pg_version w) (pg_tx w) (pg_calls w) p.
Definition on_proc {A} (m : GoM World A) : GoM PgWorld A := λ w,
  let '(r, p) := m (pg_proc w) in (r, proc_with p w).

#[export] Instance pg_effects `{GoRuntime, UuidLib} : Effects PgWorld := {|
  time_Now := on_proc time_Now;
  uuid_New := on_proc uuid_New;
|}.
#[export] Instance pg_locker `{GoRuntime, UuidLib} : Locker PgWorld := {|
  Acquire name ttl := on_proc (Acquire name ttl);
  Release name token := on_proc (Release name token);
|}.
#[export] Instance pg_cache `{GoRuntime, UuidLib} : Cache PgWorld := {|
  cache_Get k := on_proc (cache_Get k);
  cache_Set k v ttl := on_proc (cache_Set k v ttl);
  cache_Del ks := on_proc (cache_Del ks);
|}.

Module Pg.
Section pg.
Context {PG : PgServer}.

(** A transaction opened inside another one is on a connection of its own.  What a body assigns
    to variables around it is its result. *)
Definition InTx {A} (fn : GoM PgWorld A) : GoM PgWorld A :=
  outer ← gets pg_tx;
  finally
    (BeginTx;;
     r ← try fn;
     match r with
     | Err err => ignore Rollback;; fail err
     | Ok a => Commit;; mret a
     end)
    (modify (set_tx outer)).

(** *** Wallets *)

Definition insert_wallet (w : Wallet) (now : Z) : GoM Db unit :=
  int4_null (Wallet_RotationDays w);; int4_null (Wallet_RotationAfterReceives w);;
  d ← gets (λ d, d);
  primary_key (Wallet_ID w) (t_wallets d);;
  unique (λ r, bool_decide (Wallet_Chain r = Wallet_Chain w) &&
               bool_decide (Wallet_KeyID r = Wallet_KeyID w)) (Wallet_ID w) (t_wallets d);;
  modify (with_wallets (insert (Wallet_ID w)
    (Wallet_with_times (timestamptz (Wallet_CreatedAt w)) (timestamptz (Wallet_UpdatedAt w)) w))).
Definition CreateWallet (w : Wallet) : GoM PgWorld unit := exec (insert_wallet w).

Definition GetWallet (id : UUID) : GoM PgWorld Wallet :=
  r ← query (λ d, t_wallets d !! id); scan_row r.

Definition update_wallet_state (id : UUID) (state : string) (now : Z) : GoM Db unit :=
  modify (with_wallets (alter (Wallet_with_state state now) id)).
Definition UpdateWalletState (id : UUID) (state : string) : GoM PgWorld unit :=
  exec (update_wallet_state id state).

Definition ListWallets (chainF typeF stateF : string) : GoM PgWorld (list Wallet) :=
  query (λ d, order_by (λ a b, Wallet_CreatedAt a <? Wallet_CreatedAt b)
    (List.filter (λ w, Mem.filter_ok chainF (Wallet_Chain w) &&
                       Mem.filter_ok typeF (Wallet_Type w) &&
                       Mem.filter_ok stateF (Wallet_State w)) (scan_rows (t_wallets d)))).

(** *** Addresses *)

Definition insert_address (a : Address) (now : Z) : GoM Db unit :=
  int4_col (Address_Index a);; int4_col (Address_Change a);; int4_col (Address_ReceiveCount a);;
  d ← gets (λ d, d);
  primary_key (Address_ID a) (t_addresses d);;
  unique (λ r, bool_decide (Address_WalletID r = Address_WalletID a) &&
               bool_decide (Address_Index r = Address_Index a) &&
               bool_decide (Address_Change r = Address_Change a)) (Address_ID a) (t_addresses d);;
  unique (λ r, bool_decide (Address_Chain r = Address_Chain a) &&
               bool_decide (Address_Address r = Address_Address a)) (Address_ID a) (t_addresses d);;
  unique (λ r, bool_decide (Address_State a = AddressStateActive) &&
               Mem.is_active_of (Address_WalletID a) r) (Address_ID a) (t_addresses d);;
  references_wallet (Address_WalletID a);;
  modify (with_addresses (insert (Address_ID a)
    (Address_with_created (timestamptz (Address_CreatedAt a)) a))).
Definition InsertAddress (a : Address) : GoM PgWorld unit := exec (insert_address a).

Definition GetActiveAddress (walletID : UUID) : GoM PgWorld Address :=
  r ← query (λ d, List.find (Mem.is_active_of walletID) (scan_rows (t_addresses d))); scan_row r.
Definition GetAddress (id : UUID) : GoM PgWorld Address :=
  r ← query (λ d, t_addresses d !! id); scan_row r.
Definition ListAddresses (walletID : UUID) : GoM PgWorld (list Address) :=
  query (λ d, order_by Mem.address_less
    (List.filter (λ a, bool_decide (Address_WalletID a = walletID)) (scan_rows (t_addresses d)))).

Definition deprecate_address (id : UUID) (now : Z) : GoM Db unit :=
  modify (with_addresses (alter (Address_with_state AddressStateDeprecated) id)).
Definition DeprecateAddress (id : UUID) : GoM PgWorld unit := exec (deprecate_address id).

(** [MAX(index)]: NULL without rows. *)
Definition max_of (chain : string) (change : Z) (l : list Address) : option Z :=
  foldl (λ m a, if bool_decide (Address_Chain a = chain) && bool_decide (Address_Change a = change)
                then Some (Z.max (Address_Index a) (default (Address_Index a) m)) else m) None l.
Definition NextAddressIndex (chain : string) (change : Z) : GoM PgWorld Z :=
  m ← query (λ d, default (-1) (max_of chain change (scan_rows (t_addresses d))) + 1);
  if in_int4 change && in_int4 m then mret m
  else modify fail_tx;; fail (pq_error numeric_value_out_of_range).

Definition increment_receives (id : UUID) (now : Z) : GoM Db unit :=
  d ← gets (λ d, d);
  match t_addresses d !! id with
  | None => mret ()
  | Some a =>
      int4_col (Address_ReceiveCount a + 1);;
      modify (with_addresses (insert id (Address_with_receives (Address_ReceiveCount a + 1) a)))
  end.
Definition IncrementReceiveCount (id : UUID) : GoM PgWorld unit := exec (increment_receives id).

(** *** Balances *)

Definition upsert_balance (b : Balance) (now : Z) : GoM Db unit :=
  confirmed ← numeric_col (Balance_Confirmed b);
  pending ← numeric_col (Balance_Pending b);
  locked ← numeric_col (Balance_Locked b);
  let key := (Balance_WalletID b, Balance_Asset b) in
  d ← gets (λ d, d);
  match t_balances d !! key with
  | Some _ => mret ()
  | None => references_wallet (Balance_WalletID b)
  end;;
  modify (with_balances (insert key
    (mkBalance (Balance_WalletID b) (Balance_Asset b) confirmed pending locked
       (Balance_LastBlockSeen b) now))).
Definition UpsertBalance (b : Balance) : GoM PgWorld unit := exec (upsert_balance b).

Definition GetBalance (walletID : UUID) (asset : string) : GoM PgWorld Balance :=
  r ← query (λ d, t_balances d !! (walletID, asset)); scan_row r.
Definition ListBalances (walletID : UUID) : GoM PgWorld (list Balance) :=
  query (λ d, order_by (λ a b, text_less (Balance_Asset a) (Balance_Asset b))
    (List.filter (λ b, bool_decide (Balance_WalletID b = walletID)) (scan_rows (t_balances d)))).

(** The columns of UNIQUE (wallet_id, asset, block_height, event_id). *)
Definition same_event (e r : BalanceEvent) : bool :=
  bool_decide (BE_WalletID r = BE_WalletID e) && bool_decide (BE_Asset r = BE_Asset e) &&
  bool_decide (BE_BlockHeight r = BE_BlockHeight e) && bool_decide (BE_EventID r = BE_EventID e).
(** INSERT ... ON CONFLICT DO NOTHING. *)
Definition insert_event (e : BalanceEvent) (now : Z) : GoM Db unit :=
  d ← gets (λ d, d);
  if bool_decide (t_events d !! BE_ID e = None) && none_else (same_event e) (BE_ID e) (t_events d)
  then modify (with_events (insert (BE_ID e) e)) else mret ().
Definition RecordBalanceEvent (e : BalanceEvent) : GoM PgWorld unit :=
  exec (insert_event e);;
  exists_ ← query (λ d, negb (none_else (same_event e) (BE_ID e) (t_events d)));
  if exists_ : bool then fail (Sentinel ErrDuplicateEvent) else mret ().

(** *** UTXOs *)

Definition insert_utxo (u : UTXO) (now : Z) : GoM Db unit :=
  value ← numeric_col (UTXO_Value u);
  int4_col (UTXO_Confirmations u);;
  d ← gets (λ d, d);
  primary_key (UTXO_Outpoint u) (t_utxos d);;
  references_wallet (UTXO_WalletID u);;
  modify (with_utxos (insert (UTXO_Outpoint u)
    (mkUTXO (UTXO_Outpoint u) (UTXO_WalletID u) value (UTXO_ScriptType u) (UTXO_Confirmations u)
       (UTXO_LockState u) (timestamptz <$> UTXO_LockedAt u) (timestamptz <$> UTXO_SpentAt u)
       (UTXO_TxHash u) now))).
Definition InsertUTXO (u : UTXO) : GoM PgWorld unit := exec (insert_utxo u).

Definition ListFreeUTXOs (walletID : UUID) : GoM PgWorld (list UTXO) :=
  query (λ d, order_by (λ a b, text_less (UTXO_Outpoint a) (UTXO_Outpoint b))
    (List.filter (Mem.is_free_of walletID) (scan_rows (t_utxos d)))).

(** The number of rows the UPDATE changed. *)
Definition lock_utxo (op : string) (now : Z) : GoM Db Z :=
  d ← gets (λ d, d);
  match t_utxos d !! op with
  | Some u =>
      if bool_decide (UTXO_LockState u = UTXOLockStateFree) then
        modify (with_utxos (insert op
          (UTXO_with_lock UTXOLockStateLocked (Some now) (UTXO_SpentAt u) (UTXO_TxHash u) now u)));;
        mret 1
      else mret 0
  | None => mret 0
  end.
Definition LockUTXOs (outpoints : list string) : GoM PgWorld unit :=
  match outpoints with
  | [] => mret ()
  | _ =>
      InTx (for_each (λ op,
        n ← exec (lock_utxo op);
        if n =? 0 then fail (Errorf "utxo not free: %s" [FStr op]) else mret ()) outpoints)
  end.

Definition spend_utxo (op txHash : string) (now : Z) : GoM Db unit :=
  modify (with_utxos (alter (λ u,
    UTXO_with_lock UTXOLockStateSpent (UTXO_LockedAt u) (Some now) txHash now u) op)).
Definition MarkUTXOsSpent (outpoints : list string) (txHash : string) : GoM PgWorld unit :=
  for_each (λ op, exec (spend_utxo op txHash)) outpoints.

Definition restore_utxo (op : string) (now : Z) : GoM Db unit :=
  modify (with_utxos (alter (UTXO_with_lock UTXOLockStateFree None None EmptyString now) op)).
Definition RestoreUTXOs (outpoints : list string) : GoM PgWorld unit :=
  for_each (λ op, exec (restore_utxo op)) outpoints.

Definition delete_utxo (op : string) (now : Z) : GoM Db unit :=
  modify (with_utxos (delete op)).
Definition PruneUTXOs (outpoints : list string) : GoM PgWorld unit :=
  for_each (λ op, exec (delete_utxo op)) outpoints.

(** *** Nonces *)

Definition GetNonce (walletID : UUID) (chain : string) : GoM PgWorld Nonce :=
  r ← query (λ d, t_nonces d !! (walletID, chain));
  mret (default (Mem.zero_nonce walletID chain) r).

Definition upsert_nonce (n : Nonce) (now : Z) : GoM Db unit :=
  int4_col (Nonce_Version n);;
  let key := (Nonce_WalletID n, Nonce_Chain n) in
  d ← gets (λ d, d);
  match t_nonces d !! key with
  | Some _ => mret ()
  | None => references_wallet (Nonce_WalletID n)
  end;;
  modify (with_nonces (insert key
    (Nonce_with (Nonce_PendingNonce n) (Nonce_BroadcastNonce n) (Nonce_Version n) now n))).
Definition UpsertNonce (n : Nonce) : GoM PgWorld unit := exec (upsert_nonce n).

Definition insert_nonce (walletID : UUID) (chain : string) (now : Z) : GoM Db unit :=
  d ← gets (λ d, d);
  primary_key (walletID, chain) (t_nonces d);;
  references_wallet walletID;;
  modify (with_nonces (insert (walletID, chain) (mkNonce walletID chain 1 0 1 now))).
Definition update_nonce (walletID : UUID) (chain : string) (pending version now : Z) : GoM Db unit :=
  d ← gets (λ d, d);
  match t_nonces d !! (walletID, chain) with
  | None => mret ()
  | Some n =>
      int4_col version;;
      modify (with_nonces (insert (walletID, chain)
        (Nonce_with pending (Nonce_BroadcastNonce n) version now n)))
  end.
(** SELECT ... FOR UPDATE, then an INSERT or an UPDATE. *)
Definition increment_tx (walletID : UUID) (chain : string) : GoM PgWorld (Z * Z) :=
  r ← query (λ d, t_nonces d !! (walletID, chain));
  match r with
  | None => exec (insert_nonce walletID chain);; mret (0, 1)
  | Some n =>
      let val := Nonce_PendingNonce n in
      let ver := wrap64 (Nonce_Version n + 1) in
      exec (update_nonce walletID chain (wrap64 (val + 1)) ver);;
      mret (val, ver)
  end.
Definition IncrementPendingNonce (walletID : UUID) (chain : string) : GoM PgWorld (Z * Z) :=
  InTx (increment_tx walletID chain).

(** GREATEST keeps the larger counter. *)
Definition advance_nonce (walletID : UUID) (chain : string) (next now : Z) : GoM Db unit :=
  modify (with_nonces (alter (λ n,
    Nonce_with (Nonce_PendingNonce n) (Z.max (Nonce_BroadcastNonce n) next) (Nonce_Version n) now n)
    (walletID, chain))).
Definition AdvanceBroadcastNonce (walletID : UUID) (chain : string) (nonce : Z) :
    GoM PgWorld unit :=
  exec (advance_nonce walletID chain (wrap64 (nonce + 1))).

Definition rollback_nonce (walletID : UUID) (chain : string) (to now : Z) : GoM Db Z :=
  bigint_col (to + 1);;
  d ← gets (λ d, d);
  match t_nonces d !! (walletID, chain) with
  | Some n =>
      if bool_decide (Nonce_PendingNonce n = to + 1) then
        modify (with_nonces (insert (walletID, chain)
          (Nonce_with to (Nonce_BroadcastNonce n) (Nonce_Version n) now n)));;
        mret 1
      else mret 0
  | None => mret 0
  end.
Definition RollbackPendingNonce (walletID : UUID) (chain : string) (to : Z) : GoM PgWorld Z :=
  exec (rollback_nonce walletID chain to).

(** *** Withdrawals *)

(** The predicate of the partial index [withdrawal_inflight_dedup]. *)
Definition inflight_state (st : string) : bool :=
  bool_decide (st ∈ [WithdrawalStatePending; WithdrawalStateWhitelisted; WithdrawalStateSigned;
                     WithdrawalStateBroadcast]).
Definition same_transfer (w r : WithdrawalRequest) : bool :=
  bool_decide (WR_WalletID r = WR_WalletID w) && bool_decide (WR_ToAddress r = WR_ToAddress w) &&
  bool_decide (WR_Amount r = WR_Amount w) && bool_decide (WR_Asset r = WR_Asset w).
Definition inflight_index (w : WithdrawalRequest) (d : Db) : GoM Db unit :=
  unique (λ r, inflight_state (WR_State w) && inflight_state (WR_State r) && same_transfer w r)
    (WR_ID w) (t_withdrawals d).

Definition insert_withdrawal (w : WithdrawalRequest) (now : Z) : GoM Db unit :=
  amount ← numeric_col (WR_Amount w);
  ops ← match pq_Array (WR_ReservedOutpoints w) with
        | Some ops => mret ops
        | None => raise not_null_violation
        end;
  let row := mkWithdrawal (WR_ID w) (WR_WalletID w) (WR_ToAddress w) (WR_Asset w) amount
    (WR_State w) (WR_PolicyDecisionID w) (WR_FailureReason w) (WR_TxHash w) (WR_NonceValue w)
    ops (WR_SignedTxBytes w) (timestamptz (WR_CreatedAt w)) (timestamptz (WR_UpdatedAt w)) in
  d ← gets (λ d, d);
  primary_key (WR_ID w) (t_withdrawals d);;
  inflight_index row d;;
  references_wallet (WR_WalletID w);;
  modify (with_withdrawals (insert (WR_ID w) row)).
Definition CreateWithdrawal (w : WithdrawalRequest) : GoM PgWorld unit := exec (insert_withdrawal w).

Definition GetWithdrawal (id : UUID) : GoM PgWorld WithdrawalRequest :=
  r ← query (λ d, t_withdrawals d !! id); scan_row r.

Definition ListWithdrawals (walletID : UUID) (stateF : string) : GoM PgWorld (list WithdrawalRequest) :=
  query (λ d, order_by (λ a b, WR_CreatedAt a <? WR_CreatedAt b)
    (List.filter (λ w,
       (bool_decide (walletID = uuid_Nil) || bool_decide (WR_WalletID w = walletID)) &&
       Mem.filter_ok stateF (WR_State w)) (scan_rows (t_withdrawals d)))).

(** COALESCE(NULLIF(x, ''), column) is [Mem.set_nonempty x column]. *)
Definition update_withdrawal (id : UUID) (state reason txHash policyDecisionID : string) (now : Z) :
    GoM Db unit :=
  d ← gets (λ d, d);
  match t_withdrawals d !! id with
  | None => mret ()
  | Some w =>
      let row := WR_with_state state (Mem.set_nonempty policyDecisionID (WR_PolicyDecisionID w))
        (Mem.set_nonempty reason (WR_FailureReason w)) (Mem.set_nonempty txHash (WR_TxHash w)) now w in
      inflight_index row d;;
      modify (with_withdrawals (insert id row))
  end.
Definition UpdateWithdrawalState (id : UUID) (state reason txHash policyDecisionID : string) :
    GoM PgWorld unit :=
  exec (update_withdrawal id state reason txHash policyDecisionID).

Definition UpdateWithdrawalNonce (id : UUID) (nonce : Z) : GoM PgWorld unit :=
  exec (λ now, modify (with_withdrawals (alter (λ w,
    WR_with_build (Some nonce) (WR_ReservedOutpoints w) (WR_SignedTxBytes w) now w) id))).
Definition update_outpoints (id : UUID) (outpoints : list string) (now : Z) : GoM Db unit :=
  d ← gets (λ d, d);
  match t_withdrawals d !! id with
  | None => mret ()
  | Some w =>
      match pq_Array outpoints with
      | Some ops =>
          modify (with_withdrawals (insert id
            (WR_with_build (WR_NonceValue w) ops (WR_SignedTxBytes w) now w)))
      | None => raise not_null_violation
      end
  end.
Definition UpdateWithdrawalOutpoints (id : UUID) (outpoints : list string) : GoM PgWorld unit :=
  exec (update_outpoints id outpoints).
Definition UpdateWithdrawalSignedTx (id : UUID) (txBytes : list Z) : GoM PgWorld unit :=
  exec (λ now, modify (with_withdrawals (alter (λ w,
    WR_with_build (WR_NonceValue w) (WR_ReservedOutpoints w) txBytes now w) id))).

(** *** Key mappings *)

(** The partial index [key_mappings_one_current]. *)
Definition current_index (m : KeyMapping) (d : Db) : GoM Db unit :=
  unique (λ r, Mem.is_current m && Mem.is_current r &&
               bool_decide (KM_WalletID r = KM_WalletID m)) (KM_WalletID m, KM_KeyID m) (t_keys d).
Definition bind_key (m : KeyMapping) (now : Z) : GoM Db unit :=
  let row := mkKeyMapping (KM_WalletID m) (KM_KeyID m) (timestamptz (KM_ActiveFrom m))
    (timestamptz <$> KM_ActiveTo m) (KM_RotationState m) (timestamptz (KM_CreatedAt m)) in
  d ← gets (λ d, d);
  primary_key (KM_WalletID m, KM_KeyID m) (t_keys d);;
  current_index row d;;
  references_wallet (KM_WalletID m);;
  modify (with_keys (insert (KM_WalletID m, KM_KeyID m) row)).
Definition BindKeyMapping (m : KeyMapping) : GoM PgWorld unit := exec (bind_key m).

Definition ResolveActiveKey (walletID : UUID) : GoM PgWorld (list KeyMapping) :=
  out ← query (λ d, order_by (λ a b, KM_ActiveFrom a <? KM_ActiveFrom b)
    (List.filter (λ m, bool_decide (KM_WalletID m = walletID) &&
                       (Mem.is_current m || Mem.is_cooling m)) (scan_rows (t_keys d))));
  match out with [] => fail (Sentinel ErrNoRows) | _ => mret out end.

Definition cool_keys (walletID : UUID) (activeTo now : Z) : GoM Db unit :=
  modify (with_keys (fmap (λ m,
    if bool_decide (KM_WalletID m = walletID) then Mem.cool (timestamptz activeTo) m else m))).
(** INSERT ... ON CONFLICT (wallet_id, key_id) DO UPDATE. *)
Definition make_current (walletID : UUID) (newKeyID : string) (now : Z) : GoM Db unit :=
  d ← gets (λ d, d);
  row ← match t_keys d !! (walletID, newKeyID) with
        | Some m => mret (KM_with RotationStateCurrent now None m)
        | None => references_wallet walletID;;
                  mret (mkKeyMapping walletID newKeyID now None RotationStateCurrent now)
        end;
  current_index row d;;
  modify (with_keys (insert (walletID, newKeyID) row)).
Definition rotate_tx (walletID : UUID) (newKeyID : string) (activeTo : Z) : GoM PgWorld unit :=
  exec (cool_keys walletID activeTo);; exec (make_current walletID newKeyID).

(** The end of the cooling period is computed by the process, not by the server. *)
Definition RotateKeyMapping `{GoRuntime, UuidLib} (walletID : UUID) (newKeyID : string)
    (cooling : Z) : GoM PgWorld unit :=
  now ← time_Now;
  InTx (rotate_tx walletID newKeyID (now + cooling)).

Definition ExpireCooling : GoM PgWorld unit :=
  exec (λ now, modify (with_keys (fmap (Mem.expire now)))).

(** *** Funding requests *)

(** The partial index [funding_open_dedup]. *)
Definition open_index (f : FundingRequest) (d : Db) : GoM Db unit :=
  unique (λ r, bool_decide (FR_State f = FundingStateRequested) &&
               Mem.is_open_for (FR_WalletID f) (FR_Asset f) r) (FR_ID f) (t_funding d).
Definition insert_funding (f : FundingRequest) (now : Z) : GoM Db unit :=
  amount ← numeric_col (FR_Amount f);
  let row := mkFunding (FR_ID f) (FR_WalletID f) (FR_Asset f) amount (FR_State f)
    (FR_TreasuryBatchID f) (FR_Reason f) (timestamptz (FR_CreatedAt f))
    (timestamptz (FR_UpdatedAt f)) in
  d ← gets (λ d, d);
  primary_key (FR_ID f) (t_funding d);;
  open_index row d;;
  references_wallet (FR_WalletID f);;
  modify (with_funding (insert (FR_ID f) row)).
Definition CreateFundingRequest (f : FundingRequest) : GoM PgWorld unit := exec (insert_funding f).

Definition GetOpenFundingRequest (walletID : UUID) (asset : string) : GoM PgWorld FundingRequest :=
  r ← query (λ d, List.find (Mem.is_open_for walletID asset) (scan_rows (t_funding d))); scan_row r.
Definition ListFundingRequests (walletID : UUID) (stateF : string) : GoM PgWorld (list FundingRequest) :=
  query (λ d, order_by (λ a b, FR_CreatedAt a <? FR_CreatedAt b)
    (List.filter (λ f,
       (bool_decide (walletID = uuid_Nil) || bool_decide (FR_WalletID f = walletID)) &&
       Mem.filter_ok stateF (FR_State f)) (scan_rows (t_funding d)))).

Definition update_funding (id : UUID) (state treasuryBatchID : string) (now : Z) : GoM Db unit :=
  d ← gets (λ d, d);
  match t_funding d !! id with
  | None => mret ()
  | Some f =>
      let row := FR_with_state state (Mem.set_nonempty treasuryBatchID (FR_TreasuryBatchID f)) now f in
      open_index row d;;
      modify (with_funding (insert id row))
  end.
Definition UpdateFundingState (id : UUID) (state treasuryBatchID : string) : GoM PgWorld unit :=
  exec (update_funding id state treasuryBatchID).

(** *** Audit outbox *)

Definition insert_audit (e : AuditOutboxEvent) (now : Z) : GoM Db unit :=
  d ← gets (λ d, d);
  primary_key (AE_ID e) (t_outbox d);;
  unique (λ r, bool_decide (AE_EventID r = AE_EventID e)) (AE_ID e) (t_outbox d);;
  modify (with_outbox (insert (AE_ID e)
    (mkAuditEvent (AE_ID e) (AE_EventID e) (AE_WalletID e) (AE_EventType e) (AE_Payload e)
       (AE_Seq e) false 0 (timestamptz (AE_CreatedAt e)) None))).
Definition AppendAuditEvent (e : AuditOutboxEvent) : GoM PgWorld unit := exec (insert_audit e).

(** LIMIT takes no negative number. *)
Definition ListUndeliveredAuditEvents (limit : Z) : GoM PgWorld (list AuditOutboxEvent) :=
  out ← query (λ d, order_by (λ a b, AE_Seq a <? AE_Seq b)
    (List.filter (λ e, negb (AE_Delivered e)) (scan_rows (t_outbox d))));
  if limit <? 0 then modify fail_tx;; fail (pq_error "2201W") else mret (take (Z.to_nat limit) out).

Definition mark_delivered (id : UUID) (now : Z) : GoM Db unit :=
  d ← gets (λ d, d);
  match t_outbox d !! id with
  | None => mret ()
  | Some e =>
      int4_col (AE_Attempts e + 1);;
      modify (with_outbox (insert id (AE_delivered now e)))
  end.
Definition MarkAuditDelivered (id : UUID) : GoM PgWorld unit := exec (mark_delivered id).

(** INSERT ... ON CONFLICT DO UPDATE ... RETURNING seq. *)
Definition next_seq (walletID : UUID) (now : Z) : GoM Db Z :=
  d ← gets (λ d, d);
  let seq := default 0 (t_seq d !! walletID) + 1 in
  bigint_col seq;;
  modify (with_seq (insert walletID seq));;
  mret seq.
Definition NextAuditSeq (walletID : UUID) : GoM PgWorld Z := exec (next_seq walletID).
End pg.
End Pg.

#[export] Instance pgstore `{GoRuntime, UuidLib, PgServer} : Store PgWorld := {|
  InTx := Pg.InTx;
  CreateWallet := Pg.CreateWallet;
  GetWallet := Pg.GetWallet;
  UpdateWalletState := Pg.UpdateWalletState;
  ListWallets := Pg.ListWallets;
  InsertAddress := Pg.InsertAddress;
  GetActiveAddress := Pg.GetActiveAddress;
  ListAddresses := Pg.ListAddresses;
  DeprecateAddress := Pg.DeprecateAddress;
  NextAddressIndex := Pg.NextAddressIndex;
  IncrementReceiveCount := Pg.IncrementReceiveCount;
  GetAddress := Pg.GetAddress;
  UpsertBalance := Pg.UpsertBalance;
  GetBalance := Pg.GetBalance;
  ListBalances := Pg.ListBalances;
  RecordBalanceEvent := Pg.RecordBalanceEvent;
  InsertUTXO := Pg.InsertUTXO;
  ListFreeUTXOs := Pg.ListFreeUTXOs;
  LockUTXOs := Pg.LockUTXOs;
  MarkUTXOsSpent := Pg.MarkUTXOsSpent;
  RestoreUTXOs := Pg.RestoreUTXOs;
  PruneUTXOs := Pg.PruneUTXOs;
  GetNonce := Pg.GetNonce;
  UpsertNonce := Pg.UpsertNonce;
  IncrementPendingNonce := Pg.IncrementPendingNonce;
  AdvanceBroadcastNonce := Pg.AdvanceBroadcastNonce;
  RollbackPendingNonce := Pg.RollbackPendingNonce;
  CreateWithdrawal := Pg.CreateWithdrawal;
  GetWithdrawal := Pg.GetWithdrawal;
  ListWithdrawals := Pg.ListWithdrawals;
  UpdateWithdrawalState := Pg.UpdateWithdrawalState;
  UpdateWithdrawalNonce := Pg.UpdateWithdrawalNonce;
  UpdateWithdrawalOutpoints := Pg.UpdateWithdrawalOutpoints;
  UpdateWithdrawalSignedTx := Pg.UpdateWithdrawalSignedTx;
  BindKeyMapping := Pg.BindKeyMapping;
  ResolveActiveKey := Pg.ResolveActiveKey;
  RotateKeyMapping := Pg.RotateKeyMapping;
  ExpireCooling := Pg.ExpireCooling;
  CreateFundingRequest := Pg.CreateFundingRequest;
  GetOpenFundingRequest := Pg.GetOpenFundingRequest;
  ListFundingRequests := Pg.ListFundingRequests;
  UpdateFundingState := Pg.UpdateFundingState;
  AppendAuditEvent := Pg.AppendAuditEvent;
  ListUndeliveredAuditEvents := Pg.ListUndeliveredAuditEvents;
  MarkAuditDelivered := Pg.MarkAuditDelivered;
  NextAuditSeq := Pg.NextAuditSeq;
|}.
