(* ===== verification/PostgresFacts.v ===== *)
(** * PostgresFacts: what holds in every state of the SQL store

    [schema_ok] is the schema as an invariant of the tables: keys, foreign keys, unique indexes,
    and NUMERIC columns that hold NUMERIC texts.  Every method of the store keeps it, committed
    and as the running transaction sees it, whatever fails, so every service does. *)

From S2P Require Import Prelude GoLib Sql Extern Domain Storage Memstore MemstoreFacts.
From S2P Require Import Lock Cache Outbox Postgres.

Local Open Scope Z_scope.

(** The text of a NUMERIC(38,18). *)
Definition canonical (s : string) : Prop := ∃ n, numeric_ok n ∧ s = numeric_out n.

(** ** Maps with rows that occur once *)

Section unique.
Context `{Countable K} {V : Type}.
Implicit Types (m : gmap K V) (p : V → bool) (f : V → V).

Lemma none_else_spec p k m k' v :
  none_else p k m = true → m !! k' = Some v → p v = true → k' = k.
Proof.
  unfold none_else. intros Hf Hk Hp. apply bool_decide_eq_true in Hf.
  destruct (Hf k' v Hk) as [->|E]; [done|congruence].
Qed.

(** A row that was checked against an index may be written. *)
Lemma unique_by_checked p P k v m :
  unique_by p m → none_else P k m = true →
  (p v = true → ∀ x, p x = true → P x = true) → unique_by p (<[k := v]> m).
Proof.
  intros Hu HP Hp. apply unique_by_insert; [done|]. intros Hv i x Hi Hx.
  exact (none_else_spec P k m i x HP Hi (Hp Hv x Hx)).
Qed.

Lemma unique_by_weaken p q m : (∀ v, q v = true → p v = true) → unique_by p m → unique_by q m.
Proof. intros Hpq Hu i j x y Hi Hj Hx Hy. apply (Hu i j x y); auto. Qed.

Lemma unique_by_fmap p f m :
  unique_by p m → (∀ v, p (f v) = true → p v = true) → unique_by p (f <$> m).
Proof.
  intros Hu Hf i j x y. rewrite !lookup_fmap, !fmap_Some.
  intros (x0 & Hi & ->) (y0 & Hj & ->) Hx Hy. apply (Hu i j x0 y0); auto.
Qed.

Lemma unique_by_alter p f k m :
  unique_by p m → (∀ v, p (f v) = true → p v = true) → unique_by p (alter f k m).
Proof.
  intros Hu Hf i j x y Hi Hj Hx Hy.
  assert (Hold : ∀ i x, alter f k m !! i = Some x → p x = true → ∃ x0, m !! i = Some x0 ∧ p x0 = true).
  { intros i0 x0. rewrite lookup_alter_Some. intros [(<- & v & Hv & ->)|[_ Hv]]; eauto. }
  destruct (Hold i x Hi Hx) as (x0 & ? & ?), (Hold j y Hj Hy) as (y0 & ? & ?). eauto.
Qed.

Lemma unique_by_delete p k m : unique_by p m → unique_by p (delete k m).
Proof.
  intros Hu i j x y. rewrite !lookup_delete_Some. intros [_ Hi] [_ Hj]. eauto.
Qed.

Lemma map_Forall_alter (R : K → V → Prop) f k m :
  map_Forall R m → (∀ v, R k v → R k (f v)) → map_Forall R (alter f k m).
Proof.
  intros Hm Hf i x. rewrite lookup_alter_Some. intros [(<- & v & Hv & ->)|[_ Hv]]; auto.
Qed.
Lemma map_Forall_fmap_2 (R : K → V → Prop) f m :
  map_Forall R m → (∀ k v, R k v → R k (f v)) → map_Forall R (f <$> m).
Proof. intros Hm Hf i x. rewrite lookup_fmap, fmap_Some. intros (y & Hy & ->). auto. Qed.
End unique.

(** ** The schema *)

Definition known (ws : gmap UUID Wallet) (u : UUID) : Prop := is_Some (ws !! u).

Record wallets_ok (t : gmap UUID Wallet) : Prop := {
  wo_rows : map_Forall (λ k w, Wallet_ID w = k) t;
  wo_key c id : unique_by (λ w, bool_decide (Wallet_Chain w = c) && bool_decide (Wallet_KeyID w = id)) t;
}.
Definition at_slot (u : UUID) (i c : Z) (a : Address) : bool :=
  bool_decide (Address_WalletID a = u) && bool_decide (Address_Index a = i) &&
  bool_decide (Address_Change a = c).
Definition spelled (c s : string) (a : Address) : bool :=
  bool_decide (Address_Chain a = c) && bool_decide (Address_Address a = s).
Record addresses_ok (ws : gmap UUID Wallet) (t : gmap UUID Address) : Prop := {
  ao_rows : map_Forall (λ k a, Address_ID a = k ∧ known ws (Address_WalletID a)) t;
  ao_slot u i c : unique_by (at_slot u i c) t;
  ao_spelled c s : unique_by (spelled c s) t;
  ao_active u : unique_by (Mem.is_active_of u) t;
}.
Definition balance_row (ws : gmap UUID Wallet) (k : UUID * string) (b : Balance) : Prop :=
  k = (Balance_WalletID b, Balance_Asset b) ∧ known ws (Balance_WalletID b) ∧
  canonical (Balance_Confirmed b) ∧ canonical (Balance_Pending b) ∧ canonical (Balance_Locked b).
Definition utxo_row (ws : gmap UUID Wallet) (k : string) (u : UTXO) : Prop :=
  UTXO_Outpoint u = k ∧ known ws (UTXO_WalletID u) ∧ canonical (UTXO_Value u).
Definition nonce_row (ws : gmap UUID Wallet) (k : UUID * string) (n : Nonce) : Prop :=
  k = (Nonce_WalletID n, Nonce_Chain n) ∧ known ws (Nonce_WalletID n).
Definition withdrawal_row (ws : gmap UUID Wallet) (k : UUID) (r : WithdrawalRequest) : Prop :=
  WR_ID r = k ∧ known ws (WR_WalletID r) ∧ canonical (WR_Amount r).
Definition in_flight (w r : WithdrawalRequest) : bool :=
  Pg.inflight_state (WR_State r) && Pg.same_transfer w r.
Record withdrawals_ok (ws : gmap UUID Wallet) (t : gmap UUID WithdrawalRequest) : Prop := {
  ro_rows : map_Forall (withdrawal_row ws) t;
  ro_inflight w : unique_by (in_flight w) t;
}.
Definition key_row (ws : gmap UUID Wallet) (k : UUID * string) (m : KeyMapping) : Prop :=
  k = (KM_WalletID m, KM_KeyID m) ∧ known ws (KM_WalletID m).
Definition current_for (u : UUID) (m : KeyMapping) : bool :=
  Mem.is_current m && bool_decide (KM_WalletID m = u).
Record keys_ok (ws : gmap UUID Wallet) (t : gmap (UUID * string) KeyMapping) : Prop := {
  ko_rows : map_Forall (key_row ws) t;
  ko_current u : unique_by (current_for u) t;
}.
Definition funding_row (ws : gmap UUID Wallet) (k : UUID) (f : FundingRequest) : Prop :=
  FR_ID f = k ∧ known ws (FR_WalletID f) ∧ canonical (FR_Amount f).
Record funding_ok (ws : gmap UUID Wallet) (t : gmap UUID FundingRequest) : Prop := {
  fo_rows : map_Forall (funding_row ws) t;
  fo_open u a : unique_by (Mem.is_open_for u a) t;
}.
Record outbox_ok (t : gmap UUID AuditOutboxEvent) : Prop := {
  oo_rows : map_Forall (λ k e, AE_ID e = k) t;
  oo_event id : unique_by (λ e, bool_decide (AE_EventID e = id)) t;
}.

Record schema_ok (d : Db) : Prop := {
  so_wallets : wallets_ok (t_wallets d);
  so_addresses : addresses_ok (t_wallets d) (t_addresses d);
  so_balances : map_Forall (balance_row (t_wallets d)) (t_balances d);
  so_events e : unique_by (Pg.same_event e) (t_events d);
  so_utxos : map_Forall (utxo_row (t_wallets d)) (t_utxos d);
  so_nonces : map_Forall (nonce_row (t_wallets d)) (t_nonces d);
  so_withdrawals : withdrawals_ok (t_wallets d) (t_withdrawals d);
  so_keys : keys_ok (t_wallets d) (t_keys d);
  so_funding : funding_ok (t_wallets d) (t_funding d);
  so_outbox : outbox_ok (t_outbox d);
}.

Lemma schema_empty : schema_ok empty_db.
Proof. split; [split|split| | | | |split|split|split|split]; intros; first [apply map_Forall_empty|apply unique_by_empty]. Qed.

(** ** Statements keep the schema *)

Definition keeps_in (P : Db → Prop) {A} (m : GoM Db A) : Prop :=
  ∀ d, P d → match m d with (Ok _, d') => P d' | _ => True end.
Abbreviation keeps := (keeps_in schema_ok).

Section statements.
Context {PG : PgServer}.

Lemma canonical_in s n : numeric_in s = Some n → canonical (numeric_out n).
Proof. intros E. exists n. split; [by apply numeric_in_ok in E|done]. Qed.

(** Replacing one table. *)
Lemma schema_wallets f d :
  schema_ok d → wallets_ok (f (t_wallets d)) →
  (∀ u, known (t_wallets d) u → known (f (t_wallets d)) u) → schema_ok (with_wallets f d).
Proof.
  intros [Hw [A1 A2 A3 A4] Hb He Hu Hn [R1 R2] [K1 K2] [F1 F2] Ho] Hf Hk.
  split; simpl; try done.
  - split; [|done..]. intros k v Hv. destruct (A1 k v Hv). auto.
  - intros k v Hv. destruct (Hb k v Hv) as (? & ? & ?). split; auto.
  - intros k v Hv. destruct (Hu k v Hv) as (? & ? & ?). split; auto.
  - intros k v Hv. destruct (Hn k v Hv) as (? & ?). split; auto.
  - split; [|done..]. intros k v Hv. destruct (R1 k v Hv) as (? & ? & ?). split; auto.
  - split; [|done..]. intros k v Hv. destruct (K1 k v Hv) as (? & ?). split; auto.
  - split; [|done..]. intros k v Hv. destruct (F1 k v Hv) as (? & ? & ?). split; auto.
Qed.
Lemma schema_addresses f d :
  schema_ok d → addresses_ok (t_wallets d) (f (t_addresses d)) → schema_ok (with_addresses f d).
Proof. intros [] Hf. by split. Qed.
Lemma schema_balances f d :
  schema_ok d → map_Forall (balance_row (t_wallets d)) (f (t_balances d)) → schema_ok (with_balances f d).
Proof. intros [] Hf. by split. Qed.
Lemma schema_events f d :
  schema_ok d → (∀ e, unique_by (Pg.same_event e) (f (t_events d))) → schema_ok (with_events f d).
Proof. intros [] Hf. by split. Qed.
Lemma schema_utxos f d :
  schema_ok d → map_Forall (utxo_row (t_wallets d)) (f (t_utxos d)) → schema_ok (with_utxos f d).
Proof. intros [] Hf. by split. Qed.
Lemma schema_nonces f d :
  schema_ok d → map_Forall (nonce_row (t_wallets d)) (f (t_nonces d)) → schema_ok (with_nonces f d).
Proof. intros [] Hf. by split. Qed.
Lemma schema_withdrawals f d :
  schema_ok d → withdrawals_ok (t_wallets d) (f (t_withdrawals d)) → schema_ok (with_withdrawals f d).
Proof. intros [] Hf. by split. Qed.
Lemma schema_keys f d :
  schema_ok d → keys_ok (t_wallets d) (f (t_keys d)) → schema_ok (with_keys f d).
Proof. intros [] Hf. by split. Qed.
Lemma schema_funding f d :
  schema_ok d → funding_ok (t_wallets d) (f (t_funding d)) → schema_ok (with_funding f d).
Proof. intros [] Hf. by split. Qed.
Lemma schema_outbox f d :
  schema_ok d → outbox_ok (f (t_outbox d)) → schema_ok (with_outbox f d).
Proof. intros [] Hf. by split. Qed.
Lemma schema_seq f d : schema_ok d → schema_ok (with_seq f d).
Proof. intros []. by split. Qed.

(** Runs a statement through its checks. *)
Ltac run_checks :=
  unfold numeric_col, int4_null, int4_col, bigint_col, unique, primary_key, references_wallet,
    check, raise; go_eval.
(** The facts its checks have established. *)
Ltac checked :=
  repeat match goal with
  | H : bool_decide _ = true |- _ => apply bool_decide_eq_true in H
  | H : bool_decide _ = false |- _ => apply bool_decide_eq_false in H
  | H : (_ && _) = true |- _ => apply andb_true_iff in H as [? ?]
  end.

(** Two rows that agree with an index agree with each other. *)
Ltac by_index :=
  match goal with
  | HN : none_else _ _ _ = true |- _ =>
      solve [ eapply unique_by_checked; [done|exact HN|];
              unfold at_slot, spelled, in_flight, current_for, Mem.is_active_of, Mem.is_open_for,
                Pg.same_transfer;
              cbv beta; simpl; intros ? ? ?; checked; subst;
              repeat first [rewrite bool_decide_eq_true_2 by congruence | assumption | reflexivity
                           | apply andb_true_intro; split] ]
  end.

Lemma keeps_insert_wallet w now : keeps (Pg.insert_wallet w now).
Proof.
  intros d Hd. unfold Pg.insert_wallet. run_checks. checked.
  apply schema_wallets; [done| |].
  - destruct Hd as [[Hr Hk] _ _ _ _ _ _ _ _ _]. split.
    + by apply map_Forall_insert_2.
    + intros c id. by_index.
  - intros u Hu. unfold known. by apply lookup_insert_is_Some'; right.
Qed.

Lemma keeps_update_wallet_state id st now : keeps (Pg.update_wallet_state id st now).
Proof.
  intros d Hd. unfold Pg.update_wallet_state. go_cbv. apply schema_wallets; [done| |].
  - destruct Hd as [[Hr Hk] _ _ _ _ _ _ _ _ _]. split.
    + by apply map_Forall_alter.
    + intros c k. by apply unique_by_alter.
  - intros u Hu. unfold known. by apply lookup_alter_is_Some.
Qed.

Lemma keeps_insert_address a now : keeps (Pg.insert_address a now).
Proof.
  intros d Hd. unfold Pg.insert_address. run_checks. checked.
  apply schema_addresses; [done|]. destruct Hd as [_ [Hr H1 H2 H3] _ _ _ _ _ _ _ _].
  split; [by apply map_Forall_insert_2| | |]; intros; by_index.
Qed.

Lemma keeps_alter_address f id :
  (∀ a, Address_ID (f a) = Address_ID a ∧ Address_WalletID (f a) = Address_WalletID a ∧
        Address_Index (f a) = Address_Index a ∧ Address_Change (f a) = Address_Change a ∧
        Address_Chain (f a) = Address_Chain a ∧ Address_Address (f a) = Address_Address a ∧
        (Address_State (f a) = AddressStateActive → Address_State a = AddressStateActive)) →
  keeps (modify (with_addresses (alter f id))).
Proof.
  intros Hf d Hd. go_cbv. apply schema_addresses; [done|].
  destruct Hd as [_ [Hr H1 H2 H3] _ _ _ _ _ _ _ _].
  split; [apply map_Forall_alter; [done|]| | |]; intros;
    try (apply unique_by_alter; [done|]; unfold at_slot, spelled, Mem.is_active_of; intros v Hv);
    destruct (Hf v) as (E1 & E2 & E3 & E4 & E5 & E6 & E7); rewrite ?E1, ?E2, ?E3, ?E4, ?E5, ?E6 in *;
    try done.
  checked. by rewrite !bool_decide_eq_true_2 by auto.
Qed.

Lemma keeps_deprecate_address id now : keeps (Pg.deprecate_address id now).
Proof. apply keeps_alter_address. by intros a. Qed.

Lemma alter_insert_eq `{Countable K} {V} (f : V → V) (m : gmap K V) k v :
  m !! k = Some v → <[k := f v]> m = alter f k m.
Proof.
  intros E. apply map_eq. intros i. destruct (decide (i = k)) as [->|Hne].
  - by rewrite lookup_insert_eq, lookup_alter_eq, E.
  - by rewrite lookup_insert_ne, lookup_alter_ne.
Qed.

Lemma keeps_increment_receives id now : keeps (Pg.increment_receives id now).
Proof.
  intros d Hd. unfold Pg.increment_receives. run_checks. checked.
  assert (K : keeps (modify (with_addresses
                 (alter (Address_with_receives (Address_ReceiveCount a + 1)) id))))
    by (apply keeps_alter_address; by intros b).
  specialize (K d Hd). go_cbv in K. unfold with_addresses in *.
  by rewrite (alter_insert_eq _ _ _ _ Heqo).
Qed.

Lemma keeps_upsert_balance b now : keeps (Pg.upsert_balance b now).
Proof.
  intros d Hd. unfold Pg.upsert_balance. run_checks; checked;
    (apply schema_balances; [done|]; apply map_Forall_insert_2; [|by apply so_balances]);
    split_and!; simpl; eauto using canonical_in.
  match goal with E : t_balances d !! _ = Some _ |- _ =>
    destruct (so_balances d Hd _ _ E) as (Ek & Hk & _) end.
  injection Ek as -> _. exact Hk.
Qed.

Lemma keeps_insert_event e now : keeps (Pg.insert_event e now).
Proof.
  intros d Hd. unfold Pg.insert_event. run_checks. checked.
  apply schema_events; [done|]. intros e'. eapply unique_by_checked; [by apply so_events|done|].
  unfold Pg.same_event. intros Hv x Hx. checked. by rewrite !bool_decide_eq_true_2 by congruence.
Qed.

Lemma keeps_insert_utxo u now : keeps (Pg.insert_utxo u now).
Proof.
  intros d Hd. unfold Pg.insert_utxo. run_checks. checked. apply schema_utxos; [done|].
  apply map_Forall_insert_2; [|by apply so_utxos]. split_and!; simpl; eauto using canonical_in.
Qed.

(** Rows of a table change, their keys, owners and amounts do not. *)
Lemma keeps_alter_utxo f op :
  (∀ u, UTXO_Outpoint (f u) = UTXO_Outpoint u ∧ UTXO_WalletID (f u) = UTXO_WalletID u ∧
        UTXO_Value (f u) = UTXO_Value u) →
  keeps (modify (with_utxos (alter f op))).
Proof.
  intros Hf d Hd. go_cbv. apply schema_utxos; [done|].
  apply map_Forall_alter; [by apply so_utxos|]. unfold utxo_row.
  intros u. by destruct (Hf u) as (-> & -> & ->).
Qed.

Lemma keeps_lock_utxo op now : keeps (Pg.lock_utxo op now).
Proof.
  intros d Hd. unfold Pg.lock_utxo. run_checks.
  assert (K : keeps (modify (with_utxos (alter (λ u, UTXO_with_lock UTXOLockStateLocked (Some now)
                 (UTXO_SpentAt u) (UTXO_TxHash u) now u) op))))
    by (apply keeps_alter_utxo; by intros v).
  specialize (K d Hd). go_cbv in K. unfold with_utxos in *.
  rewrite <-(alter_insert_eq _ _ _ _ Heqo) in K. exact K.
Qed.

Lemma keeps_delete_utxo op now : keeps (Pg.delete_utxo op now).
Proof.
  intros d Hd. unfold Pg.delete_utxo. go_cbv. apply schema_utxos; [done|].
  apply map_Forall_delete. by apply so_utxos.
Qed.

Lemma keeps_upsert_nonce n now : keeps (Pg.upsert_nonce n now).
Proof.
  intros d Hd. unfold Pg.upsert_nonce. run_checks; checked;
    (apply schema_nonces; [done|]; apply map_Forall_insert_2; [|by apply so_nonces]);
    split; simpl; try done.
  match goal with E : t_nonces d !! _ = Some _ |- _ =>
    destruct (so_nonces d Hd _ _ E) as (Ek & Hk) end.
  injection Ek as -> _. exact Hk.
Qed.

Lemma keeps_insert_nonce u c now : keeps (Pg.insert_nonce u c now).
Proof.
  intros d Hd. unfold Pg.insert_nonce. run_checks. checked. apply schema_nonces; [done|].
  apply map_Forall_insert_2; [by split|by apply so_nonces].
Qed.

(** A nonce row that is overwritten with other counters. *)
Lemma schema_nonce_row u c n p b v now d :
  schema_ok d → t_nonces d !! (u, c) = Some n →
  schema_ok (with_nonces (insert (u, c) (Nonce_with p b v now n)) d).
Proof.
  intros Hd E. apply schema_nonces; [done|]. apply map_Forall_insert_2; [|by apply so_nonces].
  exact (so_nonces d Hd _ _ E).
Qed.

Lemma keeps_update_nonce u c p v now : keeps (Pg.update_nonce u c p v now).
Proof. intros d Hd. unfold Pg.update_nonce. run_checks. by apply schema_nonce_row. Qed.
Lemma keeps_rollback_nonce u c to now : keeps (Pg.rollback_nonce u c to now).
Proof. intros d Hd. unfold Pg.rollback_nonce. run_checks. by apply schema_nonce_row. Qed.
Lemma keeps_advance_nonce u c next now : keeps (Pg.advance_nonce u c next now).
Proof.
  intros d Hd. unfold Pg.advance_nonce. go_cbv. apply schema_nonces; [done|].
  apply map_Forall_alter; [by apply so_nonces|]. done.
Qed.

Lemma in_flight_checked row w t :
  (∀ w, unique_by (in_flight w) t) →
  none_else (λ r, Pg.inflight_state (WR_State row) && Pg.inflight_state (WR_State r) &&
                  Pg.same_transfer row r) (WR_ID row) t = true →
  unique_by (in_flight w) (<[WR_ID row := row]> t).
Proof.
  intros Hu HN. eapply unique_by_checked; [done|exact HN|].
  unfold in_flight, Pg.same_transfer. intros Hv x Hx. checked. simplify_eq.
  repeat (apply andb_true_intro; split); try done; apply bool_decide_eq_true; congruence.
Qed.

Lemma keeps_insert_withdrawal w now : keeps (Pg.insert_withdrawal w now).
Proof.
  intros d Hd. unfold Pg.insert_withdrawal, Pg.inflight_index. run_checks. checked.
  apply schema_withdrawals; [done|]. destruct (so_withdrawals d Hd) as [Hr Hu]. split.
  - apply map_Forall_insert_2; [|done]. split_and!; simpl; eauto using canonical_in.
  - intros w'. by apply (in_flight_checked (mkWithdrawal _ _ _ _ _ _ _ _ _ _ _ _ _ _)).
Qed.

Lemma keeps_update_withdrawal id st reason tx pd now :
  keeps (Pg.update_withdrawal id st reason tx pd now).
Proof.
  intros d Hd. unfold Pg.update_withdrawal, Pg.inflight_index. run_checks. checked.
  apply schema_withdrawals; [done|]. destruct (so_withdrawals d Hd) as [Hr Hu].
  pose proof (Hr _ _ Heqo) as Hrow. split.
  - apply map_Forall_insert_2; [exact Hrow|done].
  - intros w'. destruct Hrow as [<- _].
    by apply (in_flight_checked (WR_with_state _ _ _ _ _ _)).
Qed.

(** The columns of the build do not occur in an index. *)
Lemma keeps_alter_build f id :
  (∀ w, ∃ n ops tx now, f w = WR_with_build n ops tx now w) →
  keeps (modify (with_withdrawals (alter f id))).
Proof.
  intros Hf d Hd. go_cbv. apply schema_withdrawals; [done|].
  destruct (so_withdrawals d Hd) as [Hr Hu]. split.
  - apply map_Forall_alter; [done|]. intros w. by destruct (Hf w) as (? & ? & ? & ? & ->).
  - intros w'. apply unique_by_alter; [done|]. intros w. by destruct (Hf w) as (? & ? & ? & ? & ->).
Qed.

Lemma keeps_update_outpoints id ops now : keeps (Pg.update_outpoints id ops now).
Proof.
  intros d Hd. unfold Pg.update_outpoints. run_checks.
  assert (K : keeps (modify (with_withdrawals (alter (λ w,
      WR_with_build (WR_NonceValue w) l (WR_SignedTxBytes w) now w) id))))
    by (apply keeps_alter_build; eauto 10).
  specialize (K d Hd). go_cbv in K. unfold with_withdrawals in *.
  rewrite <-(alter_insert_eq _ _ _ _ Heqo) in K. exact K.
Qed.

Lemma keeps_bind_key m now : keeps (Pg.bind_key m now).
Proof.
  intros d Hd. unfold Pg.bind_key, Pg.current_index. run_checks. checked.
  apply schema_keys; [done|]. destruct (so_keys d Hd) as [Hr Hu]. split.
  - apply map_Forall_insert_2; [by split|done].
  - intros u. by_index.
Qed.

(** A mapping that stops being current, or stays what it is. *)
Lemma keeps_fmap_keys f :
  (∀ m, KM_WalletID (f m) = KM_WalletID m ∧ KM_KeyID (f m) = KM_KeyID m ∧
        (Mem.is_current (f m) = true → Mem.is_current m = true)) →
  keeps (modify (with_keys (fmap f))).
Proof.
  intros Hf d Hd. go_cbv. apply schema_keys; [done|]. destruct (so_keys d Hd) as [Hr Hu]. split.
  - apply map_Forall_fmap_2; [done|]. unfold key_row. intros k m.
    by destruct (Hf m) as (-> & -> & _).
  - intros u. apply unique_by_fmap; [done|]. unfold current_for. intros m Hm.
    apply andb_true_iff in Hm as [Hc Hw]. destruct (Hf m) as (E & _ & Hi). rewrite E in Hw.
    by rewrite Hi, Hw.
Qed.

Lemma keeps_cool_keys u to now : keeps (Pg.cool_keys u to now).
Proof.
  apply keeps_fmap_keys. intros m. unfold Mem.cool. case_bool_decide; [|by split_and!].
  destruct (Mem.is_current m) eqn:E; split_and!; try done. by rewrite E.
Qed.
Lemma keeps_expire now : keeps (modify (with_keys (fmap (Mem.expire now)))).
Proof.
  apply keeps_fmap_keys. intros m. unfold Mem.expire.
  destruct (KM_ActiveTo m); [destruct (Mem.is_cooling m && _)|]; by split_and!.
Qed.

Lemma keeps_make_current u k now : keeps (Pg.make_current u k now).
Proof.
  intros d Hd. unfold Pg.make_current, Pg.current_index. run_checks; checked;
    (apply schema_keys; [done|]); destruct (so_keys d Hd) as [Hr Hu]; split.
  - apply map_Forall_insert_2; [|done]. exact (Hr _ _ Heqo).
  - destruct (Hr _ _ Heqo) as [[= -> ->] _]. intros u'. by_index.
  - by apply map_Forall_insert_2.
  - intros u'. by_index.
Qed.

Lemma keeps_insert_funding f now : keeps (Pg.insert_funding f now).
Proof.
  intros d Hd. unfold Pg.insert_funding, Pg.open_index. run_checks. checked.
  apply schema_funding; [done|]. destruct (so_funding d Hd) as [Hr Hu]. split.
  - apply map_Forall_insert_2; [|done]. split_and!; simpl; eauto using canonical_in.
  - intros u a. by_index.
Qed.

Lemma keeps_update_funding id st batch now : keeps (Pg.update_funding id st batch now).
Proof.
  intros d Hd. unfold Pg.update_funding, Pg.open_index. run_checks. checked.
  apply schema_funding; [done|]. destruct (so_funding d Hd) as [Hr Hu].
  pose proof (Hr _ _ Heqo) as Hrow. split.
  - by apply map_Forall_insert_2.
  - destruct Hrow as [<- _]. intros u a. by_index.
Qed.

Lemma keeps_insert_audit e now : keeps (Pg.insert_audit e now).
Proof.
  intros d Hd. unfold Pg.insert_audit. run_checks. checked.
  apply schema_outbox; [done|]. destruct (so_outbox d Hd) as [Hr Hu]. split.
  - by apply map_Forall_insert_2.
  - intros id. by_index.
Qed.

Lemma keeps_mark_delivered id now : keeps (Pg.mark_delivered id now).
Proof.
  intros d Hd. unfold Pg.mark_delivered. run_checks. apply schema_outbox; [done|].
  destruct (so_outbox d Hd) as [Hr Hu]. rewrite (alter_insert_eq (AE_delivered now) _ _ _ Heqo). split.
  - by apply map_Forall_alter.
  - intros k. by apply unique_by_alter.
Qed.

Lemma keeps_next_seq u now : keeps (Pg.next_seq u now).
Proof. intros d Hd. unfold Pg.next_seq. run_checks. by apply schema_seq. Qed.
End statements.

(** ** Methods keep what their statements keep *)

(** [P] holds of the tables, committed and as the running transaction sees them. *)
Record tables_in (P : Db → Prop) (w : PgWorld) : Prop := {
  po_db : P (pg_db w);
  po_tx t : pg_tx w = Some t → P (tx_db t);
}.
Abbreviation pg_ok := (tables_in schema_ok).

Lemma tables_new (P : Db → Prop) : P empty_db → tables_in P NewPgWorld.
Proof. by split. Qed.
Lemma pg_ok_new : pg_ok NewPgWorld.
Proof. apply tables_new, schema_empty. Qed.

Lemma tables_view P w : tables_in P w → P (view w).
Proof. intros [Hd Ht]. unfold view. destruct (pg_tx w) as [t|] eqn:E; [by apply Ht|done]. Qed.

Abbreviation pg_rel := (preserving pg_ok).

Section methods.
Context {PG : PgServer} {GR : GoRuntime} {UL : UuidLib}.
Implicit Types (P : Db → Prop).

Lemma tables_fail_tx P w : tables_in P w → tables_in P (fail_tx w).
Proof.
  intros [Hd Ht]. split; [done|]. simpl. intros t'. rewrite fmap_Some.
  intros (t & E & ->). by apply (Ht t).
Qed.

Lemma call_keeps P : respects (preserving (tables_in P)) call.
Proof.
  intros w Hw. unfold call. assert (Hc : tables_in P (called w)) by (by destruct Hw).
  destruct (call_fault _); [by apply tables_fail_tx|].
  destruct (pg_tx w) as [t|]; [by destruct (tx_failed t)|done].
Qed.

Lemma run_stmt_keeps {A} P now (stmt : Z → GoM Db A) :
  (∀ n, keeps_in P (stmt n)) → respects (preserving (tables_in P)) (run_stmt now stmt).
Proof.
  intros Hs w Hw. unfold run_stmt. destruct (pg_tx w) as [t|] eqn:Et.
  - pose proof (Hs (tx_now t) (tx_db t) (po_tx P w Hw t Et)) as Hk.
    destruct (stmt (tx_now t) (tx_db t)) as [[a|e] d]; simpl; [|by apply tables_fail_tx].
    split; [by destruct Hw|]. simpl. by intros t' [= <-].
  - pose proof (Hs now (pg_db w) (po_db P w Hw)) as Hk.
    destruct (stmt now (pg_db w)) as [[a|e] d]; simpl; [|done].
    split; [done|]. simpl. rewrite Et. done.
Qed.

Lemma exec_keeps {A} P (stmt : Z → GoM Db A) :
  (∀ n, keeps_in P (stmt n)) → respects (preserving (tables_in P)) (exec stmt).
Proof.
  intros Hs. unfold exec. pose proof (call_keeps P). pose proof (λ n, run_stmt_keeps P n stmt Hs).
  go_respects.
Qed.
Lemma query_keeps {A} P (q : Db → A) : respects (preserving (tables_in P)) (query q).
Proof. unfold query. pose proof (call_keeps P). go_respects. Qed.
Lemma fail_tx_keeps P : respects (preserving (tables_in P)) (modify fail_tx).
Proof. intros w Hw. by apply tables_fail_tx. Qed.

Lemma BeginTx_keeps P : respects (preserving (tables_in P)) BeginTx.
Proof.
  intros w [Hd Ht]. unfold BeginTx. destruct (call_fault _); [by split|].
  split; [done|]. simpl. by intros t [= <-].
Qed.
Lemma Commit_keeps P : respects (preserving (tables_in P)) Commit.
Proof.
  intros w [Hd Ht]. unfold Commit. destruct (call_fault _); [by split|].
  destruct (pg_tx w) as [t|] eqn:E; [|by split].
  destruct (tx_failed t); [by split|]. case_bool_decide; [|by split]. split; [by apply Ht|done].
Qed.

Lemma InTx_keeps {A} P (fn : GoM PgWorld A) :
  respects (preserving (tables_in P)) fn → respects (preserving (tables_in P)) (Pg.InTx fn).
Proof.
  intros Hfn w Hw.
  assert (Hbody : respects (preserving (tables_in P)) (BeginTx;; r ← try fn;
            match r with Err err => ignore Rollback;; fail err | Ok a => Commit;; mret a end)).
  { pose proof (BeginTx_keeps P). pose proof (Commit_keeps P).
    assert (respects (preserving (tables_in P)) Rollback) by (intros w' [Hd _]; by split).
    go_respects. }
  unfold Pg.InTx. go_cbv. specialize (Hbody w Hw). go_cbv in Hbody.
  destruct (BeginTx w) as [[[]|e] w1]; [|split; [by destruct Hbody|by destruct Hw]].
  destruct (fn w1) as [[a|e] w2]; [|split; [by destruct Hbody|by destruct Hw]].
  destruct (Commit w2) as [[[]|e] w3]; (split; [by destruct Hbody|by destruct Hw]).
Qed.

Lemma on_proc_keeps {A} P (m : GoM World A) : respects (preserving (tables_in P)) (on_proc m).
Proof. intros w [Hd Ht]. unfold on_proc. destruct (m _). by split. Qed.
Lemma scan_row_keeps {A} P (r : option A) : respects (preserving (tables_in P)) (scan_row r).
Proof. destruct r; unfold scan_row; go_respects. Qed.

(** A query leaves what is visible as it is and answers from it. *)
Lemma call_view w : view (call w).2 = view w.
Proof.
  unfold call. destruct (call_fault _) as [e|].
  - unfold view. simpl. by destruct (pg_tx w).
  - destruct (pg_tx w) as [t|] eqn:E; [|done]. by destruct (tx_failed t).
Qed.
Lemma query_run {A} (q : Db → A) w r w' :
  query q w = (r, w') → view w' = view w ∧ ∀ a, r = Ok a → a = q (view w).
Proof.
  pose proof (call_view w) as Hv. unfold query. go_cbv.
  destruct (call w) as [[[]|e] w1]; simpl in Hv; intros [= <- <-]; (split; [done|]).
  - intros a [= <-]. by rewrite Hv.
  - done.
Qed.
(** Queries and steps of the process do not change what is visible. *)
Lemma query_view {A} (q : Db → A) : respects (framing view) (query q).
Proof. intros w. destruct (query q w) as [r w'] eqn:E. by apply query_run in E as [? _]. Qed.
Lemma on_proc_view {A} (m : GoM World A) : respects (framing view) (on_proc m).
Proof. intros w. unfold on_proc, framing. by destruct (m _). Qed.
Lemma scan_row_view {A} (r : option A) : respects (framing view) (scan_row r).
Proof. intros w. by destruct r. Qed.

(** A statement is run on what is visible, or changes nothing; the process stays. *)
Lemma call_proc w : pg_proc (call w).2 = pg_proc w.
Proof.
  unfold call. destruct (call_fault _); [done|]. destruct (pg_tx w) as [t|]; [|done].
  by destruct (tx_failed t).
Qed.
Lemma query_proc {A} (q : Db → A) w : pg_proc (query q w).2 = pg_proc w.
Proof.
  pose proof (call_proc w) as Hp. unfold query. go_cbv. by destruct (call w) as [[[]|e] w1].
Qed.
Lemma exec_proc {A} (stmt : Z → GoM Db A) w : pg_proc (exec stmt w).2 = pg_proc w.
Proof.
  pose proof (call_proc w) as Hp. unfold exec. go_cbv. destruct (call w) as [[[]|e] w1]; [|done].
  unfold run_stmt. simpl in *. rewrite <-Hp.
  destruct (pg_tx w1); [by destruct (stmt _ _) as [[]]|by destruct (stmt _ _) as [[]]].
Qed.
Lemma exec_outcome {A} (stmt : Z → GoM Db A) w :
  (∃ n a d, stmt n (view w) = (Ok a, d) ∧ (exec stmt w).1 = Ok a ∧ view (exec stmt w).2 = d) ∨
  (is_ok (exec stmt w).1 = false ∧ view (exec stmt w).2 = view w).
Proof.
  pose proof (call_view w) as Hv. unfold exec. go_cbv.
  destruct (call w) as [[[]|e] w1]; simpl in Hv; [|by right]. unfold run_stmt.
  revert Hv. unfold view at 1. intros Hv. destruct (pg_tx w1) as [t|] eqn:Et.
  - destruct (stmt (tx_now t) (tx_db t)) as [[a|e] d] eqn:E.
    + left. exists (tx_now t), a, d. by rewrite <-Hv.
    + right. split; [done|]. rewrite <-Hv. unfold view. simpl. by rewrite Et.
  - destruct (stmt (now_at (pg_calls w)) (pg_db w1)) as [[a|e] d] eqn:E.
    + left. eexists _, a, d. rewrite <-Hv. split; [exact E|]. split; [done|].
      unfold view. simpl. by rewrite Et.
    + right. split; [done|]. rewrite <-Hv. unfold view. by rewrite Et.
Qed.

(** A body that fails, with nothing visible changed. *)
Definition refuses {A} (m : GoM PgWorld A) : Prop :=
  ∀ w, is_ok (m w).1 = false ∧ view (m w).2 = view w.

Lemma refuses_fail {A} e : refuses (fail e : GoM PgWorld A).
Proof. by intros w. Qed.
Lemma refuses_wrap {A} f args (m : GoM PgWorld A) : refuses m → refuses (wrap f args m).
Proof. intros Hm w. specialize (Hm w). unfold wrap. by destruct (m w) as [[]]. Qed.
Lemma refuses_bind_l {A B} (m : GoM PgWorld A) (f : A → GoM PgWorld B) : refuses m → refuses (m ≫= f).
Proof.
  intros Hm w. specialize (Hm w). unfold mbind, GoM_bind.
  destruct (m w) as [[a|e] w']; [by destruct Hm|done].
Qed.
Lemma refuses_bind {A B} (m : GoM PgWorld A) (f : A → GoM PgWorld B) :
  respects (framing view) m → (∀ a, refuses (f a)) → refuses (m ≫= f).
Proof.
  intros Hm Hf w. specialize (Hm w). unfold framing in Hm. unfold mbind, GoM_bind.
  destruct (m w) as [[a|e] w']; simpl in *; [|by split].
  destruct (Hf a w') as [H1 H2]. split; [done|]. by rewrite H2.
Qed.

(** A statement that cannot succeed changes nothing. *)
Lemma exec_refuses {A} (stmt : Z → GoM Db A) :
  (∀ n d, is_ok (stmt n d).1 = false) → refuses (exec stmt).
Proof.
  intros Hs w. destruct (exec_outcome stmt w) as [(n & a & d & E & _)|H]; [|done].
  specialize (Hs n (view w)). by rewrite E in Hs.
Qed.

Lemma elem_of_scan_rows `{Countable K} {V} (m : gmap K V) v :
  v ∈ scan_rows m ↔ ∃ k, m !! k = Some v.
Proof.
  rewrite scan_rows_perm, list_elem_of_fmap. split.
  - intros ([k v'] & -> & Hk%elem_of_map_to_list). eauto.
  - intros [k Hk]. exists (k, v). split; [done|]. by apply elem_of_map_to_list.
Qed.
End methods.

#[export] Hint Resolve exec_keeps query_keeps fail_tx_keeps InTx_keeps on_proc_keeps
  scan_row_keeps query_view on_proc_view scan_row_view : gorel.
#[export] Hint Resolve keeps_insert_wallet keeps_update_wallet_state keeps_insert_address
  keeps_deprecate_address keeps_increment_receives keeps_upsert_balance keeps_insert_event
  keeps_insert_utxo keeps_lock_utxo keeps_delete_utxo keeps_upsert_nonce keeps_insert_nonce
  keeps_update_nonce keeps_rollback_nonce keeps_advance_nonce keeps_insert_withdrawal
  keeps_update_withdrawal keeps_update_outpoints keeps_bind_key keeps_cool_keys keeps_expire
  keeps_make_current keeps_insert_funding keeps_update_funding keeps_insert_audit
  keeps_mark_delivered keeps_next_seq : gorel.
