(* ===== verification/Deriver.v ===== *)
(** * Deriver: address derivation (internal/deriver)

    The per-chain derivers over an extended public key, memoized in the cache, and the EIP-55
    spelling of an address.  Key derivation, curve points, bech32 and base58 are third-party
    packages, so they are parameters. *)

From S2P Require Import Prelude GoLib Bytes Extern Domain Storage.
From S2P Require Import Memstore Cache Evm.

Local Open Scope Z_scope.

(** [hdkeychain], [btcec], [btcutil.Hash160] and [bech32].  A public key is a curve point; its
    coordinates are field elements, and its compressed form has 33 bytes and parses back. *)
Class HdLib := {
  ExtKey : Type;
  PubKey : Type;
  hd_NewKeyFromString : string → res ExtKey;
  hd_Derive : ExtKey → Z → res ExtKey;
  hd_ECPubKey : ExtKey → res PubKey;
  pub_X : PubKey → Z;
  pub_Y : PubKey → Z;
  pub_X_range : ∀ p, 0 ≤ pub_X p < 2 ^ 256;
  pub_Y_range : ∀ p, 0 ≤ pub_Y p < 2 ^ 256;
  SerializeCompressed : PubKey → bytes;
  SerializeCompressed_length : ∀ p, length (SerializeCompressed p) = 33%nat;
  btcec_ParsePubKey : bytes → res PubKey;
  ParsePubKey_Serialize : ∀ p, btcec_ParsePubKey (SerializeCompressed p) = Ok p;
  Hash160 : bytes → bytes;
  bech32_ConvertBits : bytes → Z → Z → bool → res bytes;
  bech32_Encode : string → bytes → res string;
}.

Record Result := mkResult {
  R_Address : string;
  R_DerivationPath : string;
  R_Index : Z;
  R_Change : Z;
}.

(** ** Helpers *)

(** [strings.TrimSpace] on a string. *)
Definition ParseXpub (s : string) : res string :=
  let s := trim s in
  if bool_decide (s = EmptyString) then Err (Errorf "empty xpub" []) else Ok s.

Definition nonHardened (n : Z) : res Z :=
  if (n <? 0) || (0x80000000 <=? n)
  then Err (Errorf "derivation index %d out of non-hardened range" [FInt n])
  else Ok n.

(** [hex.EncodeToString] and, on ASCII text, [strings.ToLower]. *)
Definition hex_EncodeToString (l : bytes) : bytes := hex_text (map (λ b, (b, false, false)) l).
Definition ToLower (l : bytes) : bytes :=
  map (λ c, if (65 <=? c) && (c <=? 90) then c + 32 else c) l.

(** [copy(out[:n], b)] into a zeroed buffer. *)
Definition copy_zeroed (n : nat) (b : bytes) : bytes := take n (b ++ replicate n 0).

Section evm_address.
Context {CL : CryptoLib} {HD : HdLib}.

Definition eip55Checksum (addr : bytes) : bytes :=
  let addrLower := ToLower (TrimPrefix (bytes_of_string "0x") addr) in
  let hh := hex_EncodeToString (keccak256 addrLower) in
  bytes_of_string "0x" ++
    imap (λ i c, if (48 <=? c) && (c <=? 57) then c
                 else if 56 <=? nth i hh 0 then (c - 32) `mod` 256 else c) addrLower.

Definition decompressSecp256k1 (compressed : bytes) : res bytes :=
  if negb (length compressed =? 33)%nat
  then Err (Errorf "invalid compressed pubkey length %d" [FInt (Z.of_nat (length compressed))])
  else match btcec_ParsePubKey compressed with
       | Err err => Err (Wrapf "parse pubkey: %w" [] err)
       | Ok pk => Ok (4 :: copy_zeroed 32 (big_Bytes (pub_X pk)) ++ copy_zeroed 32 (big_Bytes (pub_Y pk)))
       end.

(** [None] is a panic; [evm_address_total] shows that the deriver never reaches one. *)
Definition evmAddressFromCompressedPubkey (compressed : bytes) : option string :=
  if negb (length compressed =? 33)%nat then None
  else match decompressSecp256k1 compressed with
       | Err _ => None
       | Ok pub =>
           let digest := keccak256 (drop 1 pub) in
           Some (string_of_bytes (eip55Checksum (hex_EncodeToString (drop 12 digest))))
       end.
End evm_address.

(** ** The derivers *)

Section derivers.
Context {CL : CryptoLib} {HD : HdLib}.

Definition bind_res {A B} (r : res A) (f : A → res B) : res B :=
  match r with Ok a => f a | Err e => Err e end.
Definition wrap_res {A} (format : string) (args : list fmtarg) (r : res A) : res A :=
  match r with Ok a => Ok a | Err e => Err (Wrapf format args e) end.

(** The panic, were it reached. *)
Definition evm_panic : error := New "expected 33-byte compressed pubkey".

Definition evm_deriveUncached (xpub : string) (index : Z) : res string :=
  bind_res (wrap_res "parse xpub: %w" [] (hd_NewKeyFromString xpub)) (λ acc,
  bind_res (wrap_res "derive external chain: %w" [] (hd_Derive acc 0)) (λ external,
  bind_res (nonHardened index) (λ childIdx,
  bind_res (wrap_res "derive index %d: %w" [FInt index] (hd_Derive external childIdx)) (λ child,
  bind_res (wrap_res "ec pubkey: %w" [] (hd_ECPubKey child)) (λ pub,
  match evmAddressFromCompressedPubkey (SerializeCompressed pub) with
  | Some a => Ok a
  | None => Err evm_panic
  end))))).

Definition bech32Address (hrp : string) (witness : bytes) : res string :=
  bind_res (bech32_ConvertBits (drop 1 witness) 8 5 true) (λ conv,
  bech32_Encode hrp (take 1 witness ++ conv)).

Definition btc_deriveUncached (xpub : string) (index change : Z) : res string :=
  bind_res (wrap_res "parse xpub: %w" [] (hd_NewKeyFromString xpub)) (λ acc,
  bind_res (nonHardened change) (λ changeIdx,
  bind_res (wrap_res "derive change chain %d: %w" [FInt change] (hd_Derive acc changeIdx))
    (λ changeBranch,
  bind_res (nonHardened index) (λ childIdx,
  bind_res (wrap_res "derive index %d: %w" [FInt index] (hd_Derive changeBranch childIdx)) (λ child,
  bind_res (wrap_res "ec pubkey: %w" [] (hd_ECPubKey child)) (λ pub,
  bech32Address "bc" (0 :: Hash160 (SerializeCompressed pub)))))))).

Definition evm_key (xpub : string) (index : Z) : string :=
  ("deriv:evm:" +:+ xpub +:+ ":" +:+ FormatInt index)%string.
Definition btc_key (xpub : string) (change index : Z) : string :=
  ("deriv:btc:" +:+ xpub +:+ ":" +:+ FormatInt change +:+ ":" +:+ FormatInt index)%string.
Definition sol_key (pubkey : string) : string := ("deriv:sol:" +:+ pubkey)%string.

Definition evm_path (index : Z) : string := ("m/44'/60'/0'/0/" +:+ FormatInt index)%string.
Definition btc_path (change index : Z) : string :=
  ("m/84'/0'/0'/" +:+ FormatInt change +:+ "/" +:+ FormatInt index)%string.
Definition sol_path : string := "m/44'/501'/0'/0'".

Section cached.
Context {W : Type} {C : Cache W}.

(** Read the cache, else derive and store; a cache error is a miss, and a failed store is
    ignored. *)
Definition memoized (key : string) (ttl : Z) (derive : res string) : GoM W string :=
  r ← try (cache_Get key);
  match r with
  | Ok (v, true) => mret v
  | _ =>
      addr ← ret_res derive;
      ignore (cache_Set key addr ttl);;
      mret addr
  end.

Definition evm_DeriveAt (xpub : string) (ttl : Z) (chain : Chain) (index change : Z) :
    GoM W Result :=
  if negb (IsEVM chain) then fail (Errorf "non-EVM chain %q passed to EVMDeriver" [FStr chain])
  else if negb (change =? 0) then fail (Errorf "EVM change chain must be 0" [])
  else if index <? 0 then fail (Errorf "EVM index must be >= 0" [])
  else
    addr ← memoized (evm_key xpub index) ttl (evm_deriveUncached xpub index);
    mret (mkResult addr (evm_path index) index change).

Definition btc_DeriveAt (xpub : string) (ttl : Z) (chain : Chain) (index change : Z) :
    GoM W Result :=
  if negb (bool_decide (chain = ChainBitcoin))
  then fail (Errorf "non-BTC chain %q passed to BTCDeriver" [FStr chain])
  else if negb (change =? 0) && negb (change =? 1)
  then fail (Errorf "BTC change chain must be 0 or 1" [])
  else if index <? 0 then fail (Errorf "BTC index must be >= 0" [])
  else
    addr ← memoized (btc_key xpub change index) ttl (btc_deriveUncached xpub index change);
    mret (mkResult addr (btc_path change index) index change).

Definition sol_DeriveAt (pubkey : string) (ttl : Z) (chain : Chain) (index change : Z) :
    GoM W Result :=
  if negb (bool_decide (chain = ChainSolana))
  then fail (Errorf "non-Solana chain %q passed to SolanaDeriver" [FStr chain])
  else
    addr ← memoized (sol_key pubkey) ttl (Ok pubkey);
    mret (mkResult addr sol_path 0 0).

(** [DeriveNext] of the three derivers. *)
Definition evm_DeriveNext (xpub : string) (ttl : Z) (chain : Chain) (change : Z) : GoM W Result :=
  if negb (change =? 0) then fail (Errorf "EVM deriver does not support change chain" [])
  else evm_DeriveAt xpub ttl chain (-1) change.
Definition btc_DeriveNext (chain : Chain) (change : Z) : GoM W Result :=
  if negb (bool_decide (chain = ChainBitcoin))
  then fail (Errorf "non-BTC chain %q passed to BTCDeriver" [FStr chain])
  else if negb (change =? 0) && negb (change =? 1)
  then fail (Errorf "BTC change chain must be 0 or 1" [])
  else fail (Errorf "DeriveNext requires an index for BTC; use DeriveAt" []).
Definition sol_DeriveNext (pubkey : string) (ttl : Z) (chain : Chain) (change : Z) :
    GoM W Result := sol_DeriveAt pubkey ttl chain 0 change.

(** [Registry]: the keys of its three derivers, and their common time to live. *)
Record Registry := mkRegistry {
  reg_evm : string;
  reg_solana : string;
  reg_btc : string;
  reg_ttl : Z;
}.

(** [For(chain)] and then [DeriveAt]. *)
Definition For (reg : Registry) (chain : Chain) : res (Z → Z → GoM W Result) :=
  if IsEVM chain then Ok (evm_DeriveAt (reg_evm reg) (reg_ttl reg) chain)
  else if bool_decide (chain = ChainSolana)
  then Ok (sol_DeriveAt (reg_solana reg) (reg_ttl reg) chain)
  else if bool_decide (chain = ChainBitcoin)
  then Ok (btc_DeriveAt (reg_btc reg) (reg_ttl reg) chain)
  else Err (Errorf "no deriver for chain %q" [FStr chain]).
End cached.

(** The constructors' parsing of the keys; the network of [NewBTC] is not used by any
    derivation. *)
Definition NewEVM (xpub : string) : res string := ParseXpub xpub.
Definition NewBTC (xpub : string) : res string := ParseXpub xpub.
Definition fromHexChar (c : Z) : Z :=
  if (48 <=? c) && (c <=? 57) then c - 48
  else if (97 <=? c) && (c <=? 102) then c - 97 + 10
  else if (65 <=? c) && (c <=? 70) then c - 65 + 10
  else 0.
Definition is_hex_char (c : Z) : bool :=
  negb (((c <? 48) || (57 <? c)) && ((c <? 97) || (102 <? c)) && ((c <? 65) || (70 <? c))).
(** The loop ranges over runes; the first byte of a rune outside ASCII is no hex digit either. *)
Definition isHex32 (s : bytes) : bool :=
  if negb (length s =? 64)%nat then false else forallb is_hex_char s.
Fixpoint hexDecode (n : nat) (s : bytes) : bytes :=
  match n, s with
  | S n, hi :: lo :: s => Z.lor (Z.shiftl (fromHexChar hi) 4) (fromHexChar lo) :: hexDecode n s
  | _, _ => []
  end.
Definition hexDecode32 (s : bytes) : bytes := hexDecode 32 s.

(** [NewSolana]: a hex key is turned into its base58 spelling. *)
Definition NewSolana (pubkey : string) : res string :=
  bind_res (ParseXpub pubkey) (λ pubkey,
  Ok (if isHex32 (bytes_of_string pubkey)
      then base58_Encode (hexDecode32 (bytes_of_string pubkey)) else pubkey)).
End derivers.

(** ** EIP-55 *)

Lemma hex_char_case up n :
  0 ≤ n < 16 →
  (if (48 <=? hex_char false n) && (hex_char false n <=? 57) then hex_char false n
   else if (up : bool) then (hex_char false n - 32) `mod` 256 else hex_char false n) =
  hex_char up n.
Proof.
  intros Hn. assert (Hc : n ∈ [0; 1; 2; 3; 4; 5; 6; 7; 8; 9; 10; 11; 12; 13; 14; 15])
    by (rewrite !elem_of_cons; lia).
  rewrite !elem_of_cons, elem_of_nil in Hc. destruct up;
    repeat (destruct Hc as [->|Hc]; [reflexivity|]); done.
Qed.

Lemma ToLower_hex l : Forall is_byte l → ToLower (hex_EncodeToString l) = hex_EncodeToString l.
Proof.
  assert (Hc : ∀ n, 0 ≤ n < 16 →
    (if (65 <=? hex_char false n) && (hex_char false n <=? 90) then hex_char false n + 32
     else hex_char false n) = hex_char false n).
  { intros n Hn. unfold hex_char. destruct (Z.ltb_spec n 10).
    - by rewrite (proj2 (Z.leb_gt 65 (48 + n))) by lia.
    - by rewrite (proj2 (Z.leb_gt (97 + (n - 10)) 90)), andb_false_r by lia. }
  unfold ToLower, hex_EncodeToString, hex_text.
  induction 1 as [|b l Hb _ IH]; [done|]. unfold is_byte in Hb.
  cbn [map concat hex_byte app]. rewrite !Hc by (Z.to_euclidean_division_equations; lia).
  by rewrite IH.
Qed.

(** Recasing the hex text of [l] digit by digit. *)
Lemma recase_hex (up : nat → bool) l :
  Forall is_byte l →
  imap (λ i c, if (48 <=? c) && (c <=? 57) then c
               else if up i then (c - 32) `mod` 256 else c) (hex_EncodeToString l) =
  hex_text (imap (λ j b, (b, up (2 * j)%nat, up (2 * j + 1)%nat)) l).
Proof.
  unfold hex_EncodeToString, hex_text. intros Hl. revert up.
  induction Hl as [|b l Hb _ IH]; intros up; [done|]. unfold is_byte in Hb.
  cbn [map concat hex_byte app]. rewrite !imap_cons. unfold compose. cbv beta. cbn [map concat hex_byte app].
  rewrite !hex_char_case by (Z.to_euclidean_division_equations; lia).
  f_equal. f_equal. specialize (IH (λ i, up (S (S i)))).
  etrans; [exact IH|]. do 2 f_equal. apply imap_ext. intros j x _. simpl.
  do 2 f_equal; f_equal; lia.
Qed.

Section eip55.
Context {CL : CryptoLib} {HD : HdLib}.

Lemma eip55_text l :
  Forall is_byte l →
  ∃ choice : nat → bool, eip55Checksum (hex_EncodeToString l) =
    bytes_of_string "0x" ++
    hex_text (imap (λ j b, (b, choice (2 * j)%nat, choice (2 * j + 1)%nat)) l).
Proof.
  intros Hl. unfold eip55Checksum.
  assert (Hp : TrimPrefix (bytes_of_string "0x") (hex_EncodeToString l) = hex_EncodeToString l).
  { unfold TrimPrefix, hex_EncodeToString, hex_text. destruct Hl as [|b l Hb _]; [done|].
    unfold is_byte in Hb. cbn [map concat hex_byte app].
    change (bytes_of_string "0x") with [48; 120]. cbn [has_prefix].
    assert (Hne : (120 =? hex_char false (b `mod` 16)) = false).
    { apply Z.eqb_neq. unfold hex_char. destruct (Z.ltb_spec (b `mod` 16) 10);
        pose proof (Z.mod_pos_bound b 16); lia. }
    by rewrite Hne, andb_false_r. }
  rewrite Hp, ToLower_hex by done.
  exists (λ i, 56 <=? nth i (hex_EncodeToString (keccak256 (hex_EncodeToString l))) 0).
  f_equal. by apply recase_hex.
Qed.

(** The checksummed spelling of 20 bytes is what the transaction builder parses back. *)
Lemma eip55_parses l :
  length l = 20%nat → Forall is_byte l →
  parseEVMAddress (string_of_bytes (eip55Checksum (hex_EncodeToString l))) = Ok l.
Proof.
  intros Hlen Hl. destruct (eip55_text l Hl) as [up ->].
  set (f := λ (j : nat) (b : Z), (b, up (2 * j)%nat, up (2 * j + 1)%nat)).
  assert (Hfst : map (λ x, x.1.1) (imap f l) = l).
  { change (map ?g ?m) with (g <$> m). rewrite fmap_imap. etrans; [|apply list_fmap_id].
    rewrite <-(imap_const id l). by apply imap_ext. }
  rewrite parseEVMAddress_print; [by rewrite Hfst|by rewrite length_imap|].
  assert (HF : Forall is_byte ((λ x : Z * bool * bool, x.1.1) <$> imap f l)).
  { change (_ <$> imap f l) with (map (λ x : Z * bool * bool, x.1.1) (imap f l)). by rewrite Hfst. }
  rewrite list.Forall_fmap in HF. exact HF.
Qed.

Lemma decompress_run p :
  decompressSecp256k1 (SerializeCompressed p) =
    Ok (4 :: copy_zeroed 32 (big_Bytes (pub_X p)) ++ copy_zeroed 32 (big_Bytes (pub_Y p))).
Proof.
  unfold decompressSecp256k1. by rewrite SerializeCompressed_length, ParsePubKey_Serialize.
Qed.

(** ** The uncompressed key *)

(** The 32-byte big-endian form of a coordinate, as the SEC 1 encoding has it. *)
Definition be32_fixed (z : Z) : bytes := replicate (32 - length (big_Bytes z)) 0 ++ big_Bytes z.
Definition sec1_uncompressed (p : PubKey) : bytes :=
  4 :: be32_fixed (pub_X p) ++ be32_fixed (pub_Y p).

(** The address of a public key: the last 20 bytes of the hash of its two coordinates. *)
Definition key_address (p : PubKey) : bytes :=
  drop 12 (keccak256 (be32_fixed (pub_X p) ++ be32_fixed (pub_Y p))).

(** A coordinate without a leading zero byte, or zero. *)
Definition full_width (z : Z) : Prop := z = 0 ∨ 2 ^ 248 ≤ z.

Lemma copy_zeroed_length n b : length (copy_zeroed n b) = n.
Proof. unfold copy_zeroed. rewrite length_take, length_app, length_replicate. lia. Qed.

Lemma copy_zeroed_exact z :
  0 ≤ z < 2 ^ 256 →
  copy_zeroed 32 (big_Bytes z) = be32_fixed z ↔ full_width z.
Proof.
  intros Hz. destruct (big_Bytes_spec z) as (Hv & HB & HC). rewrite Z.abs_eq in Hv by lia.
  pose proof (big_Bytes_length z 32 ltac:(change (256 ^ Z.of_nat 32) with (2 ^ 256); lia)) as Hl.
  unfold copy_zeroed, be32_fixed. set (b := big_Bytes z) in *. clearbody b.
  rewrite take_app_ge by lia. rewrite take_replicate. replace (Nat.min _ _) with (32 - length b)%nat by lia.
  split.
  - intros E. destruct b as [|x b]; [left; rewrite <-Hv; reflexivity|right].
    destruct (Nat.eq_dec (length (x :: b)) 32%nat) as [E32|Hne].
    + rewrite <-Hv. pose proof (canonical_lower x b HB HC) as Hlow. simpl in E32.
      replace (length b) with 31%nat in Hlow by lia. exact Hlow.
    + exfalso. destruct (32 - length (x :: b))%nat eqn:Ek; [simpl in *; lia|].
      simpl in E. injection E as Hx _. done.
  - intros [->|Hlow].
    + destruct b as [|x b]; [done|]. pose proof (canonical_lower x b HB HC) as Hx.
      rewrite Hv in Hx. pose proof (Z.pow_pos_nonneg 256 (Z.of_nat (length b))). lia.
    + assert (length b = 32%nat) as ->; [|by rewrite app_nil_r].
      destruct (Nat.eq_dec (length b) 32%nat); [done|].
      pose proof (be_value_bound b HB) as Hb. rewrite Hv in Hb.
      pose proof (Z.pow_le_mono_r 256 (Z.of_nat (length b)) 31 ltac:(lia) ltac:(lia)).
      change (256 ^ 31) with (2 ^ 248) in *. lia.
Qed.

(** The key that is hashed into the address is the SEC 1 form of the public key exactly
    when neither coordinate has a leading zero byte: a shorter coordinate is copied to the left
    of its field, and the address that comes out is not the key's. *)
Lemma decompress_exact p :
  decompressSecp256k1 (SerializeCompressed p) = Ok (sec1_uncompressed p) ↔
  full_width (pub_X p) ∧ full_width (pub_Y p).
Proof.
  rewrite decompress_run. unfold sec1_uncompressed.
  rewrite <-!copy_zeroed_exact by (apply pub_X_range || apply pub_Y_range). split.
  - intros E. injection E as E. apply app_inj_1 in E; [done|].
    rewrite copy_zeroed_length. unfold be32_fixed. rewrite length_app, length_replicate.
    pose proof (big_Bytes_length (pub_X p) 32). pose proof (pub_X_range p).
    change (256 ^ Z.of_nat 32) with (2 ^ 256) in *. lia.
  - by intros [-> ->].
Qed.

(** C37: the deriver never panics, and the EIP-55 spelling of the address it derives parses, in
    the transaction builder, to the last 20 bytes of the Keccak hash of what it decompressed after
    the leading byte: X and then Y, each copied to the left of a field of 32 bytes.  That is
    the documented encoding 0x04 || X || Y of the key exactly when neither coordinate has a leading
    zero byte (or is zero), and the parsed bytes are then the address of the key; otherwise
    the hashed bytes are not the key's. *)
Theorem evm_address_parses p :
  ∃ pub a, decompressSecp256k1 (SerializeCompressed p) = Ok pub ∧
    pub = 4 :: copy_zeroed 32 (big_Bytes (pub_X p)) ++ copy_zeroed 32 (big_Bytes (pub_Y p)) ∧
    evmAddressFromCompressedPubkey (SerializeCompressed p) = Some a ∧
    parseEVMAddress a = Ok (drop 12 (keccak256 (drop 1 pub))) ∧
    (pub = sec1_uncompressed p ↔ full_width (pub_X p) ∧ full_width (pub_Y p)) ∧
    (full_width (pub_X p) → full_width (pub_Y p) → parseEVMAddress a = Ok (key_address p)).
Proof.
  pose proof (decompress_run p) as E. eexists _, _. split; [exact E|]. split; [done|].
  unfold evmAddressFromCompressedPubkey. rewrite SerializeCompressed_length, E.
  split; [reflexivity|].
  assert (HP : ∀ b, parseEVMAddress (string_of_bytes (eip55Checksum
    (hex_EncodeToString (drop 12 (keccak256 b))))) = Ok (drop 12 (keccak256 b))).
  { intros b. apply eip55_parses; [by rewrite length_drop, keccak256_length|].
    apply Forall_drop, keccak256_bytes. }
  split; [apply HP|]. split.
  - rewrite <-decompress_exact, E. split; [by intros ->|by intros [= ->]].
  - intros HX HY. rewrite HP. unfold key_address. simpl.
    by rewrite (proj2 (copy_zeroed_exact _ (pub_X_range p)) HX),
      (proj2 (copy_zeroed_exact _ (pub_Y_range p)) HY).
Qed.
End eip55.

(** ** Memoization

    The three derivers share one cache.  [direct] is what a registry derives without it; the
    cache keys of a registry tell its derivations apart, so a value that is in the cache under
    a derivation's key is the value of that derivation. *)

Section direct.
Context {CL : CryptoLib} {HD : HdLib}.

Definition direct (reg : Registry) (chain : Chain) (index change : Z) : res Result :=
  if IsEVM chain then
    if negb (change =? 0) then Err (Errorf "EVM change chain must be 0" [])
    else if index <? 0 then Err (Errorf "EVM index must be >= 0" [])
    else bind_res (evm_deriveUncached (reg_evm reg) index)
           (λ a, Ok (mkResult a (evm_path index) index change))
  else if bool_decide (chain = ChainSolana) then Ok (mkResult (reg_solana reg) sol_path 0 0)
  else if negb (change =? 0) && negb (change =? 1)
       then Err (Errorf "BTC change chain must be 0 or 1" [])
  else if index <? 0 then Err (Errorf "BTC index must be >= 0" [])
  else bind_res (btc_deriveUncached (reg_btc reg) index change)
         (λ a, Ok (mkResult a (btc_path change index) index change)).

(** What the cache may hold. *)
Record derived_entry (reg : Registry) (k v : string) : Prop := {
  de_evm i : k = evm_key (reg_evm reg) i → evm_deriveUncached (reg_evm reg) i = Ok v;
  de_btc c i : k = btc_key (reg_btc reg) c i → btc_deriveUncached (reg_btc reg) i c = Ok v;
  de_sol : k = sol_key (reg_solana reg) → v = reg_solana reg;
}.

Lemma FormatInt_inj a b : FormatInt a = FormatInt b → a = b.
Proof.
  intros E. pose proof (big_SetString_FormatInt a) as Ha.
  rewrite E, big_SetString_FormatInt in Ha. congruence.
Qed.

Lemma app_inj_l (p a b : string) : (p +:+ a = p +:+ b)%string → a = b.
Proof. induction p as [|c p IH]; simpl; [done|]. intros E. injection E. auto. Qed.

Lemma colon_FormatInt z : has_char ":" (FormatInt z) = false.
Proof.
  unfold FormatInt. destruct z as [|p|p]; [reflexivity| |].
  - change (pretty (Z.pos p)) with (pretty (N.pos p)). by apply has_char_pretty_N.
  - change (pretty (Z.neg p)) with (String "-" (pretty (N.pos p))). simpl.
    by apply has_char_pretty_N.
Qed.

Lemma evm_key_inj x a b : evm_key x a = evm_key x b → a = b.
Proof. intros E. unfold evm_key in E. do 3 apply app_inj_l in E. by apply FormatInt_inj. Qed.

Lemma btc_key_inj x c a c' a' : btc_key x c a = btc_key x c' a' → c = c' ∧ a = a'.
Proof.
  intros E. unfold btc_key in E. do 3 apply app_inj_l in E.
  apply join_inj in E as [Ec Ea]; try apply colon_FormatInt. auto using FormatInt_inj.
Qed.

Lemma evm_entry reg i v :
  evm_deriveUncached (reg_evm reg) i = Ok v → derived_entry reg (evm_key (reg_evm reg) i) v.
Proof.
  intros Hv. split; [|done..]. by intros i' <-%evm_key_inj.
Qed.

Lemma btc_entry reg c i v :
  btc_deriveUncached (reg_btc reg) i c = Ok v → derived_entry reg (btc_key (reg_btc reg) c i) v.
Proof.
  intros Hv. split; [done| |done]. by intros c' i' [<- <-]%btc_key_inj.
Qed.

Lemma sol_entry reg : derived_entry reg (sol_key (reg_solana reg)) (reg_solana reg).
Proof. by split. Qed.
End direct.

Section memo.
Context {CL : CryptoLib} {HD : HdLib} {W : Type} {C : Cache W} {CLS : CacheLaws W}.
Variable (reg : Registry).

(** A memoized derivation returns what the derivation returns. *)
Lemma memoized_run key ttl derive w :
  cache_inv (derived_entry reg) w →
  (∀ v, derived_entry reg key v → derive = Ok v) →
  (∀ v, derive = Ok v → derived_entry reg key v) →
  ∃ w', memoized key ttl derive w = (derive, w') ∧ cache_inv (derived_entry reg) w'.
Proof.
  intros Hw Hhit Hput. unfold memoized.
  destruct (cache_Get_law _ key w Hw) as [Hw1 Hok].
  destruct (cache_Get key w) as [r w1] eqn:E. simpl in Hw1, Hok. step_ok E.
  assert (Hmiss : ∃ w', (addr ← ret_res derive; ignore (cache_Set key addr ttl);; mret addr) w1
                    = (derive, w') ∧ cache_inv (derived_entry reg) w').
  { destruct derive as [a|e]; [|go_cbv; eauto].
    pose proof (cache_Set_law _ key a ttl w1 Hw1 (Hput a eq_refl)) as Hw2.
    destruct (cache_Set key a ttl w1) as [r2 w2] eqn:E2.
    erewrite bind_Ok by reflexivity. step_ok E2. go_cbv. eauto. }
  destruct r as [[v [|]]|e]; [rewrite (Hhit v) by auto; eauto|exact Hmiss..].
Qed.

Lemma For_direct chain d index change w :
  For reg chain = Ok d →
  cache_inv (derived_entry reg) w →
  ∃ w', d index change w = (direct reg chain index change, w') ∧
        cache_inv (derived_entry reg) w'.
Proof.
  unfold For, direct. intros Hd Hw. destruct (IsEVM chain) eqn:Ee; [|case_bool_decide as Es].
  - injection Hd as <-. unfold evm_DeriveAt. rewrite Ee. cbn [negb].
    destruct (negb _); [go_cbv; eauto|]. destruct (index <? 0); [go_cbv; eauto|].
    destruct (memoized_run (evm_key (reg_evm reg) index) (reg_ttl reg)
                (evm_deriveUncached (reg_evm reg) index) w Hw) as (w' & E & Hw');
      [intros v [H _ _]; by apply H|apply evm_entry|].
    destruct (evm_deriveUncached (reg_evm reg) index); [step_ok E|step_err E]; go_cbv; eauto.
  - injection Hd as <-. unfold sol_DeriveAt. rewrite bool_decide_eq_true_2 by done. cbn [negb].
    destruct (memoized_run (sol_key (reg_solana reg)) (reg_ttl reg) (Ok (reg_solana reg)) w Hw)
      as (w' & E & Hw'); [intros v [_ _ H]; by rewrite H
                         |intros v [= <-]; apply sol_entry|].
    step_ok E. go_cbv; eauto.
  - case_bool_decide as Eb; [|done]. injection Hd as <-. unfold btc_DeriveAt.
    rewrite bool_decide_eq_true_2 by done. cbn [negb].
    destruct (negb _ && _); [go_cbv; eauto|]. destruct (index <? 0); [go_cbv; eauto|].
    destruct (memoized_run (btc_key (reg_btc reg) change index) (reg_ttl reg)
                (btc_deriveUncached (reg_btc reg) index change) w Hw) as (w' & E & Hw');
      [intros v [_ H _]; by apply H|apply btc_entry|].
    destruct (btc_deriveUncached (reg_btc reg) index change); [step_ok E|step_err E];
      go_cbv; eauto.
Qed.

(** Derivations of any chain, and deletions. *)
Inductive cache_use : W → W → Prop :=
  | use_derive chain d index change w :
      For reg chain = Ok d → cache_use w (d index change w).2
  | use_del ks w : cache_use w (cache_Del ks w).2.

Lemma cache_use_inv w w' :
  cache_use w w' → cache_inv (derived_entry reg) w → cache_inv (derived_entry reg) w'.
Proof.
  intros [chain d index change w1 Hd|ks w1] Hw.
  - destruct (For_direct chain d index change w1 Hd Hw) as (w2 & -> & H). exact H.
  - by apply cache_Del_law.
Qed.

(** C20: however the derivers of a registry have used their shared cache before, starting from
    an empty one, a derivation returns exactly what the chain's derivation computes without a
    cache: no entry of another chain, index or change branch is ever served for it. *)
Theorem cache_is_transparent w0 w chain d index change :
  cache_inv (λ _ _, False) w0 → rtc cache_use w0 w → For reg chain = Ok d →
  (d index change w).1 = direct reg chain index change.
Proof.
  intros H0 Hr Hd. assert (Hw : cache_inv (derived_entry reg) w).
  { assert (H1 : cache_inv (derived_entry reg) w0) by (by eapply cache_inv_mono, H0).
    clear H0. induction Hr; eauto using cache_use_inv. }
  destruct (For_direct chain d index change w Hd Hw) as (w' & -> & _). done.
Qed.
End memo.

(** ** Witnesses *)

(** 256 curve points; a derivation step mixes the index into the key. *)
Definition simple_hd : HdLib.
Proof.
  refine {| ExtKey := Z; PubKey := Ascii.ascii;
            hd_NewKeyFromString := λ s, Ok (be_value (bytes_of_string s));
            hd_Derive := λ k i, Ok (k * 31 + i);
            hd_ECPubKey := λ k, Ok (Ascii.ascii_of_N (Z.to_N (k `mod` 256)));
            pub_X := λ c, 2 ^ 255 + Z.of_N (Ascii.N_of_ascii c);
            pub_Y := λ c, 2 ^ 254;
            SerializeCompressed := λ c, 2 :: replicate 31 0 ++ [Z.of_N (Ascii.N_of_ascii c)];
            btcec_ParsePubKey := λ l, Ok (Ascii.ascii_of_N (Z.to_N (be_value (drop 1 l))));
            Hash160 := take 20;
            bech32_ConvertBits := λ l _ _ _, Ok l;
            bech32_Encode := λ hrp l, Ok (hrp +:+ string_of_bytes l)%string |}.
  - intros c. pose proof (Ascii.N_ascii_bounded c). lia.
  - intros c. lia.
  - intros c. reflexivity.
  - intros c. f_equal. unfold be_value. cbn [drop replicate app foldl].
    etrans; [|apply Ascii.ascii_N_embedding]. f_equal. lia.
Defined.

Section witnesses.
Definition der_rt : GoRuntime := simple_runtime 1.
#[local] Existing Instances der_rt simple_uuid simple_crypto simple_hd.

Definition der_reg : Registry := mkRegistry "xpubE" "So1" "xpubB" 1000.
Definition derive_in (chain : Chain) (index change : Z) (w : World) : World :=
  match For der_reg chain with Ok d => (d index change w).2 | Err _ => w end.
Definition derived_world : World :=
  derive_in ChainBitcoin 0 1 (derive_in ChainPolygon 0 0 NewWorld).

(** A key with two coordinates of full width. *)
Definition sample_key : PubKey (HdLib:=simple_hd) := "A"%char.

Lemma evm_address_parses_witness :
  ∃ a, evmAddressFromCompressedPubkey (SerializeCompressed sample_key) = Some a ∧
    parseEVMAddress a = Ok (key_address sample_key).
Proof.
  destruct (evm_address_parses sample_key) as (pub & a & _ & _ & Ea & _ & _ & Hp).
  exists a. split; [exact Ea|]. apply Hp; right; apply (bool_decide_unpack _); vm_compute; exact I.
Defined.

Lemma cache_is_transparent_witness :
  w_cache derived_world !! evm_key "xpubE" 0 ≠ None ∧
  (evm_DeriveAt (reg_evm der_reg) 1000 ChainEthereum 0 0 derived_world).1 =
    direct der_reg ChainEthereum 0 0.
Proof.
  split; [by vm_compute|].
  apply (cache_is_transparent der_reg NewWorld derived_world ChainEthereum
           (evm_DeriveAt (reg_evm der_reg) 1000 ChainEthereum) 0 0).
  - intros k e Hk. simpl in Hk. by rewrite lookup_empty in Hk.
  - eapply rtc_l; [|eapply rtc_l; [|apply rtc_refl]].
    + apply (use_derive der_reg ChainPolygon
               (evm_DeriveAt (reg_evm der_reg) 1000 ChainPolygon) 0 0). reflexivity.
    + apply (use_derive der_reg ChainBitcoin
               (btc_DeriveAt (reg_btc der_reg) 1000 ChainBitcoin) 0 1). reflexivity.
  - reflexivity.
Defined.
End witnesses.
