(* ===== verification/Rotation.v ===== *)
(** * Rotation: address rotation (internal/wallet/rotation.go)

    The rotation policy decides when the receive address of a wallet is replaced and replaces
    it under the wallet's lock.  [others] is what the other goroutines do while this one sleeps
    between two attempts to take the lock. *)

From S2P Require Import Prelude GoLib Extern Domain Storage Memstore MemstoreFacts.
From S2P Require Import Lock Config Outbox Cache Deriver.

Local Open Scope Z_scope.

(** [t.Sub(u)]: the difference of two instants, clamped to the range of a [Duration]. *)
Definition time_Sub (t u : Z) : Z := Z.max min_int64 (Z.min max_int64 (t - u)).

(** [time.Duration(days) * 24 * time.Hour], in machine arithmetic. *)
Definition rotation_age (days : Z) : Z := wrap64 (wrap64 (days * 24) * 3600000000000).

Section rotation.
Context {W : Type} {UL : UuidLib} {CL : CryptoLib} {HD : HdLib}.
Context {ST : Store W} {LK : Locker W} {C : Cache W} {EF : Effects W}.
Variable (em : Emitter W) (cfg : Config) (reg : Registry) (others : GoM W unit).

Definition address_lock (w : Wallet) : string := ("addr:" +:+ uuid_String (Wallet_ID w))%string.
Definition lock_ttl : Z := 10000000000.

Definition shouldRotate (w : Wallet) (a : Address) : GoM W bool :=
  let days := default (DefaultRotationDays cfg) (Wallet_RotationDays w) in
  aged ← (if 0 <? days
          then now ← time_Now; mret (time_Sub now (Address_CreatedAt a) >? rotation_age days)
          else mret false);
  if aged : bool then mret true
  else mret match Wallet_RotationAfterReceives w with
            | Some n => n <=? Address_ReceiveCount a
            | None => false
            end.

(** A Solana wallet deprecates its first address before it derives again. *)
Definition deprecate_solana (w : Wallet) : GoM W unit :=
  if bool_decide (Wallet_Chain w = ChainSolana) then
    r ← try (ListAddresses (Wallet_ID w));
    match r with
    | Ok (a :: _) => DeprecateAddress (Address_ID a)
    | _ => mret ()
    end
  else mret ().

Definition new_address (id : UUID) (w : Wallet) (r : Result) (now : Z) : Address :=
  mkAddress id (Wallet_ID w) (Wallet_Chain w) (R_Address r) (R_DerivationPath r) (R_Index r)
    (R_Change r) AddressStateActive 0 now.

(** The tail of [deriveNew]: the new row is stored and announced. *)
Definition persist_address (w : Wallet) (res : Result) : GoM W Address :=
  addrID ← uuid_New;
  now ← time_Now;
  let addr := new_address addrID w res now in
  wrap "insert address: %w" [] (InsertAddress addr);;
  emit em (mkEvent "wallet.address.derived" (Some (Wallet_ID w))
    [("address", AStr (Address_Address addr)); ("index", AInt (Address_Index addr));
     ("path", AStr (Address_DerivationPath addr))])%string;;
  mret addr.

Definition deriveNew (w : Wallet) : GoM W Address :=
  d ← ret_res (For reg (Wallet_Chain w));
  let change := 0 in
  idx ← wrap "next index: %w" [] (NextAddressIndex (Wallet_Chain w) change);
  deprecate_solana w;;
  res ← wrap "derive: %w" [] (d idx change);
  persist_address w res.

(** [Acquire], with the lock held or nothing done; then [body] and the deferred [Release]. *)
Definition under_lock {A} (w : Wallet) (body : GoM W A) : GoM W A :=
  '(token, ok) ← wrap "acquire rotation lock: %w" [] (Acquire (address_lock w) lock_ttl);
  if negb ok then fail (New "rotation already in progress")
  else finally body (Release (address_lock w) token).

Definition rotate (w : Wallet) (old : Address) : GoM W Address :=
  under_lock w
    (wrap "deprecate old address: %w" [] (DeprecateAddress (Address_ID old));;
     addr ← deriveNew w;
     emit em (mkEvent "wallet.address.rotated" (Some (Wallet_ID w))
       [("old_address", AStr (Address_Address old)); ("new_address", AStr (Address_Address addr));
        ("index", AInt (Address_Index addr))])%string;;
     mret addr).

(** [GetActiveAddress], with a missing row as nil. *)
Definition active_address (walletID : UUID) : GoM W (option Address) :=
  r ← try (GetActiveAddress walletID);
  match r with
  | Ok a => mret (Some a)
  | Err err => if errors_Is err ErrNoRows then mret None else fail err
  end.

Definition derive_retries : nat := 20.

(** One turn of the retry loop per unit of [n]. *)
Fixpoint derive_loop (n : nat) (w : Wallet) : GoM W Address :=
  match n with
  | O => fail (New "rotation already in progress")
  | S n =>
      '(token, ok) ← wrap "acquire rotation lock: %w" [] (Acquire (address_lock w) lock_ttl);
      if negb ok then
        active ← active_address (Wallet_ID w);
        match active with
        | Some a => mret a
        | None => ignore others;; derive_loop n w
        end
      else
        r ← try (GetActiveAddress (Wallet_ID w));
        match r with
        | Ok active => ignore (Release (address_lock w) token);; mret active
        | Err err =>
            if errors_Is err ErrNoRows then
              addr ← try (deriveNew w);
              ignore (Release (address_lock w) token);;
              ret_res addr
            else ignore (Release (address_lock w) token);; fail err
        end
  end.

Definition deriveNewLocked (w : Wallet) : GoM W Address := derive_loop derive_retries w.

Definition CurrentOrRotate (walletID : UUID) : GoM W Address :=
  w ← GetWallet walletID;
  if bool_decide (Wallet_State w = WalletStateRetired) then fail (Sentinel ErrWalletRetired)
  else
    active ← active_address walletID;
    match active with
    | None => deriveNewLocked w
    | Some a =>
        due ← shouldRotate w a;
        if due : bool then rotate w a else mret a
    end.

Definition ForceRotate (walletID : UUID) : GoM W Address :=
  w ← GetWallet walletID;
  if bool_decide (Wallet_State w = WalletStateRetired) then fail (Sentinel ErrWalletRetired)
  else
    active ← active_address walletID;
    match active with
    | Some a => rotate w a
    | None => under_lock w (deriveNew w)
    end.
End rotation.

(** ** When an address is due *)

Definition nanos_per_day : Z := 86400000000000.

(** The days of a [Duration] are exact up to 106751; then the product wraps below zero. *)
Lemma rotation_age_exact days : 0 ≤ days ≤ 106751 → rotation_age days = days * nanos_per_day.
Proof.
  intros Hd. unfold rotation_age, nanos_per_day.
  rewrite (wrap64_id (days * 24)) by (unfold in_int64, min_int64, max_int64; lia).
  rewrite wrap64_id by (unfold in_int64, min_int64, max_int64; lia). lia.
Qed.

Lemma rotation_age_wraps days : 106752 ≤ days ≤ 213503 → rotation_age days < 0.
Proof.
  intros Hd. unfold rotation_age.
  rewrite (wrap64_id (days * 24)) by (unfold in_int64, min_int64, max_int64; lia).
  unfold wrap64. Z.to_euclidean_division_equations. lia.
Qed.

Section due.
Context {GR : GoRuntime} {UL : UuidLib}.
Variable (cfg : Config).

Definition rotation_days (w : Wallet) : Z :=
  default (DefaultRotationDays cfg) (Wallet_RotationDays w).
Definition receives_due (w : Wallet) (a : Address) : bool :=
  match Wallet_RotationAfterReceives w with
  | Some n => n <=? Address_ReceiveCount a
  | None => false
  end.

Lemma shouldRotate_eval w a st :
  (shouldRotate cfg w a st).1 =
    Ok ((0 <? rotation_days w) &&
        (time_Sub (time_at (w_clock st)) (Address_CreatedAt a) >? rotation_age (rotation_days w))
        || receives_due w a).
Proof.
  unfold shouldRotate. fold (rotation_days w). destruct (0 <? rotation_days w); mem_cbv; [|done].
  by destruct (_ >? _).
Qed.

(** C38: an address is due for rotation by age exactly when it is older than the wallet's (or
    the default) number of days, for every setting up to 106751 days, and never by age when the
    setting is not positive; from 106752 to 213503 days the duration overflows and every
    address is due at once.  Independently, it is due once it has received often enough. *)
Theorem shouldRotate_bounds w a st :
  let days := rotation_days w in
  let age := time_at (w_clock st) - Address_CreatedAt a in
  (days ≤ 0 → (shouldRotate cfg w a st).1 = Ok (receives_due w a)) ∧
  (0 < days ≤ 106751 →
     (shouldRotate cfg w a st).1 =
       Ok (bool_decide (days * nanos_per_day < age) || receives_due w a)) ∧
  (106752 ≤ days ≤ 213503 → 0 ≤ age → (shouldRotate cfg w a st).1 = Ok true).
Proof.
  cbv zeta. rewrite shouldRotate_eval. split_and!.
  - intros Hd. by rewrite (proj2 (Z.ltb_ge 0 (rotation_days w))) by lia.
  - intros Hd. rewrite (proj2 (Z.ltb_lt 0 (rotation_days w))) by lia.
    rewrite rotation_age_exact by lia. do 2 f_equal. cbn [andb].
    assert (rotation_days w * nanos_per_day < max_int64) as Hlim
      by (unfold max_int64, nanos_per_day; lia).
    unfold time_Sub, nanos_per_day, min_int64, max_int64 in *.
    rewrite Z.gtb_ltb. case_bool_decide; [apply Z.ltb_lt|apply Z.ltb_ge]; lia.
  - intros Hd Hage. rewrite (proj2 (Z.ltb_lt 0 (rotation_days w))) by lia.
    pose proof (rotation_age_wraps (rotation_days w) Hd).
    assert (time_Sub (time_at (w_clock st)) (Address_CreatedAt a) >? rotation_age (rotation_days w)
            = true) as ->; [|done].
    apply Z.gtb_lt. unfold time_Sub, min_int64, max_int64. lia.
Qed.
End due.
