(* ===== verification/WalletService.v ===== *)
(** * WalletService: the wallet lifecycle (internal/wallet/service.go)

    Creation, state changes, listings and the derivation of receive addresses, which goes
    through the rotation policy. *)

From S2P Require Import Prelude GoLib Extern Domain Storage Memstore MemstoreFacts.
From S2P Require Import Lock Config Outbox Cache Deriver Rotation.

Local Open Scope Z_scope.

Section service.
Context {W : Type} {UL : UuidLib} {CL : CryptoLib} {HD : HdLib}.
Context {ST : Store W} {LK : Locker W} {C : Cache W} {EF : Effects W}.
Variable (em : Emitter W) (cfg : Config) (reg : Registry) (others : GoM W unit).

Definition Create (req : CreateRequest) : GoM W Wallet :=
  if negb (ValidChain (CreateRequest_Chain req))
  then fail (Errorf "unsupported chain %q" [FStr (CreateRequest_Chain req)])
  else if negb (ValidWalletType (CreateRequest_Type req))
  then fail (Errorf "unsupported wallet type %q" [FStr (CreateRequest_Type req)])
  else if bool_decide (CreateRequest_Label req = EmptyString)
  then fail (New "label is required")
  else
    keyID ← (if bool_decide (CreateRequest_KeyID req = EmptyString)
             then u ← uuid_New; mret ("pending:" +:+ uuid_String u)%string
             else mret (CreateRequest_KeyID req));
    now ← time_Now;
    walletID ← uuid_New;
    let w := mkWallet walletID (CreateRequest_Chain req) (CreateRequest_Type req)
               (CreateRequest_Label req) WalletStateActive keyID "mpc" None None now now in
    wrap "create wallet: %w" [] (CreateWallet w);;
    emit em (mkEvent "wallet.created" (Some (Wallet_ID w))
      [("chain", AStr (Wallet_Chain w)); ("type", AStr (Wallet_Type w));
       ("label", AStr (Wallet_Label w)); ("key_id", AStr (Wallet_KeyID w))])%string;;
    mret w.

Definition Get (id : UUID) : GoM W Wallet := GetWallet id.

Definition SetState (id : UUID) (state : string) : GoM W unit :=
  if negb (ValidWalletState state) then fail (Errorf "invalid state %q" [FStr state])
  else
    w ← GetWallet id;
    if bool_decide (Wallet_State w = WalletStateRetired) &&
       negb (bool_decide (state = WalletStateRetired))
    then fail (New "cannot un-retire a wallet")
    else
      UpdateWalletState id state;;
      emit em (mkEvent "wallet.state_changed" (Some id)
        [("from", AStr (Wallet_State w)); ("to", AStr state)])%string.

Definition List (chain wtype state : string) : GoM W (list Wallet) :=
  ListWallets chain wtype state.

Definition DeriveAddress (walletID : UUID) (force : bool) : GoM W Address :=
  if force then ForceRotate em reg walletID
  else CurrentOrRotate em cfg reg others walletID.

Definition ListAddresses (walletID : UUID) : GoM W (list Address) :=
  Storage.ListAddresses walletID.
End service.
