(* ===== verification/AddressBook.v ===== *)
(** * AddressBook: what wallets and rotations do to the addresses

    The invariant of the address table on the memstore: one active address per wallet, one
    address per derivation slot, every address the one its slot derives.  Every call of the
    wallet service keeps it when the calls follow each other (for calls that overlap see
    Overlap.v), and addresses are only ever added or deprecated. *)

From S2P Require Import Prelude GoLib Extern Domain Storage Memstore MemstoreFacts.
From S2P Require Import Lock Config Outbox Cache Deriver Rotation WalletService.

Local Open Scope Z_scope.

Definition in_slot (chain : string) (change index : Z) (a : Address) : bool :=
  bool_decide (Address_Chain a = chain) && bool_decide (Address_Change a = change) &&
  bool_decide (Address_Index a = index).

Definition result_of (a : Address) : Result :=
  mkResult (Address_Address a) (Address_DerivationPath a) (Address_Index a) (Address_Change a).

Section book.
Context {CL : CryptoLib} {HD : HdLib}.
Variable (reg : Registry).

(** Solana wallets all share slot 0. *)
Record addresses_wf (s : MemStore) : Prop := {
  aw_key id a : addresses s !! id = Some a → Address_ID a = id;
  aw_active u : unique_by (Mem.is_active_of u) (addresses s);
  aw_slot chain change index :
    chain ≠ ChainSolana → unique_by (in_slot chain change index) (addresses s);
  aw_derived id a : addresses s !! id = Some a →
    direct reg (Address_Chain a) (Address_Index a) (Address_Change a) = Ok (result_of a);
}.

(** Everything but the state and the counter of an address is fixed, and deprecation is final. *)
Record address_step (a a' : Address) : Prop := {
  as_id : Address_ID a' = Address_ID a;
  as_wallet : Address_WalletID a' = Address_WalletID a;
  as_chain : Address_Chain a' = Address_Chain a;
  as_result : result_of a' = result_of a;
  as_state : Address_State a' = Address_State a ∨ Address_State a' = AddressStateDeprecated;
}.

Definition book_grows (s s' : MemStore) : Prop :=
  ∀ id a, addresses s !! id = Some a → ∃ a', addresses s' !! id = Some a' ∧ address_step a a'.

#[export] Instance address_step_preorder : PreOrder address_step.
Proof.
  split.
  - intros a. split; auto.
  - intros a b c [] []. split; try congruence.
    match goal with H : _ ∨ _, H' : _ ∨ _ |- _ => destruct H, H' end;
      (by right) || (left; congruence) || (right; congruence).
Qed.
#[export] Instance book_grows_preorder : PreOrder book_grows.
Proof.
  split.
  - intros s id a Ha. exists a. split; [done|reflexivity].
  - intros s1 s2 s3 H1 H2 id a Ha. destruct (H1 id a Ha) as (b & Hb & Sb).
    destruct (H2 id b Hb) as (c & Hc & Sc). exists c. split; [done|by etrans].
Qed.
#[export] Instance book_grows_reads : Reads GAddresses book_grows.
Proof. intros s s' E id a Ha. simpl in E. rewrite E. exists a. split; [done|reflexivity]. Qed.

Lemma direct_index chain index change r :
  chain ≠ ChainSolana → direct reg chain index change = Ok r →
  0 ≤ index < 2 ^ 31 ∧ R_Index r = index ∧ R_Change r = change.
Proof.
  unfold direct. intros Hs. rewrite (bool_decide_eq_false_2 _ Hs).
  assert (Hnh : ∀ n (m : Z), nonHardened index = Ok m → 0 ≤ index → n = index → 0 ≤ n < 2 ^ 31).
  { intros n m. unfold nonHardened. destruct (_ || _) eqn:E; [done|]. intros _ ? ->. lia. }
  destruct (IsEVM chain).
  - destruct (negb _); [done|]. destruct (Z.ltb_spec index 0); [done|].
    destruct (evm_deriveUncached (reg_evm reg) index) as [a|] eqn:E; [|done].
    intros [= <-]. split; [|done]. unfold evm_deriveUncached in E.
    repeat match type of E with bind_res ?x _ = _ => destruct x eqn:?; cbn [bind_res] in E; [|done] end.
    eauto.
  - destruct (negb _ && _); [done|]. destruct (Z.ltb_spec index 0); [done|].
    destruct (btc_deriveUncached (reg_btc reg) index change) as [a|] eqn:E; [|done].
    intros [= <-]. split; [|done]. unfold btc_deriveUncached in E.
    repeat match type of E with bind_res ?x _ = _ => destruct x eqn:?; cbn [bind_res] in E; [|done] end.
    eauto.
Qed.

(** ** The wallet's own row update *)

Lemma in_slot_true chain change index a :
  in_slot chain change index a = true ↔
    Address_Chain a = chain ∧ Address_Change a = change ∧ Address_Index a = index.
Proof. unfold in_slot. rewrite !andb_true_iff, !bool_decide_eq_true. tauto. Qed.

Lemma is_active_of_true u a :
  Mem.is_active_of u a = true ↔ Address_WalletID a = u ∧ Address_State a = AddressStateActive.
Proof. unfold Mem.is_active_of. by rewrite andb_true_iff, !bool_decide_eq_true. Qed.

(** Replacing a row by one a step ahead. *)
Lemma addresses_wf_step id a a' s :
  addresses_wf s → addresses s !! id = Some a → address_step a a' →
  addresses_wf (set_addresses (insert id a') s).
Proof.
  intros [Hk Ha Hs Hd] Hid [Ei Ew Ec Er Est].
  assert (Address_Index a' = Address_Index a ∧ Address_Change a' = Address_Change a)
    as [Eidx Ech] by (unfold result_of in Er; split; congruence).
  split; simpl.
  - intros i x. rewrite lookup_insert_Some. intros [[<- <-]|[_ H]]; [|by apply Hk].
    rewrite Ei. by apply Hk.
  - intros u. apply unique_by_insert; [done|]. intros (Hw & Hact)%is_active_of_true i x Hx Px.
    apply (Ha u i id x a Hx Hid Px), is_active_of_true. split; [congruence|].
    destruct Est as [<-|Est]; [done|]. rewrite Est in Hact. discriminate.
  - intros ch c ix Hne. apply unique_by_insert; [by apply Hs|].
    intros (H1 & H2 & H3)%in_slot_true i x Hx Px.
    apply (Hs ch c ix Hne i id x a Hx Hid Px), in_slot_true. repeat split; congruence.
  - intros i x. rewrite lookup_insert_Some. intros [[<- <-]|[_ H]]; [|by eapply Hd].
    rewrite Ec, Eidx, Ech, Er. by eapply Hd.
Qed.

Lemma book_grows_step id a a' s :
  addresses s !! id = Some a → address_step a a' →
  book_grows s (set_addresses (insert id a') s).
Proof.
  intros Hid Hst i x Hx. simpl. destruct (decide (id = i)) as [<-|N].
  - rewrite lookup_insert_eq. exists a'. by simplify_eq.
  - rewrite lookup_insert_ne by done. exists x. split; [done|reflexivity].
Qed.

(** Adding a row. *)
Lemma addresses_wf_insert a s :
  addresses_wf s → addresses s !! Address_ID a = None →
  (∀ id b, addresses s !! id = Some b → Mem.is_active_of (Address_WalletID a) b = false) →
  (Address_Chain a ≠ ChainSolana → ∀ id b, addresses s !! id = Some b →
     in_slot (Address_Chain a) (Address_Change a) (Address_Index a) b = false) →
  direct reg (Address_Chain a) (Address_Index a) (Address_Change a) = Ok (result_of a) →
  addresses_wf (set_addresses (insert (Address_ID a) a) s).
Proof.
  intros [Hk Ha Hs Hd] Hn Hact Hslot Hdir. split; simpl.
  - intros i x. rewrite lookup_insert_Some. intros [[<- <-]|[_ H]]; [done|by apply Hk].
  - intros u. apply unique_by_insert; [done|]. intros (<- & _)%is_active_of_true i x Hx Px.
    by rewrite (Hact i x Hx) in Px.
  - intros ch c ix Hne. apply unique_by_insert; [by apply Hs|].
    intros (<- & <- & <-)%in_slot_true i x Hx Px. by rewrite (Hslot Hne i x Hx) in Px.
  - intros i x. rewrite lookup_insert_Some. intros [[<- <-]|[_ H]]; [done|by eapply Hd].
Qed.

Lemma book_grows_insert a s :
  addresses s !! Address_ID a = None →
  book_grows s (set_addresses (insert (Address_ID a) a) s).
Proof.
  intros Hn i x Hx. simpl. rewrite lookup_insert_ne by congruence.
  exists x. split; [done|reflexivity].
Qed.
End book.

(** ** The store's methods *)

Section mem.
Context {GR : GoRuntime} {UL : UuidLib} {CL : CryptoLib} {HD : HdLib}.
Variable (reg : Registry).

Definition book (w : World) : gmap UUID Address := addresses (w_store w).

(** Wallet rows are stored under their id. *)
Definition wallets_keyed (s : MemStore) : Prop :=
  ∀ u row, wallets s !! u = Some row → Wallet_ID row = u.

Lemma wallets_keyed_insert u row s :
  wallets_keyed s → Wallet_ID row = u → wallets_keyed (set_wallets (insert u row) s).
Proof.
  intros Hk <- v x. simpl. rewrite lookup_insert_Some. intros [[<- <-]|[_ H]]; [done|by apply Hk].
Qed.

#[export] Instance wallets_keyed_reads : Reads GWallets (preserving wallets_keyed).
Proof. apply preserving_reads. intros s s' E H. unfold wallets_keyed. simpl in E. by rewrite E. Qed.

Lemma CreateWallet_keyed row : respects (on_store (preserving wallets_keyed)) (CreateWallet row).
Proof.
  intros w Hk. unfold CreateWallet, memstore, Mem.CreateWallet, Mem.created_or_now. mem_cbv.
  destruct (_ !! _); [done|]. case_bool_decide; mem_cbv; by apply wallets_keyed_insert.
Qed.

Lemma UpdateWalletState_keyed u st :
  respects (on_store (preserving wallets_keyed)) (UpdateWalletState u st).
Proof.
  intros w Hk. unfold UpdateWalletState, memstore, Mem.UpdateWalletState. mem_cbv.
  destruct (wallets (w_store w) !! u) as [row|] eqn:E; [|done].
  apply wallets_keyed_insert; [exact Hk|]. exact (Hk u row E).
Qed.

(** What every body of the service keeps: the invariant of the tables and of the cache, and the
    growth of the address table. *)
Record book_inv (w : World) : Prop := {
  bi_wf : addresses_wf reg (w_store w);
  bi_cache : cache_inv (derived_entry reg) w;
  bi_keyed : wallets_keyed (w_store w);
}.
Definition book_rel (w w' : World) : Prop :=
  (book_inv w → book_inv w') ∧ (book_inv w → book_grows (w_store w) (w_store w')).

#[export] Instance book_rel_preorder : PreOrder book_rel.
Proof.
  split.
  - intros w. split; [done|]. intros _. reflexivity.
  - intros w1 w2 w3 [A1 B1] [A2 B2]. split; [auto|]. intros H. etrans; [by apply B1|auto].
Qed.

(** A step that leaves the addresses, the wallets and the cache alone. *)
Lemma book_rel_same w w' :
  book w' = book w → w_cache w' = w_cache w → same GWallets (w_store w) (w_store w') →
  book_rel w w'.
Proof.
  intros E Ec Ew. split.
  - unfold book in E. intros [[Hk Ha Hs Hd] HC HW]. split; [split; by rewrite E| |].
    + revert HC. simpl. unfold mem_cache_inv. by rewrite Ec.
    + exact (reads_same (Q:=preserving wallets_keyed) (k:=GWallets) _ _ Ew HW).
  - intros _. by apply (reads_same (k:=GAddresses)).
Qed.

Definition bookless {A} (m : GoM World A) : Prop :=
  ∀ w, book (m w).2 = book w ∧ w_cache (m w).2 = w_cache w ∧
       same GWallets (w_store w) (w_store (m w).2).

Lemma respects_bookless {A} (m : GoM World A) : bookless m → respects book_rel m.
Proof. intros H w. destruct (H w) as (? & ? & ?). by apply book_rel_same. Qed.

Lemma bookless_time : bookless time_Now.
Proof. done. Qed.
Lemma bookless_uuid : bookless uuid_New.
Proof. done. Qed.
Lemma bookless_Acquire name ttl : bookless (Acquire name ttl).
Proof. intros w. unfold Acquire, mem_locker, MemLocker.Acquire. by go_eval. Qed.
Lemma bookless_Release name token : bookless (Release name token).
Proof. intros w. unfold Release, mem_locker, MemLocker.Release. by go_eval. Qed.
Lemma bookless_emit (em : Emitter World) `{!AuditEmitter em} ev : bookless (emit em ev).
Proof.
  intros w. destruct (emit_frame ev w) as (H & _ & Hc & _).
  split_and!; [by apply (H GAddresses)|done|by apply (H GWallets)].
Qed.
Lemma bookless_reads {A} (m : GoM World A) : (∀ w, (m w).2 = w) → bookless m.
Proof. intros H w. by rewrite H. Qed.

(** The writes of the wallet rows. *)
Lemma wallets_book (m : GoM World unit) :
  respects (writes GWallets) m → respects (on_store (preserving wallets_keyed)) m →
  respects book_rel m.
Proof.
  intros Hm Hk w. destruct (Hm w) as [Ho (_ & Hc & _)].
  assert (Eb : same GAddresses (w_store w) (w_store (m w).2)) by by apply Ho.
  simpl in Eb. split; [|intros _; by apply (reads_same (k:=GAddresses))].
  intros [[? ? ? ?] HC HW]. split; [split; by rewrite Eb| |by apply Hk].
  revert HC. simpl. unfold mem_cache_inv. by rewrite Hc.
Qed.

Lemma CreateWallet_book row : respects book_rel (CreateWallet row).
Proof. apply wallets_book; [apply CreateWallet_only|apply CreateWallet_keyed]. Qed.
Lemma UpdateWalletState_book u st : respects book_rel (UpdateWalletState u st).
Proof. apply wallets_book; [apply UpdateWalletState_only|apply UpdateWalletState_keyed]. Qed.

Lemma book_write w f :
  wallets (f (w_store w)) = wallets (w_store w) →
  (book_inv w → addresses_wf reg (f (w_store w)) ∧ book_grows (w_store w) (f (w_store w))) →
  book_rel w (set_store (f (w_store w)) w).
Proof.
  intros Ew Hf. split.
  - intros Hw. destruct (Hf Hw) as [H _]. split; [exact H|apply Hw|].
    unfold wallets_keyed. simpl. rewrite Ew. apply Hw.
  - intros Hw. by apply Hf.
Qed.

Lemma DeprecateAddress_book id : respects book_rel (DeprecateAddress id).
Proof.
  intros w. unfold DeprecateAddress, memstore, Mem.DeprecateAddress. mem_cbv.
  destruct (addresses (w_store w) !! id) as [a|] eqn:E; [|reflexivity].
  apply book_write; [done|]. intros [Hwf _ _].
  assert (address_step a (Address_with_state AddressStateDeprecated a)) by (split; auto).
  split; [by eapply addresses_wf_step|by eapply book_grows_step].
Qed.

Lemma IncrementReceiveCount_book id : respects book_rel (IncrementReceiveCount id).
Proof.
  intros w. unfold IncrementReceiveCount, memstore, Mem.IncrementReceiveCount. mem_cbv.
  destruct (addresses (w_store w) !! id) as [a|] eqn:E; [|reflexivity].
  apply book_write; [done|]. intros [Hwf _ _].
  assert (address_step a (Address_with_receives (wrap64 (Address_ReceiveCount a + 1)) a))
    by (split; auto).
  split; [by eapply addresses_wf_step|by eapply book_grows_step].
Qed.

(** Inserting an active address: refused, or the wallet had none. *)
Lemma InsertAddress_cases a w :
  Address_State a = AddressStateActive →
  (∃ e, InsertAddress a w = (Err e, w)) ∨
  (book w !! Address_ID a = None ∧
   (∀ id b, book w !! id = Some b → Mem.is_active_of (Address_WalletID a) b = false) ∧
   ∃ c w', InsertAddress a w = (Ok (), w') ∧
     w_store w' = set_addresses (insert (Address_ID a) (Address_with_created c a)) (w_store w) ∧
     w_cache w' = w_cache w ∧ w_locks w' = w_locks w).
Proof.
  intros Hact. unfold InsertAddress, memstore, Mem.InsertAddress, Mem.created_or_now, book. mem_cbv.
  rewrite (bool_decide_eq_true_2 _ Hact). cbn [andb].
  destruct (addresses (w_store w) !! Address_ID a) eqn:E; [left; eauto|].
  destruct (existsb _ _) eqn:Ex; [left; eauto|]. right. split; [done|]. split.
  - intros id b Hb. by eapply existsb_range_vals_false.
  - case_bool_decide; mem_cbv; do 2 eexists; (split; [reflexivity|done]).
Qed.

Lemma InsertAddress_book a w :
  Address_State a = AddressStateActive → book_inv w →
  (Address_Chain a ≠ ChainSolana → ∀ id b, book w !! id = Some b →
     in_slot (Address_Chain a) (Address_Change a) (Address_Index a) b = false) →
  direct reg (Address_Chain a) (Address_Index a) (Address_Change a) = Ok (result_of a) →
  ∃ r w', InsertAddress a w = (r, w') ∧ book_rel w w' ∧ w_locks w' = w_locks w ∧
    (r = Ok () → ∃ c, book w' !! Address_ID a = Some (Address_with_created c a)).
Proof.
  intros Hact Hw Hslot Hdir.
  destruct (InsertAddress_cases a w Hact) as [[e ->]|(Hn & Hno & c & w' & -> & Es & Ec & El)].
  - do 2 eexists. split; [reflexivity|]. split; [reflexivity|]. done.
  - do 2 eexists. split; [reflexivity|]. split_and!; [|done|].
    + assert (Hwf : addresses_wf reg (w_store w')).
      { rewrite Es. apply (addresses_wf_insert reg (Address_with_created c a)); try done.
        apply Hw. }
      split.
      { intros [_ HC HK]. split; [done| |unfold wallets_keyed; rewrite Es; exact HK].
        revert HC. simpl. unfold mem_cache_inv. by rewrite Ec. }
      intros _. rewrite Es. by apply (book_grows_insert (Address_with_created c a)).
    + intros _. exists c. unfold book. rewrite Es. simpl. by rewrite lookup_insert_eq.
Qed.
End mem.

#[export] Hint Resolve bookless_time bookless_uuid bookless_Acquire bookless_Release
  bookless_emit CreateWallet_book UpdateWalletState_book DeprecateAddress_book
  IncrementReceiveCount_book book_rel_preorder : gorel.
#[export] Hint Extern 2 (bookless _) => (apply bookless_reads; solve [eauto 2 with gorel]) : gorel.
#[export] Hint Extern 2 (respects (book_rel _) _) =>
  (apply respects_bookless; solve [eauto 3 with gorel]) : gorel.

(** ** Deriving a new address *)

Section derive.
Context {GR : GoRuntime} {UL : UuidLib} {CL : CryptoLib} {HD : HdLib}.
Variable (em : Emitter World) (cfg : Config) (reg : Registry).
Context {EM : AuditEmitter em}.

Definition next_index (chain : string) (change : Z) (w : World) : Z :=
  wrap64 (Mem.max_index chain change (range_vals (book w)) + 1).

Lemma NextAddressIndex_run chain change w :
  NextAddressIndex chain change w = (Ok (next_index chain change w), w).
Proof. reflexivity. Qed.

Lemma max_index_spec chain change l :
  let m := Mem.max_index chain change l in
  -1 ≤ m ∧
  (∀ b, b ∈ l → Address_Chain b = chain → Address_Change b = change → Address_Index b ≤ m) ∧
  (m = -1 ∨ ∃ b, b ∈ l ∧ Address_Chain b = chain ∧ Address_Change b = change ∧
                 m = Address_Index b).
Proof.
  destruct (foldl_max (λ a, bool_decide (Address_Chain a = chain) &&
              bool_decide (Address_Change a = change)) Address_Index l (-1)) as (Hlo & Hge & Hin).
  split_and!; [done| |].
  - intros b Hb E1 E2. apply Hge; [done|]. by rewrite !bool_decide_eq_true_2.
  - destruct Hin as [?|(b & Hb & Hp & Hm)]; [by left|right]. exists b.
    by apply andb_true_iff in Hp as [Hp%bool_decide_eq_true Hc%bool_decide_eq_true].
Qed.

(** Every stored address is the one its slot derives. *)
Definition all_derived (s : MemStore) : Prop :=
  ∀ id a, addresses s !! id = Some a →
    direct reg (Address_Chain a) (Address_Index a) (Address_Change a) = Ok (result_of a).

(** Indices of EVM and Bitcoin addresses are below 2^31, so the next one is above them all. *)
Lemma next_index_above chain w id b :
  all_derived (w_store w) → chain ≠ ChainSolana → book w !! id = Some b →
  Address_Chain b = chain → Address_Change b = 0 → Address_Index b < next_index chain 0 w.
Proof.
  intros Hall Hs Hb H1 H2. unfold next_index.
  destruct (max_index_spec chain 0 (range_vals (book w))) as (Hlo & Hge & Hm).
  assert (Mem.max_index chain 0 (range_vals (book w)) < 2 ^ 31) as Hhi.
  { destruct Hm as [->|(x & Hx & Ec & _ & ->)]; [lia|]. apply elem_of_range_vals in Hx as [i Hx].
    pose proof (Hall i x Hx) as Hd. rewrite Ec in Hd.
    destruct (direct_index reg _ _ _ _ Hs Hd). lia. }
  rewrite wrap64_id by (unfold in_int64, min_int64, max_int64; lia).
  assert (Hin : b ∈ range_vals (book w)) by (apply elem_of_range_vals; eauto).
  pose proof (Hge b Hin H1 H2). lia.
Qed.

Lemma next_index_free chain w id b :
  addresses_wf reg (w_store w) → chain ≠ ChainSolana → book w !! id = Some b →
  in_slot chain 0 (next_index chain 0 w) b = false.
Proof.
  intros Hwf Hs Hb. apply not_true_is_false. intros (H1 & H2 & H3)%in_slot_true.
  pose proof (next_index_above chain w id b (aw_derived reg _ Hwf) Hs Hb H1 H2). lia.
Qed.

Lemma direct_fix chain index change r :
  direct reg chain index change = Ok r → direct reg chain (R_Index r) (R_Change r) = Ok r.
Proof.
  intros H. destruct (decide (chain = ChainSolana)) as [->|Hs].
  - revert H. unfold direct. simpl. by intros [= <-].
  - by destruct (direct_index reg _ _ _ _ Hs H) as (_ & -> & ->).
Qed.

Definition around (w : World) : MemStore * gmap string string := (w_store w, w_locks w).

Lemma For_around chain d index change :
  For reg chain = Ok d → respects (framing around) (d index change).
Proof.
  assert (Hm : ∀ key ttl r, respects (framing around) (memoized key ttl r)).
  { intros key ttl r w. unfold memoized, cache_Get, cache_Set, mem_cache, MemCache.Get,
      MemCache.Set_, framing, around. mem_eval; by destruct r. }
  unfold For. destruct (IsEVM chain); [|case_bool_decide; [|case_bool_decide; [|done]]];
    intros [= <-]; unfold evm_DeriveAt, sol_DeriveAt, btc_DeriveAt; go_respects.
Qed.

(** The derivation step of [deriveNew]. *)
Lemma derive_run chain d index change w :
  For reg chain = Ok d → book_inv reg w →
  ∃ w', d index change w = (direct reg chain index change, w') ∧ book_rel reg w w' ∧
        around w' = around w.
Proof.
  intros Hd Hw. destruct (For_direct reg chain d index change w Hd) as (w' & E & HC);
    [apply Hw|].
  pose proof (For_around chain d index change Hd w) as Ha. rewrite E in Ha. unfold framing in Ha.
  exists w'. split; [done|]. split; [|done].
  assert (Es : w_store w' = w_store w) by (injection Ha; auto).
  split; [intros _; split; [rewrite Es; apply Hw|done|rewrite Es; apply Hw]|].
  intros _. rewrite Es. reflexivity.
Qed.

(** The state after a call that returned [r]: the invariant, the growth, the same locks; and a
    returned address is an active one of the wallet. *)
Definition is_active_in (u : UUID) (a : Address) (w : World) : Prop :=
  Address_WalletID a = u ∧ Address_State a = AddressStateActive ∧
  ∃ c, book w !! Address_ID a = Some (Address_with_created c a).

Definition derived_ok (u : UUID) (w : World) (o : res Address * World) : Prop :=
  book_inv reg o.2 ∧ book_grows (w_store w) (w_store o.2) ∧ w_locks o.2 = w_locks w ∧
  (∀ a, o.1 = Ok a → is_active_in u a o.2).

Lemma derived_ok_rel u w w' o :
  book_inv reg w → book_rel reg w w' → w_locks w' = w_locks w →
  derived_ok u w' o → derived_ok u w o.
Proof.
  intros Hw [_ Hg] Hl (H1 & H2 & H3 & H4). split_and!; [done| |congruence|done].
  etrans; [by apply Hg|done].
Qed.

Lemma derived_ok_err u w e w' :
  book_inv reg w → book_rel reg w w' → w_locks w' = w_locks w →
  derived_ok u w (Err e, w').
Proof. intros Hw [Hi Hg] Hl. split_and!; [by apply Hi|by apply Hg|done|done]. Qed.

Lemma is_active_in_same u a w w' : book w' = book w → is_active_in u a w → is_active_in u a w'.
Proof. unfold is_active_in. by intros ->. Qed.

Lemma deprecate_solana_run row w :
  book_inv reg w →
  ∃ r w', deprecate_solana row w = (r, w') ∧ book_rel reg w w' ∧ w_locks w' = w_locks w ∧
    (Wallet_Chain row ≠ ChainSolana → w' = w ∧ r = Ok ()).
Proof.
  intros Hw. unfold deprecate_solana. case_bool_decide as Hs;
    [|do 2 eexists; split; [reflexivity|]; split; [reflexivity|done]].
  unfold try, Storage.ListAddresses, memstore, Mem.ListAddresses.
  mem_cbv. destruct (sort_Slice _ _) as [|a l];
    [do 2 eexists; split; [reflexivity|]; split; [reflexivity|done]|].
  pose proof (DeprecateAddress_book reg (Address_ID a) w) as Hd.
  destruct (DeprecateAddress (Address_ID a) w) as [r w'] eqn:E. exists r, w'.
  split; [reflexivity|]. split; [exact Hd|]. split; [|done].
  revert E. unfold DeprecateAddress, memstore, Mem.DeprecateAddress. mem_cbv.
  destruct (_ !! _); by intros [= <- <-].
Qed.

Lemma emit_mret {A} ev (a : A) w :
  ∃ w', (emit em ev;; mret a) w = (Ok a, w') ∧ book_rel reg w w' ∧ book w' = book w ∧
        w_locks w' = w_locks w.
Proof.
  destruct (emit_step em ev w) as (w' & E & Hf & Hl & Hc & _). exists w'. step_ok E.
  assert (book w' = book w) by exact (Hf GAddresses ltac:(discriminate)).
  split; [done|]. split; [|done]. apply book_rel_same; [done..|by apply Hf].
Qed.

Lemma next_index_in_slot chain index r w w' :
  addresses_wf reg (w_store w') → book w' = book w →
  index = next_index chain 0 w → direct reg chain index 0 = Ok r →
  chain ≠ ChainSolana → ∀ id b, book w' !! id = Some b →
  in_slot chain (R_Change r) (R_Index r) b = false.
Proof.
  intros Hwf E -> Hd Hs id b Hb. destruct (direct_index reg _ _ _ _ Hs Hd) as (_ & -> & ->).
  assert (next_index chain 0 w = next_index chain 0 w') as ->.
  { unfold next_index. by rewrite E. }
  by apply (next_index_free chain w' id b).
Qed.

Lemma persist_run row r w :
  book_inv reg w → direct reg (Wallet_Chain row) (R_Index r) (R_Change r) = Ok r →
  (Wallet_Chain row ≠ ChainSolana → ∀ id b, book w !! id = Some b →
     in_slot (Wallet_Chain row) (R_Change r) (R_Index r) b = false) →
  derived_ok (Wallet_ID row) w (persist_address em row r w).
Proof.
  intros Hw Hr Hslot. unfold persist_address. do 2 (erewrite bind_Ok by reflexivity).
  set (a := new_address _ row r _). set (w3 := tick (next_id w)).
  assert (R3 : book_rel reg w w3) by by apply book_rel_same.
  destruct (InsertAddress_book reg a w3) as (r4 & w4 & E4 & R4 & L4 & P4); try done.
  - by apply R3.
  - change (direct reg (Wallet_Chain row) (R_Index r) (R_Change r) = Ok (result_of a)).
    rewrite Hr. by destruct r.
  - assert (R : book_rel reg w w4) by (etrans; [exact R3|exact R4]).
    destruct r4 as [[]|e]; [step_ok E4|step_err E4; by apply derived_ok_err].
    destruct (emit_mret (mkEvent "wallet.address.derived" (Some (Wallet_ID row))
        [("address", AStr (Address_Address a)); ("index", AInt (Address_Index a));
         ("path", AStr (Address_DerivationPath a))])%string a w4) as (w5 & E5 & R5 & B5 & L5).
    change (derived_ok (Wallet_ID row) w ((emit em (mkEvent "wallet.address.derived"
        (Some (Wallet_ID row)) [("address", AStr (Address_Address a));
        ("index", AInt (Address_Index a)); ("path", AStr (Address_DerivationPath a))])%string;;
        mret a) w4)). rewrite E5.
    apply (derived_ok_rel _ _ w4); [done..|]. destruct R5 as [I5 G5].
    assert (book_inv reg w4) by by apply R.
    split_and!; [by apply I5|by apply G5|done|]. intros ? [= <-].
    apply (is_active_in_same _ _ w4); [done|]. split; [done|]. split; [done|]. by apply P4.
Qed.

Lemma deriveNew_run row w :
  book_inv reg w → derived_ok (Wallet_ID row) w (deriveNew em reg row w).
Proof.
  intros Hw. unfold deriveNew. destruct (For reg (Wallet_Chain row)) as [d|e] eqn:Ed;
    [erewrite bind_Ok by reflexivity|by apply derived_ok_err].
  step_ok (NextAddressIndex_run _ _ _).
  destruct (deprecate_solana_run row w Hw) as (r1 & w1 & E1 & R1 & L1 & N1).
  destruct r1 as [[]|e]; [step_ok E1|step_err E1; by apply derived_ok_err].
  assert (Hw1 : book_inv reg w1) by by apply R1.
  apply (derived_ok_rel _ _ w1); [done..|].
  destruct (derive_run _ d (next_index (Wallet_Chain row) 0 w) 0 w1 Ed Hw1)
    as (w2 & E2 & R2 & A2). unfold around in A2. injection A2 as S2 L2.
  destruct (direct reg _ _ 0) as [r|e] eqn:Er; [step_ok E2|step_err E2; by apply derived_ok_err].
  assert (Hw2 : book_inv reg w2) by by apply R2.
  apply (derived_ok_rel _ _ w2); [done..|].
  apply persist_run; [done|by eapply direct_fix|].
  intros Hs. destruct (N1 Hs) as [-> _].
  apply (next_index_in_slot (Wallet_Chain row) (next_index (Wallet_Chain row) 0 w) r w w2);
    try done; [apply Hw2|]. unfold book. by rewrite S2.
Qed.
End derive.

(** ** The calls of the service *)

Section calls.
Context {GR : GoRuntime} {UL : UuidLib} {CL : CryptoLib} {HD : HdLib}.
Variable (em : Emitter World) (cfg : Config) (reg : Registry) (others : GoM World unit).
Context {EM : AuditEmitter em}.
Hypothesis others_book : respects (book_rel reg) others.

#[local] Abbreviation book_rel := (book_rel reg) (only parsing).
#[local] Abbreviation book_inv := (book_inv reg) (only parsing).

(** The invariant and the growth; a returned address is an active one of the wallet. *)
Definition served (u : UUID) (w : World) (o : res Address * World) : Prop :=
  book_inv o.2 ∧ book_grows (w_store w) (w_store o.2) ∧ (∀ a, o.1 = Ok a → is_active_in u a o.2).

Lemma served_derived u w o : derived_ok reg u w o → served u w o.
Proof. by intros (? & ? & _ & ?). Qed.

Lemma served_rel u w w' o : book_inv w → book_rel w w' → served u w' o → served u w o.
Proof. intros Hw [_ Hg] (? & ? & ?). split_and!; [done| |done]. etrans; [by apply Hg|done]. Qed.

Lemma served_err u w e w' : book_inv w → book_rel w w' → served u w (Err e, w').
Proof. intros Hw [Hi Hg]. split_and!; [by apply Hi|by apply Hg|done]. Qed.

Lemma served_ok u w a w' :
  book_inv w → book_rel w w' → is_active_in u a w' → served u w (Ok a, w').
Proof. intros Hw [Hi Hg] Ha. split_and!; [by apply Hi|by apply Hg|]. by intros ? [= <-]. Qed.

(** A last step that leaves the book alone. *)
Lemma served_then u w r w1 w2 :
  served u w (r, w1) → book_rel w1 w2 → book w2 = book w1 → served u w (r, w2).
Proof.
  intros (Hi & Hg & Ha) [Hi2 Hg2] E. simpl in *.
  split_and!; [by apply Hi2|etrans; [exact Hg|by apply Hg2]|].
  intros a Hr. eapply is_active_in_same; [exact E|by apply Ha].
Qed.

Lemma under_lock_served u row body w :
  book_inv w → (∀ w, book_inv w → served u w (body w)) →
  served u w (under_lock row body w).
Proof.
  intros Hw Hbody. unfold under_lock.
  pose proof (bookless_Acquire (address_lock row) lock_ttl w) as (Hb & Hc & Hwl).
  destruct (Acquire _ _ w) as [[[tok ok]|e] w1] eqn:E; simpl in Hb, Hc, Hwl;
    assert (R1 : book_rel w w1) by (by apply book_rel_same);
    [step_ok E|step_err E; by apply served_err].
  destruct ok; [|by apply served_err]. cbn [negb]. unfold finally.
  apply (served_rel _ _ w1); [done..|].
  specialize (Hbody w1 ltac:(by apply R1)). destruct (body w1) as [r w2].
  pose proof (bookless_Release (address_lock row) tok w2) as (Hb2 & Hc2 & Hw2).
  destruct (Release _ _ w2) as [r3 w3] eqn:E3; simpl in *.
  eapply served_then; [exact Hbody|by apply book_rel_same|done].
Qed.

Lemma rotate_served row old w :
  book_inv w → served (Wallet_ID row) w (rotate em reg row old w).
Proof.
  intros Hw. unfold rotate. apply under_lock_served; [done|]. clear w Hw. intros w Hw.
  pose proof (DeprecateAddress_book reg (Address_ID old) w) as R1.
  destruct (DeprecateAddress _ w) as [[[]|e] w1] eqn:E1; simpl in R1;
    [step_ok E1|step_err E1; by apply served_err].
  apply (served_rel _ _ w1); [done..|]. assert (Hw1 : book_inv w1) by by apply R1.
  pose proof (served_derived _ _ _ (deriveNew_run em reg row w1 Hw1)) as Hs.
  destruct (deriveNew em reg row w1) as [[a|e] w2] eqn:E2; [step_ok E2|step_err E2; exact Hs].
  edestruct (emit_mret em reg (mkEvent "wallet.address.rotated" (Some (Wallet_ID row))
    [("old_address", AStr (Address_Address old)); ("new_address", AStr (Address_Address a));
     ("index", AInt (Address_Index a))])%string a w2) as (w3 & E3 & R3 & B3 & _).
  eapply eq_ind_r; [|exact E3]. by eapply served_then.
Qed.

Lemma GetActiveAddress_run u w :
  book_inv w →
  (∃ a, GetActiveAddress u w = (Ok a, w) ∧ book w !! Address_ID a = Some a ∧
        Address_WalletID a = u ∧ Address_State a = AddressStateActive) ∨
  (GetActiveAddress u w = (Err (Wrapf "no active address: %w" [] (Sentinel ErrNoRows)), w) ∧
   ∀ id a, book w !! id = Some a → Mem.is_active_of u a = false).
Proof.
  intros Hw. unfold GetActiveAddress, memstore, Mem.GetActiveAddress, book. mem_cbv.
  destruct (List.find _ _) as [a|] eqn:E.
  - left. apply find_range_vals_Some in E as [[id Ha] [Hu Hs]%is_active_of_true].
    exists a. split; [done|]. rewrite (aw_key reg _ (bi_wf reg w Hw) id a Ha). done.
  - right. split; [done|]. intros id a Ha. by eapply find_range_vals_None.
Qed.

Lemma is_active_in_stored u a w :
  book w !! Address_ID a = Some a → Address_WalletID a = u → Address_State a = AddressStateActive →
  is_active_in u a w.
Proof. intros H E1 E2. split_and!; [done..|]. exists (Address_CreatedAt a). by destruct a. Qed.

Lemma active_address_run u w :
  book_inv w →
  (∃ a, active_address u w = (Ok (Some a), w) ∧ book w !! Address_ID a = Some a ∧
        Address_WalletID a = u ∧ Address_State a = AddressStateActive) ∨
  (active_address u w = (Ok None, w) ∧
   ∀ id a, book w !! id = Some a → Mem.is_active_of u a = false).
Proof.
  intros Hw. unfold active_address.
  destruct (GetActiveAddress_run u w Hw) as [(a & E & H)|[E H]]; [left; exists a|right];
    (split; [|done]); by step_ok E.
Qed.

Lemma derive_loop_served n row w :
  book_inv w → served (Wallet_ID row) w (derive_loop em reg others n row w).
Proof.
  revert w. induction n as [|n IH]; intros w Hw; [by apply served_err|]. cbn [derive_loop].
  pose proof (bookless_Acquire (address_lock row) lock_ttl w) as (Hb & Hc & Hwl).
  destruct (Acquire _ _ w) as [[[tok ok]|e] w1] eqn:E; simpl in Hb, Hc, Hwl;
    assert (R1 : book_rel w w1) by (by apply book_rel_same);
    [step_ok E|step_err E; by apply served_err].
  assert (Hw1 : book_inv w1) by (by apply R1). apply (served_rel _ _ w1); [done..|].
  assert (Hrel : ∀ (r : res Address) w2, served (Wallet_ID row) w1 (r, w2) →
    served (Wallet_ID row) w1 ((ignore (Release (address_lock row) tok);; ret_res r) w2)).
  { intros r w2 H. pose proof (bookless_Release (address_lock row) tok w2) as (Hb2 & Hc2 & Hw2).
    destruct (Release _ _ w2) as [r3 w3] eqn:E3; simpl in *. step_ok E3.
    eapply served_then; [exact H|by apply book_rel_same|done]. }
  destruct ok; cbn [negb].
  - destruct (GetActiveAddress_run (Wallet_ID row) w1 Hw1)
      as [(a & Ea & Ha & Eu & Es)|[Ea _]]; step_ok Ea.
    + apply (Hrel (Ok a)). apply served_ok; [done..|by apply is_active_in_stored].
    + cbn [errors_Is]. rewrite bool_decide_eq_true_2 by done.
      pose proof (served_derived _ _ _ (deriveNew_run em reg row w1 Hw1)) as Hs.
      destruct (deriveNew em reg row w1) as [r w2] eqn:E2. step_ok E2. by apply Hrel.
  - destruct (active_address_run (Wallet_ID row) w1 Hw1) as [(a & Ea & Ha & Eu & Es)|[Ea _]];
      step_ok Ea.
    + apply served_ok; [done..|by apply is_active_in_stored].
    + pose proof (others_book w1) as Ro. destruct (others w1) as [r w2] eqn:E2; simpl in Ro.
      step_ok E2. apply (served_rel _ _ w2); [done..|]. apply IH. by apply Ro.
Qed.

Lemma shouldRotate_run row a w :
  ∃ b w', shouldRotate cfg row a w = (Ok b, w') ∧ book w' = book w ∧ w_cache w' = w_cache w ∧
    w_store w' = w_store w.
Proof.
  unfold shouldRotate. mem_cbv. repeat (go_split; mem_cbv);
    (do 2 eexists; split; [reflexivity|done]).
Qed.

(** The wallet of a served call is there and not retired. *)
Definition open_wallet (u : UUID) (w : World) : Prop :=
  ∃ row, wallets (w_store w) !! u = Some row ∧ Wallet_State row ≠ WalletStateRetired.

Definition may_serve (u : UUID) (w : World) (o : res Address * World) : Prop :=
  served u w o ∧ (is_ok o.1 = true → open_wallet u w).

Lemma with_wallet u (body : Wallet → GoM World Address) w :
  book_inv w →
  (∀ row, wallets (w_store w) !! u = Some row → Wallet_ID row = u → served u w (body row w)) →
  may_serve u w
    ((row ← GetWallet u;
      if bool_decide (Wallet_State row = WalletStateRetired) then fail (Sentinel ErrWalletRetired)
      else body row) w).
Proof.
  intros Hw Hb. pose proof (GetWallet_run u w) as Eg.
  destruct (wallets (w_store w) !! u) as [row|] eqn:Er;
    [step_ok Eg|step_err Eg; by split; [apply served_err|]].
  case_bool_decide as Hs; [by split; [apply served_err|]|].
  split; [by apply Hb, (bi_keyed reg w Hw u)|]. intros _. exists row. by split.
Qed.

Lemma CurrentOrRotate_serves u w :
  book_inv w →
  may_serve u w (CurrentOrRotate em cfg reg others u w).
Proof.
  intros Hw. unfold CurrentOrRotate. apply with_wallet; [done..|]. intros row Hrow <-.
  destruct (active_address_run (Wallet_ID row) w Hw) as [(a & Ea & Ha & Eu & Es)|[Ea _]];
    step_ok Ea; [|by apply derive_loop_served].
  destruct (shouldRotate_run row a w) as (due & w1 & E1 & B1 & C1 & S1). step_ok E1.
  assert (R1 : book_rel w w1) by (apply book_rel_same; [done..|by rewrite S1]).
  apply (served_rel _ _ w1); [done..|]. assert (book_inv w1) by by apply R1.
  destruct due; [by apply rotate_served|].
  apply served_ok; [done..|]. apply is_active_in_stored; [by rewrite B1|done..].
Qed.

Lemma ForceRotate_serves u w :
  book_inv w → may_serve u w (ForceRotate em reg u w).
Proof.
  intros Hw. unfold ForceRotate. apply with_wallet; [done..|]. intros row Hrow <-.
  destruct (active_address_run (Wallet_ID row) w Hw) as [(a & Ea & _)|[Ea _]]; step_ok Ea.
  - by apply rotate_served.
  - apply under_lock_served; [done|]. intros w1 Hw1. by apply served_derived, deriveNew_run.
Qed.

Lemma DeriveAddress_may_serve u force w :
  book_inv w →
  may_serve u w (DeriveAddress em cfg reg others u force w).
Proof.
  intros Hw. unfold DeriveAddress. destruct force; [by apply ForceRotate_serves|].
  by apply CurrentOrRotate_serves.
Qed.

(** C18: a call that derives an address, forced or not, hands out the one active address of the
    wallet, and only when the wallet exists and is not retired; nothing it does on any path
    loses an address, reactivates a deprecated one or fills a derivation slot twice. *)
Theorem DeriveAddress_serves u force w :
  book_inv w →
  let '(r, w') := DeriveAddress em cfg reg others u force w in
  addresses_wf reg (w_store w') ∧ book_grows (w_store w) (w_store w') ∧
  (∀ a, r = Ok a →
     open_wallet u w ∧ Mem.is_active_of u a = true ∧
     ∀ id b, book w' !! id = Some b → (Mem.is_active_of u b = true ↔ id = Address_ID a)).
Proof.
  intros Hw. pose proof (DeriveAddress_may_serve u force w Hw) as [(Hi & Hg & Ha) Ho].
  destruct (DeriveAddress _ _ _ _ _ _ w) as [r w']. simpl in *.
  split_and!; [apply Hi|done|]. intros a ->. destruct (Ha a eq_refl) as (Eu & Es & c & Hc).
  assert (Hact : Mem.is_active_of u a = true) by (by apply is_active_of_true).
  split_and!; [by apply Ho|done|]. intros id b Hb. split.
  - intros Hbact. by apply (aw_active reg _ (bi_wf reg w' Hi) u id (Address_ID a) b _ Hb Hc).
  - intros ->. unfold book in *. rewrite Hc in Hb. injection Hb as <-. exact Hact.
Qed.

(** ** Runs of the service *)

(** A whole call of the wallet service with any outcome, a receipt, or a step elsewhere; the
    system of Overlap.v lets the derivations overlap. *)
Inductive wstep : World → World → Prop :=
  | ws_create req w : wstep w (Create em req w).2
  | ws_state u st w : wstep w (SetState em u st w).2
  | ws_derive u force w : wstep w (DeriveAddress em cfg reg others u force w).2
  | ws_received id w : wstep w (IncrementReceiveCount id w).2
  | ws_other w w' :
      same GWallets (w_store w) (w_store w') → book w' = book w → w_cache w' = w_cache w →
      wstep w w'.

(** *** The wallet rows *)

(** A preorder on the store that the address writes, the audit rows and the other goroutines
    respect is respected by every derivation. *)
Section frame.
Variable (Q : relation MemStore).
Context {PQ : PreOrder Q}.
Hypothesis Q_audit : ∀ ev, respects (on_store Q) (emit em ev).
Hypothesis Q_deprecate : ∀ id, respects (on_store Q) (DeprecateAddress id).
Hypothesis Q_others : respects (on_store Q) others.
Variable (row : Wallet).
Hypothesis Q_insert :
  ∀ a, Address_WalletID a = Wallet_ID row → respects (on_store Q) (InsertAddress a).

#[local] Hint Resolve Q_audit Q_deprecate Q_others Q_insert : gorel.

Lemma For_storeless chain d i c : For reg chain = Ok d → respects (on_store Q) (d i c).
Proof.
  intros Hd w. pose proof (For_around reg chain d i c Hd w) as Ha.
  unfold framing, around in Ha. unfold on_store. injection Ha as -> _. reflexivity.
Qed.

Lemma persist_frame r : respects (on_store Q) (persist_address em row r).
Proof. unfold persist_address. go_respects. Qed.
#[local] Hint Resolve persist_frame : gorel.

Lemma deriveNew_frame : respects (on_store Q) (deriveNew em reg row).
Proof.
  unfold deriveNew. apply respects_bind_run; [exact _|go_respects|].
  intros w d w' [= Hd <-]. pose proof (λ i c, For_storeless _ d i c Hd) as HF.
  unfold deprecate_solana. go_respects.
Qed.
#[local] Hint Resolve deriveNew_frame : gorel.

Lemma rotate_frame old : respects (on_store Q) (rotate em reg row old).
Proof. unfold rotate, under_lock. go_respects. Qed.

Lemma derive_loop_frame n : respects (on_store Q) (derive_loop em reg others n row).
Proof.
  induction n as [|n IH]; cbn [derive_loop]; [go_respects|].
  unfold active_address. go_respects.
Qed.

Lemma CurrentOrRotate_frame u w :
  wallets (w_store w) !! u = Some row → on_store Q w (CurrentOrRotate em cfg reg others u w).2.
Proof.
  intros Hrow. unfold CurrentOrRotate. pose proof (GetWallet_run u w) as Eg.
  rewrite Hrow in Eg. step_ok Eg. case_bool_decide; [unfold on_store; reflexivity|]. revert w Hrow Eg.
  assert (HL : ∀ n, respects (on_store Q) (derive_loop em reg others n row))
    by apply derive_loop_frame.
  assert (HR : ∀ old, respects (on_store Q) (rotate em reg row old)) by apply rotate_frame.
  intros w _ _. revert w. change (respects (on_store Q) (active ← active_address u;
    match active with
    | None => deriveNewLocked em reg others row
    | Some a => due ← shouldRotate cfg row a;
                if due : bool then rotate em reg row a else mret a
    end)). unfold active_address, shouldRotate, deriveNewLocked. go_respects.
Qed.

Lemma ForceRotate_frame u w :
  wallets (w_store w) !! u = Some row → on_store Q w (ForceRotate em reg u w).2.
Proof.
  intros Hrow. unfold ForceRotate. pose proof (GetWallet_run u w) as Eg.
  rewrite Hrow in Eg. step_ok Eg. case_bool_decide; [unfold on_store; reflexivity|].
  assert (HR : ∀ old, respects (on_store Q) (rotate em reg row old)) by apply rotate_frame.
  generalize w. change (respects (on_store Q) (active ← active_address u;
    match active with
    | Some a => rotate em reg row a
    | None => under_lock row (deriveNew em reg row)
    end)). unfold active_address, under_lock. go_respects.
Qed.
End frame.

(** A call on a wallet that is not there, or is retired, does nothing. *)
Lemma DeriveAddress_refused u force w :
  ¬ open_wallet u w → ∃ e, DeriveAddress em cfg reg others u force w = (Err e, w).
Proof.
  intros Hn. pose proof (GetWallet_run u w) as Eg.
  unfold DeriveAddress, ForceRotate, CurrentOrRotate.
  destruct (wallets (w_store w) !! u) as [row|] eqn:Er.
  - assert (Wallet_State row = WalletStateRetired) as Hs.
    { destruct (decide (Wallet_State row = WalletStateRetired)); [done|].
      destruct Hn. by exists row. }
    destruct force; step_ok Eg; rewrite bool_decide_eq_true_2 by done; eexists; reflexivity.
  - destruct force; step_err Eg; eexists; reflexivity.
Qed.

Lemma DeriveAddress_frame Q `{!PreOrder Q} u force w :
  (∀ ev, respects (on_store Q) (emit em ev)) →
  (∀ id, respects (on_store Q) (DeprecateAddress id)) →
  respects (on_store Q) others →
  (open_wallet u w → ∀ a row, wallets (w_store w) !! u = Some row →
     Address_WalletID a = Wallet_ID row → respects (on_store Q) (InsertAddress a)) →
  on_store Q w (DeriveAddress em cfg reg others u force w).2.
Proof.
  intros He Hd Ho Hi. destruct (wallets (w_store w) !! u) as [row|] eqn:Er.
  - destruct (decide (Wallet_State row = WalletStateRetired)) as [Hs|Hs].
    + destruct (DeriveAddress_refused u force w) as [e ->]; [|unfold on_store; reflexivity].
      intros (row' & Hrow' & Hs'). congruence.
    + assert (open_wallet u w) as Hw by (by exists row).
      destruct force; [apply (ForceRotate_frame Q) with row|apply (CurrentOrRotate_frame Q) with row];
        eauto.
  - destruct (DeriveAddress_refused u force w) as [e ->]; [|unfold on_store; reflexivity].
    intros (row' & Hrow' & _). congruence.
Qed.

(** *** The invariant over a run *)

Lemma Create_book req : respects book_rel (Create em req).
Proof. unfold Create. go_respects. Qed.

Lemma SetState_book u st : respects book_rel (SetState em u st).
Proof. unfold SetState. go_respects. Qed.

Lemma DeriveAddress_book u force : respects book_rel (DeriveAddress em cfg reg others u force).
Proof.
  intros w. split; intros Hw; destruct (DeriveAddress_may_serve u force w Hw) as [(Hi & Hg & _) _];
    done.
Qed.

Lemma wstep_book w w' : wstep w w' → book_rel w w'.
Proof.
  destruct 1 as [req w|u st w|u force w|id w|w w' Ew E Ec].
  - apply Create_book.
  - apply SetState_book.
  - apply DeriveAddress_book.
  - apply IncrementReceiveCount_book.
  - by apply book_rel_same.
Qed.

Lemma run_book w0 w : rtc wstep w0 w → book_rel w0 w.
Proof.
  induction 1 as [w|w1 w2 w3 Hst _ IH]; [reflexivity|].
  etrans; [by apply wstep_book|exact IH].
Qed.

Lemma book_inv_empty w :
  book w = ∅ → w_cache w = ∅ → wallets_keyed (w_store w) → book_inv w.
Proof.
  unfold book. intros E Ec Hk. split; [| |exact Hk].
  - split; rewrite E; [by intros ?? ?%lookup_empty_Some|intros; apply unique_by_empty
      |intros; apply unique_by_empty|by intros ?? ?%lookup_empty_Some].
  - intros k e. rewrite Ec. by intros ?%lookup_empty_Some.
Qed.

(** From an empty store, however whole calls of the wallet service, receipts and other handlers
    follow each other, each wallet has at most one active address, no two addresses of a chain
    share a derivation index and branch (Solana, which has one slot, apart), and every stored
    address is the one the chain's derivation gives for its index.  Overlap.v lets the calls
    overlap. *)
Lemma addresses_well_formed w0 w :
  book w0 = ∅ → w_cache w0 = ∅ → wallets (w_store w0) = ∅ → rtc wstep w0 w →
  addresses_wf reg (w_store w).
Proof.
  intros E Ec Ew Hrun. apply (run_book w0 w Hrun), book_inv_empty; [done..|].
  intros u row. rewrite Ew. by intros ?%lookup_empty_Some.
Qed.

(** *** Retired wallets *)

Definition retired (u : UUID) (s : MemStore) : Prop :=
  ∃ row, wallets s !! u = Some row ∧ Wallet_State row = WalletStateRetired.

Definition final_for (u : UUID) (s s' : MemStore) : Prop :=
  retired u s → retired u s' ∧
  (∀ id a, addresses s' !! id = Some a → Address_WalletID a = u →
     ∃ a0, addresses s !! id = Some a0 ∧ Address_WalletID a0 = u).

#[export] Instance final_for_preorder u : PreOrder (final_for u).
Proof.
  split.
  - intros s Hr. split; eauto.
  - intros s1 s2 s3 H12 H23 H1. destruct (H12 H1) as [H2 B12]. destruct (H23 H2) as [H3 B23].
    split; [done|]. intros id a Ha Eu. destruct (B23 id a Ha Eu) as (b & Hb & Eb). eauto.
Qed.

Lemma final_for_same u s s' :
  same GWallets s s' → same GAddresses s s' → final_for u s s'.
Proof. simpl. intros Ew Ea (row & H & Hs). split; [exists row; by rewrite Ew|]. rewrite Ea. eauto. Qed.

Lemma final_emit u ev : respects (on_store (final_for u)) (emit em ev).
Proof.
  intros w. destruct (emit_frame ev w) as [H _].
  by apply final_for_same; apply H.
Qed.

Lemma final_step id u (g : Address → Address) :
  (∀ a, address_step a (g a)) →
  ∀ w, final_for u (w_store w)
    (match book w !! id with
     | Some a => set_addresses (insert id (g a)) (w_store w)
     | None => w_store w
     end).
Proof.
  intros Hg w Hr. unfold book. destruct (addresses (w_store w) !! id) as [a|] eqn:E; [|split; eauto].
  split; [exact Hr|]. simpl. intros i x. rewrite lookup_insert_Some.
  intros [[<- <-]|[_ H]] Eu; [|eauto]. exists a. split; [done|].
  by rewrite (as_wallet _ _ (Hg a)) in Eu.
Qed.

Lemma final_Deprecate u id : respects (on_store (final_for u)) (DeprecateAddress id).
Proof.
  intros w. pose proof (final_step id u (Address_with_state AddressStateDeprecated)
    ltac:(intros a; split; auto) w) as H. unfold book in H. unfold on_store.
  unfold DeprecateAddress, memstore, Mem.DeprecateAddress. mem_cbv.
  by destruct (addresses (w_store w) !! id).
Qed.

Lemma final_Increment u id : respects (on_store (final_for u)) (IncrementReceiveCount id).
Proof.
  intros w. pose proof (final_step id u (λ a, Address_with_receives
    (wrap64 (Address_ReceiveCount a + 1)) a) ltac:(intros a; split; auto) w) as H.
  unfold book in H. unfold on_store, IncrementReceiveCount, memstore, Mem.IncrementReceiveCount.
  mem_cbv. by destruct (addresses (w_store w) !! id).
Qed.

Lemma final_Insert u a :
  Address_WalletID a ≠ u → respects (on_store (final_for u)) (InsertAddress a).
Proof.
  intros Hne w Hr. unfold InsertAddress, memstore, Mem.InsertAddress, Mem.created_or_now. mem_cbv.
  destruct (_ !! Address_ID a); [split; eauto|]. destruct (_ && _); [split; eauto|].
  case_bool_decide; mem_cbv; (split; [exact Hr|]); simpl; intros id x;
    rewrite lookup_insert_Some; intros [[<- <-]|[_ H']] Eu; eauto; by destruct Hne.
Qed.

Lemma final_CreateWallet u row : respects (on_store (final_for u)) (CreateWallet row).
Proof.
  intros w (row0 & Hu & Hs). unfold CreateWallet, memstore, Mem.CreateWallet, Mem.created_or_now.
  mem_cbv. destruct (wallets (w_store w) !! Wallet_ID row) eqn:E.
  - split; [by exists row0|eauto].
  - assert (Wallet_ID row ≠ u) by congruence.
    case_bool_decide; mem_cbv; (split; [exists row0; simpl; by rewrite lookup_insert_ne|eauto]).
Qed.

Lemma final_SetState u v st : respects (on_store (final_for u)) (SetState em v st).
Proof.
  unfold SetState. destruct (ValidWalletState st); [|intros w; unfold on_store; reflexivity].
  cbn [negb]. intros w. pose proof (GetWallet_run v w) as Eg.
  destruct (wallets (w_store w) !! v) as [row|] eqn:E;
    [step_ok Eg|step_err Eg; unfold on_store; reflexivity].
  destruct (bool_decide _ && _) eqn:Eb; [unfold on_store; reflexivity|].
  assert (HU : on_store (final_for u) w (UpdateWalletState v st w).2).
  { unfold on_store, UpdateWalletState, memstore, Mem.UpdateWalletState. mem_cbv. rewrite E. mem_cbv.
    intros (row0 & Hu & Hs). split; [|eauto]. simpl. destruct (decide (v = u)) as [->|Hne].
    - exists (Wallet_with_state st (time_at (w_clock w)) row). simpl. rewrite lookup_insert_eq.
      split; [done|]. simplify_eq. rewrite bool_decide_eq_true_2 in Eb by done.
      simpl in Eb. apply negb_false_iff, bool_decide_eq_true in Eb. exact Eb.
    - exists row0. simpl. by rewrite lookup_insert_ne. }
  destruct (UpdateWalletState v st w) as [[[]|e] w1] eqn:E1; [step_ok E1|step_err E1; exact HU].
  unfold on_store in *. etrans; [exact HU|]. apply final_emit.
Qed.

Lemma final_Create u req : respects (on_store (final_for u)) (Create em req).
Proof.
  pose proof (final_emit u). pose proof (final_CreateWallet u). unfold Create. go_respects.
Qed.

Section retire.
Hypothesis others_final : ∀ u, respects (on_store (final_for u)) others.

Lemma wstep_final u w w' :
  wstep w w' → wallets_keyed (w_store w) → final_for u (w_store w) (w_store w').
Proof.
  intros [req w1|v st w1|v force w1|id w1|w1 w1' Ew Ea _] Hk.
  - apply final_Create.
  - apply final_SetState.
  - intros Hr. destruct (decide (v = u)) as [->|Hne].
    + destruct (DeriveAddress_refused u force w1) as [e ->].
      { intros (row & H1 & H2). destruct Hr as (row' & H1' & H2'). congruence. }
      by apply (reflexivity (R := final_for u)).
    + revert Hr. apply (DeriveAddress_frame (final_for u)); [apply final_emit|apply final_Deprecate
        |apply others_final|].
      intros _ a row Hrow Ea. apply final_Insert. rewrite Ea. by rewrite (Hk v row Hrow).
  - apply final_Increment.
  - by apply final_for_same.
Qed.

(** C19: retirement is final: once a wallet is retired no later call of the service, on any
    wallet and with any outcome, brings it back or gives it another address. *)
Theorem retired_is_final u w0 w :
  book_inv w0 → retired u (w_store w0) → rtc wstep w0 w →
  retired u (w_store w) ∧
  ∀ id a, book w !! id = Some a → Address_WalletID a = u → is_Some (book w0 !! id).
Proof.
  intros Hk Hr Hrun.
  assert (final_for u (w_store w0) (w_store w)) as HF.
  { clear Hr. induction Hrun as [w|w1 w2 w3 Hst _ IH]; [reflexivity|].
    etrans; [apply wstep_final; [done|apply Hk]|]. by apply IH, (wstep_book _ _ Hst). }
  destruct (HF Hr) as [Hr' HB]. split; [done|]. intros id a Ha Eu.
  destruct (HB id a Ha Eu) as (a0 & H0 & _). by exists a0.
Qed.
End retire.
End calls.

(** ** A rotation that fails *)

Section failure.
Context {GR : GoRuntime} {UL : UuidLib} {CL : CryptoLib} {HD : HdLib}.
Variable (em : Emitter World) (cfg : Config) (reg : Registry).
Context {EM : AuditEmitter em}.

(** Deprecating an address moves no index. *)
Definition same_places (w w' : World) : Prop :=
  ∀ id b, book w !! id = Some b →
    ∃ b', book w' !! id = Some b' ∧ Address_Chain b' = Address_Chain b ∧ result_of b' = result_of b.

Lemma max_index_le chain change w w' :
  same_places w w' →
  Mem.max_index chain change (range_vals (book w)) ≤
  Mem.max_index chain change (range_vals (book w')).
Proof.
  intros Hg. destruct (max_index_spec chain change (range_vals (book w))) as (_ & _ & Hm).
  destruct (max_index_spec chain change (range_vals (book w'))) as (Hlo & Hge & _).
  destruct Hm as [->|(b & [id Hb]%elem_of_range_vals & Ec & Ech & ->)]; [done|].
  destruct (Hg id b Hb) as (b' & Hb' & Ec' & Er).
  unfold result_of in Er. injection Er as _ _ Ei Eh. rewrite <-Ei.
  apply Hge; [apply elem_of_range_vals; eauto|congruence|congruence].
Qed.

Lemma next_index_deprecated chain id a w w' :
  book w !! id = Some a →
  book w' = <[id := Address_with_state AddressStateDeprecated a]> (book w) →
  next_index chain 0 w' = next_index chain 0 w.
Proof.
  intros Ha E. unfold next_index. do 2 f_equal. apply Z.le_antisymm; apply max_index_le;
    intros i b; rewrite E.
  - rewrite lookup_insert_Some. intros [[<- <-]|[_ Hb]]; [by exists a|by exists b].
  - intros Hb. destruct (decide (i = id)) as [->|Hne].
    + rewrite lookup_insert_eq. eexists. split; [done|]. by simplify_eq.
    + rewrite lookup_insert_ne by done. by exists b.
Qed.

(** The new row of a deprecated address, and a derivation that fails. *)
Lemma deriveNew_fails row d e w :
  book_inv reg w → For reg (Wallet_Chain row) = Ok d →
  direct reg (Wallet_Chain row) (next_index (Wallet_Chain row) 0 w) 0 = Err e →
  ∃ w', deriveNew em reg row w = (Err (Wrapf "derive: %w" [] e), w') ∧ around w' = around w.
Proof.
  intros Hw Hd He. unfold deriveNew. rewrite Hd. erewrite bind_Ok by reflexivity.
  step_ok (NextAddressIndex_run _ _ _).
  assert (Wallet_Chain row ≠ ChainSolana) as Hs.
  { intros Es. rewrite Es in He. discriminate. }
  unfold deprecate_solana. rewrite (bool_decide_eq_false_2 _ Hs).
  erewrite bind_Ok by reflexivity.
  destruct (derive_run reg _ d (next_index (Wallet_Chain row) 0 w) 0 w Hd Hw) as (w' & E & _ & A).
  rewrite He in E. exists w'. split; [|exact A]. by step_err E.
Qed.

(** A rotation deprecates the old address before it derives the new one, outside any
    transaction: when the derivation fails the call returns the error, the lock is free again,
    and the wallet is left without an active address. *)
Theorem rotation_failure_keeps_deprecation u row a d e w :
  book_inv reg w → wallets (w_store w) !! u = Some row → Wallet_ID row = u →
  Wallet_State row ≠ WalletStateRetired → w_locks w !! address_lock row = None →
  book w !! Address_ID a = Some a → Mem.is_active_of u a = true →
  For reg (Wallet_Chain row) = Ok d →
  direct reg (Wallet_Chain row) (next_index (Wallet_Chain row) 0 w) 0 = Err e →
  ∃ w', ForceRotate em reg u w = (Err (Wrapf "derive: %w" [] e), w') ∧
    book w' = <[Address_ID a := Address_with_state AddressStateDeprecated a]> (book w) ∧
    (∀ id b, book w' !! id = Some b → Mem.is_active_of u b = false) ∧
    w_locks w' = w_locks w.
Proof.
  intros Hw Hrow Eid Hs Hl Ha Hact Hd He. unfold ForceRotate.
  pose proof (GetWallet_run u w) as Eg. rewrite Hrow in Eg. step_ok Eg.
  rewrite (bool_decide_eq_false_2 _ Hs).
  destruct (active_address_run reg u w Hw) as [(a' & E1 & Ha' & Eu & Es)|[_ Hno]];
    [step_ok E1|by rewrite (Hno _ _ Ha) in Hact].
  assert (Address_ID a' = Address_ID a) as Eaa.
  { apply (aw_active reg _ (bi_wf reg w Hw) u _ _ a' a Ha' Ha); [|done].
    by apply is_active_of_true. }
  assert (a' = a) as -> by (rewrite Eaa, Ha in Ha'; congruence).
  unfold rotate, under_lock. step_ok (Acquire_free _ _ _ Hl). cbn [negb].
  set (tok := uuid_String _). set (w1 := set_locks _ _).
  set (w2 := set_store (set_addresses (insert (Address_ID a)
               (Address_with_state AddressStateDeprecated a)) (w_store w1)) w1).
  assert (E2 : DeprecateAddress (Address_ID a) w1 = (Ok (), w2)).
  { unfold DeprecateAddress, memstore, Mem.DeprecateAddress. mem_cbv.
    unfold book in Ha. change (addresses (w_store w1)) with (addresses (w_store w)).
    by rewrite Ha. }
  assert (Hw2 : book_inv reg w2).
  { assert (R : book_rel reg w w1) by by apply book_rel_same.
    pose proof (DeprecateAddress_book reg (Address_ID a) w1) as R2. rewrite E2 in R2.
    by apply R2, R. }
  assert (En : next_index (Wallet_Chain row) 0 w2 = next_index (Wallet_Chain row) 0 w)
    by (by apply (next_index_deprecated _ (Address_ID a) a)).
  destruct (deriveNew_fails row d e w2 Hw2 Hd) as (w3 & E3 & A3); [by rewrite En|].
  unfold around in A3. injection A3 as S3 L3. unfold finally. step_ok E2. step_err E3.
  rewrite (Release_own (address_lock row) tok w3); [|rewrite L3; simpl; by rewrite lookup_insert_eq].
  eexists. split; [reflexivity|]. unfold book. simpl. rewrite S3, L3. simpl. split_and!; [done| |].
  - intros id b. rewrite lookup_insert_Some. intros [[<- <-]|[Hne Hb]].
    + apply not_true_is_false. by intros [_ ?]%is_active_of_true.
    + apply not_true_is_false. intros Hb'. destruct Hne. symmetry.
      by apply (aw_active reg _ (bi_wf reg w Hw) u id (Address_ID a) b a Hb Ha).
  - by rewrite delete_insert_id.
Qed.
End failure.

(** ** Witnesses *)

Section witnesses.
#[local] Existing Instances der_rt simple_uuid simple_crypto simple_hd.

Definition book_cfg : Config := service_config 7 12 6 "finalized" (SpecFloat.S754_zero false) 1000 5000000.
Definition idle : GoM World unit := mret ().

Lemma idle_book : respects (book_rel der_reg) idle.
Proof. intros w. simpl. reflexivity. Qed.
Lemma idle_store Q `{!PreOrder Q} : respects (on_store Q) idle.
Proof. intros w. unfold on_store. simpl. reflexivity. Qed.

(** One Ethereum wallet, created through the service, with one derived address. *)
Definition eth_request : CreateRequest := mkCreateRequest ChainEthereum WalletTypeHot "hot" "k1".
Definition wallet_world : World := (Create EmitterService eth_request NewWorld).2.
Definition wallet_id : UUID := 1%N.
Definition address_world : World :=
  (DeriveAddress EmitterService book_cfg der_reg idle wallet_id false wallet_world).2.

Lemma NewWorld_book : book_inv der_reg NewWorld.
Proof.
  apply book_inv_empty; [done..|]. intros u row Hrow. simpl in Hrow. by rewrite lookup_empty in Hrow.
Qed.

Lemma address_run : rtc (wstep EmitterService book_cfg der_reg idle) NewWorld address_world.
Proof. eapply rtc_l; [apply ws_create|]. eapply rtc_l; [apply ws_derive|]. apply rtc_refl. Qed.

Lemma address_world_ok : book_inv der_reg address_world.
Proof. apply (run_book EmitterService book_cfg der_reg idle idle_book _ _ address_run), NewWorld_book. Qed.

Lemma DeriveAddress_serves_witness :
  is_ok (DeriveAddress EmitterService book_cfg der_reg idle wallet_id true address_world).1 = true ∧
  let '(r, w') := DeriveAddress EmitterService book_cfg der_reg idle wallet_id true address_world in
  addresses_wf der_reg (w_store w') ∧ book_grows (w_store address_world) (w_store w') ∧
  (∀ a, r = Ok a →
     open_wallet wallet_id address_world ∧ Mem.is_active_of wallet_id a = true ∧
     ∀ id b, book w' !! id = Some b → (Mem.is_active_of wallet_id b = true ↔ id = Address_ID a)).
Proof.
  split; [vm_compute; reflexivity|].
  apply (DeriveAddress_serves EmitterService book_cfg der_reg idle idle_book wallet_id true
           address_world). apply address_world_ok.
Defined.

Lemma addresses_well_formed_witness :
  book address_world ≠ ∅ ∧ addresses_wf der_reg (w_store address_world).
Proof.
  split; [by vm_compute|].
  apply (addresses_well_formed EmitterService book_cfg der_reg idle idle_book
           NewWorld address_world); [reflexivity..|apply address_run].
Defined.

(** The wallet is retired, then asked for another address. *)
Definition retired_world : World :=
  (SetState EmitterService wallet_id WalletStateRetired address_world).2.
Definition asked_world : World :=
  (DeriveAddress EmitterService book_cfg der_reg idle wallet_id true retired_world).2.

Lemma retired_world_ok : book_inv der_reg retired_world.
Proof. apply (SetState_book EmitterService der_reg wallet_id WalletStateRetired), address_world_ok. Qed.

Lemma retired_is_final_witness :
  retired wallet_id (w_store retired_world) ∧ retired wallet_id (w_store asked_world) ∧
  ∀ id a, book asked_world !! id = Some a → Address_WalletID a = wallet_id →
    is_Some (book retired_world !! id).
Proof.
  assert (Hr : retired wallet_id (w_store retired_world)).
  { eexists. split; vm_compute; reflexivity. }
  split; [exact Hr|].
  apply (retired_is_final EmitterService book_cfg der_reg idle idle_book
           (λ u, idle_store (final_for u)) wallet_id retired_world asked_world).
  - apply retired_world_ok.
  - exact Hr.
  - eapply rtc_l; [apply ws_derive|apply rtc_refl].
Defined.

(** The last index of the chain is taken. *)
Definition last_row : Wallet :=
  mkWallet wallet_id ChainEthereum WalletTypeHot "hot" WalletStateActive "k1" "mpc" None None 1 1.
Definition last_result : res Result := direct der_reg ChainEthereum (2 ^ 31 - 1) 0.
Definition last_address : Address :=
  match last_result with
  | Ok r => new_address 5%N last_row r 1
  | Err _ => new_address 5%N last_row (mkResult "" "" 0 0) 1
  end.
Definition last_world : World :=
  set_store (set_addresses (insert 5%N last_address)
    (set_wallets (insert wallet_id last_row) NewMemStore)) NewWorld.

Lemma last_world_inv : book_inv der_reg last_world.
Proof.
  split; [|intros k e He; simpl in He; by rewrite lookup_empty in He|].
  2: { apply wallets_keyed_insert; [|done]. apply NewWorld_book. }
  apply (addresses_wf_insert der_reg last_address
           (set_wallets (insert wallet_id last_row) NewMemStore)).
  - apply (bi_wf der_reg (set_store (set_wallets (insert wallet_id last_row) NewMemStore) NewWorld)).
    apply book_inv_empty; [done..|]. apply wallets_keyed_insert; [apply NewWorld_book|done].
  - reflexivity.
  - intros id b Hb. simpl in Hb. by rewrite lookup_empty in Hb.
  - intros _ id b Hb. simpl in Hb. by rewrite lookup_empty in Hb.
  - vm_compute. reflexivity.
Qed.

Lemma rotation_failure_keeps_deprecation_witness :
  ∃ w', ForceRotate EmitterService der_reg wallet_id last_world =
      (Err (Wrapf "derive: %w" []
         (Errorf "derivation index %d out of non-hardened range" [FInt (2 ^ 31)])), w') ∧
    book w' = <[5%N := Address_with_state AddressStateDeprecated last_address]> (book last_world) ∧
    (∀ id b, book w' !! id = Some b → Mem.is_active_of wallet_id b = false) ∧
    w_locks w' = w_locks last_world.
Proof.
  apply (rotation_failure_keeps_deprecation EmitterService der_reg wallet_id last_row last_address
           (evm_DeriveAt (reg_evm der_reg) (reg_ttl der_reg) ChainEthereum)
           (Errorf "derivation index %d out of non-hardened range" [FInt (2 ^ 31)]) last_world).
  - apply last_world_inv.
  - reflexivity.
  - reflexivity.
  - discriminate.
  - reflexivity.
  - vm_compute. reflexivity.
  - vm_compute. reflexivity.
  - reflexivity.
  - vm_compute. reflexivity.
Defined.
End witnesses.
