(* ===== verification/Overlap.v ===== *)
(** * Overlap: derivations of several goroutines at once (internal/wallet/rotation.go)

    AddressBook.v runs the calls of the wallet service one after the other.  Here DeriveAddress is
    a program whose steps are the single calls it makes of the store, the locks and the rest, any
    number of goroutines run it, and anything else the service does goes on in between.  What is
    left of the invariant of the addresses is what the lock of the wallet protects. *)

From S2P Require Import Prelude GoLib Extern Domain Storage Memstore MemstoreFacts.
From S2P Require Import Lock Config Outbox Cache Deriver Rotation WalletService AddressBook.
From stdpp Require Import functions.

Local Open Scope Z_scope.

(** ** Programs

    What a goroutine still has to do: it is done, or its next call [m] is served whole and it goes
    on with what that returned. *)

Inductive prog (A : Type) : Type :=
  | Done (r : res A)
  | Step (X : Type) (m : GoM World X) (k : res X → prog A).
Arguments Done {A} r.
Arguments Step {A X} m k.

Fixpoint run {A} (p : prog A) : GoM World A := λ w,
  match p with
  | Done r => (r, w)
  | Step m k => let '(r, w') := m w in run (k r) w'
  end.

Fixpoint handle {A B} (p : prog A) (f : res A → prog B) : prog B :=
  match p with
  | Done r => f r
  | Step m k => Step m (λ r, handle (k r) f)
  end.

Definition act {A} (m : GoM World A) : prog A := Step m Done.

#[export] Instance prog_ret : MRet prog := λ A a, Done (Ok a).
#[export] Instance prog_bind : MBind prog := λ A B f p,
  handle p (λ r, match r with Ok a => f a | Err e => Done (Err e) end).

Definition fail_with {A} (e : error) : prog A := Done (Err e).
(** The result as a value, and a deferred call. *)
Definition caught {A} (p : prog A) : prog (res A) := handle p (λ r, Done (Ok r)).
Definition finally_act {A} (p : prog A) (cleanup : GoM World unit) : prog A :=
  handle p (λ r, Step cleanup (λ _, Done r)).

(** ** The derivation as a program *)

Section steps.
Context {GR : GoRuntime} {UL : UuidLib} {CL : CryptoLib} {HD : HdLib}.
Variable (em : Emitter World) (cfg : Config) (reg : Registry).

Definition deprecate_solana_steps (w : Wallet) : prog unit :=
  if bool_decide (Wallet_Chain w = ChainSolana) then
    r ← act (try (Storage.ListAddresses (Wallet_ID w)));
    match r with
    | Ok (a :: _) => act (DeprecateAddress (Address_ID a))
    | _ => mret ()
    end
  else mret ().

Definition persist_steps (w : Wallet) (res : Result) : prog Address :=
  addrID ← act uuid_New;
  now ← act time_Now;
  let addr := new_address addrID w res now in
  act (wrap "insert address: %w" [] (InsertAddress addr));;
  act (emit em (mkEvent "wallet.address.derived" (Some (Wallet_ID w))
    [("address", AStr (Address_Address addr)); ("index", AInt (Address_Index addr));
     ("path", AStr (Address_DerivationPath addr))])%string);;
  mret addr.

(** The deriver, with its reading and writing of the shared cache, is one step: the cache is
    transparent ([cache_inv]), so it answers the same whatever came in between. *)
Definition deriveNew_steps (w : Wallet) : prog Address :=
  match For reg (Wallet_Chain w) with
  | Err err => fail_with err
  | Ok d =>
      idx ← act (wrap "next index: %w" [] (NextAddressIndex (Wallet_Chain w) 0));
      deprecate_solana_steps w;;
      res ← act (wrap "derive: %w" [] (d idx 0));
      persist_steps w res
  end.

Definition acquire_steps (w : Wallet) : prog (string * bool) :=
  act (wrap "acquire rotation lock: %w" [] (Acquire (address_lock w) lock_ttl)).

Definition under_lock_steps {A} (w : Wallet) (body : prog A) : prog A :=
  '(token, ok) ← acquire_steps w;
  if negb ok then fail_with (New "rotation already in progress")
  else finally_act body (Release (address_lock w) token).

Definition rotate_steps (w : Wallet) (old : Address) : prog Address :=
  under_lock_steps w
    (act (wrap "deprecate old address: %w" [] (DeprecateAddress (Address_ID old)));;
     addr ← deriveNew_steps w;
     act (emit em (mkEvent "wallet.address.rotated" (Some (Wallet_ID w))
       [("old_address", AStr (Address_Address old)); ("new_address", AStr (Address_Address addr));
        ("index", AInt (Address_Index addr))])%string);;
     mret addr).

(** While the goroutine sleeps the others go on, as they do between any two steps. *)
Fixpoint derive_loop_steps (n : nat) (w : Wallet) : prog Address :=
  match n with
  | O => fail_with (New "rotation already in progress")
  | S n =>
      '(token, ok) ← acquire_steps w;
      if negb ok then
        active ← act (active_address (Wallet_ID w));
        match active with
        | Some a => mret a
        | None => derive_loop_steps n w
        end
      else
        r ← act (try (GetActiveAddress (Wallet_ID w)));
        match r with
        | Ok active => act (ignore (Release (address_lock w) token));; mret active
        | Err err =>
            if errors_Is err ErrNoRows then
              addr ← caught (deriveNew_steps w);
              act (ignore (Release (address_lock w) token));;
              Done addr
            else act (ignore (Release (address_lock w) token));; fail_with err
        end
  end.

Definition CurrentOrRotate_steps (walletID : UUID) : prog Address :=
  w ← act (GetWallet walletID);
  if bool_decide (Wallet_State w = WalletStateRetired) then fail_with (Sentinel ErrWalletRetired)
  else
    active ← act (active_address walletID);
    match active with
    | None => derive_loop_steps derive_retries w
    | Some a =>
        due ← act (shouldRotate cfg w a);
        if due : bool then rotate_steps w a else mret a
    end.

Definition ForceRotate_steps (walletID : UUID) : prog Address :=
  w ← act (GetWallet walletID);
  if bool_decide (Wallet_State w = WalletStateRetired) then fail_with (Sentinel ErrWalletRetired)
  else
    active ← act (active_address walletID);
    match active with
    | Some a => rotate_steps w a
    | None => under_lock_steps w (deriveNew_steps w)
    end.

Definition DeriveAddress_steps (walletID : UUID) (force : bool) : prog Address :=
  if force then ForceRotate_steps walletID else CurrentOrRotate_steps walletID.

(** ** A program that nothing interrupts is the body it comes from *)

Definition runs_as {A} (p : prog A) (m : GoM World A) : Prop := ∀ w, run p w = m w.

Lemma run_handle {A B} (p : prog A) (f : res A → prog B) w :
  run (handle p f) w = let '(r, w') := run p w in run (f r) w'.
Proof.
  revert w. induction p as [r|X m k IH]; intros w; simpl; [done|]. destruct (m w). apply IH.
Qed.

Lemma runs_act {A} (m : GoM World A) : runs_as (act m) m.
Proof. intros w. simpl. by destruct (m w). Qed.
Lemma runs_ret {A} (a : A) : runs_as (mret a) (mret a).
Proof. done. Qed.
Lemma runs_fail {A} e : runs_as (fail_with e : prog A) (fail e).
Proof. done. Qed.
Lemma runs_done {A} (r : res A) : runs_as (Done r) (ret_res r).
Proof. done. Qed.
Lemma runs_bind {A B} (p : prog A) m (f : A → prog B) g :
  runs_as p m → (∀ a, runs_as (f a) (g a)) → runs_as (p ≫= f) (m ≫= g).
Proof.
  intros Hp Hf w. unfold mbind, prog_bind, GoM_bind. rewrite run_handle, Hp.
  destruct (m w) as [[a|e] w']; [apply Hf|done].
Qed.
Lemma runs_caught {A} (p : prog A) m : runs_as p m → runs_as (caught p) (try m).
Proof. intros Hp w. unfold caught, try. by rewrite run_handle, Hp. Qed.
Lemma runs_finally {A} (p : prog A) m c :
  runs_as p m → runs_as (finally_act p c) (finally m c).
Proof.
  intros Hp w. unfold finally_act, finally. rewrite run_handle, Hp.
  destruct (m w) as [r w']. simpl. by destruct (c w').
Qed.

Create HintDb runs discriminated.
#[local] Hint Constants Opaque : runs.
#[local] Hint Resolve runs_act runs_ret runs_fail runs_done runs_caught runs_finally : runs.
(** Walks a program and its body side by side. *)
Ltac runs := repeat first
  [ progress intros
  | solve [auto with runs nocore]
  | apply runs_bind | apply runs_finally | apply runs_caught
  | match goal with
    | |- runs_as (match ?x with _ => _ end) _ => destruct x
    | |- runs_as (if ?x then _ else _) _ => destruct x
    end ].

Lemma runs_deriveNew w : runs_as (deriveNew_steps w) (deriveNew em reg w).
Proof.
  unfold deriveNew_steps, deriveNew. destruct (For reg (Wallet_Chain w)) as [d|e]; [|apply runs_fail].
  intros st. erewrite bind_Ok by reflexivity. revert st.
  change (runs_as (idx ← act (wrap "next index: %w" [] (NextAddressIndex (Wallet_Chain w) 0));
    deprecate_solana_steps w;; res ← act (wrap "derive: %w" [] (d idx 0)); persist_steps w res)
    (idx ← wrap "next index: %w" [] (NextAddressIndex (Wallet_Chain w) 0);
     deprecate_solana w;; res ← wrap "derive: %w" [] (d idx 0); persist_address em w res)).
  unfold deprecate_solana_steps, deprecate_solana, persist_steps, persist_address. runs.
Qed.

#[local] Hint Resolve runs_deriveNew : runs.

Lemma runs_under_lock {A} w (p : prog A) m :
  runs_as p m → runs_as (under_lock_steps w p) (under_lock w m).
Proof. intros Hp. unfold under_lock_steps, under_lock, acquire_steps. runs. Qed.

#[local] Hint Resolve runs_under_lock : runs.

Lemma runs_rotate w old : runs_as (rotate_steps w old) (rotate em reg w old).
Proof.
  apply runs_under_lock. runs.
Qed.

Lemma runs_derive_loop n w :
  runs_as (derive_loop_steps n w) (derive_loop em reg (mret ()) n w).
Proof.
  induction n as [|n IH]; cbn [derive_loop_steps derive_loop]; [apply runs_fail|].
  unfold acquire_steps. runs.
Qed.
#[local] Hint Resolve runs_rotate runs_derive_loop : runs.

(** What a call of the service does when no other goroutine gets in between. *)
Lemma runs_DeriveAddress u force :
  runs_as (DeriveAddress_steps u force) (DeriveAddress em cfg reg (mret ()) u force).
Proof.
  unfold DeriveAddress_steps, DeriveAddress, ForceRotate_steps, ForceRotate,
    CurrentOrRotate_steps, CurrentOrRotate, deriveNewLocked.
  destruct force; runs.
Qed.
End steps.

(** ** Goroutines

    The world they share, and what each of them still has to do. *)

Record system := mkSystem { world : World; threads : Z → prog Address }.

Definition finished (p : prog Address) : Prop := match p with Done _ => True | Step _ _ => False end.

(** The lock of the addresses of a wallet. *)
Definition lock_name `{UuidLib} (u : UUID) : string := ("addr:" +:+ uuid_String u)%string.

Section overlap.
Context {GR : GoRuntime} {UL : UuidLib} {CL : CryptoLib} {HD : HdLib}.
Variable (em : Emitter World) (cfg : Config) (reg : Registry).
Context {EM : AuditEmitter em}.

(** What the rest of the service does: anything that leaves the addresses, the cache and the
    address locks alone. *)
Record elsewhere (w w' : World) : Prop := {
  el_book : book w' = book w;
  el_cache : w_cache w' = w_cache w;
  el_locks u : w_locks w' !! lock_name u = w_locks w !! lock_name u;
}.

(** One step: a goroutine that has finished takes another request, a goroutine makes its
    next call, an address receives, or something else happens.  In a run [apart] a request is
    taken only when no other derivation is under way. *)
Inductive istep (apart : bool) : system → system → Prop :=
  | i_start i u force w T :
      finished (T i) → (apart = true → ∀ j, finished (T j)) →
      istep apart (mkSystem w T) (mkSystem w (<[i := DeriveAddress_steps em cfg reg u force]> T))
  | i_call i X (m : GoM World X) k w T :
      T i = Step m k →
      istep apart (mkSystem w T) (mkSystem (m w).2 (<[i := k (m w).1]> T))
  | i_received id w T :
      istep apart (mkSystem w T) (mkSystem (IncrementReceiveCount id w).2 T)
  | i_other w w' T : elsewhere w w' → istep apart (mkSystem w T) (mkSystem w' T).

#[export] Instance elsewhere_preorder : PreOrder elsewhere.
Proof.
  split; [by split|]. intros w1 w2 w3 [A1 B1 C1] [A2 B2 C2]. split; [congruence..|].
  intros u. by rewrite C2.
Qed.

(** The other calls of the wallet service are such steps, one call after the other. *)
Lemma elsewhere_writes (m : GoM World unit) : respects (writes GWallets) m → respects elsewhere m.
Proof.
  intros Hm w. destruct (Hm w) as [Ho (Hl & Hc & _)]. split; [|done|by rewrite Hl].
  exact (Ho GAddresses ltac:(discriminate)).
Qed.
Lemma elsewhere_emit ev : respects elsewhere (emit em ev).
Proof.
  intros w. destruct (emit_frame ev w) as (H & Hl & Hc & _).
  split; [by apply (H GAddresses)|done|by rewrite Hl].
Qed.
Lemma elsewhere_uuid : respects elsewhere uuid_New.
Proof. by split. Qed.
Lemma elsewhere_time : respects elsewhere time_Now.
Proof. by split. Qed.
Lemma elsewhere_reads {A} (m : GoM World A) : (∀ w, (m w).2 = w) → respects elsewhere m.
Proof. intros H w. rewrite H. reflexivity. Qed.
#[local] Hint Resolve elsewhere_emit elsewhere_uuid elsewhere_time : gorel.
#[local] Hint Extern 1 (respects elsewhere (CreateWallet _)) =>
  (apply elsewhere_writes, CreateWallet_only) : gorel.
#[local] Hint Extern 1 (respects elsewhere (UpdateWalletState _ _)) =>
  (apply elsewhere_writes, UpdateWalletState_only) : gorel.
#[local] Hint Extern 2 (respects elsewhere _) =>
  (apply elsewhere_reads; solve [eauto 2 with gorel]) : gorel.

Lemma Create_elsewhere req : respects elsewhere (Create em req).
Proof. unfold Create. go_respects. Qed.
Lemma SetState_elsewhere u st : respects elsewhere (SetState em u st).
Proof. unfold SetState. go_respects. Qed.

(** ** The invariant

    The slots of [u] that the invariant tells apart: its own, or those of its chain. *)
Definition slot_of (apart : bool) (u : UUID) (chain : string) (change index : Z)
    (a : Address) : bool :=
  in_slot chain change index a && (apart || bool_decide (Address_WalletID a = u)).

Record slots_wf (apart : bool) (s : MemStore) : Prop := {
  sw_key id a : addresses s !! id = Some a → Address_ID a = id;
  sw_active u : unique_by (Mem.is_active_of u) (addresses s);
  sw_slot u chain change index :
    chain ≠ ChainSolana → unique_by (slot_of apart u chain change index) (addresses s);
  sw_derived : all_derived reg s;
}.

Lemma slot_of_true apart u chain change index a :
  slot_of apart u chain change index a = true ↔
    (Address_Chain a = chain ∧ Address_Change a = change ∧ Address_Index a = index) ∧
    (apart = true ∨ Address_WalletID a = u).
Proof.
  unfold slot_of. by rewrite andb_true_iff, in_slot_true, orb_true_iff, bool_decide_eq_true.
Qed.

(** In a run apart the invariant is the one of AddressBook.v. *)
Lemma slots_wf_apart s : slots_wf true s → addresses_wf reg s.
Proof.
  intros [Hk Ha Hs Hd]. split; [done..| |done]. intros chain change index Hne i j x y Hi Hj Px Py.
  apply (Hs 0%N chain change index Hne i j x y Hi Hj); unfold slot_of; by rewrite andb_true_r.
Qed.

(** What a row's slot and derivation are made of does not change. *)
Lemma step_slot a a' : address_step a a' →
  Address_Index a' = Address_Index a ∧ Address_Change a' = Address_Change a.
Proof. intros [_ _ _ E _]. unfold result_of in E. split; congruence. Qed.

Lemma slots_wf_step apart id a a' s :
  slots_wf apart s → addresses s !! id = Some a → address_step a a' →
  slots_wf apart (set_addresses (insert id a') s).
Proof.
  intros [Hk Ha Hs Hd] Hid Hst. destruct (step_slot a a' Hst) as [Ei Ech].
  destruct Hst as [Eid Ew Ec Er Est]. split; simpl.
  - intros i x. rewrite lookup_insert_Some. intros [[<- <-]|[_ H]]; [|by apply Hk].
    rewrite Eid. by apply Hk.
  - intros u. apply unique_by_insert; [done|]. intros (Hw & Hact)%is_active_of_true i x Hx Px.
    apply (Ha u i id x a Hx Hid Px), is_active_of_true. split; [congruence|].
    destruct Est as [<-|Est]; [done|]. rewrite Est in Hact. discriminate.
  - intros u ch c ix Hne. apply unique_by_insert; [by apply Hs|].
    intros ((H1 & H2 & H3) & H4)%slot_of_true i x Hx Px.
    apply (Hs u ch c ix Hne i id x a Hx Hid Px), slot_of_true.
    split; [repeat split; congruence|]. by rewrite <-Ew.
  - intros i x. simpl. rewrite lookup_insert_Some. intros [[<- <-]|[_ H]]; [|by eapply Hd].
    rewrite Ec, Ei, Ech, Er. by eapply Hd.
Qed.

Lemma slots_wf_insert apart a s :
  slots_wf apart s →
  (∀ id b, addresses s !! id = Some b → Mem.is_active_of (Address_WalletID a) b = false) →
  (Address_Chain a ≠ ChainSolana → ∀ id b, addresses s !! id = Some b →
     slot_of apart (Address_WalletID a) (Address_Chain a) (Address_Change a) (Address_Index a) b
       = false) →
  direct reg (Address_Chain a) (Address_Index a) (Address_Change a) = Ok (result_of a) →
  slots_wf apart (set_addresses (insert (Address_ID a) a) s).
Proof.
  intros [Hk Ha Hs Hd] Hact Hslot Hdir. split; simpl.
  - intros i x. rewrite lookup_insert_Some. intros [[<- <-]|[_ H]]; [done|by apply Hk].
  - intros u. apply unique_by_insert; [done|]. intros (<- & _)%is_active_of_true i x Hx Px.
    by rewrite (Hact i x Hx) in Px.
  - intros u ch c ix Hne. apply unique_by_insert; [by apply Hs|].
    intros ((<- & <- & <-) & Hu)%slot_of_true i x Hx (Hsl & Hx')%slot_of_true.
    pose proof (Hslot Hne i x Hx) as Hf. apply not_true_iff_false in Hf.
    destruct Hf. apply slot_of_true. split; [done|]. destruct Hu as [?|<-]; [by left|done].
  - intros i x. simpl. rewrite lookup_insert_Some. intros [[<- <-]|[_ H]]; [done|by eapply Hd].
Qed.

(** *** What a goroutine may rely on

    It holds no lock, or the lock of a wallet, perhaps with the index it read for a chain. *)
Inductive ghost := Free | Holds (u : UUID) (token : string) (reserved : option (string * Z)).

Definition owner (g : ghost) : option UUID := match g with Free => None | Holds u _ _ => Some u end.

(** The addresses among which the reserved index is new: those of the wallet, or, in a run
    apart, those of the chain. *)
Definition asserts (apart : bool) (g : ghost) (w : World) : Prop :=
  match g with
  | Free => True
  | Holds u token reserved =>
      w_locks w !! lock_name u = Some token ∧
      ∀ chain index id b, reserved = Some (chain, index) → chain ≠ ChainSolana →
        book w !! id = Some b → Address_Chain b = chain → Address_Change b = 0 →
        apart = true ∨ Address_WalletID b = u → Address_Index b < index
  end.

(** What a step of somebody who owns [o] leaves to the others. *)
Record evolves (o : option UUID) (w w' : World) : Prop := {
  ev_locks v : o ≠ Some v → w_locks w !! lock_name v ≠ None →
    w_locks w' !! lock_name v = w_locks w !! lock_name v;
  ev_book id b : book w' !! id = Some b →
    o = Some (Address_WalletID b) ∨ ∃ b0, book w !! id = Some b0 ∧ address_step b0 b;
}.

Lemma asserts_evolves apart h o w w' :
  evolves o w w' → asserts apart h w →
  (∀ v, o = Some v → owner h ≠ Some v) → (apart = true → o = None ∨ h = Free) →
  asserts apart h w'.
Proof.
  intros [HL HB] Hh Ho Ha. destruct h as [|u tok r]; [done|]. destruct Hh as [Hl Hi]. split.
  - rewrite HL; [done| |by rewrite Hl]. intros E. by apply (Ho u E).
  - intros chain index id b Hr Hs Hb Hc Hch Hw.
    destruct (HB id b Hb) as [E|(b0 & Hb0 & Hst)].
    + exfalso. destruct Hw as [Hw|Hw]; [destruct (Ha Hw); congruence|].
      apply (Ho _ E). simpl. by rewrite Hw.
    + destruct (step_slot _ _ Hst) as [-> Ech]. destruct Hst as [_ Ew Ec _ _].
      apply (Hi chain index id b0 Hr Hs Hb0); congruence || by rewrite <-Ew.
Qed.

Lemma evolves_none o w w' : evolves None w w' → evolves o w w'.
Proof.
  intros [HL HB]. split; [intros v _; by apply HL|]. intros id b Hb. right.
  by destruct (HB id b Hb).
Qed.

Lemma evolves_elsewhere w w' : elsewhere w w' → evolves None w w'.
Proof.
  intros [HB _ HL]. split; [by intros v _ _|]. intros id b. rewrite HB. intros Hb. right.
  exists b. split; [done|reflexivity].
Qed.

(** The tables and the cache. *)
Definition winv (apart : bool) (w : World) : Prop :=
  slots_wf apart (w_store w) ∧ cache_inv (derived_entry reg) w.

Lemma winv_same apart w w' :
  book w' = book w → w_cache w' = w_cache w → winv apart w → winv apart w'.
Proof.
  unfold book. intros E Ec [[Hk Ha Hs Hd] HC]. split.
  - split; [by rewrite E|by rewrite E|by rewrite E|]. intros id a. rewrite E. apply Hd.
  - revert HC. simpl. unfold mem_cache_inv. by rewrite Ec.
Qed.

(** ** Reasoning about programs

    A move of a goroutine from [g] to [g'] keeps the invariant, establishes what it relies on
    afterwards, and takes at most a lock that nobody had. *)
Record move (apart : bool) (g g' : ghost) (w w' : World) : Prop := {
  mv_inv : winv apart w';
  mv_asserts : asserts apart g' w';
  mv_evolves : evolves (owner g) w w';
  mv_owner v : owner g' = Some v → owner g = Some v ∨ w_locks w !! lock_name v = None;
}.

(** From [g] on, every call the program makes is such a move, and it ends in [Q]. *)
Fixpoint wp {A} (apart : bool) (p : prog A) (Q : res A → ghost → Prop) (g : ghost) : Prop :=
  match p with
  | Done r => Q r g
  | Step m k => ∀ w, winv apart w → asserts apart g w →
      ∃ g', move apart g g' w (m w).2 ∧ wp apart (k (m w).1) Q g'
  end.

Lemma wp_mono {A} apart (p : prog A) (Q Q' : res A → ghost → Prop) g :
  (∀ r h, Q r h → Q' r h) → wp apart p Q g → wp apart p Q' g.
Proof.
  intros HQ. revert g. induction p as [r|X m k IH]; intros g; [apply HQ|].
  intros Hp w Hw Hg. destruct (Hp w Hw Hg) as (g' & Hm & Hk). eauto.
Qed.

Lemma wp_handle {A B} apart (p : prog A) (f : res A → prog B) Q g :
  wp apart p (λ r h, wp apart (f r) Q h) g → wp apart (handle p f) Q g.
Proof.
  revert g. induction p as [r|X m k IH]; intros g; [done|].
  intros Hp w Hw Hg. destruct (Hp w Hw Hg) as (g' & Hm & Hk). exists g'. split; [done|]. by apply IH.
Qed.

Lemma wp_bind {A B} apart (p : prog A) (f : A → prog B) Q g :
  wp apart p (λ r h, match r with Ok a => wp apart (f a) Q h | Err e => Q (Err e) h end) g →
  wp apart (p ≫= f) Q g.
Proof. intros H. apply wp_handle. eapply wp_mono, H. by intros [a|e] h. Qed.

Lemma move_none apart g w w' :
  winv apart w' → evolves None w w' → asserts apart g w → move apart g g w w'.
Proof.
  intros Hw He Hg. split; [done| |by apply evolves_none|by left].
  apply (asserts_evolves apart g None w); [done..|]. by left.
Qed.

Lemma wp_call {A} apart (m : GoM World A) (Q : res A → ghost → Prop) g :
  (∀ w, winv apart w → asserts apart g w → ∃ g', move apart g g' w (m w).2 ∧ Q (m w).1 g') →
  wp apart (act m) Q g.
Proof. done. Qed.

(** A call that leaves addresses, cache and locks alone, whatever it returns. *)
Lemma wp_elsewhere {A} apart (m : GoM World A) (Q : res A → ghost → Prop) g :
  respects elsewhere m → (∀ r, Q r g) → wp apart (act m) Q g.
Proof.
  intros Hm HQ w Hw Hg. exists g. split; [|apply HQ].
  apply move_none; [|by apply evolves_elsewhere|done]. destruct (Hm w). by eapply winv_same.
Qed.

Lemma snd_wrap {A} f args (m : GoM World A) w : (wrap f args m w).2 = (m w).2.
Proof. unfold wrap. by destruct (m w) as [[]]. Qed.
Lemma snd_ignore {A} (m : GoM World A) w : (ignore m w).2 = (m w).2.
Proof. unfold ignore. by destruct (m w). Qed.

(** An address is replaced by one a step ahead. *)
Lemma step_move apart id a a' g w :
  winv apart w → asserts apart g w → book w !! id = Some a → address_step a a' →
  move apart g g w (set_store (set_addresses (insert id a') (w_store w)) w).
Proof.
  intros [Hwf HC] Hg Ha Hst. apply move_none; [split| |done].
  - by eapply slots_wf_step.
  - exact HC.
  - split; [done|]. intros i b. unfold book. simpl. rewrite lookup_insert_Some. intros Hb. right.
    destruct Hb as [[<- <-]|[_ Hb]]; [by exists a|]. exists b. split; [done|reflexivity].
Qed.

Lemma same_move apart g w : winv apart w → asserts apart g w → move apart g g w w.
Proof. intros Hw Hg. apply move_none; [done| |done]. apply evolves_elsewhere. reflexivity. Qed.

Lemma deprecate_move apart id g w :
  winv apart w → asserts apart g w → move apart g g w (DeprecateAddress id w).2.
Proof.
  intros Hw Hg. unfold DeprecateAddress, memstore, Mem.DeprecateAddress. mem_cbv.
  destruct (addresses (w_store w) !! id) as [a|] eqn:E; [|by apply same_move].
  apply (step_move apart id a); try done. by split; auto.
Qed.

Lemma received_move apart id g w :
  winv apart w → asserts apart g w → move apart g g w (IncrementReceiveCount id w).2.
Proof.
  intros Hw Hg. unfold IncrementReceiveCount, memstore, Mem.IncrementReceiveCount. mem_cbv.
  destruct (addresses (w_store w) !! id) as [a|] eqn:E; [|by apply same_move].
  apply (step_move apart id a); try done. by split; auto.
Qed.

Lemma lock_name_inj u v : lock_name u = lock_name v → u = v.
Proof. unfold lock_name. intros E. simpl in E. injection E as E. by apply uuid_String_inj. Qed.

Lemma acquire_move apart u ttl w :
  winv apart w →
  let '(r, w') := Acquire (lock_name u) ttl w in
  (∃ tok, r = Ok (tok, true) ∧ move apart Free (Holds u tok None) w w') ∨
  (∃ tok, r = Ok (tok, false) ∧ move apart Free Free w w').
Proof.
  intros Hw. destruct (w_locks w !! lock_name u) eqn:E.
  - rewrite Acquire_taken by by eexists. right. eexists. split; [done|]. by apply same_move.
  - rewrite (Acquire_free _ _ _ E). left. eexists. split; [done|]. split.
    + by apply (winv_same apart w).
    + split; [apply lookup_insert_eq|done].
    + split; [|intros id b Hb; right; exists b; by split].
      intros v _ Hv. simpl. rewrite lookup_insert_ne; [done|]. intros F. by rewrite F in E.
    + intros v [= <-]. by right.
Qed.

Lemma release_move apart u tok r w :
  winv apart w → asserts apart (Holds u tok r) w →
  move apart (Holds u tok r) Free w (Release (lock_name u) tok w).2.
Proof.
  intros Hw [Hl _]. rewrite (Release_own _ _ _ Hl). split; [|done| |done].
  - by apply (winv_same apart w).
  - split; [|intros id b Hb; right; exists b; by split].
    intros v Hv _. simpl. rewrite lookup_delete_ne; [done|]. intros ->%lock_name_inj. by apply Hv.
Qed.

Lemma wp_acquire apart row Q :
  (∀ tok, Q (Ok (tok, true)) (Holds (Wallet_ID row) tok None)) →
  (∀ tok, Q (Ok (tok, false)) Free) → wp apart (acquire_steps row) Q Free.
Proof.
  intros Ht Hf w Hw _. pose proof (acquire_move apart (Wallet_ID row) lock_ttl w Hw) as Hm.
  unfold wrap. change (address_lock row) with (lock_name (Wallet_ID row)).
  destruct (Acquire (lock_name (Wallet_ID row)) lock_ttl w) as [r w'].
  destruct Hm as [(tok & -> & Hm)|(tok & -> & Hm)]; eexists; (split; [exact Hm|]); [apply Ht|apply Hf].
Qed.

Lemma wp_release {A B} apart row (m : GoM World A) (k : res A → prog B) Q tok r :
  (∀ w, (m w).2 = (Release (address_lock row) tok w).2) →
  (∀ x, wp apart (k x) Q Free) → wp apart (Step m k) Q (Holds (Wallet_ID row) tok r).
Proof.
  intros Hm Hk w Hw Hg. exists Free. split; [|apply Hk]. rewrite Hm.
  by apply (release_move apart (Wallet_ID row)).
Qed.

Lemma wp_deprecate apart id f args Q g :
  (∀ r, Q r g) → wp apart (act (wrap f args (DeprecateAddress id))) Q g.
Proof.
  intros HQ w Hw Hg. exists g. split; [|apply HQ]. rewrite snd_wrap. by apply deprecate_move.
Qed.

Lemma wp_try {A} apart (m : GoM World A) (Q : res (res A) → ghost → Prop) g :
  respects elsewhere m → (∀ x, Q (Ok x) g) → wp apart (act (try m)) Q g.
Proof.
  intros Hm HQ. apply wp_call. intros w Hw Hg. exists g. unfold try. specialize (Hm w).
  destruct (m w) as [x w']. split; [|apply HQ]. apply move_none; [|by apply evolves_elsewhere|done].
  destruct Hm. by eapply winv_same.
Qed.

(** ** Deriving under the lock *)

(** The goroutine still owns the wallet's lock, whatever it has read. *)
Definition holding {A} (row : Wallet) (tok : string) (_ : res A) (g : ghost) : Prop :=
  ∃ r, g = Holds (Wallet_ID row) tok r.

#[local] Hint Resolve elsewhere_emit elsewhere_uuid elsewhere_time : gorel.

Lemma reads_elsewhere {A} (m : GoM World A) : (∀ w, (m w).2 = w) → respects elsewhere m.
Proof. apply elsewhere_reads. Qed.

Lemma wp_emit {A} apart ev (a : A) (Q : res A → ghost → Prop) g :
  (∀ r, Q r g) → wp apart (act (emit em ev);; mret a) Q g.
Proof.
  intros HQ. apply wp_bind, wp_elsewhere; [apply elsewhere_emit|]. intros []; apply HQ.
Qed.

(** The insertion of the row of a reserved slot. *)
Lemma insert_move apart row idx res id now tok w :
  direct reg (Wallet_Chain row) idx 0 = Ok res →
  let g := Holds (Wallet_ID row) tok (Some (Wallet_Chain row, idx)) in
  winv apart w → asserts apart g w →
  move apart g (Holds (Wallet_ID row) tok None) w (InsertAddress (new_address id row res now) w).2.
Proof.
  intros Hd g Hw Hg. set (a := new_address id row res now). pose proof Hg as [Hl Hres].
  assert (Hg' : asserts apart (Holds (Wallet_ID row) tok None) w) by by split.
  destruct (InsertAddress_cases a w) as [[e ->]|(Hn & Hno & c & w' & -> & Es & Ec & El)]; [done| |].
  { destruct (same_move apart _ w Hw Hg') as [? ? Hev Ho]. by split; [..|left]. }
  assert (Hwf : slots_wf apart (w_store w')).
  { rewrite Es. apply (slots_wf_insert apart (Address_with_created c a)); [apply Hw|done| |].
    - simpl. intros Hs i b Hb. apply not_true_is_false.
      intros ((E1 & E2 & E3) & Hu)%slot_of_true.
      destruct (direct_index reg _ _ _ _ Hs Hd) as (_ & Ei & Ech).
      rewrite Ech in E2. pose proof (Hres _ _ i b eq_refl Hs Hb E1 E2 Hu). lia.
    - simpl. rewrite (direct_fix reg _ _ _ _ Hd). by destruct res. }
  split; simpl.
  - split; [done|]. destruct Hw as [_ HC]. revert HC. simpl. unfold mem_cache_inv. by rewrite Ec.
  - split; [by rewrite El|done].
  - split; [by rewrite El|]. intros i b. unfold book. rewrite Es. simpl.
    rewrite lookup_insert_Some. intros [[<- <-]|[_ Hb]]; [by left|right; exists b; by split].
  - by left.
Qed.

Lemma wp_persist apart row idx res tok :
  direct reg (Wallet_Chain row) idx 0 = Ok res →
  wp apart (persist_steps em row res) (holding row tok)
    (Holds (Wallet_ID row) tok (Some (Wallet_Chain row, idx))).
Proof.
  intros Hd. unfold persist_steps.
  apply wp_bind, wp_elsewhere; [apply elsewhere_uuid|]. intros [id|e]; [|by eexists].
  apply wp_bind, wp_elsewhere; [apply elsewhere_time|]. intros [now|e]; [|by eexists].
  cbv zeta. apply wp_bind, wp_call. intros w Hw Hg. eexists. rewrite snd_wrap.
  split; [by eapply insert_move|]. cbv beta. destruct (wrap _ _ _ _).1; [|by eexists].
  apply wp_emit. intros r. by eexists.
Qed.

Lemma wp_deprecate_solana apart row Q g :
  (∀ r, Q r g) → wp apart (deprecate_solana_steps row) Q g.
Proof.
  intros HQ. unfold deprecate_solana_steps. case_bool_decide; [|exact (HQ (Ok ()))].
  apply wp_bind, wp_try; [by apply elsewhere_reads|].
  intros [[|a l]|e]; [exact (HQ (Ok ()))| |exact (HQ (Ok ()))].
  intros w Hw Hg. exists g. split; [by apply deprecate_move|apply HQ].
Qed.

(** A new address, by whoever holds the lock of the wallet. *)
Lemma wp_deriveNew apart row tok :
  wp apart (deriveNew_steps em reg row) (holding row tok) (Holds (Wallet_ID row) tok None).
Proof.
  unfold deriveNew_steps. destruct (For reg (Wallet_Chain row)) as [d|e] eqn:Ed; [|by eexists].
  apply wp_bind, wp_call. intros w Hw Hg. set (idx := next_index (Wallet_Chain row) 0 w).
  exists (Holds (Wallet_ID row) tok (Some (Wallet_Chain row, idx))). split.
  { rewrite snd_wrap. destruct Hg as [Hl _]. split; [done| | |by left].
    - split; [done|]. intros chain index id b [= <- <-] Hs Hb Hc Hch _.
      apply (next_index_above reg _ w id b); try done. apply Hw.
    - apply evolves_none, evolves_elsewhere. reflexivity. }
  change ((wrap _ _ _ w).1) with (Ok idx : res Z). cbv beta iota. clearbody idx. clear w Hw Hg.
  apply wp_bind, wp_deprecate_solana. intros [[]|e]; [|by eexists].
  apply wp_bind, wp_call. intros w Hw Hg.
  destruct (For_direct reg (Wallet_Chain row) d idx 0 w Ed) as (w' & E & HC); [apply Hw|].
  pose proof (For_around reg _ d idx 0 Ed w) as Ha. rewrite E in Ha. unfold framing, around in Ha.
  injection Ha as Es El. eexists. rewrite snd_wrap, E. cbn [snd]. split.
  - apply move_none; [split; [rewrite Es; apply Hw|exact HC]| |exact Hg].
    split; [by rewrite El|]. intros id b. unfold book. rewrite Es. intros Hb. right.
    exists b. split; [done|reflexivity].
  - unfold wrap. rewrite E. destruct (direct reg (Wallet_Chain row) idx 0) as [res|e] eqn:Er;
      [|by eexists]. by apply wp_persist.
Qed.

(** ** The whole derivation gives back what it takes *)

Definition released {A} (_ : res A) (g : ghost) : Prop := g = Free.

Lemma wp_under_lock apart row (body : prog Address) :
  (∀ tok, wp apart body (holding row tok) (Holds (Wallet_ID row) tok None)) →
  wp apart (under_lock_steps row body) released Free.
Proof.
  intros Hbody. unfold under_lock_steps. apply wp_bind, wp_acquire; intros tok; [|done].
  cbn [negb]. apply wp_handle. eapply wp_mono, Hbody.
  intros x g [r ->]. by apply wp_release.
Qed.

Lemma wp_rotate apart row old : wp apart (rotate_steps em reg row old) released Free.
Proof.
  apply wp_under_lock. intros tok.
  apply wp_bind, wp_deprecate. intros [[]|e]; [|by eexists].
  apply wp_bind. eapply wp_mono, wp_deriveNew.
  intros [a|e] g Hg; [|exact Hg]. apply wp_emit. intros r. exact Hg.
Qed.

(** Giving the lock back, then ending. *)
Lemma wp_give_back {A} apart row (p : prog A) tok r :
  wp apart p released Free →
  wp apart (act (ignore (Release (address_lock row) tok));; p) released
    (Holds (Wallet_ID row) tok r).
Proof.
  intros Hp. apply wp_bind. apply wp_release; [intros w; apply snd_ignore|].
  intros [[]|e]; [exact Hp|done].
Qed.

Lemma GetActive_reads u : ∀ w, (GetActiveAddress u w).2 = w.
Proof.
  intros w. unfold GetActiveAddress, memstore, Mem.GetActiveAddress. mem_cbv.
  by destruct (List.find _ _).
Qed.
Lemma active_address_elsewhere u : respects elsewhere (active_address u).
Proof.
  pose proof (reads_elsewhere _ (GetActive_reads u)). unfold active_address. go_respects.
Qed.
Lemma GetWallet_elsewhere u : respects elsewhere (GetWallet u).
Proof. apply reads_elsewhere. intros w. rewrite GetWallet_run. by destruct (_ !! _). Qed.
Lemma shouldRotate_elsewhere row a : respects elsewhere (shouldRotate cfg row a).
Proof. unfold shouldRotate. go_respects. Qed.

Lemma wp_derive_loop apart n row : wp apart (derive_loop_steps em reg n row) released Free.
Proof.
  induction n as [|n IH]; cbn [derive_loop_steps]; [done|].
  apply wp_bind, wp_acquire; intros tok; cbn [negb].
  - apply wp_bind, wp_try; [apply reads_elsewhere, GetActive_reads|].
    assert (HB : ∀ p : prog Address, wp apart p released Free →
      wp apart (act (ignore (Release (address_lock row) tok));; p) released
        (Holds (Wallet_ID row) tok None)) by (intros p; apply wp_give_back).
    intros [a|e]; [by apply HB|]. destruct (errors_Is e ErrNoRows); [|by apply HB].
    apply wp_bind, wp_handle. eapply wp_mono, wp_deriveNew.
    intros x g [r ->]. by apply wp_give_back.
  - apply wp_bind, wp_elsewhere; [apply active_address_elsewhere|].
    intros [[a|]|e]; done.
Qed.

Lemma wp_DeriveAddress apart u force :
  wp apart (DeriveAddress_steps em cfg reg u force) released Free.
Proof.
  pose proof (wp_rotate apart). pose proof (wp_derive_loop apart derive_retries).
  assert (HN : ∀ row, wp apart (under_lock_steps row (deriveNew_steps em reg row)) released Free)
    by (intros row; apply wp_under_lock, wp_deriveNew).
  destruct force; unfold DeriveAddress_steps, ForceRotate_steps, CurrentOrRotate_steps;
    (apply wp_bind, wp_elsewhere; [apply GetWallet_elsewhere|]; intros [row|e]; [|done]);
    (case_bool_decide; [done|]);
    (apply wp_bind, wp_elsewhere; [apply active_address_elsewhere|]; intros [[a|]|e]; try done).
  apply wp_bind, wp_elsewhere; [apply shouldRotate_elsewhere|]. by intros [[]|e].
Qed.

(** ** The invariant of the system *)

Record inv_with (apart : bool) (G : Z → ghost) (s : system) : Prop := {
  iw_world : winv apart (world s);
  iw_wp i : wp apart (threads s i) released (G i);
  iw_asserts i : asserts apart (G i) (world s);
  iw_owner i j u : owner (G i) = Some u → owner (G j) = Some u → i = j;
  iw_apart : apart = true → ∀ i j, ¬ finished (threads s i) → ¬ finished (threads s j) → i = j;
}.
Definition system_inv (apart : bool) (s : system) : Prop := ∃ G, inv_with apart G s.

(** A step of nobody. *)
Lemma env_inv apart G w w' T :
  inv_with apart G (mkSystem w T) → winv apart w' → evolves None w w' →
  inv_with apart G (mkSystem w' T).
Proof.
  intros [_ Hp Ha Ho Hap] Hw He. split; [done..| |done|done]. intros i. simpl in *.
  apply (asserts_evolves apart _ None w); [done..|]. by left.
Qed.

Lemma finished_free apart p g : wp apart p released g → finished p → g = Free.
Proof. by destruct p. Qed.

Lemma unfinished {X} p (m : GoM World X) k : p = Step m k → ¬ finished p.
Proof. intros -> H. exact H. Qed.

Lemma start_inv apart G u force i w T :
  finished (T i) → (apart = true → ∀ j, finished (T j)) → inv_with apart G (mkSystem w T) →
  inv_with apart G (mkSystem w (<[i := DeriveAddress_steps em cfg reg u force]> T)).
Proof.
  intros Hi Hall [Hw Hp Ha Ho _]. split; simpl in *; [done| |done|done|].
  - intros j. destruct (decide (i = j)) as [<-|Hne]; [|by rewrite fn_lookup_insert_ne].
    rewrite fn_lookup_insert. rewrite (finished_free apart (T i) (G i)) by done.
    apply wp_DeriveAddress.
  - intros Ht j k Hj Hk.
    assert (Hone : ∀ l, ¬ finished (<[i:=DeriveAddress_steps em cfg reg u force]> T l) → l = i).
    { intros l Hl. destruct (decide (i = l)) as [|Hne]; [done|].
      rewrite fn_lookup_insert_ne in Hl by done. by destruct Hl; apply Hall. }
    by rewrite (Hone j Hj), (Hone k Hk).
Qed.

Lemma call_inv apart G i X (m : GoM World X) k w T :
  T i = Step m k → inv_with apart G (mkSystem w T) →
  system_inv apart (mkSystem (m w).2 (<[i := k (m w).1]> T)).
Proof.
  intros Ei [Hw Hp Ha Ho Hap]. simpl in *. pose proof (Hp i) as Hi. rewrite Ei in Hi.
  destruct (Hi w Hw (Ha i)) as (g' & [Mi Ma Me Mo] & Hk).
  assert (Hout : ∀ j v, j ≠ i → owner g' = Some v → owner (G j) ≠ Some v).
  { intros j v Hne Hv Hj. destruct (Mo v Hv) as [Hg|Hn]; [by apply Hne, (Ho j i v)|].
    specialize (Ha j). destruct (G j); [done|]. injection Hj as ->. destruct Ha as [Hl _].
    by rewrite Hl in Hn. }
  exists (<[i := g']> G). split; simpl; [done|..].
  - intros j. destruct (decide (i = j)) as [<-|Hne]; [by rewrite !fn_lookup_insert|].
    by rewrite !fn_lookup_insert_ne.
  - intros j. destruct (decide (i = j)) as [<-|Hne]; [by rewrite fn_lookup_insert|].
    rewrite fn_lookup_insert_ne by done. apply (asserts_evolves apart _ (owner (G i)) w); [done..| |].
    + intros v Hv Hj. by apply Hne, (Ho i j v).
    + intros Ht. right. apply (finished_free apart (T j)); [done|].
      destruct (T j) eqn:Ej; [done|]. destruct Hne. apply (Hap Ht); by eapply unfinished.
  - intros j l v. destruct (decide (i = j)) as [<-|Hj], (decide (i = l)) as [<-|Hl];
      rewrite ?fn_lookup_insert, ?fn_lookup_insert_ne by done; [done| | |apply Ho].
    + intros Hv Hv'. by destruct (Hout l v).
    + intros Hv Hv'. by destruct (Hout j v).
  - intros Ht j l Hj Hl.
    assert (Hone : ∀ h, ¬ finished (<[i := k (m w).1]> T h) → h = i).
    { intros h Hh. destruct (decide (i = h)) as [|Hne]; [done|].
      rewrite fn_lookup_insert_ne in Hh by done. apply (Hap Ht); [done|by eapply unfinished]. }
    by rewrite (Hone j Hj), (Hone l Hl).
Qed.

Lemma istep_inv apart s s' :
  istep apart s s' → system_inv apart s → system_inv apart s'.
Proof.
  destruct 1 as [i u force w T Hi Hall|i X m k w T Ei|id w T|w w' T He]; intros [G HG].
  - exists G. by apply start_inv.
  - by eapply call_inv.
  - exists G. destruct (received_move apart id Free w) as [Hw _ Hev _]; [apply HG|done|].
    by apply (env_inv apart G w).
  - exists G. apply (env_inv apart G w); [done| |by apply evolves_elsewhere].
    destruct He. eapply winv_same; [done..|apply HG].
Qed.

Lemma steps_inv apart s s' :
  rtc (istep apart) s s' → system_inv apart s → system_inv apart s'.
Proof. induction 1 as [|x y z Hxy _ IH]; [done|]. intros H. by eapply IH, istep_inv. Qed.

Lemma empty_system_inv apart w T :
  book w = ∅ → w_cache w = ∅ → (∀ i, finished (T i)) → system_inv apart (mkSystem w T).
Proof.
  unfold book. intros Eb Ec HT. exists (λ _, Free). split; simpl; [|intros i|done..|].
  - split; [split|].
    + intros id a. by rewrite Eb, lookup_empty.
    + intros u. rewrite Eb. apply unique_by_empty.
    + intros u c ch ix _. rewrite Eb. apply unique_by_empty.
    + intros id a. by rewrite Eb, lookup_empty.
    + intros k e. rewrite Ec. by rewrite lookup_empty.
  - specialize (HT i). by destruct (T i).
  - intros _ i j Hi. by destruct (Hi (HT i)).
Qed.

(** C17: the addresses when derivations overlap.  From an empty store, any number of goroutines
    run DeriveAddress (the program whose uninterrupted run is that of WalletService.v, see
    [runs_DeriveAddress]), each call of the store, of the process-local locks and of a deriver
    being one step, and receipts and anything else that leaves addresses, cache and address locks
    alone happen in between.  Then a wallet has at most one active address, every stored address is
    the one its slot derives, and outside Solana, whose wallets share the one slot, a wallet never
    has a derivation slot twice: that is what the lock of the wallet protects.  No two addresses of
    a chain share a slot when each derivation ends before another one starts; when derivations of
    two wallets overlap they can, see [two_wallets_one_address]. *)
Theorem overlapping_derivations apart w0 T0 s :
  book w0 = ∅ → w_cache w0 = ∅ → (∀ i, finished (T0 i)) →
  rtc (istep apart) (mkSystem w0 T0) s →
  (∀ u, unique_by (Mem.is_active_of u) (book (world s))) ∧
  (∀ id a, book (world s) !! id = Some a →
     direct reg (Address_Chain a) (Address_Index a) (Address_Change a) = Ok (result_of a)) ∧
  (∀ id id' a a', book (world s) !! id = Some a → book (world s) !! id' = Some a' →
     Address_Chain a = Address_Chain a' → Address_Change a = Address_Change a' →
     Address_Index a = Address_Index a' → Address_Chain a ≠ ChainSolana →
     apart = true ∨ Address_WalletID a = Address_WalletID a' → id = id').
Proof.
  intros Eb Ec HT Hrun. destruct (steps_inv _ _ _ Hrun (empty_system_inv apart w0 T0 Eb Ec HT)) as [G HG].
  destruct (iw_world _ _ _ HG) as [[_ Ha Hs Hd] _]. split; [done|]. split; [exact Hd|].
  intros id id' a a' Hi Hj E1 E2 E3 Hne Hw.
  apply (Hs (Address_WalletID a') _ (Address_Change a) (Address_Index a) Hne id id' a a' Hi Hj);
    apply slot_of_true; naive_solver.
Qed.
End overlap.

(** ** Witnesses *)

Section witnesses.
#[local] Existing Instances der_rt simple_uuid simple_crypto simple_hd.

(** The next call of a goroutine, and a schedule of such calls. *)
Definition turn (s : system) (i : Z) : system :=
  match threads s i with
  | Done _ => s
  | Step m k => mkSystem (m (world s)).2 (<[i := k (m (world s)).1]> (threads s))
  end.
Definition play (schedule : list Z) (s : system) : system := foldl turn s schedule.

Lemma play_steps em cfg reg apart schedule s :
  rtc (istep em cfg reg apart) s (play schedule s).
Proof.
  revert s. induction schedule as [|i l IH]; intros s; [apply rtc_refl|]. cbn [play foldl].
  etrans; [|exact (IH (turn s i))]. unfold turn. destruct (threads s i) eqn:E; [apply rtc_refl|].
  destruct s as [w T]. apply rtc_once. by apply i_call.
Qed.

(** Two Ethereum wallets; goroutine 1 derives for the first, goroutine 2 for the second. *)
Definition second_request : CreateRequest :=
  mkCreateRequest ChainEthereum WalletTypeHot "hot 2" "k2".
Definition two_wallets : World := (Create EmitterService second_request wallet_world).2.
Definition second_id : UUID := 4%N.
#[local] Abbreviation step := (istep EmitterService book_cfg der_reg) (only parsing).

Definition no_threads : Z → prog Address := λ _, Done (Err (New "none")).
Definition start (i : Z) (u : UUID) (s : system) : system :=
  mkSystem (world s) (<[i := DeriveAddress_steps EmitterService book_cfg der_reg u true]> (threads s)).

Lemma two_wallets_run : rtc (step false) (mkSystem NewWorld no_threads) (mkSystem two_wallets no_threads).
Proof.
  eapply rtc_l; [apply i_other, (Create_elsewhere EmitterService eth_request)|].
  apply rtc_once, i_other, (Create_elsewhere EmitterService second_request).
Qed.

(** Both goroutines have started, and the first has just read the next index of the chain. *)
Definition both : system := start 2 second_id (start 1 wallet_id (mkSystem two_wallets no_threads)).
Definition index_read : system := play [1; 1; 1; 1] both.
(** Now the second one derives, then the first goes on. *)
Definition raced : system := play (replicate 12 2 ++ replicate 12 1) index_read.

Lemma both_run : rtc (step false) (mkSystem NewWorld no_threads) both.
Proof.
  etrans; [apply two_wallets_run|]. eapply rtc_l; [by apply (i_start _ _ _ _ 1 wallet_id true)|].
  apply rtc_once. by apply (i_start _ _ _ _ 2 second_id true).
Qed.

Lemma raced_run : rtc (step false) (mkSystem NewWorld no_threads) raced.
Proof. etrans; [apply both_run|]. etrans; apply play_steps. Qed.

(** The lock is the wallet's and the index the chain's: two wallets that derive at the same time
    are given the same address, and both have it as their active one. *)
Lemma two_wallets_one_address :
  ∃ s a b, rtc (step false) (mkSystem NewWorld no_threads) s ∧
    threads s 1 = Done (Ok a) ∧ threads s 2 = Done (Ok b) ∧
    Mem.is_active_of wallet_id a = true ∧ Mem.is_active_of second_id b = true ∧
    Address_Chain a = Address_Chain b ∧ Address_Address a = Address_Address b ∧
    book (world s) !! Address_ID a = Some a ∧ book (world s) !! Address_ID b = Some b.
Proof.
  exists raced. destruct (threads raced 1) as [[a|]|] eqn:E1; [|vm_compute in E1; discriminate E1..].
  destruct (threads raced 2) as [[b|]|] eqn:E2; [|vm_compute in E2; discriminate E2..].
  exists a, b. split; [apply raced_run|]. vm_compute in E1, E2. injection E1 as <-. injection E2 as <-.
  repeat split; vm_compute; reflexivity.
Qed.

(** The state of the wallet is read before the lock is taken: a wallet that is retired while a
    derivation is under way still gets its address. *)
Definition then_retired (s : system) : system :=
  mkSystem (SetState EmitterService wallet_id WalletStateRetired (world s)).2 (threads s).
Definition retired_meanwhile : system := play (replicate 12 1) (then_retired index_read).

Lemma retire_step s : step false s (then_retired s).
Proof.
  destruct s as [w T]. apply i_other.
  exact (SetState_elsewhere EmitterService wallet_id WalletStateRetired w).
Qed.

Lemma retired_meanwhile_run : rtc (step false) (mkSystem NewWorld no_threads) retired_meanwhile.
Proof.
  transitivity both; [exact both_run|].
  transitivity index_read; [exact (play_steps _ _ _ _ [1; 1; 1; 1] both)|].
  eapply rtc_l; [exact (retire_step index_read)|exact (play_steps _ _ _ _ _ _)].
Qed.

Lemma retired_wallet_gets_address :
  rtc (step false) (mkSystem NewWorld no_threads) retired_meanwhile ∧
  Wallet_State <$> wallets (w_store (world (then_retired index_read))) !! wallet_id =
    Some WalletStateRetired ∧
  size (book (world (then_retired index_read))) = 0%nat ∧
  ∃ a, threads retired_meanwhile 1 = Done (Ok a) ∧ Mem.is_active_of wallet_id a = true ∧
    book (world retired_meanwhile) !! Address_ID a = Some a.
Proof.
  split; [exact retired_meanwhile_run|].
  split; [vm_compute; reflexivity|]. split; [vm_compute; reflexivity|].
  destruct (threads retired_meanwhile 1) as [[a|]|] eqn:E; [|vm_compute in E; discriminate E..].
  exists a. split; [done|]. vm_compute in E. injection E as <-. split; vm_compute; reflexivity.
Qed.

(** The same two derivations, one after the other. *)
Definition one_done : system :=
  play (replicate 16 1) (start 1 wallet_id (mkSystem two_wallets no_threads)).
Definition both_done : system := play (replicate 16 2) (start 2 second_id one_done).

Lemma play_other n i j s : i ≠ j → threads (play (replicate n i) s) j = threads s j.
Proof.
  intros Hne. revert s. induction n as [|n IH]; intros s; [done|]. cbn [replicate play foldl].
  etrans; [exact (IH (turn s i))|]. unfold turn. destruct (threads s i); [done|].
  simpl. by rewrite fn_lookup_insert_ne.
Qed.

Lemma one_done_finished j : finished (threads one_done j).
Proof.
  destruct (decide (1 = j)) as [<-|Hne]; [vm_compute; exact I|].
  unfold one_done. rewrite play_other by done. simpl. by rewrite fn_lookup_insert_ne.
Qed.

Lemma start_apart i u s : (∀ j, finished (threads s j)) → step true s (start i u s).
Proof. destruct s as [w T]. intros HF. by apply i_start. Qed.

Lemma both_done_run : rtc (step true) (mkSystem NewWorld no_threads) both_done.
Proof.
  eapply rtc_l; [apply i_other, (Create_elsewhere EmitterService eth_request)|].
  eapply rtc_l; [apply i_other, (Create_elsewhere EmitterService second_request)|].
  eapply rtc_l; [exact (start_apart 1 wallet_id (mkSystem two_wallets no_threads) (λ _, I))|].
  transitivity one_done; [exact (play_steps _ _ _ _ _ _)|].
  eapply rtc_l; [exact (start_apart 2 second_id one_done one_done_finished)|].
  exact (play_steps _ _ _ _ _ _).
Qed.

Definition index_of (s : system) (i : Z) : option Z :=
  match threads s i with Done (Ok a) => Some (Address_Index a) | _ => None end.

(** A raced run, where each wallet still has one address per slot, and a run apart, where the
    two wallets have different slots. *)
Lemma overlapping_derivations_witness :
  (∀ u, unique_by (Mem.is_active_of u) (book (world raced))) ∧ size (book (world raced)) = 2%nat ∧
  map (index_of raced) [1; 2] = [Some 0; Some 0] ∧
  (∀ u, unique_by (Mem.is_active_of u) (book (world both_done))) ∧
  size (book (world both_done)) = 2%nat ∧ map (index_of both_done) [1; 2] = [Some 0; Some 1].
Proof.
  destruct (overlapping_derivations EmitterService book_cfg der_reg false NewWorld no_threads raced)
    as [H1 _]; [reflexivity|reflexivity|intros i; exact I|exact raced_run|].
  destruct (overlapping_derivations EmitterService book_cfg der_reg true NewWorld no_threads both_done)
    as [H2 _]; [reflexivity|reflexivity|intros i; exact I|exact both_done_run|].
  split; [exact H1|]. split; [vm_compute; reflexivity|]. split; [vm_compute; reflexivity|].
  split; [exact H2|]. split; vm_compute; reflexivity.
Defined.
End witnesses.
