(* ===== verification/Json.v ===== *)
(** * Json: decoding request bodies (encoding/json)

    A body is the value its text denotes, or the syntax error.  [decode_struct] is
    [Decoder.Decode] into a struct: members are matched to fields without regard to case, an
    unknown member is skipped, [null] leaves a field as it is, and a value of the wrong type is
    an error that is reported after the other members have been stored. *)

From S2P Require Import Prelude GoLib Bytes Extern.

Local Open Scope Z_scope.

Inductive json :=
  | JNull
  | JBool (b : bool)
  | JNum (literal : string)
  | JStr (s : string)
  | JArr (l : list json)
  | JObj (members : list (string * json)).

(** The folding [encoding/json] uses for names: upper-case ASCII letters, the long s (C5 BF)
    and the Kelvin sign (E2 84 AA) stand for a lower-case letter. *)
Fixpoint fold_name (l : bytes) : bytes :=
  match l with
  | 0xC5 :: 0xBF :: l => 115 :: fold_name l
  | 0xE2 :: 0x84 :: 0xAA :: l => 107 :: fold_name l
  | c :: l => (if (65 <=? c) && (c <=? 90) then c + 32 else c) :: fold_name l
  | [] => []
  end.
Definition same_name (a b : string) : bool :=
  bool_decide (fold_name (bytes_of_string a) = fold_name (bytes_of_string b)).

Definition type_error (want : string) : error :=
  Errorf "json: cannot unmarshal into Go value of type %s" [FStr want].

(** A field: its name and how a value is stored in it. *)
Definition field (S : Type) : Type := string * (json → S → res S).

Section decode.
Context {S : Type}.
Implicit Types (s : S) (fields : list (field S)).

(** The members in order; the first error is kept. *)
Fixpoint decode_members fields (members : list (string * json)) s (err : option error) : res S :=
  match members with
  | [] => match err with Some e => Err e | None => Ok s end
  | (name, v) :: members =>
      match List.find (λ f, same_name f.1 name) fields with
      | None => decode_members fields members s err
      | Some (_, set) =>
          match set v s with
          | Ok s => decode_members fields members s err
          | Err e => decode_members fields members s (Some (default e err))
          end
      end
  end.

Definition decode_struct fields (zero : S) (body : res json) : res S :=
  match body with
  | Err e => Err e
  | Ok JNull => Ok zero
  | Ok (JObj members) => decode_members fields members zero None
  | Ok _ => Err (type_error "struct")
  end.

(** Fields of the types the requests use. *)
Definition string_field (name : string) (set : string → S → S) : field S :=
  (name, λ v s, match v with
                | JStr x => Ok (set x s)
                | JNull => Ok s
                | _ => Err (type_error "string")
                end).
Definition int_field (name : string) (set : Z → S → S) : field S :=
  (name, λ v s, match v with
                | JNum x => match ParseInt x with
                            | (n, None) => Ok (set n s)
                            | _ => Err (type_error "int")
                            end
                | JNull => Ok s
                | _ => Err (type_error "int")
                end).
Definition bool_field (name : string) (set : bool → S → S) : field S :=
  (name, λ v s, match v with
                | JBool x => Ok (set x s)
                | JNull => Ok s
                | _ => Err (type_error "bool")
                end).

(** The elements of a [[]string]; [null] is the empty string. *)
Fixpoint decode_strings (l : list json) : option (list string) :=
  match l with
  | [] => Some []
  | JStr x :: l => (x ::.) <$> decode_strings l
  | JNull :: l => (EmptyString ::.) <$> decode_strings l
  | _ => None
  end.
Definition strings_field (name : string) (set : list string → S → S) : field S :=
  (name, λ v s, match v with
                | JArr l => match decode_strings l with
                            | Some x => Ok (set x s)
                            | None => Err (type_error "string")
                            end
                | JNull => Ok (set [] s)
                | _ => Err (type_error "[]string")
                end).

(** An object without members leaves the zero value. *)
Lemma decode_struct_empty fields zero : decode_struct fields zero (Ok (JObj [])) = Ok zero.
Proof. done. Qed.

(** Unknown members do not matter. *)
Lemma decode_members_skip fields name v members s err :
  List.find (λ f, same_name f.1 name) fields = None →
  decode_members fields ((name, v) :: members) s err = decode_members fields members s err.
Proof. intros E. cbn [decode_members]. by rewrite E. Qed.
End decode.
