(* ===== verification/JsonText.v ===== *)
(** * JsonText: the text that encoding/json writes

    [json.Marshal] of the values the service sends: strings (escaped as the encoder does, with
    HTML characters and invalid UTF-8 replaced), maps with their keys in order, and structs of
    strings.  A string of valid UTF-8 can be read back from its text. *)

From S2P Require Import Prelude GoLib Bytes Extern Domain Storage.

Local Open Scope Z_scope.

(** ** UTF-8 *)

Definition cont (c : Z) : bool := (128 <=? c) && (c <=? 191).
Definition between (a b c : Z) : bool := (a <=? c) && (c <=? b).

(** The number of bytes of the rune the text starts with; none where the text is no UTF-8
    ([utf8.DecodeRune]). *)
Definition rune_len (l : bytes) : option nat :=
  match l with
  | [] => None
  | a :: r =>
      if between 0 127 a then Some 1%nat
      else match r with
      | [] => None
      | b :: r =>
          if between 194 223 a then if cont b then Some 2%nat else None
          else match r with
          | [] => None
          | c :: r =>
              if (between 224 224 a && between 160 191 b || between 225 236 a && cont b ||
                  between 237 237 a && between 128 159 b || between 238 239 a && cont b) && cont c
              then Some 3%nat
              else match r with
              | [] => None
              | d :: _ =>
                  if (between 240 240 a && between 144 191 b || between 241 243 a && cont b ||
                      between 244 244 a && between 128 143 b) && cont c && cont d
                  then Some 4%nat else None
              end
          end
      end
  end.

(** The runes of a text; a byte that starts none is [None]. *)
Fixpoint runes_go (fuel : nat) (l : bytes) : list (option bytes) :=
  match fuel, l with
  | S fuel, _ :: tl =>
      match rune_len l with
      | Some n => Some (take n l) :: runes_go fuel (drop n l)
      | None => None :: runes_go fuel tl
      end
  | _, _ => []
  end.
Definition runes (l : bytes) : list (option bytes) := runes_go (length l) l.
Definition valid_utf8 (l : bytes) : bool := forallb (λ r, bool_decide (is_Some r)) (runes l).

(** U+FFFD stands for what is no rune. *)
Definition rune_bytes (r : option bytes) : bytes := default [0xEF; 0xBF; 0xBD] r.
Definition ToValidUTF8 (l : bytes) : bytes := concat (map rune_bytes (runes l)).

(** ** Strings *)

Definition hex_digit (d : Z) : Z := if d <? 10 then 48 + d else 87 + d.
Definition escape_ascii (c : Z) : bytes :=
  if (c =? 34) || (c =? 92) then [92; c]
  else if c =? 8 then [92; 98]
  else if c =? 12 then [92; 102]
  else if c =? 10 then [92; 110]
  else if c =? 13 then [92; 114]
  else if c =? 9 then [92; 116]
  else if (c <? 32) || (c =? 60) || (c =? 62) || (c =? 38)
       then [92; 117; 48; 48; hex_digit (c / 16); hex_digit (c `mod` 16)]
  else [c].
Definition escape_rune (r : option bytes) : bytes :=
  match r with
  | None => bytes_of_string "\ufffd"
  | Some [c] => escape_ascii c
  | Some r =>
      if bool_decide (r = [0xE2; 0x80; 0xA8]) then bytes_of_string "\u2028"
      else if bool_decide (r = [0xE2; 0x80; 0xA9]) then bytes_of_string "\u2029"
      else r
  end.
Definition json_string (l : bytes) : bytes := 34 :: concat (map escape_rune (runes l)) ++ [34].

(** ** Arrays, objects and the payloads of the audit events *)

Fixpoint separated (l : list bytes) : bytes :=
  match l with
  | [] => []
  | [x] => x
  | x :: l => x ++ 44 :: separated l
  end.
Definition json_array (l : list bytes) : bytes := 91 :: separated l ++ [93].
Definition json_object (members : list (bytes * bytes)) : bytes :=
  123 :: separated (map (λ m, json_string m.1 ++ 58 :: m.2) members) ++ [125].

(** The order of strings. *)
Fixpoint bytes_ltb (a b : bytes) : bool :=
  match a, b with
  | [], _ :: _ => true
  | x :: a, y :: b => (x <? y) || ((x =? y) && bytes_ltb a b)
  | _, [] => false
  end.

(** A struct: the fields in their order; a map: the keys in theirs. *)
Definition json_text (s : string) : bytes := json_string (bytes_of_string s).
Definition marshal_struct (fields : list (string * bytes)) : bytes :=
  json_object (map (λ f, (bytes_of_string f.1, f.2)) fields).
Definition marshal_map (members : list (string * bytes)) : bytes :=
  json_object (insertion_sort (λ a b, bytes_ltb a.1 b.1)
    (map (λ f, (bytes_of_string f.1, f.2)) members)).

Section payload.
Context {UL : UuidLib}.

Definition marshal_any (v : any) : bytes :=
  match v with
  | AStr s => json_text s
  | AUuid u => json_text (uuid_String u)
  | AInt z => bytes_of_string (FormatInt z)
  | ABool b => bytes_of_string (if b then "true" else "false")
  | AStrs [] => bytes_of_string "null"
  | AStrs l => json_array (map json_text l)
  end.
Definition marshal_payload (p : list (string * any)) : bytes :=
  marshal_map (map (λ m, (m.1, marshal_any m.2)) p).
End payload.

(** ** Reading a string back *)

Definition hex_value (c : Z) : option Z :=
  if between 48 57 c then Some (c - 48) else if between 97 102 c then Some (c - 87) else None.

(** The bytes of a rune below U+10000. *)
Definition utf8_encode (n : Z) : bytes :=
  if n <? 0x80 then [n]
  else if n <? 0x800 then [0xC0 + n / 64; 0x80 + n `mod` 64]
  else [0xE0 + n / 4096; 0x80 + (n / 64) `mod` 64; 0x80 + n `mod` 64].

(** One character of a string literal and the rest of the text. *)
Definition read_escape (l : bytes) : option (bytes * bytes) :=
  match l with
  | [] => None
  | c :: l =>
      if c =? 117 then
        match l with
        | a :: b :: c :: d :: l =>
            a ← hex_value a; b ← hex_value b; c ← hex_value c; d ← hex_value d;
            Some (utf8_encode (((a * 16 + b) * 16 + c) * 16 + d), l)
        | _ => None
        end
      else
        match List.find (λ p, p.1 =? c)
                [(34, 34); (92, 92); (98, 8); (102, 12); (110, 10); (114, 13); (116, 9)] with
        | Some (_, x) => Some ([x], l)
        | None => None
        end
  end.
Definition read_char (l : bytes) : option (bytes * bytes) :=
  match l with
  | [] => None
  | c :: tl => if c =? 92 then read_escape tl else n ← rune_len l; Some (take n l, drop n l)
  end.
Fixpoint read_chars (fuel : nat) (l : bytes) : option (bytes * bytes) :=
  match fuel, l with
  | S fuel, c :: tl =>
      if c =? 34 then Some ([], tl)
      else '(x, l) ← read_char l; '(xs, l) ← read_chars fuel l; Some (x ++ xs, l)
  | _, _ => None
  end.
Definition read_string (l : bytes) : option (bytes * bytes) :=
  match l with c :: l => if c =? 34 then read_chars (length l) l else None | [] => None end.

(** Texts with the quotes written as apostrophes. *)
Definition quoted (s : string) : bytes :=
  map (λ c, if c =? 39 then 34 else c) (bytes_of_string s).

Example json_string_examples :
  [json_text "plain"; json_string (quoted "a'b\c<d>");
   json_string [65; 10; 0xFF; 0xE2; 0x80; 0xA8; 0xC3; 0xA9];
   marshal_payload (UL:=simple_uuid) [("to", AStr "x"); ("asset", AStr "ETH"); ("n", AInt (-3))]%string]
  = [quoted "'plain'"; quoted "'a\'b\\c\u003cd\u003e'";
     quoted "'A\n\ufffd\u2028" ++ [0xC3; 0xA9; 34];
     quoted "{'asset':'ETH','n':-3,'to':'x'}"].
Proof. vm_compute. reflexivity. Qed.

(** ** The round trip *)

Ltac bounds :=
  unfold between, cont in *;
  repeat match goal with
  | H : context [if ?b then _ else _] |- _ => destruct b eqn:?; simplify_eq
  | H : (_ || _) = true |- _ => apply orb_true_iff in H as [H|H]
  | H : (_ && _) = true |- _ => apply andb_true_iff in H as [H ?]
  end.

(** What a rune is does not depend on what follows it. *)
Lemma rune_len_take l n rest : rune_len l = Some n → rune_len (take n l ++ rest) = Some n.
Proof.
  intros H. destruct l as [|a [|b [|c [|d l]]]]; simpl in H;
    repeat match type of H with context [if ?b then _ else _] => destruct b eqn:? end;
    simplify_eq; simpl;
    repeat match goal with E : ?x = _ |- context [?x] => rewrite E; simpl end; done.
Qed.

Lemma rune_len_length l n : rune_len l = Some n → (0 < n ≤ length l)%nat.
Proof.
  intros H. destruct l as [|a [|b [|c [|d l]]]]; simpl in H;
    repeat match type of H with context [if ?b then _ else _] => destruct b eqn:? end;
    simplify_eq; simpl; lia.
Qed.

(** A rune of one byte is ASCII, and a longer one starts above it. *)
Lemma rune_len_head a l n :
  rune_len (a :: l) = Some n → (n = 1%nat ∧ 0 ≤ a < 128) ∨ ((1 < n)%nat ∧ 194 <= a).
Proof.
  intros H. destruct l as [|b [|c [|d l]]]; simpl in H;
    repeat match type of H with context [if ?b then _ else _] => destruct b eqn:? end;
    simplify_eq; unfold between in *; first [left; split; [done|lia]|right; split; [lia|lia]].
Qed.

#[global] Arguments rune_len : simpl never.

(** A rune of the text: none, or the bytes of one. *)
Definition is_rune (r : option bytes) : Prop :=
  match r with Some b => rune_len b = Some (length b) | None => True end.

Lemma runes_go_rune fuel l : Forall is_rune (runes_go fuel l).
Proof.
  revert l. induction fuel as [|fuel IH]; intros [|a l]; simpl; try constructor.
  destruct (rune_len (a :: l)) as [n|] eqn:E; constructor; try done.
  simpl. pose proof (rune_len_length _ _ E). rewrite <-(app_nil_r (take n _)) at 1.
  rewrite (rune_len_take _ _ [] E), length_take. simpl in *. f_equal. lia.
Qed.

Ltac escape_literal := vm_compute; split; [reflexivity|discriminate].

Lemma read_ascii c rest : 0 ≤ c < 128 →
  read_char (escape_ascii c ++ rest) = Some ([c], rest) ∧ hd 0 (escape_ascii c) ≠ 34.
Proof.
  intros Hc.
  assert (H : Forall (λ c, ∀ rest, read_char (escape_ascii c ++ rest) = Some ([c], rest) ∧
                hd 0 (escape_ascii c) ≠ 34) (seqZ 0 128)).
  { cbv [seqZ Z.to_nat Pos.to_nat Pos.iter_op Nat.add fmap list_fmap seq].
    repeat (constructor; [intros rest'; escape_literal|]). constructor. }
  rewrite List.Forall_forall in H. apply H, list_elem_of_In, elem_of_seqZ. lia.
Qed.

(** What one rune is written as is read back as the rune, and does not look like the end of
    the string. *)
Lemma read_escape_rune r rest : is_rune r →
  read_char (escape_rune r ++ rest) = Some (rune_bytes r, rest) ∧ hd 0 (escape_rune r) ≠ 34.
Proof.
  destruct r as [[|a l]|]; [intros H; discriminate H| |intros _; escape_literal]. intros Hr. simpl in Hr.
  destruct (rune_len_head a l _ Hr) as [[Hl Ha]|[Hl Ha]].
  - destruct l; [|done]. by apply read_ascii.
  - destruct l as [|b l]; [simpl in Hl; lia|]. cbn [escape_rune].
    case_bool_decide as E; [rewrite E; escape_literal|]. case_bool_decide as E'; [rewrite E'; escape_literal|].
    split; [|simpl; lia]. cbn [rune_bytes default].
    unfold read_char. simpl app. cbv iota. assert ((a =? 92) = false) as -> by lia.
    pose proof (rune_len_take _ _ rest Hr) as HT. rewrite take_ge in HT by done.
    simpl app in HT. rewrite HT. cbn [mbind option_bind].
    change (a :: b :: l ++ rest) with ((a :: b :: l) ++ rest).
    change (S (length (b :: l))) with (length (a :: b :: l)).
    by rewrite take_app_length, drop_app_length.
Qed.

Lemma escape_rune_nonempty r : is_rune r → escape_rune r ≠ [].
Proof. intros Hr E. destruct (read_escape_rune r [] Hr) as [H _]. by rewrite E in H. Qed.

Lemma read_chars_runes rs rest fuel :
  Forall is_rune rs → (length rs < fuel)%nat →
  read_chars fuel (concat (map escape_rune rs) ++ 34 :: rest) =
    Some (concat (map rune_bytes rs), rest).
Proof.
  intros H. revert fuel. induction H as [|r rs Hr _ IH]; intros [|fuel] Hf; simpl in Hf; try lia.
  - reflexivity.
  - cbn [map concat]. rewrite <-app_assoc.
    destruct (read_escape_rune r (concat (map escape_rune rs) ++ 34 :: rest) Hr) as [E Hh].
    destruct (escape_rune r) as [|c tl] eqn:Er; [by apply escape_rune_nonempty in Er|].
    simpl in Hh. simpl app in E |- *. cbn [read_chars].
    destruct (Z.eqb_spec c 34); [done|]. rewrite E. cbn [mbind option_bind].
    rewrite IH by lia. reflexivity.
Qed.

Lemma runes_escape_length rs :
  Forall is_rune rs → (length rs ≤ length (concat (map escape_rune rs)))%nat.
Proof.
  induction 1 as [|r rs Hr _ IH]; [done|]. cbn [map concat]. rewrite length_app. simpl.
  destruct (escape_rune r) eqn:E; [by apply escape_rune_nonempty in E|simpl; lia].
Qed.

(** A string literal reads back as the text, with what is no UTF-8 replaced; what follows the
    literal is left over. *)
Lemma read_json_string l rest :
  read_string (json_string l ++ rest) = Some (ToValidUTF8 l, rest).
Proof.
  unfold read_string, json_string, ToValidUTF8. simpl app. rewrite <-app_assoc. simpl app.
  pose proof (runes_go_rune (length l) l) as Hr. fold (runes l) in Hr.
  rewrite Z.eqb_refl. apply read_chars_runes; [done|].
  rewrite length_app. simpl. pose proof (runes_escape_length _ Hr). lia.
Qed.

Lemma ToValidUTF8_valid l : valid_utf8 l = true → ToValidUTF8 l = l.
Proof.
  unfold valid_utf8, ToValidUTF8, runes.
  assert (H : ∀ fuel l, (length l ≤ fuel)%nat →
    forallb (λ r, bool_decide (is_Some r)) (runes_go fuel l) = true →
    concat (map rune_bytes (runes_go fuel l)) = l).
  { clear. induction fuel as [|fuel IH]; intros [|a l] Hl; simpl in Hl |- *; try done; try lia.
    destruct (rune_len (a :: l)) as [n|] eqn:E; [|done]. intros [_ H]%andb_true_iff.
    cbn [map concat]. rewrite IH; [apply take_drop| |done].
    apply rune_len_length in E. rewrite length_drop. simpl in *. lia. }
  by apply H.
Qed.

(** Literals determine the texts and where they end. *)
Lemma json_string_inj l l' rest rest' :
  valid_utf8 l = true → valid_utf8 l' = true →
  json_string l ++ rest = json_string l' ++ rest' → l = l' ∧ rest = rest'.
Proof.
  intros Hl Hl' E. pose proof (read_json_string l rest) as H.
  rewrite E, read_json_string, !ToValidUTF8_valid in H by done. by simplify_eq.
Qed.

Lemma bytes_of_string_inj s s' : bytes_of_string s = bytes_of_string s' → s = s'.
Proof.
  revert s'. induction s as [|c s IH]; intros [|c' s']; simpl; try done.
  intros [= Hc Hs]. f_equal; [|by apply IH].
  rewrite <-(ascii_N_embedding c), <-(ascii_N_embedding c'). f_equal. lia.
Qed.

(** ** Structs of strings determine their fields *)

Definition valid_text (s : string) : Prop := valid_utf8 (bytes_of_string s) = true.
Definition string_fields (names vals : list string) : list (string * bytes) :=
  zip_with (λ n v, (n, json_text v)) names vals.
Definition member_text (m : bytes * bytes) : bytes := json_string m.1 ++ 58 :: m.2.
Definition member_texts (names vals : list string) : list bytes :=
  map member_text (map (λ f, (bytes_of_string f.1, f.2)) (string_fields names vals)).

Lemma member_text_inj k v v' rest rest' :
  valid_text v → valid_text v' →
  member_text (k, json_text v) ++ rest = member_text (k, json_text v') ++ rest' →
  v = v' ∧ rest = rest'.
Proof.
  unfold member_text, json_text. cbn [fst snd]. intros Hv Hv'. rewrite <-!app_assoc.
  intros E%app_inv_head.
  apply (app_inv_head [58] (json_string (bytes_of_string v) ++ rest)) in E. apply json_string_inj in E as [E ->]; [|done..].
  by apply bytes_of_string_inj in E.
Qed.

Lemma member_texts_cons n ns v vs :
  member_texts (n :: ns) (v :: vs) =
    member_text (bytes_of_string n, json_text v) :: member_texts ns vs.
Proof. done. Qed.

Lemma separated_cons x y l : separated (x :: y :: l) = x ++ 44 :: separated (y :: l).
Proof. done. Qed.

Lemma member_texts_inj names vals vals' rest rest' :
  length vals = length names → length vals' = length names →
  Forall valid_text vals → Forall valid_text vals' →
  separated (member_texts names vals) ++ rest = separated (member_texts names vals') ++ rest' →
  vals = vals' ∧ rest = rest'.
Proof.
  revert vals vals'. induction names as [|k names IH]; intros [|v vals] [|v' vals']; try done.
  cbn [length]. intros [= Hl] [= Hl'] [Hv Hvs]%list.Forall_cons [Hv' Hvs']%list.Forall_cons.
  destruct names as [|k' names].
  - destruct vals, vals'; try done. simpl. intros E.
    by apply (member_text_inj (bytes_of_string k)) in E as [-> ->].
  - destruct vals as [|u vals], vals' as [|u' vals']; try done.
    rewrite !member_texts_cons, !separated_cons, <-!app_assoc, <-!member_texts_cons.
    intros E. apply (member_text_inj (bytes_of_string k)) in E as [-> E]; [|done..].
    apply (app_inv_head [44]) in E.
    apply (IH (u :: vals) (u' :: vals')) in E as [E ->]; try done.
    by rewrite E.
Qed.

Lemma marshal_struct_inj names vals vals' :
  length vals = length names → length vals' = length names →
  Forall valid_text vals → Forall valid_text vals' →
  marshal_struct (string_fields names vals) = marshal_struct (string_fields names vals') →
  vals = vals'.
Proof.
  unfold marshal_struct, json_object. intros H1 H2 H3 H4 [= E].
  by apply (member_texts_inj names) in E as [-> _].
Qed.
