(* ===== verification/Clients.v ===== *)
(** * Clients: the clients of the remote services (internal/clients, internal/policy,
    internal/grpcclient, and the treasury client of internal/funding/funding.go)

    The policy engine and the treasury are called over HTTP with a JSON body, the signer and the
    gateway over gRPC.  What happens on the wire is a parameter: the class [HttpClient] is
    [net/http], the class [GrpcStubs] the gRPC library with the generated stubs.  [main_clients]
    is what the main program hands to the withdrawal service. *)

From S2P Require Import Prelude GoLib Bytes Extern Domain Storage Memstore MemstoreFacts.
From S2P Require Import Lock Outbox Nonce Utxo Keymapping Evm Btc TxBuilder Withdrawal Scenario.
From S2P Require Import WithdrawalSafety Config Funding Json JsonText.

Local Open Scope Z_scope.

(** ** HTTP *)

Record HttpRequest := mkHttpRequest {
  HR_Method : string;
  HR_URL : string;
  HR_Header : list (string * string);
  HR_Body : bytes;
}.
(** The body as text, and the value it starts with (or why there is none). *)
Record HttpResponse := mkHttpResponse {
  HP_StatusCode : Z;
  HP_Text : string;
  HP_Value : res json;
}.

(** [NewRequest] refuses a URL or a method it cannot parse; [Do] is the exchange. *)
Class HttpClient (W : Type) := {
  NewRequest : string → string → bytes → res unit;
  Do : HttpRequest → GoM W HttpResponse;
}.

Definition content_type : string * string := ("Content-Type", "application/json")%string.

Section http.
Context {W : Type} {HC : HttpClient W} {UL : UuidLib}.

(** *** The policy engine *)

Definition policy_body (q : CheckRequest) : bytes :=
  marshal_struct
    [("wallet_id", json_text (CR_WalletID q)); ("to_address", json_text (CR_ToAddress q));
     ("asset", json_text (CR_Asset q)); ("amount", json_text (CR_Amount q))]%string.
Definition policy_request (url : string) (q : CheckRequest) : HttpRequest :=
  mkHttpRequest "POST" (url +:+ "/v1/whitelist/check") [content_type] (policy_body q).

Definition zero_response : CheckResponse := mkCheckResponse false EmptyString EmptyString.
Definition CheckResponse_fields : list (field CheckResponse) :=
  [bool_field "approved" (λ b s, mkCheckResponse b (DecisionID s) (Reason s));
   string_field "decision_id" (λ x s, mkCheckResponse (Approved s) x (Reason s));
   string_field "reason" (λ x s, mkCheckResponse (Approved s) (DecisionID s) x)]%string.

Definition HTTPClient_CheckWhitelist (url : string) (q : CheckRequest) : GoM W CheckResponse :=
  let r := policy_request url q in
  ret_res (NewRequest (HR_Method r) (HR_URL r) (HR_Body r));;
  resp ← Do r;
  if 400 <=? HP_StatusCode resp
  then fail (Errorf "policy engine rejected: %d %s" [FInt (HP_StatusCode resp); FStr (HP_Text resp)])
  else ret_res (decode_struct CheckResponse_fields zero_response (HP_Value resp)).

(** *** The treasury *)

Definition treasury_body (q : TreasuryRequest) : bytes :=
  marshal_struct
    [("funding_request_id", json_text (uuid_String (TR_FundingRequestID q)));
     ("wallet_id", json_text (uuid_String (TR_WalletID q)));
     ("asset", json_text (TR_Asset q)); ("amount", json_text (TR_Amount q));
     ("idempotency_key", json_text (TR_IdempotencyKey q)); ("reason", json_text (TR_Reason q))]%string.
Definition treasury_request (url : string) (q : TreasuryRequest) : HttpRequest :=
  mkHttpRequest "POST" (url +:+ "/v1/funding-requests")
    [content_type; ("Idempotency-Key", TR_IdempotencyKey q)]%string (treasury_body q).

Definition RequestFunding (url : string) (q : TreasuryRequest) : GoM W unit :=
  let r := treasury_request url q in
  ret_res (NewRequest (HR_Method r) (HR_URL r) (HR_Body r));;
  resp ← Do r;
  if 400 <=? HP_StatusCode resp
  then fail (Errorf "treasury rejected funding request: %d %s"
               [FInt (HP_StatusCode resp); FStr (HP_Text resp)])
  else mret ().
End http.

(** The pair [(resp, err)] a Go caller sees. *)
Definition as_pair {W A} (m : GoM W A) : GoM W (option A * option error) :=
  r ← try m;
  mret (match r with Ok a => (Some a, None) | Err e => (None, Some e) end).

(** ** gRPC *)

Record SignResponse := mkSignResponse { SP_Signature : bytes; SP_SignerID : string }.
Record BroadcastResponse := mkBroadcastResponse { BP_TxHash : string }.

(** The generated messages. *)
Record pb_SignRequest := mkPbSign { pb_KeyId : string; pb_SignTx : bytes; pb_SignWallet : string }.
Record pb_BroadcastTxRequest := mkPbBroadcast {
  pb_Chain : string;
  pb_TxBytes : bytes;
  pb_WalletId : string;
}.

Class GrpcStubs (W : Type) := {
  ClientConn : Type;
  DialOpt : Type;
  insecure : DialOpt;
  NewClient : string → list DialOpt → res ClientConn;
  CloseConn : ClientConn → GoM W unit;
  raw_Sign : ClientConn → pb_SignRequest → GoM W SignResponse;
  raw_BroadcastTx : ClientConn → pb_BroadcastTxRequest → GoM W BroadcastResponse;
}.

Section grpc.
Context {W : Type} {GS : GrpcStubs W} {UL : UuidLib}.

(** A [DialOption] changes the dial options. *)
Definition DialOption : Type := list DialOpt → list DialOpt.
Definition WithGRPCDialOptions (opts : list DialOpt) : DialOption := λ _, opts.
Definition defaultDialConfig : list DialOpt := [insecure].

(** [conn] is nil after [Close]; the stub keeps its connection. *)
Record Client := mkClient { conn : option ClientConn; raw : ClientConn }.

Definition dial (service : string) (target : string) (opts : list DialOption) : res Client :=
  if bool_decide (target = EmptyString)
  then Err (Errorf ("dial " +:+ service +:+ ": empty target") [])
  else match NewClient target (foldl (λ cfg o, o cfg) defaultDialConfig opts) with
       | Err err => Err (Wrapf ("dial " +:+ service +:+ " %q: %w") [FStr target] err)
       | Ok c => Ok (mkClient (Some c) c)
       end.
Definition NewMPCSigningClient : string → list DialOption → res Client :=
  dial "mpc-signing-service".
Definition NewGatewayClient : string → list DialOption → res Client := dial "blockchain-gateway".

Definition MPC_Sign (c : Client) (req : SignRequest) : GoM W SignResponse :=
  raw_Sign (raw c) (mkPbSign (SR_KeyID req) (SR_TxBytes req) (uuid_String (SR_WalletID req))).
Definition Gateway_BroadcastTx (c : Client) (req : BroadcastRequest) : GoM W BroadcastResponse :=
  raw_BroadcastTx (raw c)
    (mkPbBroadcast (BR_Chain req) (BR_TxBytes req) (uuid_String (BR_WalletID req))).

(** [Close]: the client it leaves behind, and its error. *)
Definition Close (c : Client) : GoM W (Client * option error) :=
  match conn c with
  | None => mret (c, None)
  | Some cc =>
      r ← try (CloseConn cc);
      mret (mkClient None (raw c), match r with Ok _ => None | Err err => Some err end)
  end.

Definition GatewayClient_Close : Client → GoM W (Client * option error) := Close.

(** *** The clients of DEV_MODE, with their default answers *)

Definition Mock_Sign (SignFn : option (SignRequest → GoM W SignResponse)) (req : SignRequest) :
    GoM W SignResponse :=
  match SignFn with
  | Some f => f req
  | None => mret (mkSignResponse (bytes_of_string "mock-sig") "mock")
  end.
Definition Mock_BroadcastTx (BroadcastFn : option (BroadcastRequest → GoM W BroadcastResponse))
    (req : BroadcastRequest) : GoM W BroadcastResponse :=
  match BroadcastFn with
  | Some f => f req
  | None => mret (mkBroadcastResponse "0xmocktx")
  end.
Definition Mock_CheckWhitelist (CheckFn : option (CheckRequest → GoM W CheckResponse))
    (req : CheckRequest) : GoM W CheckResponse :=
  match CheckFn with
  | Some f => f req
  | None => mret (mkCheckResponse true "mock-decision" EmptyString)
  end.

(** Closing again does nothing, whatever the first call returned. *)
Lemma Close_again c c' err w w' :
  Close c w = (Ok (c', err), w') → Close c' w' = (Ok (c', None), w').
Proof.
  unfold Close. destruct (conn c) as [cc|] eqn:E; go_cbv.
  - destruct (CloseConn cc w) as [r w1]. by intros [= <- _ _].
  - intros [= <- _ _]. by rewrite E.
Qed.
End grpc.

(** ** What the main program gives to the withdrawal service *)

Section main.
Context {W : Type} {HC : HttpClient W} {GS : GrpcStubs W} {UL : UuidLib} {ST : Store W}.

(** The service reads the signature and the hash of the two responses. *)
Definition main_clients (cfg : Config) (signer : SignRequest → GoM W SignResponse)
    (gw : BroadcastRequest → GoM W BroadcastResponse) : Clients W := {|
  CheckWhitelist := λ q, as_pair (HTTPClient_CheckWhitelist (PolicyRiskEngineURL cfg) q);
  Sign := λ q, SP_Signature <$> signer q;
  BroadcastTx := λ q, BP_TxHash <$> gw q;
  KeyLookup := Some ResolveActiveKeyID;
|}.
Definition main_treasury (cfg : Config) : option (TreasuryRequest → GoM W unit) :=
  Some (RequestFunding (TreasuryOrchestrationURL cfg)).
End main.

(** ** The policy client is closed by default

    An approval comes out of an exchange that took place, with a status below 400 and an object
    in which the last [approved] that is not null is true. *)

Definition approves_member (m : string * json) : bool := same_name m.1 "approved".
Fixpoint says_approved (acc : bool) (members : list (string * json)) : bool :=
  match members with
  | [] => acc
  | m :: members =>
      says_approved (match m.2 with
                     | JBool b => if approves_member m then b else acc
                     | _ => acc
                     end) members
  end.

Lemma decode_members_failed {S} (fields : list (field S)) members s e r :
  decode_members fields members s (Some e) ≠ Ok r.
Proof.
  revert s e. induction members as [|[name v] members IH]; intros s e; [done|].
  cbn [decode_members]. repeat case_match; simpl; apply IH.
Qed.

Lemma decode_approved members s r :
  decode_members CheckResponse_fields members s None = Ok r →
  Approved r = says_approved (Approved s) members.
Proof.
  revert s. induction members as [|[name v] members IH]; intros s; [by intros [= <-]|].
  cbn [decode_members says_approved]. unfold CheckResponse_fields, bool_field, string_field.
  cbn [List.find fst snd]. fold CheckResponse_fields.
  assert (same_name "approved" name = approves_member (name, v)) as ->
    by (unfold approves_member, same_name; by apply bool_decide_ext).
  destruct (approves_member (name, v)), v;
    repeat match goal with
    | |- context [if ?b then Some _ else _] => destruct b; cbn [default]
    end;
    intros H; first [by apply decode_members_failed in H | exact (IH _ H)].
Qed.

(** The engine's answer to a question is an approval. *)
Definition engine_approves (resp : HttpResponse) : Prop :=
  HP_StatusCode resp < 400 ∧
  ∃ members, HP_Value resp = Ok (JObj members) ∧ says_approved false members = true.

Section policy.
Context {HC : HttpClient World}.

(** Some exchange in which the engine was asked [q] ended with an approval. *)
Definition engine_approved (url : string) (q : CheckRequest) : Prop :=
  ∃ w resp w', Do (policy_request url q) w = (Ok resp, w') ∧ engine_approves resp.

Lemma CheckWhitelist_approves url q d w w' :
  as_pair (HTTPClient_CheckWhitelist url q) w = (Ok (Some d, None), w') → Approved d = true →
  engine_approved url q.
Proof.
  unfold as_pair, HTTPClient_CheckWhitelist, engine_approved. go_cbv.
  destruct (NewRequest _ _ _) as [[]|e]; [|by intros [= <-]].
  destruct (Do (policy_request url q) w) as [[resp|e] w1] eqn:E; [|done].
  destruct (Z.leb_spec 400 (HP_StatusCode resp)) as [Hs|Hs]; [done|]. go_cbv.
  unfold decode_struct. destruct (HP_Value resp) as [v|e] eqn:EV; [|done].
  destruct v as [| | | | |members]; try done.
  - intros [= <- _] [=].
  - destruct (decode_members _ members _ None) as [r|e] eqn:ED; [|done].
    intros [= <- _] Ha. exists w, resp, w1. split; [done|]. split; [done|].
    exists members. split; [done|]. apply decode_approved in ED. by rewrite ED in Ha.
Qed.

(** The texts of a question are valid UTF-8, as those of a decoded request are. *)
Definition check_values (q : CheckRequest) : list string :=
  [CR_WalletID q; CR_ToAddress q; CR_Asset q; CR_Amount q].
Definition valid_request (q : CheckRequest) : Prop := Forall valid_text (check_values q).

(** The body says what is asked. *)
Lemma policy_body_inj q q' :
  valid_request q → valid_request q' → policy_body q = policy_body q' → q = q'.
Proof.
  intros Hq Hq' E.
  apply (marshal_struct_inj ["wallet_id"; "to_address"; "asset"; "amount"]%string
           (check_values q) (check_values q')) in E; [|done..].
  destruct q, q'. by injection E as -> -> -> ->.
Qed.
End policy.

(** ** The gate, with the clients of the main program *)

Section gate.
Context {GR : GoRuntime} {UL : UuidLib} {CL : CryptoLib} {BL : BtcLib}.
Context {HC : HttpClient World}.
Variable (cfg : Config) (em : Emitter World) (others : GoM World unit).
Variable (signer : SignRequest → GoM World SignResponse).
Variable (gw : BroadcastRequest → GoM World BroadcastResponse).
Context {EM : AuditEmitter em}.

Definition answered : CheckRequest → Prop := engine_approved (PolicyRiskEngineURL cfg).

(** During a call over the network and between any two steps other handlers of the service may
    run; nothing else writes withdrawals. *)
Record network_env : Prop := {
  ne_do r : respects (on_store (gate_rel answered)) (Do r);
  ne_sign q : respects (on_store (gate_rel answered)) (signer q);
  ne_broadcast q : respects (on_store (gate_rel answered)) (gw q);
  ne_others : respects (on_store (gate_rel answered)) others;
}.

Lemma main_clients_gate :
  network_env → gate_env answered (main_clients cfg signer gw) others.
Proof.
  intros env. split; simpl.
  - intros q. unfold as_pair, HTTPClient_CheckWhitelist. pose proof (ne_do env). go_respects.
  - intros q w d w'. apply CheckWhitelist_approves.
  - intros q. apply respects_fmap, env.
  - intros q. apply respects_fmap, env.
  - intros f u [= <-]. intros w. destruct (ResolveActiveKeyID_run u w) as [-> _]. reflexivity.
  - apply env.
Qed.

(** C2: the policy gate over the wire.  With the clients that the main program builds, from a
    store without withdrawals, every withdrawal past the whitelist state was put to the policy
    engine in a POST that was answered with a status below 400 and an object that says
    approved; and the body of that POST names the wallet, the recipient, the asset and the
    amount of this withdrawal and of no other question.  So no error, no error status, no
    malformed answer and no answer without a verdict lets a withdrawal pass. *)
Theorem http_policy_gate w0 w id row :
  network_env → withdrawals (w_store w0) = ∅ →
  rtc (wd_step (main_clients cfg signer gw) em others) w0 w →
  withdrawals (w_store w) !! id = Some row → gated (WR_State row) →
  answered (check_request row) ∧
  ∀ q, valid_request q → valid_request (check_request row) →
    policy_body q = policy_body (check_request row) → q = check_request row.
Proof.
  intros env H0 Hrun Hrow Hg. split.
  - exact (wd_run_gated _ _ _ _ (main_clients_gate env) _ _ H0 Hrun id row Hrow Hg).
  - intros q Hq Hr. by apply policy_body_inj.
Qed.
End gate.

(** ** Witness *)

Section witness.
Import Scenario.

(** An engine that approves every question put to its endpoint. *)
Definition says_yes : HttpResponse :=
  mkHttpResponse 200 EmptyString
    (Ok (JObj [("decision_id", JStr "d1"); ("approved", JBool true)]))%string.
#[local] Instance wire : HttpClient World := {|
  NewRequest := λ _ _ _, Ok ();
  Do := λ r, mret (if decide (HR_URL r = "http://policy/v1/whitelist/check"%string) then says_yes
                   else mkHttpResponse 404 "not found" (Err (New "invalid character")));
|}.
Definition wire_cfg : Config :=
  mkConfig "8080" "9090" "postgres://" "redis://" 7 12 6 "finalized" "dns:///mpc" "dns:///gw"
    "http://treasury" "http://policy" (SpecFloat.S754_zero false) 0 "info" 0.
Definition wire_sign (q : SignRequest) : GoM World SignResponse := mret (mkSignResponse signature "s").
Definition wire_send (q : BroadcastRequest) : GoM World BroadcastResponse :=
  mret (mkBroadcastResponse "0xhash").
Definition wire_clients : Clients World := main_clients wire_cfg wire_sign wire_send.
Definition wire_created : World := (Create wire_clients em (eth_req "1000") start).2.

Lemma http_policy_gate_witness :
  ∃ row, withdrawals (w_store wire_created) !! row_id = Some row ∧
    WR_State row = WithdrawalStateWhitelisted ∧ answered wire_cfg (check_request row).
Proof.
  destruct (withdrawals (w_store wire_created) !! row_id) as [row|] eqn:E;
    [|vm_compute in E; discriminate E].
  exists row. split; [done|].
  assert (Hs : WR_State row = WithdrawalStateWhitelisted)
    by (vm_compute in E; injection E as <-; vm_compute; reflexivity).
  split; [exact Hs|].
  apply (http_policy_gate wire_cfg em others wire_sign wire_send start wire_created row_id row).
  - split; intros; by intros w.
  - vm_compute. reflexivity.
  - apply rtc_once. exact (wd_create wire_clients em others (eth_req "1000") start).
  - exact E.
  - rewrite Hs. apply (bool_decide_unpack _). vm_compute. exact I.
Defined.
End witness.
