(* ===== verification/Envelope.v ===== *)
(** * Envelope: what goes to Kafka (internal/audit/audit.go, KafkaSink)

    Every outbox event is wrapped in the canonical envelope of the audit.v1 topic and published.
    The payload is stored as JSON text; json.Marshal puts it into the envelope compacted
    ([compact]), and the envelope carries the hash of the stored text.  The Kafka writer is an
    argument. *)

From S2P Require Import Prelude GoLib Bytes Extern Domain Storage Memstore MemstoreFacts.
From S2P Require Import Outbox Sha256 Evm Cache Deriver Json JsonText.

Local Open Scope Z_scope.

(** ** Instants as text ([time.RFC3339Nano], in UTC)

    An instant is counted in nanoseconds from the first of January of the year 1. *)

(** Year, month and day of a day counted from there; the year of the computation starts in
    March. *)
Definition civil (days : Z) : Z * Z * Z :=
  let z := days + 306 in
  let era := z / 146097 in
  let doe := z `mod` 146097 in
  let yoe := (doe - doe / 1460 + doe / 36524 - doe / 146096) / 365 in
  let doy := doe - (365 * yoe + yoe / 4 - yoe / 100) in
  let mp := (5 * doy + 2) / 153 in
  let m := if mp <? 10 then mp + 3 else mp - 9 in
  (yoe + era * 400 + (if m <=? 2 then 1 else 0), m, doy - (153 * mp + 2) / 5 + 1).

Definition pad (width : nat) (n : Z) : bytes :=
  let s := bytes_of_string (FormatInt n) in replicate (width - length s) 48 ++ s.
Fixpoint trim_zeros (l : bytes) : bytes :=
  match l with
  | [] => []
  | c :: l => match trim_zeros l with
              | [] => if c =? 48 then [] else [c]
              | l => c :: l
              end
  end.
Definition RFC3339Nano (t : Z) : bytes :=
  let '(y, m, d) := civil (t / 86400000000000) in
  let s := (t / 1000000000) `mod` 86400 in
  let frac := trim_zeros (pad 9 (t `mod` 1000000000)) in
  pad 4 y ++ 45 :: pad 2 m ++ 45 :: pad 2 d ++ 84 :: pad 2 (s / 3600) ++ 58 ::
  pad 2 ((s / 60) `mod` 60) ++ 58 :: pad 2 (s `mod` 60) ++
  (match frac with [] => [] | _ => 46 :: frac end) ++ [90].

Example RFC3339Nano_examples :
  map (λ t, string_of_bytes (RFC3339Nano t))
    [0; unix_epoch; unix_epoch + 951782399 * 1000000000 + 500000000;
     unix_epoch + 1735689600 * 1000000000 + 1]
  = ["0001-01-01T00:00:00Z"; "1970-01-01T00:00:00Z"; "2000-02-28T23:59:59.5Z";
     "2025-01-01T00:00:00.000000001Z"]%string.
Proof. vm_compute. reflexivity. Qed.

(** ** Compacting JSON text

    [compact] drops the blanks between tokens and escapes HTML characters; a text that is not
    one JSON value is refused. *)

Definition is_ws (c : Z) : bool := (c =? 32) || (c =? 9) || (c =? 10) || (c =? 13).
Fixpoint skip_ws (l : bytes) : bytes :=
  match l with c :: tl => if is_ws c then skip_ws tl else l | [] => [] end.

Definition is_digit (c : Z) : bool := (48 <=? c) && (c <=? 57).
Fixpoint digits (l : bytes) : bytes * bytes :=
  match l with
  | c :: tl => if is_digit c then let '(d, r) := digits tl in (c :: d, r) else ([], l)
  | [] => ([], [])
  end.
Definition digits1 (l : bytes) : option (bytes * bytes) :=
  match digits l with ([], _) => None | r => Some r end.

(** An optional part of a number: nothing where [starts] does not hold of the next character. *)
Definition part (starts : Z → bool) (body : bytes → option (bytes * bytes)) (l : bytes) :
    option (bytes * bytes) :=
  match l with
  | c :: tl => if starts c then '(x, r) ← body tl; Some (c :: x, r) else Some ([], l)
  | [] => Some ([], [])
  end.
Definition scan_number (l : bytes) : option (bytes * bytes) :=
  '(sign, l) ← part (λ c, c =? 45) (λ l, Some ([], l)) l;
  '(int, l) ← match l with
              | c :: tl => if c =? 48 then Some ([48], tl) else digits1 l
              | [] => None
              end;
  '(frac, l) ← part (λ c, c =? 46) digits1 l;
  '(exp, l) ← part (λ c, (c =? 101) || (c =? 69)) (λ l,
      '(s, l) ← part (λ c, (c =? 43) || (c =? 45)) (λ l, Some ([], l)) l;
      '(d, l) ← digits1 l; Some (s ++ d, l)) l;
  Some (sign ++ int ++ frac ++ exp, l).

(** The rest of a string, after the opening quote. *)
Fixpoint scan_string (l : bytes) : option (bytes * bytes) :=
  match l with
  | [] => None
  | c :: tl =>
      if c =? 34 then Some ([34], tl)
      else if c =? 92 then
        match tl with
        | [] => None
        | e :: tl =>
            if e =? 117 then
              match tl with
              | h1 :: h2 :: h3 :: h4 :: tl =>
                  if forallb is_hex_char [h1; h2; h3; h4]
                  then '(x, r) ← scan_string tl; Some (92 :: 117 :: h1 :: h2 :: h3 :: h4 :: x, r)
                  else None
              | _ => None
              end
            else if bool_decide (e ∈ [34; 92; 47; 98; 102; 110; 114; 116])
            then '(x, r) ← scan_string tl; Some (92 :: e :: x, r) else None
        end
      else if c <? 32 then None
      else
        match tl with
        | b :: e :: tl' =>
            if (c =? 0xE2) && (b =? 0x80) && ((e =? 0xA8) || (e =? 0xA9))
            then '(x, r) ← scan_string tl'; Some (escape_rune (Some [c; b; e]) ++ x, r)
            else '(x, r) ← scan_string tl; Some (escape_ascii c ++ x, r)
        | _ => '(x, r) ← scan_string tl; Some (escape_ascii c ++ x, r)
        end
  end.

Definition expect (p l : bytes) : option (bytes * bytes) :=
  if has_prefix p l then Some (p, drop (length p) l) else None.

(** [scan_value], the elements of an array, the members of an object, each with what is left. *)
Fixpoint scan_value (fuel : nat) (l : bytes) : option (bytes * bytes) :=
  match fuel, skip_ws l with
  | S fuel, c :: tl =>
      if c =? 34 then '(x, r) ← scan_string tl; Some (34 :: x, r)
      else if c =? 91 then
        match skip_ws tl with
        | 93 :: r => Some ([91; 93], r)
        | _ => '(x, r) ← scan_elements fuel tl; Some (91 :: x, r)
        end
      else if c =? 123 then
        match skip_ws tl with
        | 125 :: r => Some ([123; 125], r)
        | _ => '(x, r) ← scan_members fuel tl; Some (123 :: x, r)
        end
      else if c =? 116 then expect (bytes_of_string "true") (c :: tl)
      else if c =? 102 then expect (bytes_of_string "false") (c :: tl)
      else if c =? 110 then expect (bytes_of_string "null") (c :: tl)
      else scan_number (c :: tl)
  | _, _ => None
  end
with scan_elements (fuel : nat) (l : bytes) : option (bytes * bytes) :=
  match fuel with
  | O => None
  | S fuel =>
      '(x, r) ← scan_value fuel l;
      match skip_ws r with
      | 44 :: r => '(y, r) ← scan_elements fuel r; Some (x ++ 44 :: y, r)
      | 93 :: r => Some (x ++ [93], r)
      | _ => None
      end
  end
with scan_members (fuel : nat) (l : bytes) : option (bytes * bytes) :=
  match fuel, skip_ws l with
  | S fuel, 34 :: l =>
      '(k, r) ← scan_string l;
      match skip_ws r with
      | 58 :: r =>
          '(x, r) ← scan_value fuel r;
          match skip_ws r with
          | 44 :: r => '(y, r) ← scan_members fuel r; Some (34 :: k ++ 58 :: x ++ 44 :: y, r)
          | 125 :: r => Some (34 :: k ++ 58 :: x ++ [125], r)
          | _ => None
          end
      | _ => None
      end
  | _, _ => None
  end.

Definition compact (l : bytes) : option bytes :=
  match scan_value (2 * length l + 2) l with
  | Some (x, r) => match skip_ws r with [] => Some x | _ => None end
  | None => None
  end.

Example compact_examples :
  map compact
    [quoted " { 'a' : [ 1 , -2.5e+3 ], 'b': 'x <y', 'c': null } "; quoted "[]"; quoted "{'a' 1}";
     quoted "{'a':01}"; quoted "1 2"; []]
  = [Some (quoted "{'a':[1,-2.5e+3],'b':'x \u003cy','c':null}"); Some (quoted "[]"); None; None;
     None; None].
Proof. vm_compute. reflexivity. Qed.

(** ** The envelope *)

Definition AuditTopic : string := "audit.v1".

Record Message := mkMessage { Msg_Key : bytes; Msg_Value : bytes }.

(** A connected sink has a writer for the topic; without brokers it has none. *)
Record KafkaSink (Writer : Type) := mkKafkaSink { writer : option Writer }.
Arguments mkKafkaSink {Writer} _.
Arguments writer {Writer} _.

Section kafka.
Context {W : Type} {UL : UuidLib} {EF : Effects W}.
Variable (Writer : Type) (new_writer : list string → string → Writer).
Variable (WriteMessages : Writer → list Message → GoM W unit) (CloseWriter : Writer → GoM W unit).
(** The text the store keeps for a payload. *)
Variable stored : AuditOutboxEvent → bytes.

Definition NewKafkaSink (brokers : list string) : KafkaSink Writer :=
  match brokers with
  | [] => mkKafkaSink None
  | _ => mkKafkaSink (Some (new_writer brokers AuditTopic))
  end.

Definition payload_hash (ev : AuditOutboxEvent) : bytes :=
  bytes_of_string "sha256:" ++ hex_EncodeToString (Sum256 (stored ev)).

(** The id of the envelope; an event without one is given one. *)
Definition envelope_id (ev : AuditOutboxEvent) : GoM W string :=
  let id := uuid_String (AE_EventID ev) in
  if bool_decide (id = EmptyString) || bool_decide (id = uuid_String uuid_Nil)
  then uuid_String <$> uuid_New else mret id.

(** The members; the payload is still the stored text, if there is one. *)
Definition envelope (ev : AuditOutboxEvent) (id : string) : list (string * bytes) :=
  [("schema_version", json_text "1"); ("id", json_text id);
   ("ts", json_string (RFC3339Nano (AE_CreatedAt ev)));
   ("source_service", json_text "wallet-management"); ("actor_id", json_text "wallet-management");
   ("action", json_text (AE_EventType ev)); ("target_type", json_text "wallet");
   ("target_id", json_text (match AE_WalletID ev with
                            | Some u => uuid_String u | None => EmptyString end));
   ("payload_hash", json_string (payload_hash ev))]%string.

Definition invalid_payload : error :=
  New "json: error calling MarshalJSON for type json.RawMessage".

(** [json.Marshal] of the envelope: the payload is compacted, or refused when it is no JSON. *)
Definition marshal_envelope (ev : AuditOutboxEvent) (id : string) : res bytes :=
  if bool_decide (stored ev = [])
  then Ok (marshal_map (envelope ev id ++ [("payload", bytes_of_string "null")]%string))
  else match compact (stored ev) with
       | Some c => Ok (marshal_map (envelope ev id ++ [("payload", c)]%string))
       | None => Err invalid_payload
       end.

Fixpoint build_messages (events : list AuditOutboxEvent) : GoM W (list Message) :=
  match events with
  | [] => mret []
  | ev :: events =>
      id ← envelope_id ev;
      body ← wrap "audit kafka encode: %w" [] (ret_res (marshal_envelope ev id));
      msgs ← build_messages events;
      mret (mkMessage (bytes_of_string id) body :: msgs)
  end.

Definition Deliver (s : KafkaSink Writer) (events : list AuditOutboxEvent) : GoM W unit :=
  match writer s with
  | None => fail (Errorf "audit kafka: not connected" [])
  | Some wr =>
      msgs ← build_messages events;
      wrap "audit kafka publish: %w" [] (WriteMessages wr msgs)
  end.

Definition KafkaSink_Close (s : KafkaSink Writer) : GoM W unit :=
  match writer s with None => mret () | Some wr => CloseWriter wr end.
End kafka.

(** ** Compacting what the service writes *)

Lemma pretty_N_char_byte x :
  (x < 10)%N → Z.of_N (Ascii.N_of_ascii (pretty_N_char x)) = 48 + Z.of_N x.
Proof. intros Hx. destruct x as [|p]; [done|]. by repeat (destruct p as [p|p|]; try lia). Qed.

(** The digits of a positive number do not start with a zero. *)
Lemma pretty_N_go_bytes x s :
  (0 < x)%N → ∃ c ds, bytes_of_string (pretty_N_go x s) = c :: ds ++ bytes_of_string s ∧
    49 ≤ c ≤ 57 ∧ forallb is_digit ds = true.
Proof.
  revert s. induction (N.lt_wf_0 x) as [x _ IH]; intros s Hx.
  rewrite pretty_N_go_step by lia.
  pose proof (N.mod_lt x 10 ltac:(lia)) as Hm. pose proof (pretty_N_char_byte _ Hm) as Hb.
  destruct (decide (x < 10)%N) as [Hs|Hl].
  - rewrite N.div_small, pretty_N_go_0 by lia. rewrite N.mod_small in * by lia.
    exists (48 + Z.of_N x), []. simpl. rewrite Hb. split; [done|]. split; [lia|done].
  - destruct (IH (x / 10)%N) with (s := String (pretty_N_char (x mod 10)) s)
      as (c & ds & E & Hc & Hd); [apply N.div_lt; lia|apply N.div_str_pos; lia|].
    exists c, (ds ++ [48 + Z.of_N (x mod 10)]). rewrite E. simpl. rewrite Hb, <-app_assoc.
    split; [done|]. split; [done|]. rewrite forallb_app, Hd.
    cbn [forallb andb]. rewrite andb_true_r. unfold is_digit. clear Hb. revert Hm.
    generalize (x mod 10)%N. lia.
Qed.

(** What may follow a value. *)
Definition delim (l : bytes) : Prop := match l with [] => True | c :: _ => c ∈ [44; 93; 125] end.

Lemma delim_cases l : delim l → l = [] ∨ ∃ c tl, l = c :: tl ∧ (c = 44 ∨ c = 93 ∨ c = 125).
Proof. destruct l as [|c l]; [by left|]. simpl. rewrite !elem_of_cons, elem_of_nil. naive_solver. Qed.

Lemma digits_app ds rest :
  forallb is_digit ds = true → delim rest → digits (ds ++ rest) = (ds, rest).
Proof.
  intros Hd Hr. induction ds as [|d ds IH]; simpl in *.
  - destruct (delim_cases rest Hr) as [->|(c & tl & -> & [->|[->| ->]])]; done.
  - apply andb_true_iff in Hd as [-> Hd]. by rewrite IH.
Qed.

Lemma scan_unsigned c ds rest :
  49 ≤ c ≤ 57 → forallb is_digit ds = true → delim rest →
  digits1 (c :: ds ++ rest) = Some (c :: ds, rest).
Proof.
  intros Hc Hd Hr. unfold digits1. change (c :: ds ++ rest) with ((c :: ds) ++ rest).
  rewrite (digits_app (c :: ds) rest); [done| |done]. cbn [forallb]. rewrite Hd. unfold is_digit. lia.
Qed.

Lemma scan_FormatInt z rest :
  delim rest → scan_number (bytes_of_string (FormatInt z) ++ rest) = Some (bytes_of_string (FormatInt z), rest).
Proof.
  intros Hr.
  assert (Hend : ∀ starts body, starts 44 = false → starts 93 = false → starts 125 = false →
    part starts body rest = Some ([], rest)).
  { intros starts body H1 H2 H3.
    destruct (delim_cases rest Hr) as [->|(c & tl & -> & [->|[->| ->]])]; simpl; [done|..];
      by rewrite ?H1, ?H2, ?H3. }
  unfold scan_number, FormatInt. destruct z as [|p|p].
  - change (bytes_of_string (pretty 0)) with [48]. cbn [app part mbind option_bind Z.eqb Pos.eqb].
    do 2 (rewrite Hend by done; cbn [mbind option_bind]). by rewrite ?app_nil_r.
  - change (pretty (Z.pos p)) with (pretty_N_go (N.pos p) EmptyString).
    destruct (pretty_N_go_bytes (N.pos p) EmptyString ltac:(lia)) as (c & ds & -> & Hc & Hd).
    simpl bytes_of_string. rewrite app_nil_r. cbn [part app].
    assert ((c =? 45) = false) as -> by lia. cbn [mbind option_bind].
    assert ((c =? 48) = false) as -> by lia. rewrite scan_unsigned by done. cbn [mbind option_bind].
    do 2 (rewrite Hend by done; cbn [mbind option_bind]). by rewrite ?app_nil_r.
  - change (pretty (Z.neg p)) with (String "-" (pretty_N_go (N.pos p) EmptyString)).
    cbn [bytes_of_string]. change (Z.of_N (Ascii.N_of_ascii "-")) with 45.
    destruct (pretty_N_go_bytes (N.pos p) EmptyString ltac:(lia)) as (c & ds & -> & Hc & Hd).
    simpl bytes_of_string. rewrite app_nil_r. cbn [part app]. rewrite Z.eqb_refl.
    cbn [mbind option_bind].
    assert ((c =? 48) = false) as -> by lia. rewrite scan_unsigned by done. cbn [mbind option_bind].
    do 2 (rewrite Hend by done; cbn [mbind option_bind]). by rewrite ?app_nil_r.
Qed.

(** *** Strings *)

Definition push (x : bytes) (o : option (bytes * bytes)) : option (bytes * bytes) :=
  '(y, r) ← o; Some (x ++ y, r).

Lemma push_app x y o : push x (push y o) = push (x ++ y) o.
Proof. destruct o as [[? ?]|]; [|done]. simpl. by rewrite app_assoc. Qed.

Lemma scan_ascii c t : 0 ≤ c < 128 →
  scan_string (escape_ascii c ++ t) = push (escape_ascii c) (scan_string t).
Proof.
  intros Hc.
  assert (H : Forall (λ c, ∀ t, scan_string (escape_ascii c ++ t) =
                push (escape_ascii c) (scan_string t)) (seqZ 0 128)).
  { cbv [seqZ Z.to_nat Pos.to_nat Pos.iter_op Nat.add fmap list_fmap seq].
    repeat (constructor; [intros t'; destruct t' as [|? [|? ?]]; reflexivity|]). constructor. }
  rewrite List.Forall_forall in H. apply H, list_elem_of_In, elem_of_seqZ. lia.
Qed.

(** A byte above ASCII that does not start one of the two separators. *)
Lemma scan_high c t :
  128 ≤ c → (c ≠ 0xE2 ∨ ∀ e tl, t = 0x80 :: e :: tl → e ≠ 0xA8 ∧ e ≠ 0xA9) →
  scan_string (c :: t) = push [c] (scan_string t).
Proof.
  intros Hc Ht. cbn [scan_string].
  assert ((c =? 34) = false) as -> by lia. assert ((c =? 92) = false) as -> by lia.
  assert ((c <? 32) = false) as -> by lia.
  assert (escape_ascii c = [c]) as ->.
  { unfold escape_ascii. repeat match goal with |- context [?b =? ?n] =>
      rewrite (proj2 (Z.eqb_neq b n)) by lia end.
    by assert ((c <? 32) = false) as -> by lia. }
  destruct t as [|b [|e tl]]; [done..|].
  destruct ((c =? 226) && (b =? 128) && ((e =? 168) || (e =? 169))) eqn:E; [|done].
  apply andb_true_iff in E as [[Ec Eb]%andb_true_iff Ee]. exfalso.
  destruct Ht as [Ht|Ht]; [lia|]. assert (b = 128) as -> by lia.
  destruct (Ht e tl eq_refl). lia.
Qed.

Lemma cont_range c : cont c = true ↔ 128 ≤ c ≤ 191.
Proof. unfold cont. lia. Qed.

(** The bytes of a rune after the first are continuation bytes. *)
Lemma rune_tail a l : rune_len (a :: l) = Some (length (a :: l)) → Forall (λ c, 128 ≤ c ≤ 191) l.
Proof.
  intros H. destruct l as [|b [|c [|d [|e l]]]]; simpl in H; unfold rune_len in H;
    repeat match type of H with context [if ?b then _ else _] => destruct b eqn:? end;
    simplify_eq; unfold between, cont in *; repeat constructor; lia.
Qed.

Lemma scan_conts l t :
  Forall (λ c, 128 ≤ c ≤ 191) l → scan_string (l ++ t) = push l (scan_string t).
Proof.
  induction 1 as [|c l Hc _ IH]; [simpl app; by destruct (scan_string t) as [[? ?]|]|].
  simpl app. rewrite scan_high by lia. by rewrite IH, push_app.
Qed.

Lemma scan_rune r t : is_rune r →
  scan_string (escape_rune r ++ t) = push (escape_rune r) (scan_string t).
Proof.
  destruct r as [[|a l]|]; [intros H; discriminate H| |intros _; reflexivity].
  intros Hr. simpl in Hr. destruct (rune_len_head a l _ Hr) as [[Hl Ha]|[Hl Ha]].
  { destruct l; [|done]. by apply scan_ascii. }
  destruct l as [|b l]; [simpl in Hl; lia|]. pose proof (rune_tail _ _ Hr) as Ht.
  cbn [escape_rune]. case_bool_decide as E1; [reflexivity|].
  case_bool_decide as E2; [reflexivity|].
  change ((a :: b :: l) ++ t) with (a :: (b :: l) ++ t). rewrite scan_high; [|lia|].
  - by rewrite scan_conts, push_app.
  - destruct (decide (a = 0xE2)) as [->|]; [right|by left].
    intros e tl [= -> E].
    destruct l as [|x [|y l]].
    + discriminate Hr.
    + injection E as -> ->. split; intros ->; done.
    + exfalso. revert Hr. unfold rune_len. simpl. destruct (cont x); discriminate.
Qed.

Lemma scan_runes rs rest :
  Forall is_rune rs →
  scan_string (concat (map escape_rune rs) ++ 34 :: rest) =
    Some (concat (map escape_rune rs) ++ [34], rest).
Proof.
  induction 1 as [|r rs Hr _ IH]; [done|]. cbn [map concat].
  rewrite <-!app_assoc, scan_rune by done. rewrite IH. done.
Qed.

(** A literal, after its first quote. *)
Definition literal_tail (l : bytes) : bytes := concat (map escape_rune (runes l)) ++ [34].
Lemma scan_literal l rest : scan_string (literal_tail l ++ rest) = Some (literal_tail l, rest).
Proof.
  unfold literal_tail. rewrite <-app_assoc. apply scan_runes, runes_go_rune.
Qed.
Lemma json_string_tail l : json_string l = 34 :: literal_tail l.
Proof. done. Qed.

(** *** Payloads, with any blanks after the colons and the commas

    The memstore keeps the text json.Marshal wrote, without blanks and with the keys in order; a
    JSONB column prints a space after each colon and comma, and has an order of its own. *)

Fixpoint spaced (sp : bytes) (l : list bytes) : bytes :=
  match l with
  | [] => []
  | [x] => x
  | x :: l => x ++ 44 :: sp ++ spaced sp l
  end.

Section payload_text.
Context {UL : UuidLib}.
Variable sp : bytes.

Definition value_text (v : any) : bytes :=
  match v with
  | AStrs (x :: l) => 91 :: spaced sp (map json_text (x :: l)) ++ [93]
  | v => marshal_any v
  end.
Definition member (m : string * any) : bytes := json_text m.1 ++ 58 :: sp ++ value_text m.2.
Definition payload_text (ms : list (string * any)) : bytes :=
  123 :: spaced sp (map member ms) ++ [125].
End payload_text.

Lemma spaced_cons sp x y l : spaced sp (x :: y :: l) = x ++ 44 :: sp ++ spaced sp (y :: l).
Proof. done. Qed.
Lemma spaced_separated l : spaced [] l = separated l.
Proof. induction l as [|x [|y l] IH]; [done..|]. by rewrite spaced_cons, IH. Qed.

Lemma map_insertion_sort {A B} (f : A → B) less l :
  insertion_sort less (map f l) = map f (insertion_sort (λ a b, less (f a) (f b)) l).
Proof.
  assert (HI : ∀ x l, insert_by less (f x) (map f l) = map f (insert_by (λ a b, less (f a) (f b)) x l)).
  { intros x l'. induction l' as [|y l' IH]; [done|]. cbn [map insert_by]. rewrite IH. by case_match. }
  induction l as [|x l IH]; [done|]. unfold insertion_sort in *. simpl. by rewrite IH, HI.
Qed.

(** What json.Marshal writes: no blanks, and the keys in order. *)
Definition key_order (p : list (string * any)) : list (string * any) :=
  insertion_sort (λ a b, bytes_ltb (bytes_of_string a.1) (bytes_of_string b.1)) p.
Lemma value_text_marshal `{UuidLib} v : value_text [] v = marshal_any v.
Proof. destruct v as [| | | |[|x l]]; try done. unfold value_text. by rewrite spaced_separated. Qed.
Lemma marshal_payload_text `{UuidLib} p : marshal_payload p = payload_text [] (key_order p).
Proof.
  unfold marshal_payload, marshal_map, json_object, payload_text, key_order.
  rewrite !map_insertion_sort, spaced_separated, !map_map. cbn [fst snd].
  do 3 f_equal. apply map_ext. intros [k v].
  unfold member. cbn [fst snd]. by rewrite value_text_marshal.
Qed.

Section scan.
Context {UL : UuidLib}.
Variable sp : bytes.
Hypothesis blank : forallb is_ws sp = true.

Lemma skip_sp l : skip_ws (sp ++ l) = skip_ws l.
Proof.
  revert blank. induction sp as [|c s IH]; [done|]. simpl. intros [-> Hs]%andb_true_iff. by apply IH.
Qed.

Lemma scan_json_text fuel s rest :
  scan_value (S fuel) (json_text s ++ rest) = Some (json_text s, rest).
Proof.
  unfold json_text. rewrite json_string_tail. cbn [app scan_value skip_ws].
  change (is_ws 34) with false. cbv iota. rewrite Z.eqb_refl, scan_literal. done.
Qed.

Lemma scan_blank fuel l : scan_value fuel (sp ++ l) = scan_value fuel l.
Proof. destruct fuel; [done|]. cbn [scan_value]. by rewrite skip_sp. Qed.
Lemma scan_elements_blank fuel l : scan_elements fuel (sp ++ l) = scan_elements fuel l.
Proof. destruct fuel; [done|]. cbn [scan_elements]. by rewrite scan_blank. Qed.
Lemma scan_members_blank fuel l : scan_members fuel (sp ++ l) = scan_members fuel l.
Proof. destruct fuel; [done|]. cbn [scan_members]. by rewrite skip_sp. Qed.

(** One step of the loops. *)
Lemma scan_elements_more fuel l x r :
  scan_value fuel l = Some (x, 44 :: r) →
  scan_elements (S fuel) l = push (x ++ [44]) (scan_elements fuel r).
Proof.
  intros E. cbn [scan_elements]. rewrite E. cbn [mbind option_bind skip_ws].
  change (is_ws 44) with false. cbv iota. unfold push.
  destruct (scan_elements fuel r) as [[? ?]|]; [|done]. simpl. by rewrite <-app_assoc.
Qed.
Lemma scan_elements_last fuel l x r :
  scan_value fuel l = Some (x, 93 :: r) → scan_elements (S fuel) l = Some (x ++ [93], r).
Proof. intros E. cbn [scan_elements]. by rewrite E. Qed.

Lemma scan_members_more fuel k l x r :
  scan_value fuel l = Some (x, 44 :: r) →
  scan_members (S fuel) (json_text k ++ 58 :: l) =
    push (json_text k ++ 58 :: x ++ [44]) (scan_members fuel r).
Proof.
  intros E. unfold json_text. rewrite json_string_tail. cbn [app scan_members skip_ws].
  change (is_ws 34) with false. cbv iota. rewrite scan_literal. cbn [mbind option_bind skip_ws].
  change (is_ws 58) with false. cbv iota. rewrite E. cbn [mbind option_bind skip_ws].
  change (is_ws 44) with false. cbv iota. unfold push.
  destruct (scan_members fuel r) as [[? ?]|]; [|done]. simpl.
  by rewrite <-!app_assoc, <-!app_comm_cons, <-app_assoc.
Qed.
Lemma scan_members_last fuel k l x r :
  scan_value fuel l = Some (x, 125 :: r) →
  scan_members (S fuel) (json_text k ++ 58 :: l) = Some (json_text k ++ 58 :: x ++ [125], r).
Proof.
  intros E. unfold json_text. rewrite json_string_tail. cbn [app scan_members skip_ws].
  change (is_ws 34) with false. cbv iota. rewrite scan_literal. cbn [mbind option_bind skip_ws].
  change (is_ws 58) with false. cbv iota. by rewrite E.
Qed.

Lemma scan_strings x l fuel rest :
  (length l + 2 ≤ fuel)%nat →
  scan_elements fuel (spaced sp (map json_text (x :: l)) ++ 93 :: rest) =
    Some (spaced [] (map json_text (x :: l)) ++ [93], rest).
Proof.
  revert x fuel. induction l as [|y l IH]; intros x [|[|fuel]] Hf; cbn [length] in Hf; try lia.
  - by apply scan_elements_last, scan_json_text.
  - cbn [map]. rewrite !spaced_cons, <-!app_assoc.
    rewrite (scan_elements_more _ _ (json_text x) (sp ++ spaced sp (json_text y :: map json_text l) ++ 93 :: rest))
      by (rewrite <-!app_comm_cons, <-app_assoc; apply scan_json_text).
    rewrite scan_elements_blank. specialize (IH y (S fuel)). cbn [map] in IH.
    rewrite IH by lia. simpl. by rewrite <-app_assoc.
Qed.

Lemma spaced_quote sp' x l : ∃ tl, spaced sp' (json_text x :: l) = 34 :: tl.
Proof. destruct l; eexists; reflexivity. Qed.

Definition weight (v : any) : nat := match v with AStrs l => length l + 2 | _ => 1 end.

Lemma scan_value_number fuel z rest :
  delim rest →
  scan_value (S fuel) (bytes_of_string (FormatInt z) ++ rest) =
    Some (bytes_of_string (FormatInt z), rest).
Proof.
  intros Hr. rewrite <-scan_FormatInt by done.
  assert (∃ c tl, bytes_of_string (FormatInt z) = c :: tl ∧ (c = 45 ∨ 48 ≤ c ≤ 57)) as (c & tl & -> & Hc).
  { unfold FormatInt. destruct z as [|p|p].
    - exists 48, []. split; [reflexivity|lia].
    - change (pretty (Z.pos p)) with (pretty_N_go (N.pos p) EmptyString).
      destruct (pretty_N_go_bytes (N.pos p) EmptyString ltac:(lia)) as (c & ds & -> & Hc & _).
      do 2 eexists. split; [reflexivity|lia].
    - exists 45. eexists. split; [reflexivity|by left]. }
  cbn [app scan_value skip_ws]. assert (is_ws c = false) as -> by (unfold is_ws; lia).
  repeat match goal with |- context [if c =? ?n then _ else _] =>
    assert ((c =? n) = false) as -> by lia end.
  done.
Qed.

Lemma scan_value_text v fuel rest :
  (weight v ≤ fuel)%nat → delim rest →
  scan_value fuel (value_text sp v ++ rest) = Some (value_text [] v, rest).
Proof.
  intros Hf Hr. destruct fuel as [|fuel]; [destruct v; simpl in Hf; lia|].
  destruct v as [s|u|z|b|[|x l]].
  - apply scan_json_text.
  - apply scan_json_text.
  - by apply scan_value_number.
  - by destruct b.
  - reflexivity.
  - simpl in Hf. unfold value_text. rewrite <-app_comm_cons, <-app_assoc.
    pose proof (scan_strings x l fuel rest ltac:(lia)) as E.
    cbn [scan_value skip_ws]. change (is_ws 91) with false. cbv iota.
    cbn [Z.eqb Pos.eqb app]. rewrite E. cbn [map]. destruct (spaced_quote sp x (map json_text l)) as [tl ->].
    reflexivity.
Qed.

Lemma scan_members_text m ms fuel rest :
  Forall (λ m, weight m.2 + length ms + 1 ≤ fuel)%nat (m :: ms) →
  scan_members fuel (spaced sp (map (member sp) (m :: ms)) ++ 125 :: rest) =
    Some (spaced [] (map (member []) (m :: ms)) ++ [125], rest).
Proof.
  revert m fuel. induction ms as [|m' ms IH]; intros m [|fuel] [Hm Hms]%list.Forall_cons; try lia.
  - cbn [map spaced]. unfold member. rewrite <-app_assoc, <-app_comm_cons, <-app_assoc.
    rewrite (scan_members_last _ _ _ (value_text [] m.2) rest).
    + cbn [app]. by rewrite <-app_assoc.
    + rewrite scan_blank. apply scan_value_text; [simpl in Hm; lia|]. simpl. set_solver.
  - cbn [map]. rewrite !spaced_cons, <-!app_assoc. unfold member at 1.
    rewrite <-!app_assoc, <-!app_comm_cons, <-!app_assoc.
    rewrite (scan_members_more _ _ _ (value_text [] m.2)
               (sp ++ spaced sp (map (member sp) (m' :: ms)) ++ 125 :: rest)).
    + rewrite scan_members_blank, IH.
      * unfold push. cbn [mbind option_bind app]. change (member [] m) with (json_text m.1 ++ 58 :: value_text [] m.2).
        by rewrite <-!app_assoc, <-!app_comm_cons, <-!app_assoc.
      * eapply list.Forall_impl; [exact Hms|]. cbn [length]. intros x Hx. lia.
    + rewrite scan_blank. apply scan_value_text; [simpl in Hm; lia|]. simpl. set_solver.
Qed.

(** The fuel of [compact] is enough. *)
Lemma weight_value v : (weight v ≤ S (length (value_text sp v)))%nat.
Proof.
  destruct v as [s|u|z|b|[|x l]]; cbn [weight]; try lia; [cbn; lia|].
  unfold value_text. cbn [length map]. rewrite length_app. cbn [length].
  assert (length l ≤ length (spaced sp (json_text x :: map json_text l)))%nat; [|lia].
  revert x. induction l as [|y l IH]; intros x; cbn [length map]; [lia|].
  specialize (IH y). rewrite spaced_cons, length_app. cbn [length]. rewrite length_app. lia.
Qed.

Lemma weight_members ms m :
  m ∈ ms → (weight m.2 + length ms ≤ 2 * length (spaced sp (map (member sp) ms)))%nat.
Proof.
  assert (HL : ∀ ms, (length ms ≤ length (spaced sp (map (member sp) ms)))%nat).
  { intros l. induction l as [|x [|y l] IH]; [done|simpl; lia|].
    cbn [map] in *. rewrite spaced_cons, length_app. cbn [length]. rewrite length_app. simpl in *. lia. }
  intros Hm. induction ms as [|x [|y ms] IH]; [by apply elem_of_nil in Hm|..].
  - apply list_elem_of_singleton in Hm as ->. pose proof (weight_value x.2).
    cbn [map spaced length]. unfold member. rewrite length_app. cbn [length]. rewrite length_app. lia.
  - cbn [map]. rewrite spaced_cons, length_app. cbn [length]. rewrite length_app.
    pose proof (HL (y :: ms)) as H1. cbn [map length] in H1, IH.
    apply elem_of_cons in Hm as [->|Hm].
    + pose proof (weight_value x.2). unfold member at 1. rewrite length_app. cbn [length].
      rewrite length_app. lia.
    + specialize (IH Hm). lia.
Qed.

(** The envelope takes every payload, and drops its blanks. *)
Lemma compact_payload_text ms : compact (payload_text sp ms) = Some (payload_text [] ms).
Proof.
  destruct ms as [|m ms]; [reflexivity|]. unfold compact, payload_text.
  set (l := 123 :: _). assert (Hl : (length l = 2 + length (spaced sp (map (member sp) (m :: ms))))%nat)
    by (unfold l; simpl length; rewrite length_app; simpl; lia).
  destruct (2 * length l + 2)%nat as [|fuel] eqn:Ef; [lia|]. unfold l.
  pose proof (scan_members_text m ms fuel []) as E.
  cbn [scan_value skip_ws]. change (is_ws 123) with false. cbn [Z.eqb Pos.eqb]. cbv iota.
  rewrite E.
  - assert (∃ tl, spaced sp (map (member sp) (m :: ms)) = 34 :: tl) as [tl ->]
      by (destruct ms; eexists; reflexivity).
    reflexivity.
  - apply list.Forall_forall. intros x Hx. pose proof (weight_members _ _ Hx). cbn [length] in *. lia.
Qed.
End scan.

(** ** Deliveries *)

Section deliver.
Context {W : Type} {UL : UuidLib} {EF : Effects W}.
Variable (Writer : Type) (WriteMessages : Writer → list Message → GoM W unit).

(** The store prints a payload with the blanks [sp], its members in the order [order].  Only
    these two are left open: the strings are printed with the escapes they were written with,
    where PostgreSQL prints the characters <, > and & unescaped. *)
Variable (sp : bytes) (order : list (string * any) → list (string * any)).
Hypothesis blank : forallb is_ws sp = true.
Definition column (ev : AuditOutboxEvent) : bytes := payload_text sp (order (AE_Payload ev)).

(** The event has an id of its own, as those that Emit writes have. *)
Definition identified (ev : AuditOutboxEvent) : Prop :=
  AE_EventID ev ≠ uuid_Nil ∧ uuid_String (AE_EventID ev) ≠ EmptyString.

Definition published (ev : AuditOutboxEvent) : Message :=
  let id := uuid_String (AE_EventID ev) in
  mkMessage (bytes_of_string id)
    (marshal_map (envelope column ev id ++
       [("payload", payload_text [] (order (AE_Payload ev)))]%string)).

Lemma envelope_id_run ev w :
  identified ev → envelope_id ev w = (Ok (uuid_String (AE_EventID ev)), w).
Proof.
  intros [Hn He]. unfold envelope_id. rewrite !bool_decide_eq_false_2; [done| |done].
  intros E. by apply uuid_String_inj in E.
Qed.

Lemma build_messages_run events w :
  Forall identified events →
  build_messages column events w = (Ok (map published events), w).
Proof.
  intros H. revert w. induction H as [|ev events He _ IH]; intros w; [done|].
  cbn [build_messages map]. rewrite (bind_Ok _ _ _ _ _ (envelope_id_run ev w He)).
  assert (marshal_envelope column ev (uuid_String (AE_EventID ev)) = Ok (Msg_Value (published ev))) as ->.
  { unfold marshal_envelope. rewrite bool_decide_eq_false_2 by done. unfold column at 1.
    by rewrite compact_payload_text. }
  rewrite (bind_Ok _ _ _ (Msg_Value (published ev)) w) by done.
  by rewrite (bind_Ok _ _ _ _ _ (IH w)).
Qed.

Lemma spaced_length l : (length (spaced [] l) + pred (length l) * length sp = length (spaced sp l))%nat.
Proof.
  induction l as [|x [|y l] IH]; [done|simpl; lia|]. rewrite !spaced_cons. cbn [app].
  rewrite !length_app. cbn [length pred] in *. rewrite length_app. lia.
Qed.

(** The text with blanks is another text, unless there is nowhere to put them. *)
Lemma payload_text_blanks ms :
  payload_text sp ms = payload_text [] ms ↔ sp = [] ∨ ms = [].
Proof.
  split; [|by intros [->| ->]]. destruct ms as [|m ms]; [by right|]. intros E. left.
  apply (f_equal length) in E. unfold payload_text in E. cbn [length] in E.
  rewrite !length_app in E.
  assert (HM : ∀ m, (length (member [] m) + length sp ≤ length (member sp m))%nat).
  { intros [k v]. unfold member. cbn [fst snd]. rewrite !length_app. cbn [length app]. rewrite length_app.
    assert (length (value_text [] v) ≤ length (value_text sp v))%nat; [|lia].
    destruct v as [| | | |[|x l]]; try done. unfold value_text. cbn [length]. rewrite !length_app.
    rewrite <-(spaced_length (map json_text (x :: l))). nia. }
  assert (HL : ∀ m ms, (length (spaced [] (map (member []) (m :: ms))) + length sp ≤
                        length (spaced sp (map (member sp) (m :: ms))))%nat).
  { intros m' l. revert m'. induction l as [|y l IH]; intros x.
    - cbn [map spaced]. apply HM.
    - cbn [map]. rewrite !spaced_cons, !length_app. cbn [length app]. rewrite length_app.
      specialize (IH y). cbn [map] in IH. pose proof (HM x). lia. }
  specialize (HL m ms). apply nil_length_inv. cbn [length] in E. lia.
Qed.

(** C34: what Kafka is given.  A delivery of identified events fails only where the writer
    fails: it publishes one message per event, in their order and under their ids, whose
    envelope carries the payload without its blanks and the SHA-256 of the stored text.  The
    published payload is the text that was hashed only where the store keeps no blanks (the
    memstore) or the payload is empty; a JSONB column prints blanks, so there the hash is not
    that of the payload in the message. *)
Theorem kafka_delivery wr events w :
  Forall identified events →
  Deliver Writer WriteMessages column (mkKafkaSink (Some wr)) events w =
    wrap "audit kafka publish: %w" [] (WriteMessages wr (map published events)) w ∧
  ∀ ev, ev ∈ events →
    payload_hash column ev =
      bytes_of_string "sha256:" ++ hex_EncodeToString (Sum256 (column ev)) ∧
    (column ev = payload_text [] (order (AE_Payload ev)) ↔ sp = [] ∨ order (AE_Payload ev) = []).
Proof.
  intros H. split.
  - unfold Deliver. cbn [writer]. by rewrite (bind_Ok _ _ _ _ _ (build_messages_run events w H)).
  - intros ev _. split; [done|]. apply payload_text_blanks.
Qed.

(** Without a writer nothing is published, and the error is returned. *)
Lemma Deliver_disconnected events w :
  Deliver Writer WriteMessages column (mkKafkaSink None) events w =
    (Err (Errorf "audit kafka: not connected" []), w).
Proof. done. Qed.
End deliver.

(** ** Witness *)

Section witness.
#[local] Existing Instances simple_uuid.
Definition kafka_rt : GoRuntime := simple_runtime 1.
#[local] Existing Instances kafka_rt.

Definition an_event : AuditOutboxEvent :=
  mkAuditEvent 3 5 (Some 7%N) "withdrawal.created" [("asset", AStr "ETH"); ("nonce", AInt 4)]%string
    1 false 0 unix_epoch None.
Definition jsonb : AuditOutboxEvent → bytes := column [32] id.
Definition accepting (_ : unit) (_ : list Message) : GoM World unit := mret ().

(** The message a JSONB column leads to. *)
Lemma kafka_delivery_witness :
  Deliver unit accepting jsonb (mkKafkaSink (Some tt)) [an_event] NewWorld = (Ok (), NewWorld) ∧
  jsonb an_event = quoted "{'asset': 'ETH', 'nonce': 4}" ∧
  jsonb an_event ≠ payload_text [] (AE_Payload an_event).
Proof.
  destruct (kafka_delivery unit accepting [32] id eq_refl tt [an_event] NewWorld) as [HD HE].
  { constructor; [|constructor]. split; [discriminate|]. vm_compute. discriminate. }
  split; [exact HD|]. split; [vm_compute; reflexivity|].
  destruct (HE an_event ltac:(by left)) as [_ [HB _]]. intros E. by destruct (HB E).
Defined.
End witness.
