(* ===== verification/Rest.v ===== *)
(** * Rest: the REST control plane (internal/api/rest/rest.go)

    Every handler as a body from a request to a status and a payload, over the services it
    calls.  A request is what the handler reads of it: the [id] of the path, the query and the
    body.  Routing by pattern is [chi]'s; [route] names the patterns and [serve] the handlers. *)

From S2P Require Import Prelude GoLib Bytes Extern Domain Storage Memstore Lock Config Outbox.
From S2P Require Import Nonce Withdrawal Balance Funding Cache Deriver Rotation WalletService.
From S2P Require Import Evm Btc Json.

Local Open Scope Z_scope.

Record Request := mkRequest {
  URLParam_id : string;
  Query : string → string;
  Body : res json;
}.

Definition StatusOK : Z := 200.
Definition StatusCreated : Z := 201.
Definition StatusBadRequest : Z := 400.
Definition StatusNotFound : Z := 404.
Definition StatusConflict : Z := 409.
Definition StatusInternalServerError : Z := 500.
Definition StatusServiceUnavailable : Z := 503.

Record balanceResp := mkBalanceResp {
  BR_Asset : string;
  BR_Confirmed : string;
  BR_Pending : string;
  BR_Locked : string;
}.

Inductive payload :=
  | PError (e : error)
  | PStatus (status : string)
  | PWallet (w : Wallet)
  | PWallets (l : list Wallet)
  | PAddress (a : Address)
  | PAddresses (l : list Address)
  | PBalances (l : list balanceResp)
  | PWithdrawal (w : WithdrawalRequest)
  | PWithdrawals (l : list WithdrawalRequest)
  | PFundingRequests (l : list FundingRequest)
  | PNonce (n : Z).

Record Response := mkResponse { Status : Z; Payload : payload }.

(** ** Request bodies *)

Record createWalletReq := mkCreateWalletReq {
  cw_Chain : string; cw_Type : string; cw_Label : string; cw_KeyID : string }.
Definition createWalletReq_fields : list (field createWalletReq) :=
  [string_field "chain" (λ x r, mkCreateWalletReq x (cw_Type r) (cw_Label r) (cw_KeyID r));
   string_field "type" (λ x r, mkCreateWalletReq (cw_Chain r) x (cw_Label r) (cw_KeyID r));
   string_field "label" (λ x r, mkCreateWalletReq (cw_Chain r) (cw_Type r) x (cw_KeyID r));
   string_field "key_id" (λ x r, mkCreateWalletReq (cw_Chain r) (cw_Type r) (cw_Label r) x)].

Record fundingReq := mkFundingReq { fr_Asset : string; fr_Amount : string; fr_Reason : string }.
Definition fundingReq_fields : list (field fundingReq) :=
  [string_field "asset" (λ x r, mkFundingReq x (fr_Amount r) (fr_Reason r));
   string_field "amount" (λ x r, mkFundingReq (fr_Asset r) x (fr_Reason r));
   string_field "reason" (λ x r, mkFundingReq (fr_Asset r) (fr_Amount r) x)].

Record createWithdrawalReq := mkCreateWithdrawalReq {
  cr_WalletID : string; cr_ToAddress : string; cr_Asset : string; cr_Amount : string }.
Definition createWithdrawalReq_fields : list (field createWithdrawalReq) :=
  [string_field "wallet_id" (λ x r, mkCreateWithdrawalReq x (cr_ToAddress r) (cr_Asset r) (cr_Amount r));
   string_field "to_address" (λ x r, mkCreateWithdrawalReq (cr_WalletID r) x (cr_Asset r) (cr_Amount r));
   string_field "asset" (λ x r, mkCreateWithdrawalReq (cr_WalletID r) (cr_ToAddress r) x (cr_Amount r));
   string_field "amount" (λ x r, mkCreateWithdrawalReq (cr_WalletID r) (cr_ToAddress r) (cr_Asset r) x)].

Record allocateNonceReq := mkAllocateNonceReq { an_Chain : string }.
Definition allocateNonceReq_fields : list (field allocateNonceReq) :=
  [string_field "chain" (λ x _, mkAllocateNonceReq x)].

(** ** Handlers *)

Definition writeJSON {W} (status : Z) (v : payload) : GoM W Response := mret (mkResponse status v).
Definition writeError {W} (status : Z) (err : error) : GoM W Response := writeJSON status (PError err).

Section handlers.
Context {W : Type} {GR : GoRuntime} {UL : UuidLib} {DL : DecimalLib} {FL : FloatRuntime}.
Context {CL : CryptoLib} {BL : BtcLib} {HD : HdLib}.
Context {ST : Store W} {LK : Locker W} {C : Cache W} {EF : Effects W}.
Variable (em : Emitter W) (cfg : Config) (reg : Registry) (others : GoM W unit).
Variable (cl : Clients W) (treasury : option (TreasuryRequest → GoM W unit)).
(** [d.Nonce != nil]. *)
Variable (has_nonce : bool).

Definition uuid_parse (s : string) : res UUID :=
  match uuid_Parse s with Some u => Ok u | None => Err (uuid_ParseError s) end.
Definition parseID (r : Request) : res UUID := uuid_parse (URLParam_id r).

Definition healthz : GoM W Response := writeJSON StatusOK (PStatus "ok").

Definition createWallet (r : Request) : GoM W Response :=
  match decode_struct createWalletReq_fields (mkCreateWalletReq "" "" "" "") (Body r) with
  | Err err => writeError StatusBadRequest err
  | Ok req =>
      wl ← try (WalletService.Create em
             (Domain.mkCreateRequest (cw_Chain req) (cw_Type req) (cw_Label req) (cw_KeyID req)));
      match wl with
      | Err err => writeError StatusBadRequest err
      | Ok wl => writeJSON StatusCreated (PWallet wl)
      end
  end.

Definition getWallet (r : Request) : GoM W Response :=
  match parseID r with
  | Err err => writeError StatusBadRequest err
  | Ok id =>
      wl ← try (WalletService.Get id);
      match wl with
      | Err err =>
          if errors_Is err ErrNoRows then writeError StatusNotFound (New "wallet not found")
          else writeError StatusInternalServerError err
      | Ok wl => writeJSON StatusOK (PWallet wl)
      end
  end.

Definition listWallets (r : Request) : GoM W Response :=
  wallets ← try (WalletService.List (Query r "chain") (Query r "type") (Query r "state"));
  match wallets with
  | Err err => writeError StatusInternalServerError err
  | Ok wallets => writeJSON StatusOK (PWallets wallets)
  end.

(** The error branch of the two derivation endpoints. *)
Definition derive_error (err : error) : GoM W Response :=
  if errors_Is err ErrWalletRetired then writeError StatusConflict err
  else writeError StatusInternalServerError err.

Definition getAddresses (r : Request) : GoM W Response :=
  match parseID r with
  | Err err => writeError StatusBadRequest err
  | Ok id =>
      if bool_decide (Query r "derive" = "true"%string) then
        addr ← try (WalletService.DeriveAddress em cfg reg others id false);
        match addr with
        | Err err => derive_error err
        | Ok addr => writeJSON StatusOK (PAddress addr)
        end
      else
        addrs ← try (WalletService.ListAddresses id);
        match addrs with
        | Err err => writeError StatusInternalServerError err
        | Ok addrs => writeJSON StatusOK (PAddresses addrs)
        end
  end.

Definition deriveAddress (r : Request) : GoM W Response :=
  match parseID r with
  | Err err => writeError StatusBadRequest err
  | Ok id =>
      addr ← try (WalletService.DeriveAddress em cfg reg others id true);
      match addr with
      | Err err => derive_error err
      | Ok addr => writeJSON StatusCreated (PAddress addr)
      end
  end.

Definition balance_resp (b : Balance) : balanceResp :=
  mkBalanceResp (Balance_Asset b) (Balance_Confirmed b) (Balance_Pending b) (Balance_Locked b).

Definition getBalances (r : Request) : GoM W Response :=
  match parseID r with
  | Err err => writeError StatusBadRequest err
  | Ok id =>
      bals ← try (Balance.GetBalances id);
      match bals with
      | Err err => writeError StatusInternalServerError err
      | Ok bals => writeJSON StatusOK (PBalances (map balance_resp bals))
      end
  end.

Definition createFundingRequest (r : Request) : GoM W Response :=
  match parseID r with
  | Err err => writeError StatusBadRequest err
  | Ok id =>
      match decode_struct fundingReq_fields (mkFundingReq "" "" "") (Body r) with
      | Err err => writeError StatusBadRequest err
      | Ok req =>
          o ← try (ManualRequest em treasury id (fr_Asset req) (fr_Amount req) (fr_Reason req));
          match o with
          | Err err =>
              if errors_Is err ErrDuplicateFunding then writeError StatusConflict err
              else if errors_Is err ErrWalletRetired then writeError StatusConflict err
              else writeError StatusInternalServerError err
          | Ok _ => writeJSON StatusCreated (PStatus "requested")
          end
      end
  end.

Definition createWithdrawal (r : Request) : GoM W Response :=
  match decode_struct createWithdrawalReq_fields (mkCreateWithdrawalReq "" "" "" "") (Body r) with
  | Err err => writeError StatusBadRequest err
  | Ok req =>
      match uuid_parse (cr_WalletID req) with
      | Err _ => writeError StatusBadRequest (New "invalid wallet_id")
      | Ok wid =>
          wr ← try (Withdrawal.Create cl em
                 (Withdrawal.mkCreateRequest wid (cr_ToAddress req) (cr_Asset req) (cr_Amount req)));
          match wr with
          | Err err =>
              if errors_Is err ErrDuplicateWithdrawal then writeError StatusConflict err
              else writeError StatusInternalServerError err
          | Ok wr => writeJSON StatusCreated (PWithdrawal wr)
          end
      end
  end.

Definition getWithdrawal (r : Request) : GoM W Response :=
  match uuid_parse (URLParam_id r) with
  | Err err => writeError StatusBadRequest err
  | Ok id =>
      wr ← try (GetWithdrawal id);
      match wr with
      | Err err =>
          if errors_Is err ErrNoRows then writeError StatusNotFound (New "withdrawal not found")
          else writeError StatusInternalServerError err
      | Ok wr => writeJSON StatusOK (PWithdrawal wr)
      end
  end.

(** A missing [wallet_id] is the nil UUID. *)
Definition listWithdrawals (r : Request) : GoM W Response :=
  match (if bool_decide (Query r "wallet_id" = EmptyString) then Ok uuid_Nil
         else uuid_parse (Query r "wallet_id")) with
  | Err _ => writeError StatusBadRequest (New "invalid wallet_id")
  | Ok walletID =>
      wrs ← try (ListWithdrawals walletID (Query r "state"));
      match wrs with
      | Err err => writeError StatusInternalServerError err
      | Ok wrs => writeJSON StatusOK (PWithdrawals wrs)
      end
  end.

Definition listFundingRequests (r : Request) : GoM W Response :=
  match parseID r with
  | Err err => writeError StatusBadRequest err
  | Ok id =>
      frs ← try (ListFundingRequests id (Query r "state"));
      match frs with
      | Err err => writeError StatusInternalServerError err
      | Ok frs => writeJSON StatusOK (PFundingRequests frs)
      end
  end.

Definition allocateNonce (r : Request) : GoM W Response :=
  match parseID r with
  | Err err => writeError StatusBadRequest err
  | Ok id =>
      if negb has_nonce
      then writeError StatusServiceUnavailable (New "nonce service unavailable")
      else
        match decode_struct allocateNonceReq_fields (mkAllocateNonceReq "") (Body r) with
        | Err err => writeError StatusBadRequest err
        | Ok req =>
            if bool_decide (an_Chain req = EmptyString)
            then writeError StatusBadRequest (New "chain is required")
            else
              n ← try (ReserveNonce others id (an_Chain req));
              match n with
              | Err err => writeError StatusInternalServerError err
              | Ok n => writeJSON StatusOK (PNonce n)
              end
        end
  end.

(** ** The router *)

Inductive endpoint :=
  | Healthz | PostWallets | GetWalletByID | GetWallets | GetAddresses | PostDerive | GetBalancesEP
  | PostFundingRequest | GetFundingRequests | PostAllocateNonce | PostWithdrawals | GetWithdrawals
  | GetWithdrawalByID.

(** The patterns of [NewRouter]. *)
Definition route (e : endpoint) : string * string :=
  match e with
  | Healthz => ("GET", "/healthz")
  | PostWallets => ("POST", "/v1/wallets")
  | GetWalletByID => ("GET", "/v1/wallets/{id}")
  | GetWallets => ("GET", "/v1/wallets")
  | GetAddresses => ("GET", "/v1/wallets/{id}/addresses")
  | PostDerive => ("POST", "/v1/wallets/{id}/addresses/derive")
  | GetBalancesEP => ("GET", "/v1/wallets/{id}/balances")
  | PostFundingRequest => ("POST", "/v1/wallets/{id}/funding-request")
  | GetFundingRequests => ("GET", "/v1/wallets/{id}/funding-requests")
  | PostAllocateNonce => ("POST", "/v1/wallets/{id}/nonce/allocate")
  | PostWithdrawals => ("POST", "/v1/withdrawals")
  | GetWithdrawals => ("GET", "/v1/withdrawals")
  | GetWithdrawalByID => ("GET", "/v1/withdrawals/{id}")
  end%string.

Definition serve (e : endpoint) (r : Request) : GoM W Response :=
  match e with
  | Healthz => healthz
  | PostWallets => createWallet r
  | GetWalletByID => getWallet r
  | GetWallets => listWallets r
  | GetAddresses => getAddresses r
  | PostDerive => deriveAddress r
  | GetBalancesEP => getBalances r
  | PostFundingRequest => createFundingRequest r
  | GetFundingRequests => listFundingRequests r
  | PostAllocateNonce => allocateNonce r
  | PostWithdrawals => createWithdrawal r
  | GetWithdrawals => listWithdrawals r
  | GetWithdrawalByID => getWithdrawal r
  end.
End handlers.
