(* ===== verification/Grpc.v ===== *)
(** * Grpc: the internal gRPC callbacks (internal/api/grpc/server.go)

    The key lookup of the signing service and the confirmation and reorg callbacks of the
    blockchain gateway.  A call receives the decoded JSON message (the server registers a JSON
    codec) and returns a reply or a status. *)

From S2P Require Import Prelude GoLib Bytes Extern Domain Storage Memstore Config Outbox.
From S2P Require Import Keymapping Nonce Utxo Withdrawal Balance Evm Btc Json.

Local Open Scope Z_scope.

Definition InvalidArgument : Z := 3.
Definition NotFound : Z := 5.
Definition Internal : Z := 13.

(** [(reply, nil)] or [(nil, status.Errorf(code, format, err))]. *)
Inductive reply (A : Type) :=
  | Reply (a : A)
  | RpcStatus (code : Z) (format : string) (err : error).
Arguments Reply {A} a.
Arguments RpcStatus {A} code format err.

Record ResolveKeyIDRequest := mkResolveKeyIDRequest { rk_WalletID : string }.
Record ResolveKeyIDResponse := mkResolveKeyIDResponse {
  KeyIDs : list string;
  CurrentKeyID : string;
}.
Record OnConfirmationRequest := mkOnConfirmationRequest {
  oc_TxHash : string;
  oc_WalletID : string;
  oc_Asset : string;
  oc_Amount : string;
  oc_Confirmations : Z;
  oc_BlockHeight : Z;
  oc_EventID : string;
  oc_IsFinalized : bool;
  oc_WithdrawalID : string;
}.
Record OnReorgRequest := mkOnReorgRequest {
  or_BlockHeight : Z;
  or_WalletID : string;
  or_Asset : string;
  or_EventID : string;
  or_Outpoints : list string;
  or_WithdrawalID : string;
}.

(** The fields the codec decodes. *)
Definition ResolveKeyIDRequest_fields : list (field ResolveKeyIDRequest) :=
  [string_field "wallet_id" (λ x _, mkResolveKeyIDRequest x)].
Definition OnConfirmationRequest_fields : list (field OnConfirmationRequest) :=
  let m := mkOnConfirmationRequest in
  [string_field "tx_hash" (λ x r, m x (oc_WalletID r) (oc_Asset r) (oc_Amount r)
     (oc_Confirmations r) (oc_BlockHeight r) (oc_EventID r) (oc_IsFinalized r) (oc_WithdrawalID r));
   string_field "wallet_id" (λ x r, m (oc_TxHash r) x (oc_Asset r) (oc_Amount r)
     (oc_Confirmations r) (oc_BlockHeight r) (oc_EventID r) (oc_IsFinalized r) (oc_WithdrawalID r));
   string_field "asset" (λ x r, m (oc_TxHash r) (oc_WalletID r) x (oc_Amount r)
     (oc_Confirmations r) (oc_BlockHeight r) (oc_EventID r) (oc_IsFinalized r) (oc_WithdrawalID r));
   string_field "amount" (λ x r, m (oc_TxHash r) (oc_WalletID r) (oc_Asset r) x
     (oc_Confirmations r) (oc_BlockHeight r) (oc_EventID r) (oc_IsFinalized r) (oc_WithdrawalID r));
   int_field "confirmations" (λ x r, m (oc_TxHash r) (oc_WalletID r) (oc_Asset r) (oc_Amount r)
     x (oc_BlockHeight r) (oc_EventID r) (oc_IsFinalized r) (oc_WithdrawalID r));
   int_field "block_height" (λ x r, m (oc_TxHash r) (oc_WalletID r) (oc_Asset r) (oc_Amount r)
     (oc_Confirmations r) x (oc_EventID r) (oc_IsFinalized r) (oc_WithdrawalID r));
   string_field "event_id" (λ x r, m (oc_TxHash r) (oc_WalletID r) (oc_Asset r) (oc_Amount r)
     (oc_Confirmations r) (oc_BlockHeight r) x (oc_IsFinalized r) (oc_WithdrawalID r));
   bool_field "is_finalized" (λ x r, m (oc_TxHash r) (oc_WalletID r) (oc_Asset r) (oc_Amount r)
     (oc_Confirmations r) (oc_BlockHeight r) (oc_EventID r) x (oc_WithdrawalID r));
   string_field "withdrawal_id" (λ x r, m (oc_TxHash r) (oc_WalletID r) (oc_Asset r) (oc_Amount r)
     (oc_Confirmations r) (oc_BlockHeight r) (oc_EventID r) (oc_IsFinalized r) x)].
Definition OnReorgRequest_fields : list (field OnReorgRequest) :=
  let m := mkOnReorgRequest in
  [int_field "block_height" (λ x r, m x (or_WalletID r) (or_Asset r) (or_EventID r)
     (or_Outpoints r) (or_WithdrawalID r));
   string_field "wallet_id" (λ x r, m (or_BlockHeight r) x (or_Asset r) (or_EventID r)
     (or_Outpoints r) (or_WithdrawalID r));
   string_field "asset" (λ x r, m (or_BlockHeight r) (or_WalletID r) x (or_EventID r)
     (or_Outpoints r) (or_WithdrawalID r));
   string_field "event_id" (λ x r, m (or_BlockHeight r) (or_WalletID r) (or_Asset r) x
     (or_Outpoints r) (or_WithdrawalID r));
   strings_field "outpoints" (λ x r, m (or_BlockHeight r) (or_WalletID r) (or_Asset r)
     (or_EventID r) x (or_WithdrawalID r));
   string_field "withdrawal_id" (λ x r, m (or_BlockHeight r) (or_WalletID r) (or_Asset r)
     (or_EventID r) (or_Outpoints r) x)].

Definition chainOfAsset (asset : string) : string :=
  if bool_decide (asset = "btc"%string) || bool_decide (asset = "bitcoin"%string) then "bitcoin"
  else if bool_decide (asset = "sol"%string) || bool_decide (asset = "solana"%string)
  then "solana" else "ethereum".

(** The key ids of the mappings, and the last current one. *)
Definition current_of (mappings : list KeyMapping) : string :=
  foldl (λ current m, if bool_decide (KM_RotationState m = RotationStateCurrent)
                      then KM_KeyID m else current) EmptyString mappings.

Definition confirmation_event (wid : UUID) (req : OnConfirmationRequest) : ConfirmationEvent :=
  mkConfirmationEvent wid (oc_Asset req) (oc_Amount req) (oc_Confirmations req)
    (oc_BlockHeight req) (oc_EventID req) (oc_IsFinalized req) (chainOfAsset (oc_Asset req)).
Definition reorg_event (wid : UUID) (req : OnReorgRequest) : ReorgEvent :=
  mkReorgEvent wid (or_Asset req) (or_BlockHeight req) (or_EventID req) (or_Outpoints req).

Section server.
Context {W : Type} {GR : GoRuntime} {UL : UuidLib} {DL : DecimalLib}.
Context {ST : Store W} {EF : Effects W}.
Variable (em : Emitter W) (cfg : Config).
Variable (restore : option (list string → GoM W unit)).
Variable (onDecrease : option (UUID → string → GoM W unit)).

Definition rpc_fail {A} (code : Z) (format : string) (err : error) : GoM W (reply A) :=
  mret (RpcStatus code format err).

Definition resolveKeyIDHandler (msg : res json) : GoM W (reply ResolveKeyIDResponse) :=
  match decode_struct ResolveKeyIDRequest_fields (mkResolveKeyIDRequest EmptyString) msg with
  | Err err => rpc_fail InvalidArgument "decode: %v" err
  | Ok req =>
      match uuid_Parse (rk_WalletID req) with
      | None => rpc_fail InvalidArgument "invalid wallet_id: %v" (uuid_ParseError (rk_WalletID req))
      | Some wid =>
          mappings ← try (Keymapping.ResolveActive wid);
          match mappings with
          | Err err => rpc_fail NotFound "resolve key: %v" err
          | Ok mappings =>
              mret (Reply (mkResolveKeyIDResponse (map KM_KeyID mappings) (current_of mappings)))
          end
      end
  end.

Definition zero_confirmation : OnConfirmationRequest :=
  mkOnConfirmationRequest "" "" "" "" 0 0 "" false "".

Definition onConfirmationHandler (msg : res json) : GoM W (reply unit) :=
  match decode_struct OnConfirmationRequest_fields zero_confirmation msg with
  | Err err => rpc_fail InvalidArgument "decode: %v" err
  | Ok req =>
      if negb (bool_decide (oc_WithdrawalID req = EmptyString)) then
        match uuid_Parse (oc_WithdrawalID req) with
        | None => rpc_fail InvalidArgument "invalid withdrawal id: %v"
                    (uuid_ParseError (oc_WithdrawalID req))
        | Some wid =>
            r ← try (Withdrawal.Confirm em wid (oc_TxHash req));
            match r with
            | Err err => rpc_fail Internal "confirm: %v" err
            | Ok _ => mret (Reply tt)
            end
        end
      else if negb (bool_decide (oc_WalletID req = EmptyString)) then
        match uuid_Parse (oc_WalletID req) with
        | None => rpc_fail InvalidArgument "invalid wallet id: %v"
                    (uuid_ParseError (oc_WalletID req))
        | Some wid =>
            r ← try (ApplyConfirmationEvent em cfg onDecrease (confirmation_event wid req));
            match r with
            | Err err => rpc_fail Internal "apply confirmation: %v" err
            | Ok _ => mret (Reply tt)
            end
        end
      else mret (Reply tt)
  end.

Definition zero_reorg : OnReorgRequest := mkOnReorgRequest 0 "" "" "" [] "".

(** The wallet part of the reorg callback. *)
Definition reorg_balance (req : OnReorgRequest) : GoM W (reply unit) :=
  if negb (bool_decide (or_WalletID req = EmptyString)) then
    match uuid_Parse (or_WalletID req) with
    | None => rpc_fail InvalidArgument "invalid wallet id: %v" (uuid_ParseError (or_WalletID req))
    | Some wid =>
        r ← try (ApplyReorgEvent em restore (reorg_event wid req));
        match r with
        | Err err => rpc_fail Internal "apply reorg: %v" err
        | Ok _ => mret (Reply tt)
        end
    end
  else mret (Reply tt).

Definition onReorgHandler (msg : res json) : GoM W (reply unit) :=
  match decode_struct OnReorgRequest_fields zero_reorg msg with
  | Err err => rpc_fail InvalidArgument "decode: %v" err
  | Ok req =>
      if negb (bool_decide (or_WithdrawalID req = EmptyString)) then
        match uuid_Parse (or_WithdrawalID req) with
        | None => rpc_fail InvalidArgument "invalid withdrawal id: %v"
                    (uuid_ParseError (or_WithdrawalID req))
        | Some wid =>
            r ← try (Withdrawal.OnReorg wid (or_Outpoints req));
            match r with
            | Err err => rpc_fail Internal "withdrawal reorg: %v" err
            | Ok _ => reorg_balance req
            end
        end
      else reorg_balance req
  end.

(** The methods the server registers, by the name a call gives; their replies are messages of
    two types. *)
Definition registerMethods : list (string * (res json → GoM W (reply (ResolveKeyIDResponse + unit)))) :=
  let as_left r := match r with Reply a => Reply (inl a) | RpcStatus c f e => RpcStatus c f e end in
  let as_right r := match r with Reply a => Reply (inr a) | RpcStatus c f e => RpcStatus c f e end in
  [("ResolveKeyID", λ msg, as_left <$> resolveKeyIDHandler msg);
   ("OnConfirmation", λ msg, as_right <$> onConfirmationHandler msg);
   ("OnReorg", λ msg, as_right <$> onReorgHandler msg)]%string.
End server.
