(* ===== verification/PgTx.v ===== *)
(** * PgTx: transactions of the SQL store

    A body that runs its statements on the transaction of [InTx] takes effect entirely or not
    at all, whatever calls fail, the COMMIT included.  Balance updates are such bodies; so is
    the reservation of a nonce, which makes the SQL store a backend of the nonce service. *)

From S2P Require Import Prelude GoLib Sql Extern Domain Storage Memstore MemstoreFacts.
From S2P Require Import Lock Config Outbox Nonce Balance Cache Postgres PostgresFacts.

Local Open Scope Z_scope.

(** ** Bodies on an open transaction *)

(** From a state with an open transaction: it stays open and nothing is committed. *)
Definition tx_frame (w w' : PgWorld) : Prop :=
  is_Some (pg_tx w) →
  is_Some (pg_tx w') ∧ pg_db w' = pg_db w ∧ pg_version w' = pg_version w ∧
  tx_version <$> pg_tx w' = tx_version <$> pg_tx w.

#[export] Instance tx_frame_preorder : PreOrder tx_frame.
Proof.
  split; [by intros w|]. intros w1 w2 w3 H12 H23 H1.
  destruct (H12 H1) as (Hs & ? & ? & ?), (H23 Hs) as (Hs3 & ? & ? & ?).
  split_and!; [done|congruence..].
Qed.

(** Outside of a transaction: no transaction is left behind. *)
Definition no_tx (w : PgWorld) : Prop := pg_tx w = None.
Abbreviation closed_rel := (preserving no_tx).

Section tx.
Context {GR : GoRuntime} {UL : UuidLib} {PG : PgServer}.

Lemma tx_frame_fail : respects tx_frame (modify fail_tx).
Proof. intros w [t Ht]. unfold modify, fail_tx. simpl. rewrite Ht. simpl. eauto. Qed.
Lemma tx_frame_call : respects tx_frame call.
Proof.
  intros w [t Ht]. unfold call. destruct (call_fault _); simpl; rewrite Ht; simpl; [eauto|].
  destruct (tx_failed t); simpl; rewrite Ht; eauto.
Qed.
Lemma tx_frame_query {A} (q : Db → A) : respects tx_frame (query q).
Proof. unfold query. pose proof tx_frame_call. go_respects. Qed.
Lemma tx_frame_run_stmt {A} n (stmt : Z → GoM Db A) : respects tx_frame (run_stmt n stmt).
Proof.
  intros w [t Ht]. unfold run_stmt. rewrite Ht.
  destruct (stmt (tx_now t) (tx_db t)) as [[a|e] d]; simpl; rewrite ?Ht; simpl; eauto.
Qed.
Lemma tx_frame_exec {A} (stmt : Z → GoM Db A) : respects tx_frame (exec stmt).
Proof.
  unfold exec. pose proof tx_frame_call. pose proof (λ n, tx_frame_run_stmt n stmt). go_respects.
Qed.
Lemma tx_frame_proc {A} (m : GoM World A) : respects tx_frame (on_proc m).
Proof. intros w H. unfold on_proc. by destruct (m _). Qed.
Lemma tx_frame_scan {A} (r : option A) : respects tx_frame (scan_row r).
Proof. destruct r; unfold scan_row; go_respects. Qed.

Lemma closed_call : respects closed_rel call.
Proof.
  intros w Hw. unfold no_tx in *. unfold call. rewrite Hw.
  destruct (call_fault _); simpl; by rewrite Hw.
Qed.
Lemma closed_query {A} (q : Db → A) : respects closed_rel (query q).
Proof. unfold query. pose proof closed_call. go_respects. Qed.
Lemma closed_exec {A} (stmt : Z → GoM Db A) : respects closed_rel (exec stmt).
Proof.
  assert (∀ n, respects closed_rel (run_stmt n stmt)).
  { intros n w Hw. unfold no_tx in *. unfold run_stmt. rewrite Hw.
    by destruct (stmt n (pg_db w)) as [[a|e] d]. }
  unfold exec. pose proof closed_call. go_respects.
Qed.
(** Where the errors come from. *)
Lemma call_error w e w' : no_tx w → call w = (Err e, w') → call_fault (pg_calls w) = Some e.
Proof.
  unfold no_tx, call. intros ->. destruct (call_fault _); [by intros [= <- _]|done].
Qed.
Lemma query_error {A} (q : Db → A) w e w' :
  no_tx w → query q w = (Err e, w') → call_fault (pg_calls w) = Some e.
Proof.
  intros Hw. unfold query. go_cbv. destruct (call w) as [[[]|e'] w1] eqn:E; [done|].
  intros [= -> _]. by eapply call_error.
Qed.
Lemma exec_error {A} (stmt : Z → GoM Db A) w e w' :
  no_tx w → exec stmt w = (Err e, w') →
  call_fault (pg_calls w) = Some e ∨ ∃ n d, (stmt n d).1 = Err e.
Proof.
  intros Hw. unfold exec. go_cbv. pose proof (closed_call w Hw) as Hw1.
  destruct (call w) as [[[]|e'] w1] eqn:E; [|intros [= -> _]; left; by eapply call_error].
  unfold no_tx, run_stmt in *. simpl in Hw1. rewrite Hw1.
  destruct (stmt _ _) as [[a|e'] d] eqn:Es; intros [= -> _]. right. by do 2 eexists; rewrite Es.
Qed.

(** A part of the tables that a statement leaves alone. *)
Lemma exec_framing {A B} (π : Db → B) (stmt : Z → GoM Db A) :
  (∀ n, respects (framing π) (stmt n)) → respects (framing (λ w, π (view w))) (exec stmt).
Proof.
  intros Hs w. unfold framing.
  destruct (exec_outcome stmt w) as [(n & a & d & E & _ & ->)|[_ ->]]; [|done].
  pose proof (Hs n (view w)) as H. by rewrite E in H.
Qed.
Lemma query_framing {A B} (π : Db → B) (q : Db → A) : respects (framing (λ w, π (view w))) (query q).
Proof. intros w. unfold framing. by rewrite (query_view q w). Qed.
Lemma proc_framing {A B} (π : Db → B) (m : GoM World A) :
  respects (framing (λ w, π (view w))) (on_proc m).
Proof. intros w. unfold framing. by rewrite (on_proc_view m w). Qed.
Lemma scan_framing {A B} (π : Db → B) (r : option A) :
  respects (framing (λ w, π (view w))) (scan_row r).
Proof. by destruct r. Qed.

Lemma closed_view w : no_tx w → view w = pg_db w.
Proof. unfold no_tx, view. by intros ->. Qed.

(** The two ends of a transaction. *)
Lemma BeginTx_run w r w' :
  BeginTx w = (r, w') →
  pg_db w' = pg_db w ∧ pg_proc w' = pg_proc w ∧
  (r = Ok () → is_Some (pg_tx w') ∧ view w' = pg_db w).
Proof.
  unfold BeginTx. destruct (call_fault _); intros [= <- <-]; [done|]. simpl. eauto.
Qed.
Lemma Commit_run w r w' :
  Commit w = (r, w') →
  pg_db w' = (if is_ok r then view w else pg_db w) ∧ pg_proc w' = pg_proc w.
Proof.
  unfold Commit, view. destruct (call_fault _); [by intros [= <- <-]|].
  destruct (pg_tx w) as [t|]; [|by intros [= <- <-]].
  destruct (tx_failed t); [by intros [= <- <-]|]. case_bool_decide; by intros [= <- <-].
Qed.

(** A transaction: the body ran on a copy of the tables and all of it was committed, or the
    tables are as before. *)
Lemma InTx_run {A} (fn : GoM PgWorld A) w r w' :
  respects tx_frame fn → Pg.InTx fn w = (r, w') →
  pg_tx w' = pg_tx w ∧
  match r with
  | Ok a => ∃ w0 w1, is_Some (pg_tx w0) ∧ pg_proc w0 = pg_proc w ∧ view w0 = pg_db w ∧
              fn w0 = (Ok a, w1) ∧ pg_db w' = view w1 ∧ pg_proc w' = pg_proc w1
  | Err _ => pg_db w' = pg_db w
  end.
Proof.
  intros Hfn. unfold Pg.InTx. go_cbv.
  destruct (BeginTx w) as [[[]|e] w0] eqn:EB; apply BeginTx_run in EB as (Hd0 & Hp0 & Hv0);
    [|by intros [= <- <-]].
  destruct (Hv0 eq_refl) as [Ht0 Hv]. specialize (Hfn w0 Ht0).
  destruct (fn w0) as [[a|e] w1] eqn:Ef; destruct Hfn as (_ & Hd1 & _ & _); simpl in Hd1;
    [|unfold Rollback, modify; intros [= <- <-]; split; [done|]; simpl; congruence].
  destruct (Commit w1) as [[[]|e] w2] eqn:EC; apply Commit_run in EC as [Hd2 Hp2];
    cbn [is_ok] in Hd2; intros [= <- <-]; (split; [done|]); simpl; [|congruence].
  exists w0, w1. by split_and!.
Qed.

Lemma InTx_proc {A} (fn : GoM PgWorld A) :
  respects (framing pg_proc) fn → respects (framing pg_proc) (Pg.InTx fn).
Proof.
  intros Hfn w. unfold framing, Pg.InTx. go_cbv.
  destruct (BeginTx w) as [[[]|e] w0] eqn:EB; apply BeginTx_run in EB as (_ & Hp0 & _); [|done].
  specialize (Hfn w0). unfold framing in Hfn.
  destruct (fn w0) as [[a|e] w1]; simpl in Hfn; [|simpl; congruence].
  destruct (Commit w1) as [[[]|e] w2] eqn:EC; apply Commit_run in EC as [_ Hp2]; simpl; congruence.
Qed.

(** C27: on the SQL store a transaction whose body only issues statements on it is atomic: an
    error, of the body, of a lost connection or of a COMMIT that did not take effect (see
    [Commit] of Postgres.v), leaves the committed tables as they were; success commits exactly what the body saw at its end, from a copy of the tables
    as they were committed. *)
Theorem InTx_atomic {A} (fn : GoM PgWorld A) w :
  respects tx_frame fn →
  ∃ r w', Pg.InTx fn w = (r, w') ∧ pg_tx w' = pg_tx w ∧
  (is_ok r = false → pg_db w' = pg_db w) ∧
  (∀ a, r = Ok a → ∃ w0 w1, view w0 = pg_db w ∧ fn w0 = (Ok a, w1) ∧ pg_db w' = view w1).
Proof.
  intros Hfn. destruct (Pg.InTx fn w) as [r w'] eqn:E. exists r, w'. split; [done|].
  destruct (InTx_run fn w r w' Hfn E) as [Ht Hr]. split; [done|].
  destruct r as [a|e]; split; try done; intros ? [= <-].
  destruct Hr as (w0 & w1 & _ & _ & ? & ? & ? & _). eauto.
Qed.
End tx.

#[export] Hint Resolve tx_frame_fail tx_frame_query tx_frame_exec tx_frame_proc tx_frame_scan
  closed_query closed_exec : gorel.

(** ** Balance updates on the SQL store *)

(** The event is on record. *)
Definition recorded (e : BalanceEvent) (d : Db) : Prop :=
  ∃ k r, t_events d !! k = Some r ∧ Pg.same_event e r = true.

Section balance.
Context {GR : GoRuntime} {UL : UuidLib} {PG : PgServer} {DL : DecimalLib}.
Variable (cfg : Config).

Lemma none_else_false {K V} `{Countable K} (p : V → bool) k (m : gmap K V) :
  none_else p k m = false → ∃ k' v, m !! k' = Some v ∧ k' ≠ k ∧ p v = true.
Proof.
  unfold none_else. intros Hf%bool_decide_eq_false.
  apply map_not_Forall in Hf as (k' & v & Hk & Hn); [|exact _].
  exists k', v. split; [done|]. split; [intros ->; apply Hn; by left|].
  destruct (p v) eqn:E; [done|]. exfalso. apply Hn. by right.
Qed.

(** Recording an event under a new id. *)
Lemma pg_record_run e w r w' :
  no_tx w → t_events (pg_db w) !! BE_ID e = None → RecordBalanceEvent e w = (r, w') →
  no_tx w' ∧ (∃ f, pg_db w' = with_events f (pg_db w)) ∧
  match r with
  | Ok _ => recorded e (pg_db w') ∧ ¬ recorded e (pg_db w)
  | Err err => errors_Is err ErrDuplicateEvent = true → recorded e (pg_db w')
  end.
Proof.
  intros Hw Hid. simpl. unfold Pg.RecordBalanceEvent. go_cbv.
  pose proof (closed_exec (Pg.insert_event e) w Hw) as Hw1.
  pose proof (exec_outcome (Pg.insert_event e) w) as Ho.
  destruct (exec (Pg.insert_event e) w) as [[[]|err] w1] eqn:EX; simpl in Ho, Hw1;
    rewrite (closed_view w), (closed_view w1) in Ho by done.
  2: { destruct Ho as [(?&?&?&_&[=]&_)|[_ E]]. intros [= <- <-].
       split; [done|]. split; [exists id; rewrite E; by destruct (pg_db w)|].
       destruct (exec_error _ _ _ _ Hw EX) as [Hf|(n & d & Hf)].
       - by rewrite (call_fault_plain _ _ ErrDuplicateEvent Hf).
       - unfold Pg.insert_event in Hf. go_cbv in Hf. by destruct (_ && _). }
  destruct Ho as [(n & [] & d & Es & _ & Ed)|[[=] _]].
  assert (Hd : d = if none_else (Pg.same_event e) (BE_ID e) (t_events (pg_db w))
               then with_events (insert (BE_ID e) e) (pg_db w) else pg_db w).
  { unfold Pg.insert_event in Es. go_cbv in Es. rewrite bool_decide_eq_true_2 in Es by done.
    simpl in Es. by destruct (none_else _ _ _); injection Es as <-. }
  subst d. clear Es EX.
  destruct (query _ w1) as [rq w2] eqn:EQ.
  pose proof (closed_query (λ d, negb (none_else (Pg.same_event e) (BE_ID e) (t_events d))) w1 Hw1)
    as Hw2. rewrite EQ in Hw2. simpl in Hw2.
  apply query_run in EQ as HQ. destruct HQ as [Hv Ha].
  rewrite (closed_view w1), (closed_view w2) in Hv by done.
  rewrite (closed_view w1), Hd in Ha by done. rewrite Hd in Hv.
  assert (Hf : ∃ f, pg_db w2 = with_events f (pg_db w)).
  { rewrite Hv. destruct (none_else _ _ _); [by eexists|]. exists id. by destruct (pg_db w). }
  destruct rq as [ex|err].
  2: { intros [= <- <-]. do 2 (split; [done|]). apply query_error in EQ; [|done].
       by rewrite (call_fault_plain _ _ ErrDuplicateEvent EQ). }
  specialize (Ha ex eq_refl). rewrite <-Hv in Ha. symmetry in Ha.
  destruct ex; intros [= <- <-]; do 2 (split; [done|]).
  - intros _. apply negb_true_iff, none_else_false in Ha as (k & x & ? & _ & ?). by exists k, x.
  - apply negb_false_iff in Ha. rewrite Hv in Ha |- *.
    destruct (none_else (Pg.same_event e) (BE_ID e) (t_events (pg_db w))) eqn:En; [|congruence].
    split.
    + exists (BE_ID e), e. simpl. rewrite lookup_insert_eq. split; [done|].
      unfold Pg.same_event. by rewrite !bool_decide_eq_true_2.
    + intros (k & x & Hk & Hx). rewrite (none_else_spec _ _ _ _ _ En Hk Hx) in Hk. congruence.
Qed.

(** The balance statements do not touch the events. *)
Lemma confirm_tx_events ev :
  respects (framing (λ w, t_events (view w))) (confirm_tx (W:=PgWorld) EmitterService cfg ev).
Proof.
  pose proof (@query_framing). pose proof (@proc_framing). pose proof (@scan_framing).
  assert (HU : ∀ b, respects (framing (λ w, t_events (view w))) (Pg.UpsertBalance b)).
  { intros b. apply exec_framing. intros n d. unfold Pg.upsert_balance, numeric_col,
      references_wallet, check, raise, framing. by go_eval. }
  assert (HE : ∀ e, respects (framing (λ w, t_events (view w))) (Emit (W:=PgWorld) e)).
  { intros e. unfold Emit. simpl. unfold Pg.NextAuditSeq, Pg.AppendAuditEvent. go_respects;
      (apply exec_framing; intros now d; unfold Pg.next_seq, Pg.insert_audit, bigint_col, primary_key,
        unique, check, raise, framing; by go_eval). }
  unfold confirm_tx, current_balance. simpl. unfold Pg.GetBalance. go_respects.
Qed.

Lemma confirm_tx_frame ev : respects tx_frame (confirm_tx (W:=PgWorld) EmitterService cfg ev).
Proof.
  assert (HE : ∀ e, respects tx_frame (Emit (W:=PgWorld) e)).
  { intros e. unfold Emit. simpl.
    unfold Pg.NextAuditSeq, Pg.AppendAuditEvent. go_respects. }
  unfold confirm_tx, current_balance. simpl. unfold Pg.GetBalance, Pg.UpsertBalance. go_respects.
Qed.

(** What a delivery of an event may touch besides the record of it. *)
Definition ledger (d : Db) := (t_balances d, t_outbox d, t_seq d).

(** C28: on the SQL store, a delivery of a confirmation that returns an error leaves the
    balances and the audit outbox as they were; one that returns without error has the event on
    record; and once an event is on record no delivery of it ever changes them again.  An event
    is therefore applied at most once, and it is lost when its first delivery fails after the
    record was written, which is outside of the transaction.  A COMMIT that returns an
    error is taken to have committed nothing (see [Commit] of Postgres.v). *)
Theorem confirmation_at_most_once ev w r w' :
  no_tx w → t_events (pg_db w) !! uuid_at (w_ids (pg_proc w)) = None →
  ApplyConfirmationEvent EmitterService cfg None ev w = (r, w') →
  let e := event_record (uuid_at (w_ids (pg_proc w))) ev in
  (is_ok r = false ∨ recorded e (pg_db w) → ledger (pg_db w') = ledger (pg_db w)) ∧
  (is_ok r = true → recorded e (pg_db w')).
Proof.
  intros Hw Hid. unfold ApplyConfirmationEvent. erewrite bind_Ok by reflexivity. cbv zeta.
  set (id := uuid_at (w_ids (pg_proc w))) in *. set (e := event_record id ev).
  set (w0 := proc_with (next_id (pg_proc w)) w).
  destruct (RecordBalanceEvent e w0) as [r1 w1] eqn:ER.
  destruct (pg_record_run e w0 r1 w1 Hw Hid ER) as (Hw1 & [f Hf] & Hr1).
  assert (HL : ledger (pg_db w1) = ledger (pg_db w)) by (by rewrite Hf).
  erewrite bind_Ok by (by apply try_run).
  destruct r1 as [[]|err].
  2: { destruct (errors_Is err ErrDuplicateEvent); intros [= <- <-]; (split; [done|]); [|done].
       intros _. by apply Hr1. }
  destruct Hr1 as [Hrec Hnew].
  destruct (InTx (confirm_tx EmitterService cfg ev) w1) as [r2 w2] eqn:EI.
  destruct (InTx_run _ _ _ _ (confirm_tx_frame ev) EI) as [_ Hr2].
  unfold mbind at 1, GoM_bind at 1. rewrite EI.
  destruct r2 as [[]|err]; intros [= <- <-].
  - split; [by intros [?|?]|]. intros _. destruct Hr2 as (w3 & w4 & _ & _ & Hv & Ec & Hd & _).
    pose proof (confirm_tx_events ev w3) as HF. rewrite Ec in HF. unfold framing in HF. simpl in HF.
    unfold recorded. by rewrite Hd, HF, Hv.
  - rewrite Hr2. by split.
Qed.
End balance.

(** ** The SQL store with the process-local locker as a backend of the nonce service *)

Section nonces.
Context {GR : GoRuntime} {UL : UuidLib} {PG : PgServer}.

Definition pg_row (d : Db) (u : UUID) (c : string) : Nonce :=
  default (Mem.zero_nonce u c) (t_nonces d !! (u, c)).
(** The pending and the broadcast counter of a row. *)
Definition counters (d : Db) (u : UUID) (c : string) : Z * Z :=
  (Nonce_PendingNonce (pg_row d u c), Nonce_BroadcastNonce (pg_row d u c)).

Lemma counters_insert d u c row u' c' :
  counters (with_nonces (insert (u, c) row) d) u' c' =
    at_key u c (Nonce_PendingNonce row, Nonce_BroadcastNonce row) (counters d) u' c'.
Proof.
  unfold counters, pg_row, at_key. simpl. case_decide as Hd.
  - destruct Hd as [-> ->]. by rewrite lookup_insert_eq.
  - rewrite lookup_insert_ne; [done|]. intros [= -> ->]. by destruct Hd.
Qed.
Lemma counters_found d u c row :
  t_nonces d !! (u, c) = Some row →
  counters d u c = (Nonce_PendingNonce row, Nonce_BroadcastNonce row).
Proof. intros E. unfold counters, pg_row. by rewrite E. Qed.
Lemma counters_missing d u c : t_nonces d !! (u, c) = None → counters d u c = (0, 0).
Proof. intros E. unfold counters, pg_row. by rewrite E. Qed.

(** What the statements do to the counters. *)
Ltac run_nonce_stmt E :=
  revert E; unfold int4_col, bigint_col, primary_key, references_wallet, check, raise;
  go_eval; intros E; injection E as <- <-.

Lemma insert_nonce_run u c now d a d' :
  Pg.insert_nonce u c now d = (Ok a, d') →
  counters d u c = (0, 0) ∧ ∀ u' c', counters d' u' c' = at_key u c (1, 0) (counters d) u' c'.
Proof.
  intros E. unfold Pg.insert_nonce in E. run_nonce_stmt E.
  split; [|intros u' c'; by rewrite counters_insert].
  apply counters_missing. by eapply bool_decide_eq_true.
Qed.
Lemma update_nonce_run u c p v now d a d' row :
  t_nonces d !! (u, c) = Some row → Pg.update_nonce u c p v now d = (Ok a, d') →
  ∀ u' c', counters d' u' c' = at_key u c (p, Nonce_BroadcastNonce row) (counters d) u' c'.
Proof.
  intros Hr E. unfold Pg.update_nonce in E. go_cbv in E. rewrite Hr in E. run_nonce_stmt E.
  intros u' c'. by rewrite counters_insert.
Qed.
Lemma rollback_nonce_run u c n now d a d' :
  0 ≤ n → Pg.rollback_nonce u c n now d = (Ok a, d') →
  ∀ u' c', counters d' u' c' =
    if bool_decide ((counters d u c).1 = n + 1)
    then at_key u c (n, (counters d u c).2) (counters d) u' c' else counters d u' c'.
Proof.
  intros Hn. destruct (t_nonces d !! (u, c)) as [row|] eqn:Hr.
  - rewrite (counters_found _ _ _ _ Hr). simpl. intros E. unfold Pg.rollback_nonce in E.
    run_nonce_stmt E; simplify_eq; intros u' c'; first [congruence|by rewrite counters_insert].
  - rewrite (counters_missing _ _ _ Hr). simpl. intros E. unfold Pg.rollback_nonce in E.
    run_nonce_stmt E; [|done]. exfalso. apply bool_decide_eq_true in Heqb0. lia.
Qed.
Lemma advance_nonce_run u c n now d a d' :
  0 < (counters d u c).1 → Pg.advance_nonce u c n now d = (Ok a, d') →
  ∀ u' c', counters d' u' c' =
    at_key u c ((counters d u c).1, Z.max (counters d u c).2 n) (counters d) u' c'.
Proof.
  intros Hp. destruct (t_nonces d !! (u, c)) as [row|] eqn:Hr.
  - rewrite (counters_found _ _ _ _ Hr). simpl. intros E. unfold Pg.advance_nonce in E.
    run_nonce_stmt E. intros u' c'. unfold with_nonces.
    rewrite <-(alter_insert_eq _ _ _ _ Hr).
    exact (counters_insert d u c (Nonce_with (Nonce_PendingNonce row)
             (Z.max (Nonce_BroadcastNonce row) n) (Nonce_Version row) now row) u' c').
  - rewrite (counters_missing _ _ _ Hr) in Hp. simpl in Hp. lia.
Qed.

(** The body of the reservation, on the view. *)
Lemma increment_tx_run u c w n v w' :
  Pg.increment_tx u c w = (Ok (n, v), w') →
  n = (counters (view w) u c).1 ∧ pg_proc w' = pg_proc w ∧
  ∀ u' c', counters (view w') u' c' =
    at_key u c (wrap64 (n + 1), (counters (view w) u c).2) (counters (view w)) u' c'.
Proof.
  unfold Pg.increment_tx. go_cbv.
  destruct (query (λ d, t_nonces d !! (u, c)) w) as [[row|e] w1] eqn:EQ; [|done].
  pose proof (query_proc (λ d, t_nonces d !! (u, c)) w) as Hp1. rewrite EQ in Hp1. simpl in Hp1.
  apply query_run in EQ as [Hv Hrow]. rewrite (Hrow row eq_refl). clear Hrow row.
  assert (HE : ∀ (stmt : Z → GoM Db unit) r w2, exec stmt w1 = (Ok r, w2) →
    pg_proc w2 = pg_proc w ∧ ∃ now, stmt now (view w) = (Ok (), view w2)).
  { intros stmt r w2 E. pose proof (exec_outcome stmt w1) as Ho. pose proof (exec_proc stmt w1) as Hp.
    rewrite E in Ho, Hp. simpl in Ho, Hp. rewrite Hp, Hp1. split; [done|]. rewrite Hv in Ho.
    destruct Ho as [(now & [] & d & Es & _ & ->)|[[=] _]]. eauto. }
  destruct (t_nonces (view w) !! (u, c)) as [r|] eqn:Er.
  - rewrite (counters_found _ _ _ _ Er).
    destruct (exec _ w1) as [[[]|e] w2] eqn:E; [|done]. intros [= <- <- <-].
    apply HE in E as [Hp (now & E)]. do 2 (split; [done|]).
    exact (update_nonce_run _ _ _ _ _ _ _ _ r Er E).
  - destruct (exec _ w1) as [[[]|e] w2] eqn:E; [|done]. intros [= <- <- <-].
    apply HE in E as [Hp (now & E)]. apply insert_nonce_run in E as [E0 E].
    rewrite E0. do 2 (split; [done|]). exact E.
Qed.

Lemma at_key_fst {A B} u c (v : A * B) f u' c' :
  (at_key u c v f u' c').1 = at_key u c v.1 (λ u' c', (f u' c').1) u' c'.
Proof. unfold at_key. by case_decide. Qed.
Lemma at_key_snd {A B} u c (v : A * B) f u' c' :
  (at_key u c v f u' c').2 = at_key u c v.2 (λ u' c', (f u' c').2) u' c'.
Proof. unfold at_key. by case_decide. Qed.

(** One statement outside of a transaction. *)
Lemma exec_closed {A} (stmt : Z → GoM Db A) w r w' :
  no_tx w → exec stmt w = (r, w') →
  no_tx w' ∧ pg_proc w' = pg_proc w ∧
  match r with
  | Ok a => ∃ n, stmt n (pg_db w) = (Ok a, pg_db w')
  | Err _ => pg_db w' = pg_db w
  end.
Proof.
  intros Hw E. pose proof (closed_exec stmt w Hw) as Hw'. pose proof (exec_proc stmt w) as Hp.
  pose proof (exec_outcome stmt w) as Ho. rewrite E in Hw', Hp, Ho. simpl in *.
  do 2 (split; [done|]). rewrite (closed_view w), (closed_view w') in Ho by done.
  destruct Ho as [(n & a & d & Es & -> & ->)|[Hr Hd]]; [eauto|by destruct r].
Qed.

Lemma increment_proc u c : respects (framing pg_proc) (IncrementPendingNonce u c).
Proof.
  apply InTx_proc.
  assert (∀ A (q : Db → A), respects (framing pg_proc) (query q)) by (intros; intros w0; apply query_proc).
  assert (∀ A (s : Z → GoM Db A), respects (framing pg_proc) (exec s)) by (intros; intros w0; apply exec_proc).
  unfold Pg.increment_tx. go_respects.
Qed.

#[export] Program Instance pg_nonces : NonceStore PgWorld := {|
  nonce_ok := no_tx;
  pending w u c := (counters (pg_db w) u c).1;
  broadcast w u c := (counters (pg_db w) u c).2;
|}.
Next Obligation.
  intros w u c Hw. destruct (IncrementPendingNonce u c w) as [r w'] eqn:E.
  exists r, w'. split; [done|]. simpl in E. unfold Pg.IncrementPendingNonce in E.
  assert (HF : respects tx_frame (Pg.increment_tx u c)) by (unfold Pg.increment_tx; go_respects).
  destruct (InTx_run _ _ _ _ HF E) as [Ht Hr]. split; [by unfold no_tx; rewrite Ht|].
  destruct r as [[n v]|e]; [|by rewrite Hr].
  destruct Hr as (w0 & w1 & _ & _ & Hv & Ei & Hd & _).
  apply increment_tx_run in Ei as (Hn & _ & Hc). rewrite Hv in Hn, Hc. rewrite <-Hd in Hc.
  split; [by intros n' v' [= <- _]|]. cbn [is_ok]. rewrite <-Hn. split; intros u' c'; rewrite Hc.
  - by rewrite at_key_fst.
  - rewrite at_key_snd. simpl. apply (at_key_id u c (λ a b, (counters (pg_db w) a b).2)).
Qed.
Next Obligation.
  intros w u c n Hw Hn. destruct (RollbackPendingNonce u c n w) as [r w'] eqn:E.
  exists r, w'. split; [done|]. apply exec_closed in E as (Hw' & _ & Hr); [|done].
  split; [done|]. destruct r as [k|e]; cbn [is_ok andb]; [|by rewrite Hr].
  destruct Hr as [now Hr]. pose proof (rollback_nonce_run _ _ _ _ _ _ _ (proj1 Hn) Hr) as Hc.
  split; intros u' c'; rewrite Hc; (case_bool_decide; [|done]).
  - by rewrite at_key_fst.
  - rewrite at_key_snd. simpl. apply (at_key_id u c (λ a b, (counters (pg_db w) a b).2)).
Qed.
Next Obligation.
  intros w u c n Hw Hn Hp. destruct (AdvanceBroadcastNonce u c n w) as [r w'] eqn:E.
  exists r, w'. split; [done|]. apply exec_closed in E as (Hw' & _ & Hr); [|done].
  split; [done|]. destruct r as [[]|e]; cbn [is_ok]; [|by rewrite Hr].
  destruct Hr as [now Hr]. pose proof (advance_nonce_run _ _ _ _ _ _ _ Hp Hr) as Hc.
  rewrite wrap64_id in Hc by (unfold in_int64, min_int64, max_int64 in *; lia).
  split; intros u' c'; rewrite Hc.
  - rewrite at_key_fst. simpl. apply (at_key_id u c (λ a b, (counters (pg_db w) a b).1)).
  - rewrite at_key_snd. simpl. by rewrite Z.max_comm.
Qed.

#[export] Program Instance pg_backend : NonceBackend PgWorld := {|
  lock_owner w name := w_locks (pg_proc w) !! name;
|}.
Next Obligation. intros w u c _ l. exact (f_equal (λ p, w_locks p !! l) (increment_proc u c w)). Qed.
Next Obligation.
  intros w name ttl Hw.
  destruct (backend_acquire (NonceBackend:=mem_backend) (pg_proc w) name ttl I)
    as (tok & p & E & _ & Hl).
  exists tok, (proc_with p w). simpl in E |- *. unfold on_proc. rewrite E. by split_and!.
Qed.
Next Obligation.
  intros w name tok Hw Hl.
  destruct (backend_release (NonceBackend:=mem_backend) (pg_proc w) name tok I Hl)
    as (p & E & _ & Hl').
  exists (proc_with p w). simpl in E |- *. unfold on_proc. rewrite E. by split_and!.
Qed.

(** C29: the SQL store implements the contract of the nonce service, transactions and failing
    calls included, and does not need the locks for it: from a database without nonce rows, in
    any interleaving of reservations, commits and rollbacks with anything that leaves the
    counters alone, no nonce is held or committed twice, every nonce in use lies below the
    pending counter of its row, and the broadcast counter never overtakes it.  A call of
    ReserveNonce is such an interleaving with any locker, one that grants a lock twice, loses
    it or fails included, so the nonce it returns is nobody else's even then. *)
Theorem pg_nonces_safe w0 w out com :
  no_tx w0 → t_nonces (pg_db w0) = ∅ → rtc nstep (w0, [], []) (w, out, com) →
  NoDup (out ++ com) ∧
  (∀ u c n, (u, c, n) ∈ out ++ com → 0 ≤ n < (counters (pg_db w) u c).1) ∧
  (∀ u c, (counters (pg_db w) u c).2 ≤ (counters (pg_db w) u c).1) ∧
  ∀ (LK : Locker PgWorld) others u c,
    silent_locker PgWorld LK → other_steps others u c → (counters (pg_db w) u c).1 < max_int64 →
    ∃ out' com', rtc nstep (w0, [], []) ((ReserveNonce (LK:=LK) others u c w).2, out', com') ∧
      ∀ n, (ReserveNonce (LK:=LK) others u c w).1 = Ok n →
        ∃ rest, out' = (u, c, n) :: rest ∧ (u, c, n) ∉ rest ++ com'.
Proof.
  intros Hw Hd Hs.
  assert (Hf : fresh w0).
  { split; [done|]. intros u c. simpl. unfold counters, pg_row. by rewrite Hd, lookup_empty. }
  destruct (nonce_interleavings_safe w0 w out com) as (H1 & H2 & H3); [done..|].
  split_and!; [done|done|intros u c; apply (H3 u c)|]. intros LK others u c HL HO Hlt.
  pose proof (nonce_inv_steps _ _ Hs (nonce_inv_fresh _ Hf)) as HI.
  destruct (reserve_loop_path others retries u c w out com HL HO (ni_ok _ HI) Hlt)
    as (out' & com' & HP).
  pose proof (transitivity Hs HP) as Hall. eexists _, com'. split; [exact Hall|].
  intros n Hn. unfold ReserveNonce in Hn. rewrite Hn. exists out'. split; [done|].
  destruct (nonce_interleavings_safe _ _ _ _ Hf Hall) as (HN & _).
  rewrite Hn in HN. by apply list.NoDup_cons in HN as [? _].
Qed.
End nonces.

(** ** Witnesses *)

Section witnesses.
Definition tx_rt : GoRuntime := simple_runtime 1.
#[local] Existing Instances tx_rt simple_uuid simple_decimal.

Definition tx_cfg : Config := service_config 7 12 6 "finalized" (SpecFloat.S754_zero false) 1000 5000000.
Definition tx_wallet : Wallet :=
  mkWallet 7 ChainEthereum WalletTypeHot "eth" WalletStateActive "k" "mpc" None None 0 0.
Definition deposit : ConfirmationEvent :=
  mkConfirmationEvent 7 "ETH" "5" 12 100 "ev-1" false ChainEthereum.

(** Call 0 creates the wallet; call 3 is lost: the COMMIT of a transaction of one statement. *)
Definition lossy : PgServer := faulty_server 1 [3%nat].
#[local] Existing Instances lossy.
Definition with_wallet : PgWorld := (CreateWallet tx_wallet NewPgWorld).2.
Definition set_balance : GoM PgWorld unit :=
  UpsertBalance (mkBalance 7 "ETH" "5" "0" "0" 1 0).

Lemma InTx_atomic_witness :
  (Pg.InTx set_balance with_wallet).1 = Err (New "connection reset") ∧
  pg_db (Pg.InTx set_balance with_wallet).2 = pg_db with_wallet.
Proof.
  assert (H : (Pg.InTx set_balance with_wallet).1 = Err (New "connection reset"))
    by (vm_compute; reflexivity).
  split; [exact H|].
  destruct (InTx_atomic set_balance with_wallet) as (r & w' & E & _ & Hr & _).
  - apply tx_frame_exec.
  - rewrite E in H |- *. simpl in *. apply Hr. by rewrite H.
Defined.

(** The first delivery fails, after the event was recorded; the second one is taken for a
    duplicate. *)
Definition deliver (w : PgWorld) : res unit * PgWorld :=
  ApplyConfirmationEvent EmitterService tx_cfg None deposit w.
Definition after_failure : PgWorld := (deliver with_wallet).2.

Lemma confirmation_at_most_once_witness :
  is_ok (deliver with_wallet).1 = false ∧ (deliver after_failure).1 = Ok () ∧
  ledger (pg_db (deliver after_failure).2) = ledger (pg_db with_wallet).
Proof.
  split; [vm_compute; reflexivity|]. split; [vm_compute; reflexivity|].
  transitivity (ledger (pg_db after_failure)); [|vm_compute; reflexivity].
  apply (confirmation_at_most_once tx_cfg deposit after_failure (deliver after_failure).1).
  - vm_compute. reflexivity.
  - vm_compute. reflexivity.
  - apply surjective_pairing.
  - right. eexists _, _. split; [apply lookup_singleton_eq|]. vm_compute. reflexivity.
Defined.

(** A reservation that fails with the lost call, one that succeeds, and its commit. *)
Definition quiet_pg : GoM PgWorld unit := mret ().
Definition reserve_pg (w : PgWorld) : PgWorld := (ReserveNonce quiet_pg 7%N ChainEthereum w).2.
Definition reserved_pg : PgWorld := reserve_pg (reserve_pg with_wallet).
Definition committed_pg : PgWorld := (CommitNonce 7%N ChainEthereum 0 reserved_pg).2.

(** A locker that grants its locks to everybody. *)
Definition generous : Locker PgWorld := {|
  Acquire _ _ := mret (EmptyString, true);
  Release _ _ := mret ();
|}.
Definition reserve_unlocked (w : PgWorld) : res Z * PgWorld :=
  ReserveNonce (LK:=generous) quiet_pg 7%N ChainEthereum w.

Lemma pg_nonces_safe_witness :
  map (λ w, counters (pg_db w) 7%N ChainEthereum)
    [reserve_pg with_wallet; reserved_pg; committed_pg] = [(0, 0); (1, 0); (1, 1)] ∧
  (∀ u c, (counters (pg_db committed_pg) u c).2 ≤ (counters (pg_db committed_pg) u c).1) ∧
  (reserve_unlocked committed_pg).1 = Ok 1 ∧
  ∃ rest com, rtc nstep (with_wallet, [], [])
                ((reserve_unlocked committed_pg).2, (7%N, ChainEthereum, 1) :: rest, com) ∧
    (7%N, ChainEthereum, 1) ∉ rest ++ com.
Proof.
  split; [vm_compute; reflexivity|].
  assert (E : (reserve_unlocked committed_pg).1 = Ok 1) by (vm_compute; reflexivity).
  destruct (pg_nonces_safe with_wallet committed_pg [] [(7%N, ChainEthereum, 0)])
    as (_ & _ & H & HL).
  - vm_compute. reflexivity.
  - vm_compute. reflexivity.
  - etrans; [|etrans].
    + apply (ReserveNonce_steps quiet_pg 7%N ChainEthereum with_wallet
               (ReserveNonce quiet_pg 7%N ChainEthereum with_wallet).1 (reserve_pg with_wallet));
        [vm_compute; reflexivity..|apply surjective_pairing].
    + apply (ReserveNonce_steps quiet_pg 7%N ChainEthereum (reserve_pg with_wallet) (Ok 0) reserved_pg);
        vm_compute; reflexivity.
    + apply rtc_once. apply (nstep_commit reserved_pg committed_pg 7%N ChainEthereum 0 [] []).
      vm_compute. reflexivity.
  - split; [exact H|]. split; [exact E|].
    destruct (HL generous quiet_pg 7%N ChainEthereum) as (out & com & HP & Hn).
    + split; intros; intros w; reflexivity.
    + intros w out com Hw Hlt. exists out, com. split; [apply rtc_refl|by split].
    + vm_compute. reflexivity.
    + destruct (Hn 1 E) as (rest & -> & Hf). by exists rest, com.
Defined.
End witnesses.
