(* ===== verification/Kept.v ===== *)
(** * Kept: what every store call keeps, every request keeps

    The services reach their store, the locks and the cache only through the interfaces.  So a
    preorder on the process that each method of the interfaces respects ([ProcessKeeps]) is
    respected by every REST request, gRPC callback, funding evaluation and outbox drain, for
    any store.  The instance here is the schema of the SQL store. *)

From S2P Require Import Prelude GoLib Sql Bytes Extern Domain Storage Memstore MemstoreFacts.
From S2P Require Import Lock Config Outbox Nonce Utxo Keymapping Evm Btc TxBuilder Withdrawal.
From S2P Require Import Balance Funding Cache Deriver Rotation WalletService Postgres.
From S2P Require Import PostgresFacts Json Rest Grpc.

Local Open Scope Z_scope.

(** The calls of the interfaces respect [R], on every outcome. *)
Class ProcessKeeps {W : Type} {ST : Store W} {LK : Locker W} {C : Cache W} {EF : Effects W}
    (R : relation W) : Prop := {
  pk_preorder :: PreOrder R;
  pk_time : respects R time_Now;
  pk_uuid : respects R uuid_New;
  pk_Acquire n t : respects R (Acquire n t);
  pk_Release n t : respects R (Release n t);
  pk_cache_Get k : respects R (cache_Get k);
  pk_cache_Set k v t : respects R (cache_Set k v t);
  pk_InTx fn : respects R fn → respects R (InTx fn);
  pk_CreateWallet w : respects R (CreateWallet w);
  pk_GetWallet u : respects R (GetWallet u);
  pk_UpdateWalletState u s : respects R (UpdateWalletState u s);
  pk_ListWallets a b c : respects R (ListWallets a b c);
  pk_InsertAddress a : respects R (InsertAddress a);
  pk_GetActiveAddress u : respects R (GetActiveAddress u);
  pk_ListAddresses u : respects R (ListAddresses u);
  pk_DeprecateAddress u : respects R (DeprecateAddress u);
  pk_NextAddressIndex c n : respects R (NextAddressIndex c n);
  pk_GetBalance u a : respects R (GetBalance u a);
  pk_ListBalances u : respects R (ListBalances u);
  pk_RecordBalanceEvent e : respects R (RecordBalanceEvent e);
  pk_ListFreeUTXOs u : respects R (ListFreeUTXOs u);
  pk_LockUTXOs l : respects R (LockUTXOs l);
  pk_MarkUTXOsSpent l t : respects R (MarkUTXOsSpent l t);
  pk_RestoreUTXOs l : respects R (RestoreUTXOs l);
  pk_IncrementPendingNonce u c : respects R (IncrementPendingNonce u c);
  pk_AdvanceBroadcastNonce u c n : respects R (AdvanceBroadcastNonce u c n);
  pk_RollbackPendingNonce u c n : respects R (RollbackPendingNonce u c n);
  pk_CreateWithdrawal w : respects R (CreateWithdrawal w);
  pk_GetWithdrawal u : respects R (GetWithdrawal u);
  pk_ListWithdrawals u s : respects R (ListWithdrawals u s);
  pk_UpdateWithdrawalState u a b c d : respects R (UpdateWithdrawalState u a b c d);
  pk_UpdateWithdrawalNonce u n : respects R (UpdateWithdrawalNonce u n);
  pk_UpdateWithdrawalOutpoints u l : respects R (UpdateWithdrawalOutpoints u l);
  pk_UpdateWithdrawalSignedTx u l : respects R (UpdateWithdrawalSignedTx u l);
  pk_BindKeyMapping m : respects R (BindKeyMapping m);
  pk_ResolveActiveKey u : respects R (ResolveActiveKey u);
  pk_RotateKeyMapping u k c : respects R (RotateKeyMapping u k c);
  pk_ExpireCooling : respects R ExpireCooling;
  pk_CreateFundingRequest f : respects R (CreateFundingRequest f);
  pk_GetOpenFundingRequest u a : respects R (GetOpenFundingRequest u a);
  pk_ListFundingRequests u s : respects R (ListFundingRequests u s);
  pk_UpdateFundingState u a b : respects R (UpdateFundingState u a b);
  pk_AppendAuditEvent e : respects R (AppendAuditEvent e);
  pk_ListUndeliveredAuditEvents n : respects R (ListUndeliveredAuditEvents n);
  pk_MarkAuditDelivered u : respects R (MarkAuditDelivered u);
  pk_NextAuditSeq u : respects R (NextAuditSeq u);
}.

#[export] Hint Resolve pk_time pk_uuid pk_Acquire pk_Release pk_cache_Get pk_cache_Set pk_InTx
  pk_CreateWallet pk_GetWallet pk_UpdateWalletState pk_ListWallets pk_InsertAddress
  pk_GetActiveAddress pk_ListAddresses pk_DeprecateAddress pk_NextAddressIndex
  pk_GetBalance pk_ListBalances pk_RecordBalanceEvent pk_ListFreeUTXOs pk_LockUTXOs
  pk_MarkUTXOsSpent pk_RestoreUTXOs pk_IncrementPendingNonce pk_AdvanceBroadcastNonce
  pk_RollbackPendingNonce pk_CreateWithdrawal pk_GetWithdrawal pk_ListWithdrawals
  pk_UpdateWithdrawalState pk_UpdateWithdrawalNonce pk_UpdateWithdrawalOutpoints
  pk_UpdateWithdrawalSignedTx pk_BindKeyMapping pk_ResolveActiveKey pk_RotateKeyMapping
  pk_ExpireCooling pk_CreateFundingRequest pk_GetOpenFundingRequest pk_ListFundingRequests
  pk_UpdateFundingState pk_AppendAuditEvent pk_ListUndeliveredAuditEvents pk_MarkAuditDelivered
  pk_NextAuditSeq : gorel.

(** The methods of the SQL store down to their statements. *)
Ltac pg_methods :=
  unfold Pg.CreateWallet, Pg.GetWallet, Pg.UpdateWalletState, Pg.ListWallets, Pg.InsertAddress,
    Pg.GetActiveAddress, Pg.ListAddresses, Pg.DeprecateAddress, Pg.NextAddressIndex,
    Pg.UpsertBalance, Pg.GetBalance, Pg.ListBalances, Pg.RecordBalanceEvent, Pg.ListFreeUTXOs,
    Pg.LockUTXOs, Pg.MarkUTXOsSpent, Pg.RestoreUTXOs, Pg.IncrementPendingNonce,
    Pg.increment_tx, Pg.AdvanceBroadcastNonce, Pg.RollbackPendingNonce, Pg.CreateWithdrawal,
    Pg.GetWithdrawal, Pg.ListWithdrawals, Pg.UpdateWithdrawalState, Pg.UpdateWithdrawalNonce,
    Pg.UpdateWithdrawalOutpoints, Pg.UpdateWithdrawalSignedTx, Pg.BindKeyMapping,
    Pg.ResolveActiveKey, Pg.RotateKeyMapping, Pg.rotate_tx, Pg.ExpireCooling,
    Pg.CreateFundingRequest, Pg.GetOpenFundingRequest, Pg.ListFundingRequests,
    Pg.UpdateFundingState, Pg.AppendAuditEvent, Pg.ListUndeliveredAuditEvents,
    Pg.MarkAuditDelivered, Pg.NextAuditSeq.
Ltac pg_statements :=
  unfold Pg.insert_wallet, Pg.update_wallet_state, Pg.insert_address, Pg.deprecate_address,
    Pg.insert_event, Pg.lock_utxo, Pg.spend_utxo, Pg.restore_utxo,
    Pg.insert_nonce, Pg.update_nonce, Pg.advance_nonce,
    Pg.rollback_nonce, Pg.insert_withdrawal, Pg.update_withdrawal, 
    Pg.update_outpoints, Pg.bind_key, Pg.cool_keys, Pg.make_current,
    Pg.insert_funding, Pg.update_funding, Pg.insert_audit, Pg.mark_delivered,
    Pg.next_seq, Pg.inflight_index, Pg.current_index, Pg.open_index, numeric_col, int4_null, int4_col, bigint_col, unique, primary_key,
    references_wallet, check, raise.
Ltac pg_process :=
  split; try exact _; intros; simpl; pg_methods; go_respects;
  repeat first [apply InTx_keeps; go_respects | apply exec_keeps; intros ? | apply on_proc_keeps].

(** The SQL store, with the process-local locks and cache, keeps the schema. *)
#[export] Instance pg_process_keeps `{GoRuntime, UuidLib, PgServer} :
  ProcessKeeps (W:=PgWorld) pg_rel.
Proof.
  pg_process; first [apply keeps_alter_utxo; by intros | apply keeps_alter_build; intros; by do 4 eexists].
Qed.

(** The bodies of the balance transactions respect [R]. *)
Record balance_keeps {W} `{DecimalLib, !Store W, !Effects W} (cfg : Config) (R : relation W) : Prop := {
  bk_confirm ev : respects R (confirm_tx EmitterService cfg ev);
  bk_reorg ev : respects R (reorg_tx ev);
}.

Section services.
Context {W : Type} {GR : GoRuntime} {UL : UuidLib} {DL : DecimalLib} {FL : FloatRuntime}.
Context {CL : CryptoLib} {BL : BtcLib} {HD : HdLib}.
Context {ST : Store W} {LK : Locker W} {C : Cache W} {EF : Effects W}.
Variable (cfg : Config) (reg : Registry) (others : GoM W unit).
Variable (cl : Clients W) (treasury : option (TreasuryRequest → GoM W unit)).
Variable (onDecrease : option (UUID → string → GoM W unit)) (has_nonce : bool) (sink : Sink W).

(** One step of the process: a request, a callback, a funding evaluation in the background, a
    drain of the outbox.  The emitter is the outbox. *)
Inductive service_step : W → W → Prop :=
  | ss_rest e r w : service_step w (serve EmitterService cfg reg others cl treasury has_nonce e r w).2
  | ss_resolve msg w : service_step w (resolveKeyIDHandler msg w).2
  | ss_confirmation msg w :
      service_step w (onConfirmationHandler EmitterService cfg onDecrease msg w).2
  | ss_reorg msg w : service_step w (onReorgHandler EmitterService (Some RestoreOnReorg) msg w).2
  | ss_funding u a w : service_step w (EvaluateAndRequest EmitterService cfg treasury u a w).2
  | ss_drain w : service_step w (Drain sink w).2.

Variable (R : relation W).
Context {PK : ProcessKeeps R}.

(** What the remote services and the other goroutines do respects [R] too. *)
Record outside_keeps : Prop := {
  ok_policy q : respects R (CheckWhitelist cl q);
  ok_treasury f q : treasury = Some f → respects R (f q);
  ok_decrease f u a : onDecrease = Some f → respects R (f u a);
  ok_sink f es : sink = Some f → respects R (f es);
  ok_others : respects R others;
}.
Hypothesis outside : outside_keeps.
#[local] Hint Resolve ok_policy ok_treasury ok_decrease ok_sink ok_others outside : gorel.

Lemma outbox_keeps ev : respects R (emit EmitterService ev).
Proof. unfold emit, EmitterService, Emit. go_respects. Qed.
#[local] Hint Resolve outbox_keeps : gorel.

Lemma createRequest_keeps w a am r : respects R (createRequest EmitterService treasury w a am r).
Proof. unfold createRequest. go_respects. Qed.
#[local] Hint Resolve createRequest_keeps : gorel.
Lemma open_request_keeps u a : respects R (open_request u a).
Proof. unfold open_request. go_respects. Qed.
Lemma current_keeps u a : respects R (current_balance u a).
Proof. unfold current_balance. go_respects. Qed.
#[local] Hint Resolve open_request_keeps current_keeps : gorel.
Lemma Evaluate_keeps u a : respects R (EvaluateAndRequest EmitterService cfg treasury u a).
Proof. unfold EvaluateAndRequest. go_respects. Qed.

Lemma Withdrawal_Create_keeps q : respects R (Withdrawal.Create cl EmitterService q).
Proof. unfold Withdrawal.Create, apply_decision. go_respects. Qed.
Lemma reserve_keeps u c : respects R (ReserveNonce others u c).
Proof.
  unfold ReserveNonce. generalize retries. intros n.
  induction n as [|n IH]; cbn [reserve_loop]; go_respects.
Qed.
Lemma deriver_keeps c d i ch : For reg c = Ok d → respects R (d i ch).
Proof.
  unfold For, evm_DeriveAt, btc_DeriveAt, sol_DeriveAt, memoized. intros E.
  repeat case_match; simplify_eq; go_respects.
Qed.
#[local] Hint Resolve deriver_keeps Withdrawal_Create_keeps reserve_keeps Evaluate_keeps : gorel.

Lemma active_keeps u : respects R (active_address u).
Proof. unfold active_address. go_respects. Qed.
#[local] Hint Resolve active_keeps : gorel.

Lemma deriveNew_keeps w : respects R (Rotation.deriveNew EmitterService reg w).
Proof.
  unfold Rotation.deriveNew, deprecate_solana, persist_address.
  apply respects_bind_run; [exact _|go_respects|].
  intros w0 d w1 E. unfold ret_res in E. injection E as E _. go_respects.
Qed.
#[local] Hint Resolve deriveNew_keeps : gorel.

Lemma DeriveAddress_keeps u f :
  respects R (WalletService.DeriveAddress EmitterService cfg reg others u f).
Proof.
  assert (HL : ∀ n w, respects R (derive_loop EmitterService reg others n w))
    by (intros n w; induction n as [|n IH]; cbn [derive_loop]; go_respects).
  unfold WalletService.DeriveAddress, ForceRotate, CurrentOrRotate, deriveNewLocked, rotate,
    under_lock, shouldRotate.
  go_respects.
Qed.
#[local] Hint Resolve DeriveAddress_keeps : gorel.

Lemma serve_keeps e r :
  respects R (serve EmitterService cfg reg others cl treasury has_nonce e r).
Proof.
  destruct e; cbn [serve];
    unfold healthz, createWallet, getWallet, listWallets, getAddresses, deriveAddress, getBalances,
      createFundingRequest, listFundingRequests, allocateNonce, createWithdrawal, listWithdrawals,
      getWithdrawal, derive_error, writeError, writeJSON, WalletService.Create, WalletService.Get,
      WalletService.List, WalletService.ListAddresses, Balance.GetBalances, ManualRequest.
  all: go_respects.
Qed.

Hypothesis balances : balance_keeps cfg R.
#[local] Hint Resolve bk_confirm bk_reorg balances : gorel.

Lemma confirmation_keeps msg : respects R (onConfirmationHandler EmitterService cfg onDecrease msg).
Proof.
  unfold onConfirmationHandler, rpc_fail, Withdrawal.Confirm, ApplyConfirmationEvent. go_respects.
Qed.

Lemma reorg_keeps msg : respects R (onReorgHandler EmitterService (Some RestoreOnReorg) msg).
Proof.
  unfold onReorgHandler, rpc_fail, reorg_balance, Withdrawal.OnReorg, ApplyReorgEvent,
    RestoreOnReorg.
  go_respects.
Qed.

Lemma service_step_keeps w w' : service_step w w' → R w w'.
Proof.
  destruct 1.
  - apply serve_keeps.
  - revert w. change (respects R (resolveKeyIDHandler msg)).
    unfold resolveKeyIDHandler, rpc_fail, Keymapping.ResolveActive. go_respects.
  - apply confirmation_keeps.
  - apply reorg_keeps.
  - apply Evaluate_keeps.
  - revert w. change (respects R (Drain sink)). unfold Drain. go_respects.
Qed.

Lemma service_run_keeps w w' : rtc service_step w w' → R w w'.
Proof.
  induction 1 as [|x y z Hxy _ IH]; [reflexivity|]. etrans; [by apply service_step_keeps|exact IH].
Qed.
End services.

(** The balance transactions keep the schema. *)
Lemma pg_balance_keeps `{GoRuntime, UuidLib, PgServer, DecimalLib} cfg :
  balance_keeps (W:=PgWorld) cfg pg_rel.
Proof.
  assert (HU : ∀ b, respects pg_rel (UpsertBalance (W:=PgWorld) b)) by (intros; simpl; pg_methods; go_respects).
  assert (HC : ∀ u a, respects pg_rel (current_balance (W:=PgWorld) u a)) by (intros; unfold current_balance; go_respects).
  assert (HE : ∀ e, respects pg_rel (emit (W:=PgWorld) EmitterService e))
    by (intros; unfold emit, EmitterService, Emit; go_respects).
  split; intros ev; unfold confirm_tx, reorg_tx; go_respects.
Qed.

(** ** The schema along every run *)

Section schema.
Context {GR : GoRuntime} {UL : UuidLib} {PG : PgServer} {DL : DecimalLib} {FL : FloatRuntime}.
Context {CL : CryptoLib} {BL : BtcLib} {HD : HdLib}.
Variable (cfg : Config) (reg : Registry) (others : GoM PgWorld unit).
Variable (cl : Clients PgWorld) (treasury : option (TreasuryRequest → GoM PgWorld unit)).
Variable (onDecrease : option (UUID → string → GoM PgWorld unit)) (has_nonce : bool).
Variable (sink : Sink PgWorld).

(** However requests, callbacks, funding evaluations and outbox drains follow each other
    from an empty database, whatever calls fail and whatever the remote services answer, the
    committed tables satisfy the schema: at most one active address per wallet, one current key
    per wallet, one open funding request per wallet and asset, one in-flight withdrawal per
    transfer, no address of a chain twice, no row of an unknown wallet, and amounts that are
    NUMERIC(38,18) texts. *)
Theorem schema_holds_in_runs w :
  outside_keeps others cl treasury onDecrease sink pg_rel →
  rtc (service_step cfg reg others cl treasury onDecrease has_nonce sink) NewPgWorld w →
  schema_ok (pg_db w).
Proof.
  intros Ho Hr. apply po_db, (service_run_keeps _ _ _ _ _ _ _ _ pg_rel Ho (pg_balance_keeps cfg) _ _ Hr), pg_ok_new.
Qed.
End schema.
