(* ===== verification/System.v ===== *)
(** * System: the services behind the API

    The process as [cmd/wallet-management] wires it: REST requests, gRPC callbacks, background
    funding evaluations and outbox drains, in any order, over one store.  The invariants of the
    components hold together, because each handler keeps the invariant of its own component
    and does not write what the others' invariants read. *)

From S2P Require Import Prelude GoLib Bytes Extern Domain Storage Memstore MemstoreFacts.
From S2P Require Import Lock Config Outbox Nonce Utxo Keymapping Evm Btc TxBuilder Withdrawal.
From S2P Require Import WithdrawalSafety Balance Funding Cache Deriver Rotation WalletService.
From S2P Require Import AddressBook Json Rest Grpc Scenario.

Local Open Scope Z_scope.

(** The handlers that only read leave the whole world as it is. *)
Definition reading {A} (m : GoM World A) : Prop := ∀ w, (m w).2 = w.

Section reads.
Context {GR : GoRuntime} {UL : UuidLib} {DL : DecimalLib} {FL : FloatRuntime}.
Context {CL : CryptoLib} {BL : BtcLib} {HD : HdLib}.

Lemma reading_try {A} (m : GoM World A) : reading m → reading (try m).
Proof. intros Hm w. specialize (Hm w). unfold try. by destruct (m w). Qed.
Lemma reading_bind {A B} (m : GoM World A) (f : A → GoM World B) :
  reading m → (∀ a, reading (f a)) → reading (m ≫= f).
Proof.
  intros Hm Hf w. specialize (Hm w). unfold mbind, GoM_bind.
  destruct (m w) as [[a|e] w']; simpl in *; [|done]. by rewrite Hf.
Qed.
Lemma reading_reply {A} (a : A) : reading (mret a).
Proof. done. Qed.

Lemma reading_fail {A} e : reading (fail e : GoM World A).
Proof. done. Qed.
End reads.

(** Steps that leave the store and the cache alone. *)
Definition quiet {A} (m : GoM World A) : Prop :=
  ∀ w, w_store (m w).2 = w_store w ∧ w_cache (m w).2 = w_cache w.

(** A relation that only depends on some groups of the store (and on the cache): every other
    write, every quiet step and every transaction over such steps respects it. *)
Record blind `{GoRuntime, UuidLib} (free : group → Prop) (R : relation World) : Prop := {
  bl_preorder : PreOrder R;
  bl_writes g A (m : GoM World A) : free g → respects (writes g) m → respects R m;
  bl_quiet A (m : GoM World A) : quiet m → respects R m;
  bl_tx fn : respects R fn → respects R (InTx fn);
}.

Section frames.
Context {GR : GoRuntime} {UL : UuidLib} {DL : DecimalLib} {FL : FloatRuntime}.
Context {CL : CryptoLib} {BL : BtcLib} {HD : HdLib}.
Variable (em : Emitter World) (cfg : Config) (reg : Registry) (others : GoM World unit).
Variable (cl : Clients World) (treasury : option (TreasuryRequest → GoM World unit)).
Variable (onDecrease : option (UUID → string → GoM World unit)) (has_nonce : bool).
Context {EM : AuditEmitter em}.

Lemma quiet_reads {A} (m : GoM World A) : (∀ w, (m w).2 = w) → quiet m.
Proof. intros H w. by rewrite H. Qed.
Lemma quiet_time : quiet time_Now.
Proof. done. Qed.
Lemma quiet_uuid : quiet uuid_New.
Proof. done. Qed.
Lemma quiet_Acquire name ttl : quiet (Acquire name ttl).
Proof. intros w. unfold Acquire, mem_locker, MemLocker.Acquire. by go_eval. Qed.
Lemma quiet_Release name token : quiet (Release name token).
Proof. intros w. unfold Release, mem_locker, MemLocker.Release. by go_eval. Qed.
#[local] Hint Resolve quiet_time quiet_uuid quiet_Acquire quiet_Release : gorel.
#[local] Hint Extern 2 (quiet _) => (apply quiet_reads; solve [eauto 2 with gorel]) : gorel.

Variable (free : group → Prop) (R : relation World).
Hypothesis BR : blind free R.
Hypothesis free_audit : free GAudit.
#[local] Instance R_preorder : PreOrder R := bl_preorder free R BR.

#[local] Hint Extern 1 (respects R _) =>
  (eapply (bl_writes free R BR); [|solve [eauto 2 with gorel]]; assumption) : gorel.
#[local] Hint Extern 1 (respects R _) =>
  (apply (bl_quiet free R BR); solve [eauto 3 with gorel]) : gorel.

Lemma createWallet_frame r : free GWallets → respects R (createWallet em r).
Proof. intros Hk. unfold createWallet, WalletService.Create, writeError, writeJSON. go_respects. Qed.

Lemma createFundingRequest_frame r :
  free GFunding → (∀ f q, treasury = Some f → respects R (f q)) →
  respects R (createFundingRequest em treasury r).
Proof.
  intros Hk Ht. unfold createFundingRequest, ManualRequest, createRequest, open_request,
    writeError, writeJSON. go_respects.
Qed.

Lemma Evaluate_frame u a :
  free GFunding → (∀ f q, treasury = Some f → respects R (f q)) →
  respects R (EvaluateAndRequest em cfg treasury u a).
Proof.
  intros Hk Ht. unfold EvaluateAndRequest, createRequest, open_request, current_balance.
  go_respects.
Qed.

Lemma createWithdrawal_frame r :
  free GWithdrawals → (∀ q, respects R (CheckWhitelist cl q)) →
  respects R (createWithdrawal em cl r).
Proof.
  intros Hk Hp. unfold createWithdrawal, Withdrawal.Create, apply_decision, writeError, writeJSON.
  go_respects.
Qed.

Lemma allocateNonce_frame r :
  free GNonces → respects R others → respects R (allocateNonce others has_nonce r).
Proof.
  intros Hk Ho. assert (HL : ∀ n u c, respects R (reserve_loop others n u c)).
  { intros n u c. induction n as [|n IH]; cbn [reserve_loop]; go_respects. }
  unfold allocateNonce, ReserveNonce, writeError, writeJSON. go_respects.
Qed.

Lemma deriveAddress_frame r :
  (∀ u, respects R (DeriveAddress em cfg reg others u true)) →
  respects R (deriveAddress em cfg reg others r).
Proof. intros HD'. unfold deriveAddress, derive_error, writeError, writeJSON. go_respects. Qed.

Lemma getAddresses_frame r :
  (∀ u, respects R (DeriveAddress em cfg reg others u false)) →
  respects R (getAddresses em cfg reg others r).
Proof.
  intros HD'. unfold getAddresses, WalletService.ListAddresses, derive_error, writeError, writeJSON.
  go_respects.
Qed.

Lemma ApplyConfirmation_frame ev :
  free GBalances → (∀ f u a, onDecrease = Some f → respects R (f u a)) →
  respects R (ApplyConfirmationEvent em cfg onDecrease ev).
Proof.
  intros Hb Hd. assert (HT : respects R (confirm_tx em cfg ev)).
  { unfold confirm_tx, current_balance. apply respects_bind; [exact _|go_respects|].
    intros cur. cbv zeta. apply respects_bind; [exact _|go_respects|]. intros now.
    apply respects_bind; [exact _|eauto with gorel|eauto with gorel]. }
  apply (bl_tx free R BR) in HT. unfold ApplyConfirmationEvent. go_respects.
Qed.

Lemma ApplyReorg_frame ev :
  free GBalances → free GUtxos → respects R (ApplyReorgEvent em (Some RestoreOnReorg) ev).
Proof.
  intros Hb Hu. assert (HT : respects R (reorg_tx ev))
    by (unfold reorg_tx, current_balance; go_respects).
  apply (bl_tx free R BR) in HT. unfold ApplyReorgEvent, RestoreOnReorg. go_respects.
Qed.

(** The withdrawal halves of the two callbacks are arguments. *)
Lemma onConfirmation_frame msg :
  (∀ id tx, respects R (Withdrawal.Confirm em id tx)) → free GBalances →
  (∀ f u a, onDecrease = Some f → respects R (f u a)) →
  respects R (onConfirmationHandler em cfg onDecrease msg).
Proof.
  intros Hw Hb Hd. pose proof ApplyConfirmation_frame.
  unfold onConfirmationHandler, rpc_fail. go_respects.
Qed.

Lemma onReorg_frame msg :
  (∀ id ops, respects R (Withdrawal.OnReorg id ops)) → free GBalances → free GUtxos →
  respects R (onReorgHandler em (Some RestoreOnReorg) msg).
Proof.
  intros Hw Hb Hu. pose proof ApplyReorg_frame.
  unfold onReorgHandler, reorg_balance, rpc_fail. go_respects.
Qed.

Lemma Confirm_frame id tx : free GWithdrawals → respects R (Withdrawal.Confirm em id tx).
Proof. intros Hw. unfold Withdrawal.Confirm. go_respects. Qed.
Lemma OnReorg_frame id ops :
  free GWithdrawals → free GUtxos → respects R (Withdrawal.OnReorg id ops).
Proof. intros Hw Hu. unfold Withdrawal.OnReorg, RestoreOnReorg. go_respects. Qed.

Lemma Drain_frame (sink : Sink World) :
  (∀ f es, sink = Some f → respects R (f es)) → respects R (Drain sink).
Proof. intros Hs. unfold Drain. go_respects. Qed.
End frames.

(** A relation on the store that reads one group. *)
Lemma blind_reads `{GoRuntime, UuidLib} k Q `{!PreOrder Q, !Reads k Q} : blind (λ g, g ≠ k) (on_store Q).
Proof.
  split.
  - exact _.
  - intros g A m Hg Hm. apply (respects_only k g); auto.
  - intros A m Hm. apply respects_storeless; [exact _|]. intros w. apply Hm.
  - intros. by apply respects_InTx.
Qed.

(** The reading endpoints. *)
Section readers.
Context {GR : GoRuntime} {UL : UuidLib} {DL : DecimalLib} {FL : FloatRuntime}.
Context {CL : CryptoLib} {BL : BtcLib} {HD : HdLib}.
Variable (em : Emitter World) (cfg : Config) (reg : Registry) (others : GoM World unit).
Variable (cl : Clients World) (treasury : option (TreasuryRequest → GoM World unit)).
Variable (has_nonce : bool).

#[local] Hint Resolve reading_try reading_bind reading_reply reading_fail : gorel.
#[local] Hint Extern 2 (reading _) => (intros ?; solve [eauto 2 with gorel]) : gorel.

Ltac reads :=
  repeat first
    [ progress intros
    | solve [eauto 3 with gorel]
    | apply reading_bind | apply reading_try
    | match goal with |- reading (match ?x with _ => _ end) => destruct x end ].

Definition is_get (e : endpoint) : bool := bool_decide ((route e).1 = "GET"%string).

(** GET requests are safe: apart from [GET /v1/wallets/{id}/addresses?derive=true], which
    may rotate the wallet's address, they leave the whole state of the process as it is. *)
Theorem get_is_safe e r w :
  is_get e = true → (e = GetAddresses → Query r "derive" ≠ "true"%string) →
  (serve em cfg reg others cl treasury has_nonce e r w).2 = w.
Proof.
  intros He Hd. revert w. change (reading (serve em cfg reg others cl treasury has_nonce e r)).
  destruct e; try discriminate He; cbn [serve];
    unfold healthz, getWallet, listWallets, getAddresses, getBalances, listFundingRequests,
      listWithdrawals, getWithdrawal, WalletService.Get, WalletService.List,
      WalletService.ListAddresses, Balance.GetBalances, writeError, writeJSON.
  4: rewrite (bool_decide_eq_false_2 (Query r "derive" = "true"%string)) by auto.
  all: reads.
Qed.

Lemma resolve_is_safe msg w : (resolveKeyIDHandler msg w).2 = w.
Proof.
  revert w. change (reading (resolveKeyIDHandler msg)).
  unfold resolveKeyIDHandler, Keymapping.ResolveActive, rpc_fail. reads.
Qed.
End readers.

(** ** The invariants *)

(** No withdrawal has been signed. *)
Definition unsigned (s : MemStore) : Prop :=
  ∀ id row, withdrawals s !! id = Some row →
    WR_State row ∈ [WithdrawalStatePending; WithdrawalStateWhitelisted; WithdrawalStateFailed].

#[export] Instance unsigned_reads : Reads GWithdrawals (preserving unsigned).
Proof. apply preserving_reads. intros s s' [E _] H. unfold unsigned. by rewrite E. Qed.

Section unsigned.
Context {GR : GoRuntime} {UL : UuidLib}.

Lemma unsigned_insert id row s :
  unsigned s →
  WR_State row ∈ [WithdrawalStatePending; WithdrawalStateWhitelisted; WithdrawalStateFailed] →
  ∀ f, unsigned (set_withdrawals (insert id row) (set_inflight f s)).
Proof.
  intros Hs Hr f i x. simpl. rewrite lookup_insert_Some. intros [[<- <-]|[_ H]]; [done|by apply (Hs i)].
Qed.

Lemma unsigned_UpdateState id st reason tx pd :
  st ∈ [WithdrawalStatePending; WithdrawalStateWhitelisted; WithdrawalStateFailed] →
  respects (on_store (preserving unsigned)) (UpdateWithdrawalState id st reason tx pd).
Proof.
  intros Hst w Hs. destruct (withdrawals (w_store w) !! id) as [row|] eqn:E.
  - rewrite (UpdateWithdrawalState_run _ _ _ _ _ _ row E). by apply unsigned_insert.
  - by rewrite (UpdateWithdrawalState_missing _ _ _ _ _ _ E).
Qed.

Lemma unsigned_Create wr :
  WR_State wr = WithdrawalStatePending →
  respects (on_store (preserving unsigned)) (CreateWithdrawal wr).
Proof.
  intros Hst w Hs. destruct (CreateWithdrawal wr w) as [[[]|e] w'] eqn:E.
  - destruct (CreateWithdrawal_ok _ _ _ E) as (_ & _ & c & u & Es). simpl. rewrite Es.
    apply unsigned_insert; [done|]. simpl. rewrite Hst. by left.
  - by destruct (CreateWithdrawal_err _ _ _ _ E) as [-> _].
Qed.

(** A handler that starts by reading its row. *)
Lemma unsigned_read {A} id (f : WithdrawalRequest → GoM World A) :
  (∀ row, WR_State row ≠ WithdrawalStateBroadcast → WR_State row ≠ WithdrawalStateConfirmed →
     respects (on_store (preserving unsigned)) (f row)) →
  respects (on_store (preserving unsigned)) (GetWithdrawal id ≫= f).
Proof.
  intros Hf w. unfold mbind, GoM_bind. rewrite GetWithdrawal_run.
  destruct (withdrawals (w_store w) !! id) as [row|] eqn:E; [|reflexivity].
  intros Hs. apply (Hf row); [..|exact Hs]; intros Hr; pose proof (Hs id row E) as Hin;
    rewrite Hr in Hin; by apply (bool_decide_eq_true_2 _) in Hin.
Qed.

Context {CL : CryptoLib} {BL : BtcLib}.
Variable (cl : Clients World) (em : Emitter World).
Context {EM : AuditEmitter em}.

Lemma unsigned_emit ev : respects (on_store (preserving unsigned)) (emit em ev).
Proof. apply (respects_emit em GWithdrawals (preserving unsigned)). discriminate. Qed.
#[local] Hint Resolve unsigned_emit : gorel.

Ltac early := rewrite !elem_of_cons; auto.

Lemma unsigned_handler req :
  (∀ q, respects (on_store (preserving unsigned)) (CheckWhitelist cl q)) →
  respects (on_store (preserving unsigned)) (Withdrawal.Create cl em req).
Proof.
  intros Hp. unfold Withdrawal.Create, apply_decision. go_respects.
  all: first [by apply unsigned_Create | apply unsigned_UpdateState; early].
Qed.

Lemma unsigned_Confirm id tx : respects (on_store (preserving unsigned)) (Withdrawal.Confirm em id tx).
Proof.
  unfold Withdrawal.Confirm. apply unsigned_read. intros row Hb _.
  rewrite bool_decide_eq_false_2 by done. cbn [negb]. go_respects.
Qed.

Lemma unsigned_OnReorg id ops : respects (on_store (preserving unsigned)) (Withdrawal.OnReorg id ops).
Proof.
  unfold Withdrawal.OnReorg. apply unsigned_read. intros row _ Hc. unfold RestoreOnReorg.
  rewrite (bool_decide_eq_false_2 (WR_State row = _)) by done. go_respects.
  apply (respects_only GWithdrawals GUtxos _ _ (RestoreUTXOs_only ops)). discriminate.
Qed.
End unsigned.

(** The book relation does not read the other groups. *)
Lemma blind_book `{GoRuntime, UuidLib, CryptoLib, HdLib} reg :
  blind (λ g, g ≠ GAddresses ∧ g ≠ GWallets) (book_rel reg).
Proof.
  split.
  - exact _.
  - intros g A m [Ha Hw] Hm w. destruct (Hm w) as [Ho (_ & Hc & _)].
    apply book_rel_same; [by apply (Ho GAddresses)|done|by apply (Ho GWallets)].
  - intros A m Hm w. destruct (Hm w) as [Es Ec].
    apply book_rel_same; [by unfold book; rewrite Es|done|simpl; by rewrite Es].
  - intros fn Hfn w.
    assert (HR : book_rel reg w (fn (set_depth (S (w_depth w)) w)).2).
    { etrans; [|exact (Hfn (set_depth (S (w_depth w)) w))]. by apply book_rel_same. }
    unfold InTx, memstore, Mem.InTx, Mem.restore, Mem.snapshot. go_cbv.
    case_bool_decide; destruct (fn _) as [[[]|e] w1]; simpl in *;
      try (etrans; [exact HR|by apply book_rel_same]).
    destruct HR as [Hi _]. split; [|intros _; simpl; reflexivity].
    intros Hw. destruct (Hi Hw) as [_ HC _]. destruct Hw as [Hwf _ Hk]. by split.
Qed.

(** ** Runs of the API *)

Section api.
Context {GR : GoRuntime} {UL : UuidLib} {DL : DecimalLib} {FL : FloatRuntime}.
Context {CL : CryptoLib} {BL : BtcLib} {HD : HdLib}.
Variable (em : Emitter World) (cfg : Config) (reg : Registry) (others : GoM World unit).
Variable (cl : Clients World) (treasury : option (TreasuryRequest → GoM World unit)).
Variable (onDecrease : option (UUID → string → GoM World unit)) (has_nonce : bool).
Variable (sink : Sink World).
Context {EM : AuditEmitter em}.
Variable (approved : CheckRequest → Prop).

(** One step of the process: a request, a callback, a funding evaluation in the background, a
    drain of the outbox. *)
Inductive api_step : World → World → Prop :=
  | api_rest e r w : api_step w (serve em cfg reg others cl treasury has_nonce e r w).2
  | api_resolve msg w : api_step w (resolveKeyIDHandler msg w).2
  | api_confirmation msg w : api_step w (onConfirmationHandler em cfg onDecrease msg w).2
  | api_reorg msg w : api_step w (onReorgHandler em (Some RestoreOnReorg) msg w).2
  | api_funding u a w : api_step w (EvaluateAndRequest em cfg treasury u a w).2
  | api_drain w : api_step w (Drain sink w).2.

(** The callbacks are all that the gRPC server registers. *)
Lemma registered_step name h msg w :
  (name, h) ∈ registerMethods em cfg (Some RestoreOnReorg) onDecrease → api_step w (h msg w).2.
Proof.
  assert (HF : ∀ {A B} (f : A → B) (m : GoM World A), ((f <$> m) w).2 = (m w).2).
  { intros A B f m. unfold fmap, GoM_fmap. by destruct (m w) as [[]]. }
  unfold registerMethods. rewrite !elem_of_cons, elem_of_nil.
  intros [[= -> ->]|[[= -> ->]|[[= -> ->]|[]]]]; rewrite HF; constructor.
Qed.

(** What every step keeps. *)
Record sys_rel (w w' : World) : Prop := {
  sr_book : book_rel reg w w';
  sr_funding : on_store (preserving open_unique) w w';
  sr_gate : on_store (gate_rel approved) w w';
  sr_unsigned : on_store (preserving unsigned) w w';
  sr_keys : on_store (same GKeys) w w';
}.

#[export] Instance sys_rel_preorder : PreOrder sys_rel.
Proof.
  split.
  - intros w. split; reflexivity.
  - intros a b c [] []. split; (etrans; [eassumption|eassumption]).
Qed.

(** The policy engine, the treasury, the funding callback, the sink and the other goroutines may run
    further steps; an approval is what [approved] records. *)
Record api_env : Prop := {
  ae_policy q : respects sys_rel (CheckWhitelist cl q);
  ae_treasury f q : treasury = Some f → respects sys_rel (f q);
  ae_decrease f u a : onDecrease = Some f → respects sys_rel (f u a);
  ae_sink f es : sink = Some f → respects sys_rel (f es);
  ae_others : respects sys_rel others;
  ae_gate : gate_env approved cl others;
}.
Hypothesis env : api_env.

Lemma env_part (R : relation World) {A} (m : GoM World A) :
  (∀ w w', sys_rel w w' → R w w') → respects sys_rel m → respects R m.
Proof. intros HR Hm w. apply HR, Hm. Qed.

(** A handler whose group is not the one [R] reads. *)
Section part.
Variable (free : group → Prop) (R : relation World).
Hypothesis BR : blind free R.
Hypothesis free_audit : free GAudit.
Hypothesis part : ∀ w w', sys_rel w w' → R w w'.

Lemma part_treasury f q : treasury = Some f → respects R (f q).
Proof. intros E. apply (env_part R); [exact part|by apply (ae_treasury env)]. Qed.
Lemma part_decrease f u a : onDecrease = Some f → respects R (f u a).
Proof. intros E. apply (env_part R); [exact part|by apply (ae_decrease env)]. Qed.
Lemma part_sink f es : sink = Some f → respects R (f es).
Proof. intros E. apply (env_part R); [exact part|by apply (ae_sink env)]. Qed.
Lemma part_policy q : respects R (CheckWhitelist cl q).
Proof. apply (env_part R); [exact part|apply (ae_policy env)]. Qed.
Lemma part_others : respects R others.
Proof. apply (env_part R); [exact part|apply (ae_others env)]. Qed.

(** The steps one component's relation is about are given; the others are frames. *)
Lemma api_step_part w w' :
  (∀ r, respects R (createWallet em r)) →
  (∀ u f, respects R (DeriveAddress em cfg reg others u f)) →
  (∀ r, respects R (createFundingRequest em treasury r)) →
  (∀ u a, respects R (EvaluateAndRequest em cfg treasury u a)) →
  (∀ r, respects R (createWithdrawal em cl r)) →
  (∀ id tx, respects R (Withdrawal.Confirm em id tx)) →
  (∀ id ops, respects R (Withdrawal.OnReorg id ops)) →
  free GNonces → free GBalances → free GUtxos →
  api_step w w' → R w w'.
Proof.
  intros HW HA HF HE HC HCf HO fn fb fu Hst.
  assert (PR : PreOrder R) by exact (bl_preorder free R BR).
  assert (Hread : ∀ e r x, is_get e = true → (e = GetAddresses → Query r "derive" ≠ "true"%string) →
    R x (serve em cfg reg others cl treasury has_nonce e r x).2)
    by (intros e r x He Hd; rewrite get_is_safe by done; reflexivity).
  destruct Hst as [e r w|msg w|msg w|msg w|u a w|w].
  - destruct e; try (apply Hread; [reflexivity|done]).
    + apply HW.
    + by apply (getAddresses_frame em cfg reg others free R BR).
    + by apply (deriveAddress_frame em cfg reg others free R BR).
    + apply HF.
    + apply (allocateNonce_frame others has_nonce free R BR); [done|apply part_others].
    + apply HC.
  - rewrite resolve_is_safe. reflexivity.
  - apply (onConfirmation_frame em cfg onDecrease free R BR); auto using part_decrease.
  - by apply (onReorg_frame em free R BR).
  - apply HE.
  - apply (Drain_frame free R BR); auto using part_sink.
Qed.
End part.

(** The relations of the components, one by one; what is not given is a frame. *)
Ltac frame R BR P :=
  intros;
  first
    [ apply (createWallet_frame em _ R BR)
    | apply (createFundingRequest_frame em treasury _ R BR)
    | apply (Evaluate_frame em cfg treasury _ R BR)
    | apply (createWithdrawal_frame em cl _ R BR)
    | apply (Confirm_frame em _ R BR)
    | apply (OnReorg_frame _ R BR) ];
  try discriminate; try (split; discriminate);
  intros; first [apply (part_policy R P) | by apply (part_treasury R P)].

Lemma sys_book w w' : api_step w w' → book_rel reg w w'.
Proof.
  apply (api_step_part _ _ (blind_book reg)); try done; try exact sr_book;
    try (frame (book_rel reg) (blind_book reg) sr_book).
  - intros r. unfold createWallet, writeError, writeJSON. pose proof (Create_book em reg). go_respects.
  - intros u f. apply DeriveAddress_book; [done|]. apply (part_others (book_rel reg) sr_book).
Qed.

(** Deriving addresses does not write the other groups. *)
Lemma derive_frame k Q `{!PreOrder Q, !Reads k Q} u f :
  (∀ w w', sys_rel w w' → on_store Q w w') → k ≠ GAddresses → k ≠ GAudit →
  respects (on_store Q) (DeriveAddress em cfg reg others u f).
Proof.
  intros P Hk Hka w. apply (DeriveAddress_frame em cfg reg others Q).
  - intros ev. by apply (respects_emit em k).
  - intros id. exact (respects_only k GAddresses Q _ (DeprecateAddress_only id) Hk).
  - apply (part_others (on_store Q) P).
  - intros _ a row _ _. exact (respects_only k GAddresses Q _ (InsertAddress_only a) Hk).
Qed.

Lemma sys_keys w w' : api_step w w' → on_store (same GKeys) w w'.
Proof.
  pose proof (blind_reads GKeys (same GKeys)) as BR.
  apply (api_step_part _ _ BR); try done; try exact sr_keys;
    try (frame (on_store (same GKeys)) BR sr_keys).
  intros u f. apply (derive_frame GKeys (same GKeys) u f sr_keys); discriminate.
Qed.

Lemma sys_funding w w' : api_step w w' → on_store (preserving open_unique) w w'.
Proof.
  pose proof (blind_reads GFunding (preserving open_unique)) as BR.
  assert (Ht : ∀ f q, treasury = Some f → respects (on_store (preserving open_unique)) (f q))
    by (apply (part_treasury _ sr_funding)).
  apply (api_step_part _ _ BR); try done; try exact sr_funding;
    try (frame (on_store (preserving open_unique)) BR sr_funding).
  - intros u f. apply (derive_frame GFunding (preserving open_unique) u f sr_funding); discriminate.
  - intros r. unfold createFundingRequest, writeError, writeJSON.
    assert (HM : ∀ u a am rs, respects (on_store (preserving open_unique))
                                (ManualRequest em treasury u a am rs))
      by (intros u a am rs x; exact (fstep_unique em cfg treasury Ht _ _ (fs_manual em cfg treasury u a am rs x))).
    go_respects.
  - intros u a x. exact (fstep_unique em cfg treasury Ht _ _ (fs_evaluate em cfg treasury u a x)).
Qed.

Lemma derive_keeps_withdrawals Q `{!PreOrder Q, !Reads GWithdrawals Q} u f :
  (∀ w w', sys_rel w w' → on_store Q w w') →
  respects (on_store Q) (DeriveAddress em cfg reg others u f).
Proof. intros P. apply (derive_frame GWithdrawals Q u f P); discriminate. Qed.

Lemma sys_gate w w' : api_step w w' → on_store (gate_rel approved) w w'.
Proof.
  pose proof (blind_reads GWithdrawals (gate_rel approved)) as BR.
  pose proof (ae_gate env) as G.
  apply (api_step_part _ _ BR); try done; try exact sr_gate;
    try (frame (on_store (gate_rel approved)) BR sr_gate).
  - intros u f. exact (derive_keeps_withdrawals _ u f sr_gate).
  - intros r. unfold createWithdrawal, writeError, writeJSON.
    pose proof (gate_Create_handler approved cl em others G). go_respects.
  - exact (gate_Confirm approved em).
  - exact (gate_OnReorg approved).
Qed.

Lemma sys_unsigned w w' : api_step w w' → on_store (preserving unsigned) w w'.
Proof.
  pose proof (blind_reads GWithdrawals (preserving unsigned)) as BR.
  apply (api_step_part _ _ BR); try done; try exact sr_unsigned;
    try (frame (on_store (preserving unsigned)) BR sr_unsigned).
  - intros u f. exact (derive_keeps_withdrawals _ u f sr_unsigned).
  - intros r. unfold createWithdrawal, writeError, writeJSON.
    assert (HC : ∀ req, respects (on_store (preserving unsigned)) (Withdrawal.Create cl em req))
      by exact (λ req, unsigned_handler cl em req (part_policy _ sr_unsigned)).
    go_respects.
  - exact (unsigned_Confirm em).
  - exact unsigned_OnReorg.
Qed.

Lemma api_step_rel w w' : api_step w w' → sys_rel w w'.
Proof.
  intros H. split; auto using sys_book, sys_funding, sys_gate, sys_unsigned, sys_keys.
Qed.

Lemma api_run_rel w w' : rtc api_step w w' → sys_rel w w'.
Proof.
  induction 1 as [|x y z Hxy _ IH]; [reflexivity|]. etrans; [by apply api_step_rel|exact IH].
Qed.

(** The process as it starts. *)
Definition fresh (w : World) : Prop := w_store w = NewMemStore ∧ w_cache w = ∅.

Lemma fresh_book w : fresh w → book_inv reg w.
Proof.
  intros [Es Ec]. apply book_inv_empty; unfold book; rewrite ?Es; [done..|].
  intros u row. simpl. by intros ?%lookup_empty_Some.
Qed.

(** C21: the running service.  From an empty store, however REST requests, gRPC callbacks,
    background funding evaluations and drains follow each other, every stored address is the
    one its slot derives and each wallet has at most one active address, no wallet and asset
    has two open funding requests, and every withdrawal past the whitelist state asks for a
    transfer the policy engine approved. *)
Theorem api_safe w0 w :
  fresh w0 → rtc api_step w0 w →
  addresses_wf reg (w_store w) ∧ open_unique (w_store w) ∧ gate approved (w_store w).
Proof.
  intros Hf Hrun. destruct (api_run_rel _ _ Hrun) as [[Hb _] Hfu Hg _ _].
  pose proof (fresh_book w0 Hf) as Hb0. destruct Hf as [Es _]. unfold on_store in *.
  rewrite Es in Hfu, Hg. split_and!.
  - apply Hb, Hb0.
  - apply Hfu. intros u a. apply unique_by_empty.
  - apply Hg. intros i row Hi. simpl in Hi. by rewrite lookup_empty in Hi.
Qed.

(** What the two callbacks of the signing path answer when nothing is signed. *)
Lemma Confirm_unsigned id tx w :
  unsigned (w_store w) → ∃ err, Withdrawal.Confirm em id tx w = (Err err, w).
Proof.
  intros Hu. unfold Withdrawal.Confirm, mbind, GoM_bind. rewrite GetWithdrawal_run.
  destruct (withdrawals (w_store w) !! id) as [row|] eqn:E; [|eauto].
  specialize (Hu id row E). case_bool_decide as Hs; [|simpl; eauto].
  rewrite Hs in Hu. by apply (bool_decide_eq_true_2 _) in Hu.
Qed.

Lemma ResolveActive_unbound u w :
  keyMappings (w_store w) = ∅ → ∃ err, Keymapping.ResolveActive u w = (Err err, w).
Proof.
  intros E. unfold Keymapping.ResolveActive, ResolveActiveKey, memstore, Mem.ResolveActiveKey.
  mem_cbv. rewrite E. eexists. reflexivity.
Qed.

(** C22: through its API the service never signs.  However requests, callbacks, evaluations and
    drains follow each other from an empty store, every withdrawal stays PENDING, WHITELISTED
    or FAILED, no wallet has a key mapping, every key lookup of the signing service is answered
    NotFound and every confirmation of a withdrawal is refused. *)
Theorem api_never_signs w0 w :
  fresh w0 → rtc api_step w0 w →
  unsigned (w_store w) ∧ keyMappings (w_store w) = ∅ ∧
  (∀ msg req u, decode_struct ResolveKeyIDRequest_fields (mkResolveKeyIDRequest EmptyString) msg = Ok req →
     uuid_Parse (rk_WalletID req) = Some u →
     ∃ err, resolveKeyIDHandler msg w = (Ok (RpcStatus NotFound "resolve key: %v" err), w)) ∧
  (∀ msg req u, decode_struct OnConfirmationRequest_fields zero_confirmation msg = Ok req →
     oc_WithdrawalID req ≠ EmptyString → uuid_Parse (oc_WithdrawalID req) = Some u →
     ∃ err, onConfirmationHandler em cfg onDecrease msg w =
              (Ok (RpcStatus Internal "confirm: %v" err), w)).
Proof.
  intros [Es _] Hrun. destruct (api_run_rel _ _ Hrun) as [_ _ _ Hu Hk].
  unfold on_store, same in Hu, Hk. rewrite Es in Hu, Hk.
  assert (Hun : unsigned (w_store w)) by (apply Hu; intros i row Hi; simpl in Hi; by rewrite lookup_empty in Hi).
  split_and!; [done..| |].
  - intros msg req u Hd Hp. destruct (ResolveActive_unbound u w Hk) as [err E].
    unfold resolveKeyIDHandler. rewrite Hd, Hp. eexists. by step_ok E.
  - intros msg req u Hd Hne Hp. destruct (Confirm_unsigned u (oc_TxHash req) w Hun) as [err E].
    unfold onConfirmationHandler. rewrite Hd, bool_decide_eq_false_2 by done. cbn [negb].
    rewrite Hp. eexists. by step_ok E.
Qed.
End api.

(** ** Answers for a retired wallet *)

Section statuses.
Context {GR : GoRuntime} {UL : UuidLib} {DL : DecimalLib} {FL : FloatRuntime}.
Context {CL : CryptoLib} {BL : BtcLib} {HD : HdLib}.
Variable (em : Emitter World) (cfg : Config) (reg : Registry) (others : GoM World unit).
Variable (cl : Clients World) (treasury : option (TreasuryRequest → GoM World unit)).
Variable (has_nonce : bool).

Lemma retired_guard {A B} get u (k : Wallet → GoM World A) (h : res A → GoM World B) w :
  retired u (w_store w) →
  (∀ row, wallets (w_store w) !! u = Some row → get w = (Ok row, w)) →
  (try (row ← get;
        if bool_decide (Wallet_State row = WalletStateRetired) then fail (Sentinel ErrWalletRetired)
        else k row) ≫= h) w = h (Err (Sentinel ErrWalletRetired)) w.
Proof.
  intros (row & Hrow & Hst) Hget. apply bind_Ok, try_run. step_ok (Hget row Hrow). by rewrite Hst.
Qed.

Lemma GetWallet_found u w row :
  wallets (w_store w) !! u = Some row → GetWallet u w = (Ok row, w).
Proof. intros E. by rewrite GetWallet_run, E. Qed.
#[local] Hint Resolve GetWallet_found : core.

Definition refusal (status : Z) : Response := mkResponse status (PError (Sentinel ErrWalletRetired)).

(** A retired wallet is refused with 409 Conflict by both derivation endpoints and by
    funding requests, and with 500 by withdrawals, whose errors the handler does not tell
    apart; the state stays as it is. *)
Theorem retired_wallet_statuses u r w :
  retired u (w_store w) → uuid_Parse (URLParam_id r) = Some u →
  let serve e r := serve em cfg reg others cl treasury has_nonce e r w in
  serve PostDerive r = (Ok (refusal StatusConflict), w) ∧
  (Query r "derive" = "true"%string → serve GetAddresses r = (Ok (refusal StatusConflict), w)) ∧
  (∀ req, decode_struct fundingReq_fields (mkFundingReq "" "" "") (Body r) = Ok req →
     serve PostFundingRequest r = (Ok (refusal StatusConflict), w)) ∧
  (∀ r' req, decode_struct createWithdrawalReq_fields (mkCreateWithdrawalReq "" "" "" "") (Body r')
               = Ok req →
     uuid_Parse (cr_WalletID req) = Some u →
     serve PostWithdrawals r' = (Ok (refusal StatusInternalServerError), w)).
Proof.
  intros Hr Hp. assert (Hid : parseID r = Ok u) by (unfold parseID, uuid_parse; by rewrite Hp).
  cbn [Rest.serve]. split_and!.
  - unfold deriveAddress. rewrite Hid. by apply (retired_guard _ u); auto.
  - intros Hq. unfold getAddresses. rewrite Hid, bool_decide_eq_true_2 by done. by apply (retired_guard _ u); auto.
  - intros req Hd. unfold createFundingRequest. rewrite Hid, Hd. by apply (retired_guard _ u); auto.
  - intros r' req Hd Hw. unfold createWithdrawal, uuid_parse. rewrite Hd, Hw.
    etrans; [apply (retired_guard _ u); [done|]|done].
    intros row Hrow. by apply wrap_Ok, GetWallet_found.
Qed.
End statuses.

(** ** Witnesses *)

Section witnesses.
Import Scenario.
#[local] Existing Instances rt simple_uuid simple_crypto simple_btc simple_hd simple_decimal fund_float.

Definition sys_em : Emitter World := EmitterService.

(** [POST /v1/wallets], [POST .../addresses/derive], [POST /v1/withdrawals]. *)
Definition no_query : string → string := λ _, EmptyString.
Definition post_wallet : Request := mkRequest EmptyString no_query
  (Ok (JObj [("chain", JStr "ethereum"); ("type", JStr "HOT"); ("label", JStr "ops")]))%string.
Definition at_wallet : Request := mkRequest "2" no_query (Ok (JObj [])).
Definition post_withdrawal : Request := mkRequest EmptyString no_query
  (Ok (JObj [("wallet_id", JStr "2"); ("to_address", JStr good_to); ("asset", JStr "eth");
             ("amount", JStr "5")]))%string.

Abbreviation serve_at e r := (serve sys_em book_cfg der_reg idle clients None true e r).
Definition after_wallet : World := (serve_at PostWallets post_wallet NewWorld).2.
Definition after_derive : World := (serve_at PostDerive at_wallet after_wallet).2.
Definition after_withdrawal : World := (serve_at PostWithdrawals post_withdrawal after_derive).2.

Example statuses_of_run :
  map (λ x : res Response, match x with Ok r => Status r | _ => 0 end)
    [(serve_at PostWallets post_wallet NewWorld).1; (serve_at PostDerive at_wallet after_wallet).1;
     (serve_at PostWithdrawals post_withdrawal after_derive).1] = [201; 201; 201].
Proof. vm_compute. reflexivity. Qed.

Lemma idle_sys : respects (sys_rel der_reg approved) idle.
Proof. intros w. simpl. reflexivity. Qed.

Lemma clients_api_env : api_env der_reg idle clients None None None approved.
Proof.
  split.
  - intros q w. simpl. reflexivity.
  - discriminate.
  - discriminate.
  - discriminate.
  - exact idle_sys.
  - exact clients_gate_env.
Defined.

Lemma api_run :
  rtc (api_step sys_em book_cfg der_reg idle clients None None true None) NewWorld after_withdrawal.
Proof.
  eapply rtc_l; [apply api_rest|]. eapply rtc_l; [apply api_rest|].
  eapply rtc_l; [apply api_rest|]. apply rtc_refl.
Defined.

Lemma api_safe_witness :
  state_of after_withdrawal 9%N = Some WithdrawalStateWhitelisted ∧
  addresses_wf der_reg (w_store after_withdrawal) ∧
  open_unique (w_store after_withdrawal) ∧ gate approved (w_store after_withdrawal).
Proof.
  split; [vm_compute; reflexivity|].
  exact (api_safe sys_em book_cfg der_reg idle clients None None true None approved clients_api_env
           NewWorld after_withdrawal (conj eq_refl eq_refl) api_run).
Defined.

Definition lookup_msg : res json := Ok (JObj [("wallet_id", JStr "2")])%string.
Definition confirm_msg : res json :=
  Ok (JObj [("withdrawal_id", JStr "9"); ("tx_hash", JStr "0xhash")])%string.

Lemma api_never_signs_witness :
  (∃ err, resolveKeyIDHandler lookup_msg after_withdrawal =
            (Ok (RpcStatus NotFound "resolve key: %v" err), after_withdrawal)) ∧
  ∃ err, onConfirmationHandler sys_em book_cfg None confirm_msg after_withdrawal =
           (Ok (RpcStatus Internal "confirm: %v" err), after_withdrawal).
Proof.
  destruct (api_never_signs sys_em book_cfg der_reg idle clients None None true None approved
              clients_api_env NewWorld after_withdrawal (conj eq_refl eq_refl) api_run)
    as (_ & _ & HR & HC).
  split.
  - eapply HR; [vm_compute; reflexivity|vm_compute; reflexivity].
  - eapply HC; [vm_compute; reflexivity|discriminate|vm_compute; reflexivity].
Defined.

Lemma get_is_safe_witness :
  is_get GetWallets = true ∧ (serve_at GetWallets at_wallet after_derive).2 = after_derive.
Proof.
  split; [vm_compute; reflexivity|].
  apply (get_is_safe sys_em book_cfg der_reg idle clients None true GetWallets at_wallet);
    [vm_compute; reflexivity|discriminate].
Defined.

Definition closed_world : World := (SetState sys_em 2%N WalletStateRetired after_derive).2.

Lemma retired_wallet_statuses_witness :
  serve_at PostDerive at_wallet closed_world = (Ok (refusal StatusConflict), closed_world) ∧
  serve_at PostWithdrawals post_withdrawal closed_world =
    (Ok (refusal StatusInternalServerError), closed_world).
Proof.
  destruct (retired_wallet_statuses sys_em book_cfg der_reg idle clients None true 2%N at_wallet
              closed_world) as (HD & _ & _ & HW).
  - eexists. split; vm_compute; reflexivity.
  - vm_compute. reflexivity.
  - split; [exact HD|]. eapply HW; vm_compute; reflexivity.
Defined.
End witnesses.
