(* ===== verification/Replenish.v ===== *)
(** * Replenish: a confirmed decrease asks the treasury (cmd/wallet-management/main.go, run)

    The main program gives the balance service a callback: after a confirmation that takes
    value from a wallet, a goroutine of its own evaluates whether the hot wallet needs funds.
    This file follows one confirmation through the balance service, the callback, the funding
    service and the HTTP client of the treasury, over the memstore. *)

From S2P Require Import Prelude GoLib Bytes Extern Domain Storage Memstore MemstoreFacts.
From S2P Require Import Config Outbox Balance Funding JsonText Clients System.
From Stdlib Require Import SpecFloat Qcanon.

Local Open Scope Z_scope.

Section main.
Context {W : Type} {DL : DecimalLib} {UL : UuidLib} {FL : FloatRuntime} {HC : HttpClient W}.
Context {ST : Store W} {EF : Effects W}.
Variable (em : Emitter W) (cfg : Config).
(** What other goroutines do between the go statement and the evaluation. *)
Variable between : W → W.

(** [balanceSvc.OnConfirmedDecrease].  The callback returns at once, and it is the last thing
    the caller does; the world after it is that in which its goroutine has ended.  An error is
    only logged. *)
Definition main_onDecrease (walletID : UUID) (asset : string) : GoM W unit :=
  modify between;;
  ignore (EvaluateAndRequest em cfg (main_treasury cfg) walletID asset).
End main.

(** ** One evaluation *)

(** A hot wallet, stored under its own id. *)
Definition hot_at (u : UUID) (w : World) : Prop :=
  ∃ wal, wallets (w_store w) !! u = Some wal ∧ Wallet_ID wal = u ∧ Wallet_Type wal = WalletTypeHot.

(** Exactly one request for the wallet and the asset is open. *)
Definition one_open (u : UUID) (a : string) (s : MemStore) : Prop :=
  ∃ id f, fundingReq s !! id = Some f ∧ Mem.is_open_for u a f = true ∧
    ∀ id' f', fundingReq s !! id' = Some f' → Mem.is_open_for u a f' = true → id' = id.

Lemma one_open_intro u a s : open_unique s → is_open u a s → one_open u a s.
Proof.
  intros Hu (id & f & H & Hf). exists id, f. split; [done|]. split; [done|].
  intros id' f' H' Hf'. by apply (Hu u a id' id f' f).
Qed.

Section service.
Context {GR : GoRuntime} {UL : UuidLib} {DL : DecimalLib} {FL : FloatRuntime}.
Context {HC : HttpClient World}.
Variable (em : Emitter World) (cfg : Config).
Context {EM : AuditEmitter em}.
(** The treasury has no access to the store of the service. *)
Hypothesis Do_outside : ∀ q, respects (on_store (same GFunding)) (Do q).

(** The confirmed value of the wallet reaches the minimum, as the service compares them. *)
Definition funded (u : UUID) (a : string) (w : World) : bool :=
  SFleb (HotWalletMinBalanceUSD cfg) (dec_InexactFloat64 (funds u a w)).

Lemma RequestFunding_outside url q : respects (on_store (same GFunding)) (RequestFunding url q).
Proof. unfold RequestFunding. cbv zeta. pose proof Do_outside. go_respects. Qed.

(** After an evaluation a hot wallet has the minimum or one open request, whatever the
    treasury answered. *)
Lemma EvaluateAndRequest_covers u a w :
  hot_at u w → open_unique (w_store w) →
  let w' := (EvaluateAndRequest em cfg (main_treasury cfg) u a w).2 in
  funded u a w' = true ∨ one_open u a (w_store w').
Proof.
  intros (wal & Hw & Hid & Hhot) Hu w'.
  assert (Hu' : open_unique (w_store w')).
  { apply (fstep_unique em cfg (main_treasury cfg)) with w; [|constructor|done].
    intros f q [= <-]. eapply respects_weaken; [|apply RequestFunding_outside].
    intros x y E. exact (reads_same (k:=GFunding) _ _ E). }
  assert (Ho : funded u a w' = true ∨ is_open u a (w_store w')); [|destruct Ho; auto using one_open_intro].
  unfold w' in *. clear Hu' w'. rewrite (EvaluateAndRequest_run em cfg _ u a w wal Hw).
  destruct (decide (needs_funds cfg wal u a w)) as [Hn|Hn].
  2: { destruct (decide (is_open u a (w_store w))) as [|Hno]; [by right|left].
       apply not_false_is_true. intros Hf. by apply Hn. }
  right. subst u. destruct (createRequest_run em (main_treasury cfg) _ wal a
    (shortfall cfg (funds (Wallet_ID wal) a w)) "auto:below_threshold" w eq_refl)
    as (row & w1 & H1 & _ & H2 & H3 & H4 & _ & H6); [apply Hn|].
  assert (Hopen : ∀ s, same GFunding (w_store w1) s → is_open (Wallet_ID wal) a s).
  { intros s Es. exists (uuid_at (w_ids w)), row. simpl in Es. rewrite Es, H1.
    split; [apply lookup_insert_eq|]. by apply is_open_for_spec. }
  match type of H6 with context [RequestFunding ?url ?q w1] =>
    pose proof (RequestFunding_outside url q w1) as K; destruct (RequestFunding url q w1) as [[x|e] w2] end.
  - destruct H6 as (w3 & -> & K3). apply Hopen. etrans; [exact K|]. by apply K3.
  - rewrite H6. apply Hopen, K.
Qed.

(** ** One confirmation *)

Variable between : World → World.

(** The first delivery of a deep event that takes value from the wallet. *)
Definition decreases (ev : ConfirmationEvent) (w : World) : bool :=
  negb (recorded w ev) && isConfirmed cfg ev && dec_IsNegative (parseDec (CE_Amount ev)).

(** The callback is the last step, and runs for such an event only. *)
Lemma ApplyConfirmation_callback ev w :
  ApplyConfirmationEvent em cfg (Some (main_onDecrease em cfg between)) ev w =
    if decreases ev w
    then let w1 := between (ApplyConfirmationEvent em cfg None ev w).2 in
         (Ok (), (EvaluateAndRequest em cfg (main_treasury cfg) (CE_WalletID ev) (CE_Asset ev) w1).2)
    else ApplyConfirmationEvent em cfg None ev w.
Proof.
  unfold ApplyConfirmationEvent, decreases.
  pose proof (record_run (uuid_at (w_ids w)) ev (next_id w)) as ER.
  change (recorded (next_id w) ev) with (recorded w ev) in ER.
  assert (EU : uuid_New w = (Ok (uuid_at (w_ids w)), next_id w)) by reflexivity.
  do 2 (erewrite (bind_Ok _ _ w) by exact EU). destruct (recorded w ev) eqn:Er; cbn [negb andb].
  { do 2 (erewrite (bind_Ok _ _ (next_id w)) by exact (try_run _ _ _ _ ER)). done. }
  do 2 (erewrite (bind_Ok _ _ (next_id w)) by exact (try_run _ _ _ _ ER)).
  destruct (confirm_tx_run em cfg ev (set_store (set_balanceEvents (insert (event_key ev) true)
    (w_store (next_id w))) (next_id w))) as (row & w1 & E1 & _).
  do 2 (erewrite bind_Ok by exact E1). destruct (_ && _); [|done].
  unfold main_onDecrease, modify, ignore. go_cbv.
  by destruct (EvaluateAndRequest _ _ _ _ _ _).
Qed.

Lemma confirmation_keeps_hot ev u w :
  hot_at u w → hot_at u (ApplyConfirmationEvent em cfg None ev w).2.
Proof.
  intros H. unfold hot_at.
  by rewrite (ApplyConfirmation_frame em cfg None (λ g, g ≠ GWallets) (on_store (same GWallets))
    (blind_reads GWallets (same GWallets)) ltac:(done) ev ltac:(done) ltac:(done) w).
Qed.
Lemma confirmation_keeps_unique ev w :
  open_unique (w_store w) → open_unique (w_store (ApplyConfirmationEvent em cfg None ev w).2).
Proof.
  apply (ApplyConfirmation_frame em cfg None (λ g, g ≠ GFunding)
    (on_store (preserving open_unique)) (blind_reads GFunding (preserving open_unique))); done.
Qed.

(** C31: a confirmed decrease of a hot wallet is covered.  The first delivery of an event that
    is deep enough and takes value from the wallet is accepted, its amount is added to the
    confirmed value, and the wallet is evaluated then; when that has ended the wallet has the
    minimum or exactly one funding request for the asset is open, whether the treasury took
    the request or refused it and whatever other goroutines did in between, as long as the
    wallet stays hot and open requests unique.  Any other event evaluates nothing. *)
Theorem decrease_replenishes ev w :
  let u := CE_WalletID ev in let a := CE_Asset ev in
  let callback := main_onDecrease em cfg between in
  hot_at u w → open_unique (w_store w) →
  (∀ v, hot_at u v → hot_at u (between v)) →
  (∀ v, open_unique (w_store v) → open_unique (w_store (between v))) →
  if decreases ev w then
    ∃ w1 w2, ApplyConfirmationEvent em cfg (Some callback) ev w = (Ok (), w2) ∧
      confirmed_of w1 u a = (confirmed_of w u a + val (CE_Amount ev))%Qc ∧
      w2 = (EvaluateAndRequest em cfg (main_treasury cfg) u a (between w1)).2 ∧
      (funded u a w2 = true ∨ one_open u a (w_store w2))
  else ApplyConfirmationEvent em cfg (Some callback) ev w = ApplyConfirmationEvent em cfg None ev w.
Proof.
  intros u a callback Hhot Hu Kh Ku. unfold callback. rewrite ApplyConfirmation_callback.
  destruct (decreases ev w) eqn:Hd; [|done]. unfold decreases in Hd.
  apply andb_true_iff in Hd as [[Hr%negb_true_iff Hc]%andb_true_iff _].
  exists (ApplyConfirmationEvent em cfg None ev w).2. eexists. split; [reflexivity|].
  split; [|split; [reflexivity|]].
  - destruct (ApplyConfirmationEvent_values em cfg None ltac:(done) ev w)
      as (w' & E & _ & _ & HC' & _). rewrite E. cbn [snd]. rewrite HC'. by rewrite decide_True.
  - apply EvaluateAndRequest_covers; auto using confirmation_keeps_hot, confirmation_keeps_unique.
Qed.
End service.

(** ** Witness: a wallet of 700 pays 300, the minimum is 500, and the treasury is down *)

Section witness.
#[local] Existing Instances fund_rt fund_float simple_uuid simple_decimal.
#[local] Instance treasury_503 : HttpClient World := {|
  NewRequest _ _ _ := Ok (); Do _ := mret (mkHttpResponse 503 "down" (Err (New "EOF")));
|}.

Definition paid (amount id : string) : ConfirmationEvent :=
  mkConfirmationEvent 7 "ETH" amount 12 100 id false ChainEthereum.
Definition rich_world : World :=
  (ApplyConfirmationEvent EmitterService fund_cfg None (paid "700" "in") hot_world).2.

(** The shortfall is truncated: half a unit below a minimum of 500.5, nothing is asked for. *)
Definition half_cfg : Config :=
  service_config 7 12 6 "finalized" (binary_normalize 53 1024 1001 (-1) false) 0 5000000.
Example shortfall_truncates :
  let d := parseDec "500" in
  SFleb (HotWalletMinBalanceUSD half_cfg) (dec_InexactFloat64 d) = false ∧
  shortfall half_cfg d = "0"%string.
Proof. by vm_compute. Qed.

Lemma decrease_replenishes_witness :
  ∃ w2, ApplyConfirmationEvent EmitterService fund_cfg
          (Some (main_onDecrease EmitterService fund_cfg id)) (paid "-300" "out") rich_world =
        (Ok (), w2) ∧ one_open 7 "ETH" (w_store w2).
Proof.
  assert (Hd : decreases fund_cfg (paid "-300" "out") rich_world = true) by (vm_compute; reflexivity).
  pose proof (decrease_replenishes (HC:=treasury_503) EmitterService fund_cfg
    ltac:(intros q v; reflexivity) id (paid "-300" "out") rich_world) as H.
  rewrite Hd in H. destruct H as (w1 & w2 & E & _ & _ & [Hf|Ho]).
  - exists hot_wallet. vm_compute. repeat split.
  - intros u a. apply unique_by_empty.
  - done.
  - done.
  - exfalso. pose proof E as E'. vm_compute in E'. injection E' as <-. vm_compute in Hf. discriminate Hf.
  - exists w2. by split.
Defined.
End witness.
