(* ===== verification/PgLimits.v ===== *)
(** * PgLimits: the withdrawal flow on the SQL store

    What the services read back from the SQL store is not what they wrote: a NUMERIC column
    answers with eighteen decimals, which the transaction builders and the coin selection do
    not parse; a unique index answers with an error of the driver, which the services do not
    recognise.  The theorems state what follows for the withdrawal flow in production. *)

From S2P Require Import Prelude GoLib Sql Bytes Extern Domain Storage Memstore MemstoreFacts.
From S2P Require Import Lock Config Outbox Nonce Utxo Keymapping Evm Solana Btc TxBuilder.
From S2P Require Import Withdrawal Balance Funding Cache Deriver Rotation WalletService Postgres.
From S2P Require Import PostgresFacts Json Rest Grpc Kept Scenario.

Local Open Scope Z_scope.

(** ** Texts of NUMERIC columns as integers *)

Lemma has_char_app c a b : has_char c (a +:+ b)%string = has_char c a || has_char c b.
Proof.
  induction a as [|x a IH]; [done|].
  change (has_char c (String x (a +:+ b)) = has_char c (String x a) || has_char c b).
  cbn [has_char]. by rewrite IH, orb_assoc.
Qed.

(** A character that is not a digit. *)
Definition spoiled (s : string) : Prop := ∃ c, has_char c s = true ∧ digit_val c = None.

Lemma spoiled_tail c s : spoiled (String c s) → is_Some (digit_val c) → spoiled s.
Proof.
  intros (d & Hd & Ed) [v Ev]. exists d. split; [|done]. cbn [has_char] in Hd.
  apply orb_true_iff in Hd as [->%bool_decide_eq_true|?]; [congruence|done].
Qed.

Lemma spoiled_big_digits n s : spoiled s → big_digits n s = None.
Proof.
  revert n. induction s as [|c s IH]; intros n Hs; [by destruct Hs as (? & ? & _)|].
  cbn [big_digits]. destruct (digit_val c) eqn:E; [|done]. eapply IH, spoiled_tail; eauto.
Qed.

Lemma spoiled_parse_digits M n s :
  spoiled s →
  parse_digits M n s = (0, Some ErrSyntax) ∨ parse_digits M n s = (M, Some ErrRange).
Proof.
  revert n. induction s as [|c s IH]; intros n Hs; [by destruct Hs as (? & ? & _)|].
  cbn [parse_digits]. destruct (digit_val c) eqn:E; [|by left].
  case_bool_decide; [by right|]. eapply IH, spoiled_tail; eauto.
Qed.

(** Neither a sign nor what follows it makes such a text an integer. *)
Definition no_integer (s : string) : Prop :=
  spoiled s ∧ ∀ c r, s = String c r → c = "-"%char ∨ c = "+"%char → spoiled r.

Lemma no_integer_big s : no_integer s → big_SetString s = None.
Proof.
  intros [Hs Hr]. unfold big_SetString. destruct s as [|c r]; [done|].
  repeat case_bool_decide; cbn beta iota;
    [specialize (Hr c r eq_refl (or_intror H))|specialize (Hr c r eq_refl (or_introl H0))|];
    try destruct r; by rewrite ?spoiled_big_digits.
Qed.

Lemma spoiled_ParseUint s bits :
  spoiled s →
  ParseUint s bits = (0, Some ErrSyntax) ∨ ParseUint s bits = (2 ^ bits - 1, Some ErrRange).
Proof. intros Hs. destruct s; [by left|]. by apply spoiled_parse_digits. Qed.

Lemma no_integer_ParseInt s : no_integer s → ∃ n e, ParseInt s = (n, Some e).
Proof.
  intros [Hs Hr]. unfold ParseInt.
  assert (∃ neg digits, spoiled digits ∧
    match s with
    | String c rest =>
        if bool_decide (c = "+"%char) then (false, rest)
        else if bool_decide (c = "-"%char) then (true, rest) else (false, s)
    | EmptyString => (false, s)
    end = (neg, digits)) as (neg & digits & Hd & ->).
  { destruct s as [|c r]; [eauto|]. specialize (Hr c r eq_refl).
    repeat case_bool_decide; do 2 eexists; (split; [|reflexivity]); auto. }
  destruct (spoiled_ParseUint digits 64 Hd) as [->| ->]; [eauto|].
  destruct neg; vm_compute; eauto.
Qed.

Lemma no_integer_parseVal s : no_integer s → parseVal s = 0.
Proof. intros Hs. unfold parseVal. by destruct (no_integer_ParseInt s Hs) as (n & e & ->). Qed.

(** A NUMERIC text is no integer. *)
Lemma canonical_no_integer s : canonical s → no_integer s.
Proof.
  intros (n & Hn & ->). destruct n as [|u].
  { split; [by exists "N"%char|]. intros c r [= <- <-] [?|?]; discriminate. }
  unfold numeric_out. cbv zeta.
  set (digits := (FormatInt (Z.abs u `div` 10 ^ 18) +:+ "." +:+ _)%string).
  assert (Hdot : spoiled digits).
  { exists "."%char. split; [|done]. unfold digits. rewrite !has_char_app. simpl.
    by rewrite orb_true_r. }
  destruct (u <? 0).
  - split.
    + exists "."%char. split; [|done]. destruct Hdot as (_ & _). unfold digits.
      cbn [has_char]. rewrite !has_char_app. simpl. by rewrite orb_true_r.
    + by intros c r [= <- <-] _.
  - split; [done|]. intros c r Ec Hsign.
    destruct (FormatInt_digits (Z.abs u `div` 10 ^ 18) ("." +:+ fixed_digits 18
      (Z.abs u `mod` 10 ^ 18) EmptyString)) as [(c' & r' & E & Hd) _]; [apply Z.div_pos; lia|].
    fold digits in E. rewrite Ec in E. injection E as <- <-.
    destruct Hsign as [->| ->]; by destruct Hd.
Qed.

(** ** Building *)

Section build.
Context {UL : UuidLib} {CL : CryptoLib} {BL : BtcLib}.

Lemma BuildUnsignedTx_canonical w wr n ops :
  canonical (WR_Amount wr) → ∃ e, BuildUnsignedTx w wr n ops = Err e.
Proof.
  intros Hc%canonical_no_integer. unfold BuildUnsignedTx, buildEVMUnsignedTx, buildBTCUnsignedTx,
    buildSolanaUnsignedTx.
  destruct (IsEVM _).
  - destruct (parseEVMAddress _); [|eauto]. rewrite (no_integer_big _ Hc). eauto.
  - case_bool_decide; [|case_bool_decide; [|eauto]].
    + destruct ops; [eauto|]. destruct (no_integer_ParseInt _ Hc) as (m & e & ->). eauto.
    + destruct (decodeSolanaPubkey _); [|eauto]. destruct Hc as [Hs _].
      destruct (spoiled_ParseUint _ 64 Hs) as [->| ->]; eauto.
Qed.
End build.

(** ** Bodies that never succeed *)

Definition fails {W A} (m : GoM W A) : Prop := ∀ w, is_ok (m w).1 = false.

(** A body that fails wherever [J] holds. *)
Definition fails_under {W A} (J : W → Prop) (m : GoM W A) : Prop :=
  ∀ w, J w → is_ok (m w).1 = false.

Lemma fails_bind {W A B} (m : GoM W A) (f : A → GoM W B) : (∀ a, fails (f a)) → fails (m ≫= f).
Proof. intros Hf w. unfold mbind, GoM_bind. destruct (m w) as [[a|e] w']; [apply Hf|done]. Qed.
Lemma fails_fail {W A} e : fails (fail e : GoM W A).
Proof. by intros w. Qed.
Lemma fails_bind_l {W A B} (m : GoM W A) (f : A → GoM W B) : fails m → fails (m ≫= f).
Proof. intros Hm w. specialize (Hm w). unfold mbind, GoM_bind. by destruct (m w) as [[a|e] w']. Qed.

Section flow.
Context {GR : GoRuntime} {UL : UuidLib} {PG : PgServer} {CL : CryptoLib} {BL : BtcLib}.
Variable (em : Emitter PgWorld) (cl : Clients PgWorld) (others : GoM PgWorld unit).
Implicit Types (w : PgWorld).

(** A read answers with a row of the view. *)
Lemma query_row {A} (q : Db → option A) w r w' :
  (r ← query q; scan_row r) w = (Ok r, w') → q (view w') = Some r ∧ view w' = view w.
Proof.
  go_cbv. destruct (query q w) as [[o|e] w1] eqn:E; [|done].
  apply query_run in E as [Hv Ho]. rewrite (Ho o eq_refl).
  unfold scan_row. destruct (q (view w)) as [x|] eqn:Eq; [|done].
  intros [= <- <-]. by rewrite Hv.
Qed.

Lemma sign_and_store_canonical id wr wl key n ops :
  canonical (WR_Amount wr) → fails (sign_and_store (W:=PgWorld) cl em id wr wl key n ops).
Proof.
  intros Hc. unfold sign_and_store.
  destruct (BuildUnsignedTx_canonical wl wr n ops Hc) as [e ->].
  apply fails_bind. intros _. apply fails_fail.
Qed.

(** C24: on the SQL store no withdrawal is ever signed.  The amount read back from its
    NUMERIC(38,18) column is written with a decimal point, which none of the three transaction
    builders parses, so ConstructAndSign fails whatever the row, the wallet, the chain, the
    signer and the state of the tables. *)
Theorem nothing_signed_on_postgres id :
  fails_under pg_ok (ConstructAndSign cl em others id).
Proof.
  intros w Hok. unfold ConstructAndSign, mbind at 1, GoM_bind at 1.
  destruct (GetWithdrawal id w) as [[wr|e] w1] eqn:E; [|done].
  apply query_row in E as [E Hv]. rewrite Hv in E.
  destruct (ro_rows _ _ (so_withdrawals _ (tables_view _ w Hok)) _ _ E) as (_ & _ & Hc).
  destruct (negb _); [done|]. refine (fails_bind _ _ _ w1). intros wl.
  apply fails_bind. intros key. apply fails_bind. intros [n ops]. by apply sign_and_store_canonical.
Qed.

(** The total of coins read from the table. *)
Lemma greedy_zero amount l sel total :
  (∀ u, u ∈ l → parseVal (UTXO_Value u) = 0) → in_int64 total →
  (greedy amount l sel total).2 = total.
Proof.
  revert sel. induction l as [|u l IH]; intros sel Hl Ht; [done|]. cbn [greedy].
  destruct (total >=? amount); [done|]. rewrite Hl, Z.add_0_r, wrap64_id by (done || by left).
  apply IH; [|done]. intros v Hv. apply Hl. by right.
Qed.

(** On the SQL store no coins are ever selected.  The value of a coin is read back with a
    decimal point, which parseVal counts as 0, so a selection for a positive amount fails,
    however many coins the wallet has, and leaves the tables as they are. *)
Theorem nothing_selected_on_postgres u amount w :
  pg_ok w → 0 < amount →
  is_ok (SelectForAmount u amount w).1 = false ∧ view (SelectForAmount u amount w).2 = view w.
Proof.
  intros Hok Ha. unfold SelectForAmount.
  destruct (ListFreeUTXOs u w) as [r w1] eqn:E. apply query_run in E as Hq.
  destruct Hq as [Hv Hl]. destruct r as [l|e]; [|by rewrite (bind_Err _ _ _ _ _ E)].
  rewrite (bind_Ok _ _ _ _ _ E).
  assert (Hz : (greedy amount (sort_Slice largest_first l) [] 0).2 = 0).
  { apply greedy_zero; [|done]. intros x. rewrite sort_Slice_perm, (Hl l eq_refl), order_by_perm.
    rewrite list_elem_of_In, filter_In, <-list_elem_of_In, elem_of_scan_rows.
    intros [[op Hop] _]. destruct (so_utxos _ (tables_view _ w Hok) _ _ Hop) as (_ & _ & Hc).
    by apply no_integer_parseVal, canonical_no_integer. }
  destruct (greedy amount (sort_Slice largest_first l) [] 0) as [sel total]. simpl in Hz. subst total.
  destruct (Z.ltb_spec 0 amount); [done|lia].
Qed.

(** The INSERT of a withdrawal without reserved outpoints. *)
Lemma insert_withdrawal_null wr n d :
  pq_Array [] = None → WR_ReservedOutpoints wr = [] →
  is_ok (Pg.insert_withdrawal wr n d).1 = false.
Proof.
  intros HN Ho. unfold Pg.insert_withdrawal, numeric_col. rewrite Ho, HN.
  by destruct (numeric_in (WR_Amount wr)).
Qed.

(** C23: where the driver sends a slice without elements as NULL, the SQL store takes no
    withdrawal at all: Create always fails, before the policy check, because the column
    reserved_outpoints is NOT NULL, and the tables stay as they are. *)
Theorem nothing_created_on_postgres req :
  pq_Array [] = None →
  fails (Withdrawal.Create cl em req) ∧ respects (framing view) (Withdrawal.Create cl em req).
Proof.
  intros HN. cut (refuses (Withdrawal.Create cl em req)); [by intros H; split; intros w; apply H|].
  assert (HG : respects (framing view) (GetWallet (Req_WalletID req) : GoM PgWorld Wallet))
    by (simpl; unfold Pg.GetWallet; go_respects).
  assert (HT : respects (framing view) (time_Now : GoM PgWorld Z)) by apply on_proc_view.
  assert (HU : respects (framing view) (uuid_New : GoM PgWorld UUID)) by apply on_proc_view.
  unfold Withdrawal.Create. apply refuses_bind; [go_respects|intros wl].
  do 2 (case_bool_decide; [apply refuses_fail|]).
  apply refuses_bind; [done|intros now]. apply refuses_bind; [done|intros id].
  apply refuses_bind_l, refuses_wrap, exec_refuses. intros n d. by apply insert_withdrawal_null.
Qed.
End flow.

(** ** Solana: one address for all wallets, and a unique index on addresses *)

Section fails_under.
Context {W : Type} (J : W → Prop).

Lemma fails_under_bind {A B} (m : GoM W A) (f : A → GoM W B) :
  respects (preserving J) m → (∀ a, fails_under J (f a)) → fails_under J (m ≫= f).
Proof.
  intros Hm Hf w Hw. specialize (Hm w Hw). unfold mbind, GoM_bind.
  destruct (m w) as [[a|e] w']; [by apply Hf|done].
Qed.
Lemma fails_under_l {A B} (m : GoM W A) (f : A → GoM W B) :
  fails_under J m → fails_under J (m ≫= f).
Proof.
  intros Hm w Hw. specialize (Hm w Hw). unfold mbind, GoM_bind. by destruct (m w) as [[]].
Qed.
Lemma fails_under_wrap {A} f args (m : GoM W A) : fails_under J m → fails_under J (wrap f args m).
Proof. intros Hm w Hw. specialize (Hm w Hw). unfold wrap. by destruct (m w) as [[]]. Qed.
Lemma fails_under_finally {A} (m : GoM W A) c : fails_under J m → fails_under J (finally m c).
Proof.
  intros Hm w Hw. specialize (Hm w Hw). unfold finally. destruct (m w) as [r w'].
  by destruct (c w').
Qed.
Lemma fails_under_fail {A} e : fails_under J (fail e : GoM W A).
Proof. by intros w. Qed.
End fails_under.

(** The cache of the process, as the services see it from the SQL store. *)
#[export] Program Instance pg_cache_laws `{GoRuntime, UuidLib} : CacheLaws PgWorld := {|
  cache_inv P w := mem_cache_inv P (pg_proc w)
|}.
Next Obligation.
  intros GR UL P k w Hw. destruct (cache_Get_law (CacheLaws:=mem_cache_laws) P k (pg_proc w) Hw) as [H1 H2].
  simpl in *. unfold on_proc. destruct (MemCache.Get k (pg_proc w)). by split.
Qed.
Next Obligation.
  intros GR UL P k v ttl w Hw Hk.
  pose proof (cache_Set_law (CacheLaws:=mem_cache_laws) P k v ttl (pg_proc w) Hw Hk) as H1.
  simpl in *. unfold on_proc. by destruct (MemCache.Set_ k v ttl (pg_proc w)).
Qed.
Next Obligation. intros GR UL P Q w. apply (cache_inv_mono (CacheLaws:=mem_cache_laws) P Q (pg_proc w)). Qed.
Next Obligation.
  intros GR UL P ks w Hw. pose proof (cache_Del_law (CacheLaws:=mem_cache_laws) P ks (pg_proc w) Hw) as H1.
  simpl in *. unfold on_proc. by destruct (MemCache.Del ks (pg_proc w)).
Qed.

Section solana.
Context {GR : GoRuntime} {UL : UuidLib} {PG : PgServer} {CL : CryptoLib} {HD : HdLib}.
Variable (em : Emitter PgWorld) (cfg : Config) (reg : Registry) (others : GoM PgWorld unit).

(** The service's Solana address is stored, and the cache holds what derivations put there. *)
Definition solana_taken (w : PgWorld) : Prop :=
  (∃ id a, t_addresses (view w) !! id = Some a ∧ spelled ChainSolana (reg_solana reg) a = true) ∧
  cache_inv (derived_entry reg) w.
Abbreviation J := (preserving solana_taken).

Lemma query_taken {A} (q : Db → A) : respects J (query q).
Proof.
  intros w [Ht Hc]. split.
  - by rewrite query_view.
  - simpl in *. by rewrite query_proc.
Qed.
Lemma on_proc_taken {A} (m : GoM World A) :
  (∀ p, w_cache (m p).2 = w_cache p) → respects J (on_proc m).
Proof.
  intros Hm w [Ht Hc]. unfold on_proc. specialize (Hm (pg_proc w)).
  destruct (m (pg_proc w)) as [r p]. split; [exact Ht|]. simpl in *.
  unfold mem_cache_inv in *. by rewrite Hm.
Qed.
Lemma deprecate_taken id : respects J (DeprecateAddress id).
Proof.
  intros w [(i & a & Ha & Hs) Hc]. simpl. unfold Pg.DeprecateAddress.
  split; [|simpl; by rewrite exec_proc].
  destruct (exec_outcome (Pg.deprecate_address id) w) as [(n & b & d & E & _ & ->)|[_ ->]]; [|eauto].
  injection E as <- <-. simpl. destruct (decide (i = id)) as [->|Hne].
  - exists id, (Address_with_state AddressStateDeprecated a). by rewrite lookup_alter_eq, Ha.
  - exists i, a. by rewrite lookup_alter_ne.
Qed.

(** The unique index refuses the address a second time. *)
Lemma insert_taken a :
  spelled ChainSolana (reg_solana reg) a = true → fails_under solana_taken (InsertAddress a).
Proof.
  intros Hs w [(i & b & Hb & Hb') _]. simpl. unfold Pg.InsertAddress.
  destruct (exec_outcome (Pg.insert_address a) w) as [(n & x & d & E & _)|[? _]]; [|done].
  exfalso. revert E. unfold Pg.insert_address, int4_col, unique, primary_key, check, raise. go_cbv.
  destruct (in_int4 (Address_Index a)); [|done]. destruct (in_int4 (Address_Change a)); [|done].
  destruct (in_int4 (Address_ReceiveCount a)); [|done].
  case_bool_decide as Hnew; [|done]. destruct (none_else _ _ _); [|done].
  destruct (none_else (λ r, bool_decide (Address_Chain r = Address_Chain a) && _) _ _) eqn:En; [|done].
  intros _. unfold spelled in *. apply andb_true_iff in Hs as [Hs1%bool_decide_eq_true Hs2%bool_decide_eq_true].
  rewrite <-Hs1, <-Hs2 in Hb'. rewrite (none_else_spec _ _ _ _ _ En Hb Hb') in Hb. congruence.
Qed.

Lemma fail_tx_taken : respects J (modify fail_tx).
Proof.
  intros w [Ht Hc]. split; [|exact Hc]. go_cbv. revert Ht. unfold view. simpl.
  by destruct (pg_tx w).
Qed.
Lemma derive_taken d i c : For reg ChainSolana = Ok d → respects J (d i c).
Proof.
  intros Hd w [Ht Hc]. destruct (For_direct reg _ d i c w Hd Hc) as (w' & E & Hc').
  split; [|by rewrite E]. assert (respects (framing view) (d i c)) as Hv.
  { unfold For in Hd. simpl in Hd. injection Hd as <-. unfold sol_DeriveAt, memoized.
    go_respects; apply on_proc_view. }
  by rewrite (Hv w).
Qed.
#[local] Hint Resolve query_taken fail_tx_taken deprecate_taken : gorel.

Lemma deriveNew_taken wl : Wallet_Chain wl = ChainSolana → fails_under solana_taken (deriveNew em reg wl).
Proof.
  intros Hw. unfold deriveNew. rewrite Hw.
  destruct (For reg ChainSolana) as [d|e] eqn:Hd; [|apply fails_under_l, fails_under_fail].
  intros w Hj. rewrite (bind_Ok _ _ _ _ _ (eq_refl (Ok d, w))). revert w Hj. cbv zeta.
  change (fails_under solana_taken (idx ← wrap "next index: %w" [] (NextAddressIndex ChainSolana 0);
    deprecate_solana wl;; res ← wrap "derive: %w" [] (d idx 0); persist_address em wl res)).
  apply fails_under_bind.
  { simpl. unfold Pg.NextAddressIndex. go_respects. }
  intros idx. apply fails_under_bind.
  { assert (respects J (ListAddresses (Wallet_ID wl))) by apply query_taken.
    unfold deprecate_solana. go_respects. }
  intros [] w Hj. destruct (For_direct reg _ d idx 0 w Hd (proj2 Hj)) as (w' & E & _).
  pose proof (derive_taken d idx 0 Hd w Hj) as Hj'. rewrite E in Hj'.
  unfold wrap at 1, mbind, GoM_bind. rewrite E. unfold direct. simpl.
  clear E. revert w' Hj'. change (fails_under solana_taken (persist_address em wl (mkResult (reg_solana reg) sol_path 0 0))).
  unfold persist_address.
  apply fails_under_bind; [by apply on_proc_taken|intros id].
  apply fails_under_bind; [by apply on_proc_taken|intros now].
  apply fails_under_l, fails_under_wrap, insert_taken.
  unfold spelled. simpl. by rewrite !bool_decide_eq_true_2.
Qed.

(** Once the service's Solana address is stored, for whichever wallet, no derivation that
    is asked for (force) succeeds for a Solana wallet on the SQL store: every Solana wallet
    derives the same address, and the table holds an address of a chain once. *)
Theorem solana_derived_once u wl w :
  solana_taken w → t_wallets (view w) !! u = Some wl → Wallet_Chain wl = ChainSolana →
  is_ok (WalletService.DeriveAddress em cfg reg others u true w).1 = false.
Proof.
  intros Hj Hu Hc. unfold WalletService.DeriveAddress, ForceRotate.
  unfold mbind at 1, GoM_bind at 1. destruct (GetWallet u w) as [[wl'|e] w1] eqn:E; [|done].
  assert (Hj1 : solana_taken w1).
  { assert (H : respects J (GetWallet u)) by (simpl; unfold Pg.GetWallet, scan_row; go_respects).
    specialize (H w Hj). by rewrite E in H. }
  apply query_row in E as [E Hv]. rewrite Hv in E. assert (wl' = wl) as -> by congruence.
  case_bool_decide; [done|]. clear E Hv. revert w1 Hj1.
  change (fails_under solana_taken (active ← active_address u;
    match active with
    | Some a => rotate em reg wl a
    | None => under_lock wl (deriveNew em reg wl)
    end)).
  assert (HA : respects J (Acquire (address_lock wl) lock_ttl)).
  { simpl. apply on_proc_taken. intros p. unfold MemLocker.Acquire, uuid_New. by go_eval. }
  assert (HL : ∀ body : GoM PgWorld Address, fails_under solana_taken body →
                 fails_under solana_taken (under_lock wl body)).
  { intros body Hb. unfold under_lock. apply fails_under_bind; [by apply respects_wrap|].
    intros [token ok]. destruct ok; [by apply fails_under_finally|apply fails_under_fail]. }
  apply fails_under_bind.
  { unfold active_address. simpl. unfold Pg.GetActiveAddress, scan_row. go_respects. }
  intros [a|]; [|by apply HL, deriveNew_taken].
  apply HL. apply fails_under_bind; [apply respects_wrap, deprecate_taken|intros []].
  by apply fails_under_l, deriveNew_taken.
Qed.
End solana.

(** ** Balances *)

Definition no_balances (d : Db) : Prop := t_balances d = ∅.

Section balances.
Context {GR : GoRuntime} {UL : UuidLib} {PG : PgServer} {DL : DecimalLib} {FL : FloatRuntime}.
Context {CL : CryptoLib} {BL : BtcLib} {HD : HdLib}.
Variable (cfg : Config) (reg : Registry) (others : GoM PgWorld unit).
Variable (cl : Clients PgWorld) (treasury : option (TreasuryRequest → GoM PgWorld unit)).
Variable (onDecrease : option (UUID → string → GoM PgWorld unit)) (has_nonce : bool).
Variable (sink : Sink PgWorld).
Abbreviation R0 := (preserving (tables_in no_balances)).

(** Every method but the UPSERT leaves the table empty. *)
#[local] Instance no_balances_keeps : ProcessKeeps (W:=PgWorld) R0.
Proof.
  pg_process; intros db Hd; unfold no_balances in *; pg_statements; go_eval; done.
Qed.

Hypothesis no_blank : numeric_in EmptyString = None.

Lemma current_none u a w r w' :
  tables_in no_balances w → current_balance u a w = (r, w') →
  tables_in no_balances w' ∧ ∀ b, r = Ok b → b = None.
Proof.
  intros Hw E. assert (HR : respects R0 (current_balance (W:=PgWorld) u a)).
  { unfold current_balance. simpl. unfold Pg.GetBalance. go_respects. }
  specialize (HR w Hw). rewrite E in HR. split; [exact HR|]. intros b ->.
  unfold current_balance in E. destruct (GetBalance u a w) as [[x|e] w1] eqn:EG.
  - apply query_row in EG as [Hx Hv]. rewrite Hv, (tables_view _ w Hw), lookup_empty in Hx. done.
  - erewrite bind_Ok in E by (by apply try_run). go_cbv in E.
    by destruct (errors_Is e ErrNoRows); simplify_eq.
Qed.

(** The first balance of a wallet is written with a blank locked amount. *)
Lemma confirm_tx_refused ev w :
  tables_in no_balances w →
  is_ok (confirm_tx EmitterService cfg ev w).1 = false ∧
  tables_in no_balances (confirm_tx EmitterService cfg ev w).2.
Proof.
  intros Hw. unfold confirm_tx.
  destruct (current_balance (CE_WalletID ev) (CE_Asset ev) w) as [[cur|e] w1] eqn:EC;
    destruct (current_none _ _ _ _ _ Hw EC) as [Hw1 Hn].
  2: { by rewrite (bind_Err _ _ _ _ _ EC). }
  rewrite (bind_Ok _ _ _ _ _ EC), (Hn cur eq_refl). cbv zeta. simpl default.
  assert (HT : respects R0 (time_Now (W:=PgWorld))) by apply on_proc_keeps.
  specialize (HT w1 Hw1). destruct (time_Now w1) as [[now|e] w2] eqn:ET;
    [rewrite (bind_Ok _ _ _ _ _ ET)|by rewrite (bind_Err _ _ _ _ _ ET)].
  match goal with |- context [UpsertBalance ?b] => set (row := b) end.
  assert (HE : ∀ n d, is_ok (Pg.upsert_balance row n d).1 = false).
  { intros n d. unfold Pg.upsert_balance, numeric_col, raise. simpl Balance_Locked.
    rewrite no_blank. by go_eval. }
  assert (HK : respects R0 (UpsertBalance row)).
  { simpl. apply exec_keeps. intros n d _. specialize (HE n d). by destruct (Pg.upsert_balance row n d) as [[]]. }
  destruct (exec_refuses _ HE w2) as [Hr _]. change (exec _ w2) with (UpsertBalance row w2) in Hr.
  specialize (HK w2 HT). destruct (UpsertBalance row w2) as [[[]|e] w3] eqn:EU; [done|].
  by rewrite (bind_Err _ _ _ _ _ EU).
Qed.

Lemma no_balances_bodies : balance_keeps (W:=PgWorld) cfg R0.
Proof.
  split; intros ev w Hw; [by apply confirm_tx_refused|]. unfold reorg_tx.
  destruct (current_balance (RE_WalletID ev) (RE_Asset ev) w) as [[cur|e] w1] eqn:EC;
    destruct (current_none _ _ _ _ _ Hw EC) as [Hw1 Hn].
  - by rewrite (bind_Ok _ _ _ _ _ EC), (Hn cur eq_refl).
  - by rewrite (bind_Err _ _ _ _ _ EC).
Qed.

(** C25: where the server takes no blank text for a NUMERIC, no balance is ever recorded on the
    SQL store.  The first balance of a wallet is written with the locked amount of an empty Go
    struct, a blank text, so every balance transaction fails and the table of balances is empty
    in every run from an empty database, whatever deposits are confirmed. *)
Theorem no_balance_on_postgres w :
  outside_keeps others cl treasury onDecrease sink R0 →
  rtc (service_step cfg reg others cl treasury onDecrease has_nonce sink) NewPgWorld w →
  no_balances (pg_db w) ∧ ∀ ev, is_ok (InTx (confirm_tx EmitterService cfg ev) w).1 = false.
Proof.
  intros Ho Hr.
  assert (Hw : tables_in no_balances w).
  { apply (service_run_keeps _ _ _ _ _ _ _ _ R0 Ho no_balances_bodies _ _ Hr). by apply tables_new. }
  split; [apply Hw|]. intros ev. simpl. unfold Pg.InTx. go_cbv.
  pose proof (BeginTx_keeps no_balances w Hw) as H1.
  destruct (BeginTx w) as [[[]|e] w1]; [|done].
  destruct (confirm_tx_refused ev w1 H1) as [Hf _].
  by destruct (confirm_tx EmitterService cfg ev w1) as [[[]|e] w2].
Qed.
End balances.

(** ** Witnesses *)

Section witnesses.
Import Scenario.
Definition wit_server : PgServer := simple_server 1.
#[local] Existing Instances wit_server rt simple_uuid simple_crypto simple_btc simple_hd
  simple_decimal fund_float.

Definition pg_em : Emitter PgWorld := EmitterService.
Definition pg_quiet : GoM PgWorld unit := mret ().
Definition pg_cfg : Config := service_config 7 12 6 "finalized" (SpecFloat.S754_zero false) 1000 5000000.
Definition pg_clients : Clients PgWorld := {|
  CheckWhitelist := λ _, mret (Some yes, None);
  Sign := λ _, mret signature;
  BroadcastTx := λ _, mret "0xhash"%string;
  KeyLookup := Some (λ _, mret "mpc-key"%string);
|}.

(** Two Solana wallets, a Bitcoin wallet with two coins, an Ethereum wallet and a row of a
    withdrawal that was approved. *)
Definition sol_wallet (id : UUID) (key : string) : Wallet :=
  mkWallet id ChainSolana WalletTypeHot "sol" WalletStateActive key "mpc" None None 0 0.
Definition approved_row : WithdrawalRequest :=
  mkWithdrawal 3 7 good_to "ETH" "1000" WithdrawalStateWhitelisted "d1" "" "" None ["x"] [] 1 1.
Definition stocked : PgWorld :=
  ((CreateWallet (sol_wallet 5 "s1");; CreateWallet (sol_wallet 6 "s2");;
    CreateWallet eth_wallet;; CreateWallet btc_wallet;;
    InsertUTXO (coin "aa:0" 50);; InsertUTXO (coin "bb:1" 90);;
    CreateWithdrawal approved_row;;
    BindKeyMapping (mkKeyMapping 7 "k" 1 None RotationStateCurrent 1))%string NewPgWorld).2.

Lemma stocked_ok : pg_ok stocked.
Proof.
  assert (H : ∀ A (m : GoM PgWorld A), respects pg_rel m → pg_ok (m NewPgWorld).2)
    by (intros A m Hm; exact (Hm _ pg_ok_new)).
  apply H. simpl. unfold Pg.CreateWallet, Pg.InsertUTXO, Pg.CreateWithdrawal, Pg.BindKeyMapping.
  go_respects.
Defined.

Lemma nothing_signed_on_postgres_witness :
  is_ok (GetWithdrawal 3%N stocked).1 = true ∧
  is_ok (ConstructAndSign pg_clients pg_em pg_quiet 3%N stocked).1 = false.
Proof.
  split; [vm_compute; reflexivity|].
  exact (nothing_signed_on_postgres pg_em pg_clients pg_quiet 3%N stocked stocked_ok).
Defined.

Lemma nothing_selected_on_postgres_witness :
  map UTXO_Value (default [] (match (ListFreeUTXOs 8%N stocked).1 with Ok l => Some l | _ => None end))
    = ["50.000000000000000000"; "90.000000000000000000"]%string ∧
  is_ok (SelectForAmount 8%N 60 stocked).1 = false.
Proof.
  split; [vm_compute; reflexivity|].
  apply (nothing_selected_on_postgres 8%N 60 stocked stocked_ok). lia.
Defined.

Lemma nothing_created_on_postgres_witness :
  is_ok (GetWallet 7%N stocked).1 = true ∧
  is_ok (Withdrawal.Create pg_clients pg_em (eth_req "1000") stocked).1 = false.
Proof.
  split; [vm_compute; reflexivity|].
  exact (proj1 (nothing_created_on_postgres pg_em pg_clients (eth_req "1000") eq_refl) stocked).
Defined.

(** The first wallet derives its address; asked to rotate, it loses it. *)
Definition derive_pg (u : UUID) (w : PgWorld) : PgWorld :=
  (WalletService.DeriveAddress pg_em pg_cfg der_reg pg_quiet u true w).2.
Definition with_address : PgWorld := derive_pg 5%N stocked.
Example rotation_loses_the_address :
  map (λ w, is_ok (GetActiveAddress 5%N w).1) [stocked; with_address; derive_pg 5%N with_address]
    = [false; true; false].
Proof. vm_compute. reflexivity. Qed.

Lemma with_address_taken : solana_taken der_reg with_address.
Proof.
  split.
  - assert (H : existsb (spelled ChainSolana (reg_solana der_reg))
                  (scan_rows (t_addresses (view with_address))) = true) by (vm_compute; reflexivity).
    apply existsb_exists in H as (a & Ha%list_elem_of_In & Hs).
    apply elem_of_scan_rows in Ha as [id Ha]. eauto.
  - intros k e He. assert (Hc : w_cache (pg_proc with_address)
      = {[ sol_key (reg_solana der_reg) := mkCacheEntry (reg_solana der_reg) 1001 ]}).
    { vm_compute. reflexivity. }
    rewrite Hc in He. apply lookup_singleton_Some in He as [<- <-]. apply sol_entry.
Defined.

Lemma solana_derived_once_witness :
  is_ok (GetActiveAddress 6%N with_address).1 = false ∧
  is_ok (WalletService.DeriveAddress pg_em pg_cfg der_reg pg_quiet 6%N true with_address).1 = false.
Proof.
  split; [vm_compute; reflexivity|].
  apply (solana_derived_once pg_em pg_cfg der_reg pg_quiet 6%N (sol_wallet 6 "s2") with_address).
  - exact with_address_taken.
  - vm_compute. reflexivity.
  - reflexivity.
Defined.

Lemma quiet_outside : outside_keeps pg_quiet pg_clients None None None pg_rel.
Proof. split; try discriminate; intros; by intros w. Defined.

(** A wallet is created over the API and derives its address. *)
Definition no_query : string → string := λ _, EmptyString.
Definition pg_serve (e : endpoint) (r : Request) (w : PgWorld) : PgWorld :=
  (serve pg_em pg_cfg der_reg pg_quiet pg_clients None true e r w).2.
Definition pg_post_wallet : Request := mkRequest EmptyString no_query
  (Ok (JObj [("chain", JStr "ethereum"); ("type", JStr "HOT"); ("label", JStr "ops")]))%string.
Definition pg_at_wallet : Request := mkRequest "2" no_query (Ok (JObj [])).
Definition pg_run : PgWorld := pg_serve PostDerive pg_at_wallet (pg_serve PostWallets pg_post_wallet NewPgWorld).

Lemma schema_holds_in_runs_witness :
  map Address_State (scan_rows (t_addresses (pg_db pg_run))) = [AddressStateActive] ∧
  schema_ok (pg_db pg_run).
Proof.
  split; [vm_compute; reflexivity|].
  apply (schema_holds_in_runs pg_cfg der_reg pg_quiet pg_clients None None true None pg_run quiet_outside).
  eapply rtc_l; [apply ss_rest|]. eapply rtc_l; [apply ss_rest|]. apply rtc_refl.
Defined.

(** A deposit of the wallet is confirmed, twice. *)
Definition pg_deposit : res json :=
  Ok (JObj [("wallet_id", JStr "2"); ("asset", JStr "ETH"); ("amount", JStr "5");
            ("confirmations", JNum "20"); ("event_id", JStr "ev-1")])%string.
Definition pg_confirm (w : PgWorld) : res (reply unit) * PgWorld :=
  onConfirmationHandler pg_em pg_cfg None pg_deposit w.
Definition pg_created : PgWorld := pg_serve PostWallets pg_post_wallet NewPgWorld.
Definition pg_credited : PgWorld := (pg_confirm (pg_confirm pg_created).2).2.

Lemma no_balance_on_postgres_witness :
  (match (pg_confirm pg_created).1 with Ok (RpcStatus c _ _) => c = Internal | _ => False end) ∧
  (pg_confirm (pg_confirm pg_created).2).1 = Ok (Reply tt) ∧
  t_balances (pg_db pg_credited) = ∅.
Proof.
  split; [vm_compute; reflexivity|]. split; [vm_compute; reflexivity|].
  apply (no_balance_on_postgres pg_cfg der_reg pg_quiet pg_clients None None true None).
  - vm_compute. reflexivity.
  - split; try discriminate; intros; by intros w.
  - eapply rtc_l; [apply ss_rest|]. eapply rtc_l; [apply ss_confirmation|].
    eapply rtc_l; [apply ss_confirmation|]. apply rtc_refl.
Defined.
End witnesses.
