(* ===== verification/Migrations.v ===== *)
(** * Migrations: the schema migrations (internal/migrations, cmd/migrate/main.go)

    The runner executes the registered scripts in the order of their names, the down scripts in
    the reverse order.  It is written over any kind of script and any [ExecContext]; below, the
    four scripts of the directory are lists of DDL statements ([ddl]) and a database is the
    schema they build. *)

From S2P Require Import Prelude GoLib Bytes Extern Domain Storage Deriver JsonText.

Local Open Scope Z_scope.

(** ** The runner *)

Record Registered (Script : Type) := mkRegistered {
  upMigrations : gmap string Script;
  downMigrations : gmap string Script;
}.
Arguments mkRegistered {Script} _ _.
Arguments upMigrations {Script} _.
Arguments downMigrations {Script} _.

Definition string_ltb (a b : string) : bool := bytes_ltb (bytes_of_string a) (bytes_of_string b).

Definition EnsureFilePresent {Script} (name : string) (ddl : Script) (isDown : bool)
    (r : Registered Script) : Registered Script :=
  if isDown then mkRegistered (upMigrations r) (<[name := ddl]> (downMigrations r))
  else mkRegistered (<[name := ddl]> (upMigrations r)) (downMigrations r).

Section runner.
Context {W Script : Type} {GR : GoRuntime}.
Variable ExecContext : Script → GoM W unit.
Variable reg : Registered Script.

(** The names, collected from the map and sorted. *)
Definition upFiles : list string := insertion_sort string_ltb (map_range (upMigrations reg)).*1.
Definition downFiles : list string :=
  insertion_sort (λ a b, string_ltb b a) (map_range (downMigrations reg)).*1.

Definition apply_file (files : gmap string Script) (f : string) : GoM W unit :=
  match files !! f with
  | None => mret ()
  | Some ddl => wrap "apply %s: %w" [FStr f] (ExecContext ddl)
  end.
Definition Up : GoM W unit := for_each (apply_file (upMigrations reg)) upFiles.
Definition Down : GoM W unit := for_each (apply_file (downMigrations reg)) downFiles.
Definition RoundTrip : GoM W unit := Up;; Down;; Up.

Definition expected : list string :=
  ["wallets"; "addresses"; "balances"; "utxos"; "nonces"; "withdrawal_requests"; "key_mappings";
   "funding_requests"; "audit_outbox"; "audit_seq"; "balance_events"]%string.
Definition TablesExist (query_tables : GoM W (list string)) : GoM W (list string) :=
  present ← query_tables;
  mret (List.filter (λ e, negb (bool_decide (e ∈ present))) expected).

(** [run] of cmd/migrate: what it prints, or the error that ends the command. *)
Definition migrate (query_tables : GoM W (list string)) (direction : string) : GoM W string :=
  if bool_decide (direction = "up"%string) then Up;; mret "migrations applied"%string
  else if bool_decide (direction = "down"%string) then Down;; mret "migrations rolled back"%string
  else if bool_decide (direction = "status"%string) then
    missing ← TablesExist query_tables;
    match missing with
    | [] => mret "schema complete"%string
    | _ => fail (Errorf "missing tables: %v" (map FStr missing))
    end
  else fail (Errorf "unknown direction %q (want up, down, or status)" [FStr direction]).
End runner.

(** [StripComments]: a line that starts with two hyphens is left out, every other one ends
    with a newline. *)
Fixpoint split_lines (s : string) : list string :=
  match s with
  | EmptyString => [EmptyString]
  | String c s =>
      if bool_decide (c = "010"%char) then EmptyString :: split_lines s
      else match split_lines s with
           | p :: l => String c p :: l
           | [] => [String c EmptyString]
           end
  end.
Definition is_comment (line : string) : bool :=
  has_prefix (bytes_of_string "--") (bytes_of_string (trim line)).
Definition StripComments (s : string) : string :=
  foldr (λ line acc, if is_comment line then acc else line +:+ String "010" acc) EmptyString
    (split_lines s).

(** ** Statements and schemas *)

(** CREATE TABLE IF NOT EXISTS with its columns and the tables it references, CREATE INDEX IF
    NOT EXISTS, ALTER TABLE with ADD COLUMN IF NOT EXISTS and DROP COLUMN IF EXISTS, DROP TABLE
    IF EXISTS, and CREATE EXTENSION IF NOT EXISTS. *)
Inductive ddl :=
  | CreateTable (t : string) (columns references : list string)
  | CreateIndex (i t : string) (columns : list string)
  | AddColumn (t c : string)
  | DropColumn (t c : string)
  | DropTable (t : string)
  | CreateExtension (e : string).

Record table_def := mkTable {
  td_columns : list string;
  td_references : list string;
  td_indexes : list string;
}.
#[export] Instance table_def_eq_dec : EqDecision table_def.
Proof. solve_decision. Defined.
Abbreviation schema := (gmap string table_def).

Definition index_exists (i : string) (s : schema) : bool :=
  existsb (λ p, bool_decide (i ∈ td_indexes p.2)) (map_to_list s).
Definition referenced (t : string) (s : schema) : bool :=
  existsb (λ p, bool_decide (p.1 ≠ t) && bool_decide (t ∈ td_references p.2)) (map_to_list s).

(** What a statement does, or that it fails: a referenced table must exist and cannot be
    dropped, an altered or indexed one must exist, with its columns. *)
Definition exec_ddl (d : ddl) (s : schema) : option schema :=
  match d with
  | CreateTable t cols refs =>
      match s !! t with
      | Some _ => Some s
      | None => if forallb (λ r, bool_decide (is_Some (s !! r))) refs
                then Some (<[t := mkTable cols refs []]> s) else None
      end
  | CreateIndex i t cols =>
      d ← s !! t;
      if index_exists i s then Some s
      else if forallb (λ c, bool_decide (c ∈ td_columns d)) cols
      then Some (<[t := mkTable (td_columns d) (td_references d) (i :: td_indexes d)]> s) else None
  | AddColumn t c =>
      d ← s !! t;
      if bool_decide (c ∈ td_columns d) then Some s
      else Some (<[t := mkTable (td_columns d ++ [c]) (td_references d) (td_indexes d)]> s)
  | DropColumn t c =>
      d ← s !! t;
      Some (<[t := mkTable (List.filter (λ x, negb (bool_decide (x = c))) (td_columns d))
                     (td_references d) (td_indexes d)]> s)
  | DropTable t => if referenced t s then None else Some (delete t s)
  | CreateExtension _ => Some s
  end.

(** A script is one transaction. *)
Fixpoint run_script (l : list ddl) (s : schema) : option schema :=
  match l with [] => Some s | d :: l => s ← exec_ddl d s; run_script l s end.
Definition exec_script (l : list ddl) : GoM schema unit :=
  λ s, match run_script l s with
       | Some s' => (Ok (), s')
       | None => (Err (New "pq: error"), s)
       end.

(** *** The scripts of the directory *)

Definition stamps : list string := ["created_at"; "updated_at"]%string.
Definition initUp : list ddl :=
  [CreateExtension "pgcrypto";
   CreateTable "wallets" (["id"; "chain"; "type"; "label"; "state"; "key_id"; "custodian_ref";
     "rotation_days"; "rotation_after_receives"] ++ stamps) [];
   CreateTable "addresses" (["id"; "wallet_id"; "chain"; "address"; "derivation_path"; "index";
     "change"; "state"; "receive_count"] ++ stamps) ["wallets"];
   CreateIndex "addresses_one_active_per_wallet" "addresses" ["wallet_id"];
   CreateTable "balances" (["wallet_id"; "asset"; "confirmed"; "pending"; "locked";
     "last_block_seen"] ++ stamps) ["wallets"];
   CreateTable "utxos" (["outpoint"; "wallet_id"; "value"; "script_type"; "confirmations";
     "lock_state"; "locked_at"; "spent_at"; "tx_hash"] ++ stamps) ["wallets"];
   CreateIndex "utxos_wallet_state" "utxos" ["wallet_id"; "lock_state"];
   CreateTable "nonces" (["wallet_id"; "chain"; "pending_nonce"; "broadcast_nonce"; "version"]
     ++ stamps) ["wallets"];
   CreateTable "withdrawal_requests" (["id"; "wallet_id"; "to_address"; "asset"; "amount"; "state";
     "policy_decision_id"; "failure_reason"; "tx_hash"; "nonce_value"] ++ stamps) ["wallets"];
   CreateIndex "withdrawals_wallet_state" "withdrawal_requests" ["wallet_id"; "state"];
   CreateIndex "withdrawal_inflight_dedup" "withdrawal_requests"
     ["wallet_id"; "to_address"; "amount"; "asset"];
   CreateTable "key_mappings" (["wallet_id"; "key_id"; "active_from"; "active_to";
     "rotation_state"] ++ stamps) ["wallets"];
   CreateIndex "key_mappings_one_current" "key_mappings" ["wallet_id"];
   CreateTable "funding_requests" (["id"; "wallet_id"; "asset"; "amount"; "state";
     "treasury_batch_id"; "reason"] ++ stamps) ["wallets"];
   CreateIndex "funding_wallet_state" "funding_requests" ["wallet_id"; "asset"; "state"];
   CreateIndex "funding_open_dedup" "funding_requests" ["wallet_id"; "asset"];
   CreateTable "audit_outbox" (["id"; "event_id"; "wallet_id"; "event_type"; "payload"; "seq";
     "delivered"; "attempts"] ++ stamps ++ ["delivered_at"]) [];
   CreateIndex "audit_outbox_undelivered" "audit_outbox" ["seq"];
   CreateIndex "audit_outbox_wallet_seq" "audit_outbox" ["wallet_id"; "seq"];
   CreateTable "audit_seq" (["wallet_id"; "seq"] ++ stamps) [];
   CreateTable "balance_events" (["id"; "wallet_id"; "asset"; "block_height"; "event_id";
     "applied_at"] ++ stamps) []]%string.
Definition initDown : list ddl :=
  map DropTable
    ["balance_events"; "audit_seq"; "audit_outbox"; "funding_requests"; "key_mappings";
     "withdrawal_requests"; "nonces"; "utxos"; "balances"; "addresses"; "wallets"]%string.
Definition withdrawalTxUp : list ddl :=
  [AddColumn "withdrawal_requests" "reserved_outpoints";
   AddColumn "withdrawal_requests" "signed_tx_bytes"]%string.
Definition withdrawalTxDown : list ddl :=
  [DropColumn "withdrawal_requests" "signed_tx_bytes";
   DropColumn "withdrawal_requests" "reserved_outpoints"]%string.

(** [init] of embed.go. *)
Definition embedded : Registered (list ddl) :=
  mkRegistered
    (<["0002_withdrawal_tx_columns.up.sql" := withdrawalTxUp]>
       {["0001_init_schema.up.sql" := initUp]})%string
    (<["0002_withdrawal_tx_columns.down.sql" := withdrawalTxDown]>
       {["0001_init_schema.down.sql" := initDown]})%string.

(** The schemas of the three versions. *)
Definition script_result (l : list ddl) (s : schema) : schema := default s (run_script l s).
Definition version1 : schema := script_result initUp ∅.
Definition version2 : schema := script_result withdrawalTxUp version1.
Definition table_names (s : schema) : list string := (map_to_list s).*1.
Definition query_tables : GoM schema (list string) := gets table_names.

(** ** Scripts that only add can be repeated *)

Definition extends (s s' : schema) : Prop :=
  ∀ t d, s !! t = Some d →
    ∃ d', s' !! t = Some d' ∧ td_columns d ⊆ td_columns d' ∧ td_indexes d ⊆ td_indexes d'.
#[export] Instance extends_preorder : PreOrder extends.
Proof.
  split.
  - intros s t d H. by exists d.
  - intros a b c H1 H2 t d H. destruct (H1 t d H) as (d1 & E1 & ? & ?).
    destruct (H2 t d1 E1) as (d2 & ? & ? & ?). exists d2. split_and!; [done|by etrans..].
Qed.

Definition additive (d : ddl) : bool :=
  match d with DropColumn _ _ | DropTable _ => false | _ => true end.
(** The statement has nothing left to do. *)
Definition satisfied (d : ddl) (s : schema) : Prop :=
  match d with
  | CreateTable t _ _ => is_Some (s !! t)
  | CreateIndex i t _ => is_Some (s !! t) ∧ ∃ t' d', s !! t' = Some d' ∧ i ∈ td_indexes d'
  | AddColumn t c => ∃ d, s !! t = Some d ∧ c ∈ td_columns d
  | CreateExtension _ => True
  | _ => False
  end.

Lemma index_exists_spec i s :
  index_exists i s = true ↔ ∃ t d, s !! t = Some d ∧ i ∈ td_indexes d.
Proof.
  unfold index_exists. rewrite existsb_exists. split.
  - intros ([t d] & Hin & Hi). apply list_elem_of_In, elem_of_map_to_list in Hin.
    apply bool_decide_eq_true in Hi. by exists t, d.
  - intros (t & d & Hs & Hi). exists (t, d).
    split; [by apply list_elem_of_In, elem_of_map_to_list|by apply bool_decide_eq_true].
Qed.

Lemma satisfied_mono d s s' : extends s s' → satisfied d s → satisfied d s'.
Proof.
  intros H. destruct d as [t cols refs|i t cols|t c|t c|t|e]; simpl; try done.
  - intros [d Hd]. destruct (H t d Hd) as (d' & ? & _). by exists d'.
  - intros [[d Hd] (t' & d' & Hd' & Hi)]. destruct (H t d Hd) as (d1 & ? & _).
    destruct (H t' d' Hd') as (d2 & ? & _ & Hsub). split; [by exists d1|].
    exists t', d2. split; [done|by apply Hsub].
  - intros (d & Hd & Hc). destruct (H t d Hd) as (d' & ? & Hsub & _). exists d'.
    split; [done|by apply Hsub].
Qed.

Lemma satisfied_exec d s : satisfied d s → exec_ddl d s = Some s.
Proof.
  destruct d as [t cols refs|i t cols|t c|t c|t|e]; simpl; try done.
  - by intros [d ->].
  - intros [[d ->] Hi]. simpl. by rewrite (proj2 (index_exists_spec i s)).
  - intros (d & -> & Hc). simpl. by rewrite bool_decide_eq_true_2.
Qed.

Lemma extends_insert t d s :
  (∀ d0, s !! t = Some d0 → td_columns d0 ⊆ td_columns d ∧ td_indexes d0 ⊆ td_indexes d) →
  extends s (<[t := d]> s).
Proof.
  intros H t' d0 H0. destruct (decide (t' = t)) as [->|Hne].
  - rewrite lookup_insert_eq. destruct (H d0 H0). by exists d.
  - rewrite lookup_insert_ne by done. by exists d0.
Qed.

Lemma exec_additive d s s' :
  additive d = true → exec_ddl d s = Some s' → extends s s' ∧ satisfied d s'.
Proof.
  destruct d as [t cols refs|i t cols|t c|t c|t|e]; simpl; try done; intros _.
  - destruct (s !! t) as [d|] eqn:E; [intros [= <-]; split; [done|by exists d]|].
    case_match; [|done]. intros [= <-]. split; [apply extends_insert; congruence|].
    rewrite lookup_insert_eq. by eexists.
  - destruct (s !! t) as [d|] eqn:E; [|done]. simpl. destruct (index_exists i s) eqn:EI.
    + intros [= <-]. split; [done|]. split; [by exists d|by apply index_exists_spec].
    + case_match; [|done]. intros [= <-]. split.
      * apply extends_insert. intros d0 E0. simplify_eq. simpl. set_solver.
      * rewrite lookup_insert_eq. split; [by eexists|]. exists t. eexists.
        rewrite lookup_insert_eq. split; [done|]. by left.
  - destruct (s !! t) as [d|] eqn:E; [|done]. simpl. case_bool_decide.
    + intros [= <-]. split; [done|]. by exists d.
    + intros [= <-]. split.
      * apply extends_insert. intros d0 E0. simplify_eq. simpl. set_solver.
      * eexists. rewrite lookup_insert_eq. split; [done|]. simpl. set_solver.
  - by intros [= <-].
Qed.

Lemma run_additive l s s' :
  forallb additive l = true → run_script l s = Some s' →
  extends s s' ∧ Forall (λ d, satisfied d s') l.
Proof.
  revert s. induction l as [|d l IH]; intros s; simpl; [by intros _ [= <-]|].
  intros [Hd Hl]%andb_true_iff. destruct (exec_ddl d s) as [s1|] eqn:E; [|done]. simpl. intros Hr.
  destruct (exec_additive d s s1 Hd E) as [H1 H2]. destruct (IH s1 Hl Hr) as [H3 H4].
  split; [by etrans|]. constructor; [by eapply satisfied_mono|done].
Qed.

Lemma run_satisfied l s : Forall (λ d, satisfied d s) l → run_script l s = Some s.
Proof. induction 1 as [|d l Hd _ IH]; [done|]. simpl. by rewrite satisfied_exec. Qed.

Section repeat.
Context {GR : GoRuntime}.
Variable reg : Registered (list ddl).
Hypothesis adds : map_Forall (λ _ l, forallb additive l = true) (upMigrations reg).

Lemma apply_file_run files f s :
  apply_file exec_script files f s =
    match run_script <$> files !! f with
    | Some run => match run s with
                  | Some s' => (Ok (), s')
                  | None => (Err (Wrapf "apply %s: %w" [FStr f] (New "pq: error")), s)
                  end
    | None => (Ok (), s)
    end.
Proof.
  unfold apply_file. destruct (files !! f) as [l|]; [|done]. simpl. unfold wrap, exec_script.
  by destruct (run_script l s).
Qed.

Lemma up_files_run fs s s' :
  for_each (apply_file exec_script (upMigrations reg)) fs s = (Ok (), s') →
  extends s s' ∧ ∀ f l, f ∈ fs → upMigrations reg !! f = Some l → Forall (λ d, satisfied d s') l.
Proof.
  revert s. induction fs as [|f fs IH]; intros s; cbn [for_each].
  - intros [= <-]. split; [done|]. by intros f l ?%elem_of_nil.
  - unfold mbind, GoM_bind. rewrite apply_file_run.
    destruct (upMigrations reg !! f) as [l|] eqn:E; simpl.
    + destruct (run_script l s) as [s1|] eqn:ER; [|done]. intros Hr.
      destruct (run_additive l s s1) as [H1 H2]; [by apply (adds f)|done|].
      destruct (IH s1 Hr) as [H3 H4]. split; [by etrans|].
      intros g m [->|Hg]%elem_of_cons Hm; [|by apply (H4 g)]. simplify_eq.
      eapply list.Forall_impl; [exact H2|]. intros d. by apply satisfied_mono.
    + intros Hr. destruct (IH s Hr) as [H3 H4]. split; [done|].
      intros g m [->|Hg]%elem_of_cons Hm; [congruence|by apply (H4 g)].
Qed.

Lemma up_files_again fs s :
  (∀ f l, f ∈ fs → upMigrations reg !! f = Some l → Forall (λ d, satisfied d s) l) →
  for_each (apply_file exec_script (upMigrations reg)) fs s = (Ok (), s).
Proof.
  induction fs as [|f fs IH]; intros H; [done|]. cbn [for_each].
  unfold mbind, GoM_bind. rewrite apply_file_run.
  destruct (upMigrations reg !! f) as [l|] eqn:E; simpl.
  - rewrite run_satisfied; [|by apply (H f); [left|]].
    apply IH. intros g m Hg. apply H. by right.
  - apply IH. intros g m Hg. apply H. by right.
Qed.

Lemma Up_again s s' : Up exec_script reg s = (Ok (), s') → Up exec_script reg s' = (Ok (), s').
Proof. intros H. by apply up_files_again, (up_files_run _ s). Qed.
End repeat.

(** ** The migrations of the service *)

Section deploy.
Context {GR : GoRuntime}.

(** The schema the scripts of some files build. *)
Fixpoint scripts (files : gmap string (list ddl)) (fs : list string) (s : schema) : option schema :=
  match fs with
  | [] => Some s
  | f :: fs => s ← default Some (run_script <$> files !! f) s; scripts files fs s
  end.

(** Closed equalities of schemas are decided, which is cheaper than comparing the two sides. *)
Ltac by_decision := refine (bool_decide_eq_true_1 _ _); vm_compute; reflexivity.

(** The two names of a map, in either ranging order, are sorted the same way. *)
Lemma sorted_pair {V} (less : string → string → bool) (m : gmap string V) a b :
  (map_to_list m).*1 ≡ₚ [a; b] → less a b = true → less b a = false →
  insertion_sort less (map_range m).*1 = [a; b].
Proof.
  intros Hm H1 H2. rewrite <-(map_range_perm m) in Hm.
  apply Permutation_sym, Permutation_length_2_inv in Hm as [->| ->]; simpl; by rewrite ?H1, ?H2.
Qed.

Lemma embedded_up : upFiles embedded =
  ["0001_init_schema.up.sql"; "0002_withdrawal_tx_columns.up.sql"]%string.
Proof. apply sorted_pair; vm_compute; by repeat constructor. Qed.
Lemma embedded_down : downFiles embedded =
  ["0002_withdrawal_tx_columns.down.sql"; "0001_init_schema.down.sql"]%string.
Proof.
  apply (sorted_pair (λ a b, string_ltb b a)); [|vm_compute; done..].
  vm_compute. by repeat constructor.
Qed.

Lemma embedded_adds : map_Forall (λ _ l, forallb additive l = true) (upMigrations embedded).
Proof.
  intros f l. unfold embedded, upMigrations.
  intros [[<- <-]|[_ [<- <-]%lookup_singleton_Some]]%lookup_insert_Some; vm_compute; reflexivity.
Qed.

(** Running the scripts of some files is running all their statements. *)
Lemma scripts_run files fs s s' :
  scripts files fs s = Some s' → for_each (apply_file exec_script files) fs s = (Ok (), s').
Proof.
  revert s. induction fs as [|f fs IH]; intros s; cbn [for_each scripts]; [by intros [= <-]|].
  unfold mbind, GoM_bind. rewrite apply_file_run. destruct (files !! f) as [l|]; simpl; [|by apply IH].
  destruct (run_script l s) as [s1|]; [|done]. apply IH.
Qed.

Lemma nothing_missing : TablesExist query_tables version2 = (Ok [], version2).
Proof.
  unfold TablesExist, query_tables, gets, mbind, GoM_bind, mret, GoM_ret.
  apply (f_equal (λ l, (Ok l, version2))). by_decision.
Qed.

(** C36: the migrations can be repeated and undone.  The main program runs Up at every start:
    whatever schema it once succeeded on, running it again succeeds and changes nothing.  An
    empty database and the databases of both versions are brought to the current version, which
    has every table the status command looks for; Down empties it without running into a
    reference, and a round trip restores it.  Down cannot be repeated: on an empty database it
    fails at the table it would alter. *)
Theorem migrations_repeatable :
  let Up := Up exec_script embedded in
  let Down := Down exec_script embedded in
  (∀ s s', Up s = (Ok (), s') → Up s' = (Ok (), s')) ∧
  (∀ s, s ∈ [∅; version1; version2] →
     Up s = (Ok (), version2) ∧ RoundTrip exec_script embedded s = (Ok (), version2)) ∧
  migrate exec_script embedded query_tables "status" version2 = (Ok "schema complete"%string, version2) ∧
  Down version2 = (Ok (), ∅) ∧
  ∃ err, Down ∅ = (Err (Wrapf "apply %s: %w" [FStr "0002_withdrawal_tx_columns.down.sql"] err), ∅).
Proof.
  intros up down.
  assert (HU : ∀ s, s ∈ [∅; version1; version2] → up s = (Ok (), version2)).
  { intros s Hs. unfold up, Migrations.Up. rewrite embedded_up. apply scripts_run.
    rewrite !elem_of_cons, elem_of_nil in Hs. destruct Hs as [->|[->|[->|[]]]]; by_decision. }
  assert (HD : down version2 = (Ok (), ∅)).
  { unfold down, Migrations.Down. rewrite embedded_down. apply scripts_run. by_decision. }
  split_and!; [| | |exact HD|].
  - intros s s'. apply Up_again, embedded_adds.
  - intros s Hs. split; [by apply HU|]. unfold RoundTrip. fold up down.
    rewrite (bind_Ok _ _ _ _ _ (HU s Hs)), (bind_Ok _ _ _ _ _ HD). apply HU. set_solver.
  - unfold migrate. simpl. unfold mbind, GoM_bind. by rewrite nothing_missing.
  - unfold down, Migrations.Down. rewrite embedded_down. cbn [for_each]. unfold mbind, GoM_bind.
    rewrite apply_file_run. by eexists.
Qed.
End deploy.
