(* ===== verification/Otel.v ===== *)
(** * Otel: tracing and metrics (internal/otel/otel.go)

    [Init] reads the environment and installs the process-wide providers; the function it
    returns shuts them down.  The SDK is a parameter ([OtelSdk]): whether a resource can be
    merged, whether an exporter can be made, what a shutdown answers.  Its globals, and which
    providers have been shut down, are the state. *)

From S2P Require Import Prelude GoLib Bytes.

Local Open Scope Z_scope.

Class OtelSdk := {
  Resource : Type;
  SpanExporter : Type;
  MetricExporter : Type;
  (** [resource.Merge] of the default resource and one with the name of the service. *)
  Merge : string → res Resource;
  (** [otlptracegrpc.New] and [otlpmetricgrpc.New], for an endpoint without TLS. *)
  otlptracegrpc_New : string → res SpanExporter;
  otlpmetricgrpc_New : string → res MetricExporter;
  (** What the shutdown of the tracer and of the meter answers. *)
  flush_traces : res unit;
  flush_metrics : res unit;
}.

Section otel.
Context {SDK : OtelSdk}.

(** A tracer without an exporter, or one that sends batches; times are in nanoseconds. *)
Inductive TracerProvider :=
  | BareTracer
  | BatchTracer (exp : SpanExporter) (timeout : Z) (r : Resource).
Inductive MeterProvider :=
  | NoopMeter
  | PeriodicMeter (exp : MetricExporter) (interval : Z) (r : Resource).
Inductive propagator := TraceContext | Baggage.
Inductive provider := Tracer (tp : TracerProvider) | Meter (mp : MeterProvider).

Record Globals := mkGlobals {
  tracer : option TracerProvider;
  meter : option MeterProvider;
  propagators : list propagator;
  shut_down : list provider;
}.

Definition SetTracerProvider (tp : TracerProvider) : GoM Globals unit :=
  modify (λ g, mkGlobals (Some tp) (meter g) (propagators g) (shut_down g)).
Definition SetMeterProvider (mp : MeterProvider) : GoM Globals unit :=
  modify (λ g, mkGlobals (tracer g) (Some mp) (propagators g) (shut_down g)).
Definition SetTextMapPropagator (l : list propagator) : GoM Globals unit :=
  modify (λ g, mkGlobals (tracer g) (meter g) l (shut_down g)).
Definition Shutdown (p : provider) : GoM Globals unit :=
  modify (λ g, mkGlobals (tracer g) (meter g) (propagators g) (shut_down g ++ [p]));;
  ret_res (match p with Tracer _ => flush_traces | Meter _ => flush_metrics end).

Definition ten_seconds : Z := 10000000000.

(** The function returned: both are shut down, and the error of the traces comes first. *)
Definition shutdown (tp : TracerProvider) (mp : MeterProvider) : GoM Globals unit :=
  traceErr ← try (wrap "trace shutdown: %w" [] (Shutdown (Tracer tp)));
  metricErr ← try (wrap "metric shutdown: %w" [] (Shutdown (Meter mp)));
  match traceErr with
  | Err err => fail err
  | Ok _ => ret_res metricErr
  end.

Definition strip_scheme (endpoint : string) : string :=
  trim_prefix "grpc://" (trim_prefix "http://" endpoint).

Definition Init (Getenv : string → string) (serviceName : string) :
    GoM Globals (GoM Globals unit) :=
  let endpoint := trim (Getenv "OTEL_EXPORTER_OTLP_ENDPOINT"%string) in
  if bool_decide (endpoint = EmptyString) then
    SetTracerProvider BareTracer;;
    SetMeterProvider NoopMeter;;
    SetTextMapPropagator [TraceContext; Baggage];;
    mret (mret ())
  else
    let name := trim (Getenv "OTEL_SERVICE_NAME"%string) in
    let serviceName := if bool_decide (name = EmptyString) then serviceName else name in
    let endpoint := strip_scheme endpoint in
    r ← wrap "otel resource: %w" [] (ret_res (Merge serviceName));
    spanExp ← wrap "otel trace exporter: %w" [] (ret_res (otlptracegrpc_New endpoint));
    metricExp ← wrap "otel metric exporter: %w" [] (ret_res (otlpmetricgrpc_New endpoint));
    let tp := BatchTracer spanExp ten_seconds r in
    let mp := PeriodicMeter metricExp ten_seconds r in
    SetTracerProvider tp;;
    SetMeterProvider mp;;
    SetTextMapPropagator [TraceContext; Baggage];;
    mret (shutdown tp mp).

(** ** What starting and stopping do *)

(** The SDK gives everything that an endpoint needs. *)
Definition sdk_ready (name endpoint : string) : bool :=
  is_ok (Merge name) && is_ok (otlptracegrpc_New endpoint) && is_ok (otlpmetricgrpc_New endpoint).
Definition telemetry_ready (Getenv : string → string) (serviceName : string) : bool :=
  let endpoint := trim (Getenv "OTEL_EXPORTER_OTLP_ENDPOINT"%string) in
  let name := trim (Getenv "OTEL_SERVICE_NAME"%string) in
  bool_decide (endpoint = EmptyString) ||
  sdk_ready (if bool_decide (name = EmptyString) then serviceName else name) (strip_scheme endpoint).

Lemma shutdown_run tp mp g :
  shutdown tp mp g =
    (match flush_traces, flush_metrics with
     | Err e, _ => Err (Wrapf "trace shutdown: %w" [] e)
     | Ok _, Err e => Err (Wrapf "metric shutdown: %w" [] e)
     | Ok _, Ok _ => Ok ()
     end,
     mkGlobals (tracer g) (meter g) (propagators g) (shut_down g ++ [Tracer tp; Meter mp])).
Proof.
  unfold shutdown, Shutdown, wrap, modify, ret_res. go_cbv.
  destruct flush_traces as [[]|e], flush_metrics as [[]|e']; simpl; by rewrite <-app_assoc.
Qed.

(** Telemetry.  Without an endpoint nothing can fail and there is nothing to shut down.  With
    one, Init installs both providers and the propagators or, when the SDK refuses something,
    changes nothing and returns the error; the function it returned shuts down both providers,
    each once, also when the first of them fails. *)
Theorem Init_spec Getenv serviceName g :
  let o := Init Getenv serviceName g in
  is_ok o.1 = telemetry_ready Getenv serviceName ∧
  (is_ok o.1 = false → o.2 = g) ∧
  ∀ stop, o.1 = Ok stop →
    propagators o.2 = [TraceContext; Baggage] ∧ shut_down o.2 = shut_down g ∧
    ((tracer o.2 = Some BareTracer ∧ meter o.2 = Some NoopMeter ∧ stop o.2 = (Ok (), o.2)) ∨
     ∃ tp mp, tracer o.2 = Some tp ∧ meter o.2 = Some mp ∧
       shut_down (stop o.2).2 = shut_down g ++ [Tracer tp; Meter mp] ∧
       is_ok (stop o.2).1 = is_ok flush_traces && is_ok flush_metrics).
Proof.
  unfold Init, telemetry_ready, sdk_ready, wrap, modify, ret_res. cbv zeta.
  case_bool_decide as He; go_cbv.
  { split; [done|]. split; [done|]. intros stop [= <-]. do 2 (split; [done|]). by left. }
  set (name := if bool_decide _ then serviceName else _).
  destruct (Merge name) as [r|e]; [|by split].
  destruct (otlptracegrpc_New _) as [se|e]; [|by split].
  destruct (otlpmetricgrpc_New _) as [me|e]; [|by split].
  split; [done|]. split; [done|]. intros stop [= <-]. do 2 (split; [done|]). right.
  eexists _, _. split; [reflexivity|]. split; [reflexivity|]. rewrite shutdown_run. split; [done|].
  by destruct flush_traces as [[]|], flush_metrics as [[]|].
Qed.
End otel.

(** ** An SDK that cannot make the exporter of the metrics *)

Section example.
#[local] Instance no_metrics : OtelSdk := {|
  Resource := string; SpanExporter := string; MetricExporter := string;
  Merge := Ok; otlptracegrpc_New := Ok; otlpmetricgrpc_New := λ _, Err (New "refused");
  flush_traces := Ok tt; flush_metrics := Ok tt;
|}.
Definition collector (name : string) : string :=
  if bool_decide (name = "OTEL_EXPORTER_OTLP_ENDPOINT"%string) then " http://collector:4317 "
  else EmptyString.

Example Init_examples :
  ((Init collector "wallet-management" (mkGlobals None None [] [])).1,
   strip_scheme "grpc://collector:4317", strip_scheme "https://collector:4317") =
  (Err (Wrapf "otel metric exporter: %w" [] (New "refused")), "collector:4317",
   "https://collector:4317")%string.
Proof. vm_compute. reflexivity. Qed.
End example.
