(* ===== verification/Startup.v ===== *)
(** * Startup: what the main program builds (cmd/wallet-management/main.go)

    [run] reads the environment, builds the process (the configuration, the cache and the locks,
    the derivers, the audit sink, the signer and the gateway), serves until a signal or until a
    server stops, and releases what it opened.  What the database, Redis, the SDK of the
    telemetry (Otel.v) and the gRPC library answer, and what the two servers do, are arguments.
    A function can also end the process with log.Fatalf; then nothing that was deferred runs. *)

From S2P Require Import Prelude GoLib Bytes Extern Domain Storage Memstore.
From S2P Require Import Config Outbox Withdrawal Funding Cache Deriver JsonText Clients Envelope Otel.

Local Open Scope Z_scope.

(** [strings.Split(s, ",")]. *)
Fixpoint split_commas (s : string) : list string :=
  match s with
  | EmptyString => [EmptyString]
  | String c s =>
      if bool_decide (c = ","%char) then EmptyString :: split_commas s
      else match split_commas s with
           | p :: l => String c p :: l
           | [] => [String c EmptyString]
           end
  end.
Definition splitCSV (s : string) : list string :=
  List.filter (λ p, negb (bool_decide (p = EmptyString))) (map trim (split_commas s)).

Example splitCSV_examples :
  (splitCSV "a:9092, b:9092,", splitCSV "", splitCSV " , ,") = (["a:9092"; "b:9092"], [], [])%string.
Proof. vm_compute. reflexivity. Qed.

(** Where the cache and the locks live. *)
Inductive backend (R : Type) := OnRedis (client : R) (ttl : Z) | InMemory.
Arguments OnRedis {R} _ _.
Arguments InMemory {R}.

(** A call that returns, or ends the process. *)
Inductive ending (A : Type) := Returned (r : res A) | Exited (message : error).
Arguments Returned {A} _.
Arguments Exited {A} _.
Definition MainM (W A : Type) : Type := W → ending A * W.
#[export] Instance MainM_ret W : MRet (MainM W) := λ A a w, (Returned (Ok a), w).
#[export] Instance MainM_bind W : MBind (MainM W) := λ A B f m w,
  match m w with
  | (Returned (Ok a), w) => f a w
  | (Returned (Err e), w) => (Returned (Err e), w)
  | (Exited e, w) => (Exited e, w)
  end.
Definition call {W A} (m : GoM W A) : MainM W A := λ w, let '(r, w) := m w in (Returned r, w).
Definition log_Fatalf {W A} (format : string) (args : list fmtarg) : MainM W A :=
  λ w, (Exited (Errorf format args), w).
(** [defer release()], in front of the rest of the function. *)
Definition defer {W A} (release : GoM W unit) (body : MainM W A) : MainM W A := λ w,
  match body w with
  | (Returned r, w) => (Returned r, (release w).2)
  | (Exited e, w) => (Exited e, w)
  end.

(** What [run] opens. *)
Inductive resource := Telemetry | Database | Context_ | Drainer | AuditSink | Signer | Gateway.
#[export] Instance resource_eq_dec : EqDecision resource.
Proof. solve_decision. Defined.

Section startup.
Context {W : Type} {UL : UuidLib} {EF : Effects W} {ST : Store W} {EP : EnvParsers}.
Context {CL : CryptoLib} {HC : HttpClient W} {GS : GrpcStubs W}.
Variable (Getenv : string → string).
Variable (Writer : Type) (new_writer : list string → string → Writer).
Variable (RedisOpts : Type) (ParseURL : string → res RedisOpts) (Ping : RedisOpts → res unit).
Context {SDK : OtelSdk}.
Variable (postgres_New : string → res unit) (migrations_Up : GoM W unit).
Variable (release : resource → GoM W unit) (emitter_Start : GoM W unit).

(** Whether the telemetry starts; its globals are those of Otel.v. *)
Definition otel_Init : res unit :=
  match (Init Getenv "wallet-management" (mkGlobals None None [] [])).1 with
  | Ok _ => Ok ()
  | Err e => Err e
  end.

Definition initCacheAndLocker (cfg : Config) : backend RedisOpts :=
  match ParseURL (RedisURL cfg) with
  | Ok rdb =>
      match Ping rdb with
      | Ok _ => OnRedis rdb (DerivationCacheTTL cfg)
      | Err _ => InMemory
      end
  | Err _ => InMemory
  end.

Definition xpubEnv (devMode : bool) (name : string) : MainM W string :=
  let v := Getenv name in
  if bool_decide (v = EmptyString) then
    if devMode then mret "xpub-placeholder"%string
    else log_Fatalf "%s required in production mode" [FStr name]
  else mret v.

Definition buildDeriverRegistry (cfg : Config) (devMode : bool) : MainM W Registry :=
  x ← xpubEnv devMode "EVM_XPUB";
  evm ← call (ret_res (NewEVM x));
  x ← xpubEnv devMode "SOL_XPUB";
  sol ← call (ret_res (NewSolana x));
  x ← xpubEnv devMode "BTC_XPUB";
  btc ← call (ret_res (NewBTC x));
  mret (mkRegistry evm sol btc (DerivationCacheTTL cfg)).

(** A nil sink is [None]. *)
Definition initAuditSink (devMode : bool) : MainM W (option (KafkaSink Writer)) :=
  let brokers := Getenv "KAFKA_BROKERS" in
  if negb (bool_decide (brokers = EmptyString))
  then mret (Some (NewKafkaSink Writer new_writer (splitCSV brokers)))
  else if devMode then mret None
  else log_Fatalf "KAFKA_BROKERS unset and DEV_MODE not set; cannot start audit producer" [].

(** A mock, or a dialled client. *)
Inductive remote := Mock | Dialled (target : string) (c : Client).

Definition initSignerAndGateway (cfg : Config) (devMode : bool) : MainM W (remote * remote) :=
  if devMode then mret (Mock, Mock)
  else if bool_decide (MPCSigningURL cfg = EmptyString)
  then log_Fatalf "MPC_SIGNING_URL required in production mode" []
  else if bool_decide (BlockchainGatewayURL cfg = EmptyString)
  then log_Fatalf "BLOCKCHAIN_GATEWAY_URL required in production mode" []
  else
    signer ← call (wrap "dial mpc-signing-service %q: %w" [FStr (MPCSigningURL cfg)]
               (ret_res (NewMPCSigningClient (MPCSigningURL cfg) [])));
    match NewGatewayClient (BlockchainGatewayURL cfg) [] with
    | Err err =>
        call (ignore (Close signer));;
        call (fail (Wrapf "dial blockchain-gateway %q: %w" [FStr (BlockchainGatewayURL cfg)] err))
    | Ok gw => mret (Dialled (MPCSigningURL cfg) signer, Dialled (BlockchainGatewayURL cfg) gw)
    end.

Definition sign_with (r : remote) : SignRequest → GoM W SignResponse :=
  match r with Mock => Mock_Sign None | Dialled _ c => MPC_Sign c end.
Definition send_with (r : remote) : BroadcastRequest → GoM W BroadcastResponse :=
  match r with Mock => Mock_BroadcastTx None | Dialled _ c => Gateway_BroadcastTx c end.

(** What the servers are built from. *)
Record Process := mkProcess {
  p_config : Config;
  p_backend : backend RedisOpts;
  p_registry : Registry;
  p_sink : option (KafkaSink Writer);
  p_signer : remote;
  p_gateway : remote;
}.
Definition p_clients (p : Process) : Clients W :=
  main_clients (p_config p) (sign_with (p_signer p)) (send_with (p_gateway p)).

Definition devMode : bool := bool_decide (Getenv "DEV_MODE" = "1"%string).

Definition defer_if {A} (b : bool) (x : resource) (body : MainM W A) : MainM W A :=
  if b then defer (release x) body else body.
Definition dialled (r : remote) : bool := match r with Mock => false | Dialled _ _ => true end.

(** What ends the serving: a signal, or a server that stopped, with its error. *)
Inductive event := Signalled | ServerStopped (err : option error).
Variable (errServerClosed : error → bool) (rest_Shutdown grpc_Stop : GoM W unit).
Definition on_event (ev : event) : GoM W unit :=
  match ev with
  | Signalled => ignore rest_Shutdown;; ignore grpc_Stop
  | ServerStopped (Some err) => if errServerClosed err then mret () else fail err
  | ServerStopped None => mret ()
  end.

(** A failed migration is only logged.  [serve] stands for the servers, up to the event. *)
Definition run {A} (serve : Process → GoM W A) : MainM W A :=
  call (ret_res otel_Init);;
  defer (release Telemetry) (
  let cfg := FromEnv Getenv in
  call (ret_res (postgres_New (DBURL cfg)));;
  defer (release Database) (
  defer (release Context_) (
  call (ignore migrations_Up);;
  let back := initCacheAndLocker cfg in
  registry ← buildDeriverRegistry cfg devMode;
  sink ← initAuditSink devMode;
  call (ignore emitter_Start);;
  defer (release Drainer) (
  defer_if (bool_decide (is_Some sink)) AuditSink (
  '(signer, gw) ← initSignerAndGateway cfg devMode;
  defer_if (dialled signer) Signer (
  defer_if (dialled gw) Gateway (
  call (serve (mkProcess cfg back registry sink signer gw))))))))).

Definition main_run (wait : Process → W → event * W) : MainM W unit :=
  run (λ p w, let '(ev, w) := wait p w in on_event ev w).

(** ** What it takes to start *)

(** A key is usable: set to more than blanks, or unset in DEV_MODE. *)
Definition key_ok (dev : bool) (name : string) : bool :=
  if bool_decide (Getenv name = EmptyString) then dev else is_ok (ParseXpub (Getenv name)).
Definition keys_ok (dev : bool) : bool :=
  key_ok dev "EVM_XPUB" && key_ok dev "SOL_XPUB" && key_ok dev "BTC_XPUB".
Definition has_brokers : bool := negb (bool_decide (Getenv "KAFKA_BROKERS" = EmptyString)).
Definition reaches (cfg : Config) : bool :=
  is_ok (dial (GS:=GS) "mpc-signing-service" (MPCSigningURL cfg) []) &&
  is_ok (dial (GS:=GS) "blockchain-gateway" (BlockchainGatewayURL cfg) []).

(** A call of log.Fatalf does not return a value either. *)
Definition value {A} (r : ending A) : res A :=
  match r with Returned r => r | Exited e => Err e end.
Definition exits {A} (r : ending A) : bool :=
  match r with Returned _ => false | Exited _ => true end.

Lemma xpub_run dev name w :
  ∃ r, xpubEnv dev name w = (r, w) ∧ is_ok (bind_res (value r) ParseXpub) = key_ok dev name ∧
    (exits r = true → dev = false) ∧ (exits r = false → is_ok (value r) = true) ∧
    (dev = false → ∀ v, value r = Ok v → v = Getenv name).
Proof.
  unfold xpubEnv, key_ok, log_Fatalf.
  case_bool_decide; [destruct dev|]; eexists; (split; [reflexivity|]); split_and!;
    first [by intros _ v [= <-]|done|vm_compute; reflexivity|idtac].
Qed.

(** Reading a key and parsing it. *)
Lemma key_run {K} (dev : bool) name (make : string → res K) (f : K → MainM W Registry) w :
  (∀ v, is_ok (make v) = is_ok (ParseXpub v)) →
  (∃ v k, make v = Ok k ∧ key_ok dev name = true ∧ (dev = false → v = Getenv name) ∧
     (x ← xpubEnv dev name; k ← call (ret_res (make x)); f k) w = f k w) ∨
  (∃ r, (x ← xpubEnv dev name; k ← call (ret_res (make x)); f k) w = (r, w) ∧
     is_ok (value r) = false ∧ key_ok dev name = false ∧ (exits r = true → dev = false)).
Proof.
  intros Hm. destruct (xpub_run dev name w) as (r & E & <- & Hx & Hr & Hv).
  unfold mbind, MainM_bind, call. rewrite E. destruct r as [[v|e]|e]; simpl in *.
  - specialize (Hm v). destruct (make v) as [k|e] eqn:Em; simpl in *.
    + left. exists v, k. split_and!; [done|by rewrite <-Hm|by intros; apply Hv|done].
    + right. eexists. split; [reflexivity|]. by rewrite <-Hm.
  - by discriminate Hr.
  - right. eexists. split; [reflexivity|]. by split_and!.
Qed.

Lemma NewSolana_ok v : is_ok (NewSolana v) = is_ok (ParseXpub v).
Proof. unfold NewSolana. by destruct (ParseXpub v). Qed.

(** The registry, and the keys it has in production. *)
Lemma registry_run dev cfg w :
  ∃ r, buildDeriverRegistry cfg dev w = (r, w) ∧ is_ok (value r) = keys_ok dev ∧
    (exits r = true → dev = false) ∧
    ∀ reg, value r = Ok reg → dev = false →
      ParseXpub (Getenv "EVM_XPUB") = Ok (reg_evm reg) ∧
      NewSolana (Getenv "SOL_XPUB") = Ok (reg_solana reg) ∧
      ParseXpub (Getenv "BTC_XPUB") = Ok (reg_btc reg).
Proof.
  unfold buildDeriverRegistry, keys_ok.
  edestruct (key_run dev "EVM_XPUB" NewEVM) as [(v1 & k1 & P1 & -> & V1 & ->)|(r & -> & R & -> & X)];
    [done| |exists r; split_and!; [done..|]; intros reg E; by rewrite E in R].
  edestruct (key_run dev "SOL_XPUB" NewSolana) as [(v2 & k2 & P2 & -> & V2 & ->)|(r & -> & R & -> & X)];
    [apply NewSolana_ok| |exists r; split_and!; [done..|]; intros reg E; by rewrite E in R].
  edestruct (key_run dev "BTC_XPUB" NewBTC) as [(v3 & k3 & P3 & -> & V3 & ->)|(r & -> & R & -> & X)];
    [done| |exists r; split_and!; [done..|]; intros reg E; by rewrite E in R].
  eexists. split; [reflexivity|]. split_and!; [done|done|]. intros reg [= <-] Hd.
  by rewrite <-(V1 Hd), <-(V2 Hd), <-(V3 Hd).
Qed.

Lemma sink_run dev w :
  ∃ r, initAuditSink dev w = (r, w) ∧ is_ok (value r) = has_brokers || dev ∧
    exits r = negb (has_brokers || dev) ∧
    ∀ sink, value r = Ok sink →
      sink = if has_brokers then Some (NewKafkaSink Writer new_writer (splitCSV (Getenv "KAFKA_BROKERS")))
             else None.
Proof.
  unfold initAuditSink, has_brokers, log_Fatalf. destruct (negb _), dev; eexists;
    (split; [reflexivity|]); split_and!; try done; by intros sink [= <-].
Qed.

(** In production the two URLs are never missing, since the configuration has defaults; a client
    that was dialled in vain for the other one is closed at once. *)
Lemma remotes_run dev w :
  let cfg := FromEnv Getenv in
  ∃ r, (initSignerAndGateway cfg dev w).1 = Returned r ∧ is_ok r = dev || reaches cfg ∧
    ((initSignerAndGateway cfg dev w).2 = w ∨
     ∃ c, (initSignerAndGateway cfg dev w).2 = (Close c w).2) ∧
    ∀ a b, r = Ok (a, b) →
      (initSignerAndGateway cfg dev w).2 = w ∧
      if dev then a = Mock ∧ b = Mock
      else (∃ c, a = Dialled (MPCSigningURL cfg) c) ∧ ∃ c, b = Dialled (BlockchainGatewayURL cfg) c.
Proof.
  intros cfg. unfold initSignerAndGateway, reaches, NewMPCSigningClient, NewGatewayClient.
  destruct dev.
  { eexists. split; [reflexivity|]. split; [done|]. split; [by left|]. by intros a b [= <- <-]. }
  rewrite !bool_decide_eq_false_2 by (by apply envOr_nonempty).
  unfold mbind, MainM_bind, call, wrap, ret_res.
  destruct (dial "mpc-signing-service" _ []) as [c|e].
  2: { eexists. split; [reflexivity|]. split; [done|]. split; [by left|done]. }
  destruct (dial "blockchain-gateway" _ []) as [c'|e].
  - eexists. split; [reflexivity|]. split; [done|]. split; [by left|]. intros a b [= <- <-].
    split; [done|]. split; by eexists.
  - unfold ignore, fail. destruct (Close c w) as [r w1] eqn:E. eexists.
    split; [reflexivity|]. split; [done|]. split; [right; exists c; by rewrite E|done].
Qed.

Definition telemetry : bool := telemetry_ready Getenv "wallet-management".
Lemma otel_Init_ready : is_ok otel_Init = telemetry.
Proof.
  destruct (Init_spec Getenv "wallet-management" (mkGlobals None None [] [])) as [H _].
  unfold telemetry. rewrite <-H. unfold otel_Init. by destruct (Init _ _ _).1.
Qed.

(** What has to hold, what is open by the end of the startup, and releasing a list. *)
Definition starts : bool :=
  let cfg := FromEnv Getenv in
  telemetry && is_ok (postgres_New (DBURL cfg)) && keys_ok devMode &&
  (has_brokers || devMode) && (devMode || reaches cfg).
Definition opened : list resource :=
  let cfg := FromEnv Getenv in
  if negb telemetry then [] else
  Telemetry :: if negb (is_ok (postgres_New (DBURL cfg))) then [] else
  Database :: Context_ :: if negb (keys_ok devMode) then [] else
  Drainer :: (if has_brokers then [AuditSink] else []) ++
    (if devMode || negb (reaches cfg) then [] else [Signer; Gateway]).
Definition releases (l : list resource) (w : W) : W := fold_left (λ w x, (release x w).2) l w.

(** The process as it was configured. *)
Definition configured (p : Process) : Prop :=
  let cfg := FromEnv Getenv in
  p_config p = cfg ∧
  p_sink p = (if has_brokers
              then Some (NewKafkaSink Writer new_writer (splitCSV (Getenv "KAFKA_BROKERS")))
              else None) ∧
  if devMode then p_signer p = Mock ∧ p_gateway p = Mock
  else
    (∃ c, p_signer p = Dialled (MPCSigningURL cfg) c) ∧
    (∃ c, p_gateway p = Dialled (BlockchainGatewayURL cfg) c) ∧
    ParseXpub (Getenv "EVM_XPUB") = Ok (reg_evm (p_registry p)) ∧
    NewSolana (Getenv "SOL_XPUB") = Ok (reg_solana (p_registry p)) ∧
    ParseXpub (Getenv "BTC_XPUB") = Ok (reg_btc (p_registry p)).

(** Where the startup can be when it stops. *)
Definition on_the_way (w v : W) : Prop :=
  let w1 := (migrations_Up w).2 in
  let w2 := (emitter_Start w1).2 in
  v = w ∨ v = w1 ∨ v = w2 ∨ ∃ c, v = (Close c w2).2.

Lemma run_cases {A} (serve : Process → GoM W A) w :
  (starts = true ∧ ∃ p r v, configured p ∧
     serve p (emitter_Start (migrations_Up w).2).2 = (r, v) ∧
     run serve w = (Returned r, releases (rev opened) v)) ∨
  (starts = false ∧ ∃ e v, run serve w = (Returned (Err e), releases (rev opened) v) ∧ on_the_way w v) ∨
  (starts = false ∧ devMode = false ∧ telemetry = true ∧
     is_ok (postgres_New (DBURL (FromEnv Getenv))) = true ∧
     ∃ e, run serve w = (Exited e, (migrations_Up w).2)).
Proof.
  unfold run, starts, opened, on_the_way. set (cfg := FromEnv Getenv).
  rewrite <-otel_Init_ready.
  unfold defer_if, defer, call, ignore, ret_res, mbind, MainM_bind, mret, MainM_ret.
  destruct otel_Init as [[]|e0]; [|right; left; split; [done|]; eexists _, w; split; [done|by left]].
  destruct (postgres_New (DBURL cfg)) as [[]|e0];
    [|right; left; split; [done|]; eexists _, w; split; [done|by left]].
  destruct (migrations_Up w) as [rm w1]. cbn [is_ok negb andb].
  destruct (registry_run devMode cfg w1) as (rr & -> & <- & Xk & Hkeys).
  destruct rr as [[reg|e]|e]; cbn [value is_ok negb andb orb] in *;
    [|right; left; split; [done|]; eexists _, w1; split; [done|by right; left]
     |right; right; split; [done|]; split; [by apply Xk|]; do 2 (split; [done|]); by eexists].
  destruct (sink_run devMode w1) as (rs & -> & Hs & Xs & Hsink).
  destruct rs as [[sink|e]|e]; cbn [value is_ok exits negb andb orb] in *;
    [|by rewrite <-Hs in Xs|].
  2: { right; right; split; [by rewrite <-Hs|]. split; [|do 2 (split; [done|]); by eexists].
       by destruct devMode; [rewrite orb_true_r in Hs|]. }
  specialize (Hsink sink eq_refl). rewrite <-Hs. cbn [snd].
  destruct (emitter_Start w1) as [re w2]. cbn [snd].
  destruct (remotes_run devMode w2) as (rr & E1 & HR & Hv & Hab).
  fold cfg in E1, HR, Hv, Hab. rewrite <-HR.
  assert (EI := surjective_pairing (initSignerAndGateway cfg devMode w2)). rewrite E1 in EI.
  assert (ES : bool_decide (is_Some sink) = has_brokers) by (rewrite Hsink; by destruct has_brokers).
  rewrite ES. destruct rr as [[sg gw]|e].
  - destruct (Hab sg gw eq_refl) as [Ew Hm]. rewrite Ew in EI. left. split; [done|].
    destruct (serve (mkProcess cfg (initCacheAndLocker cfg) reg sink sg gw) w2) as [r v] eqn:EV.
    eexists _, r, v. split; [|split; [exact EV|]].
    + split_and!; [done|done|]. destruct devMode; [done|]. destruct Hm.
      split_and!; try done; by apply Hkeys.
    + clear Hab Hv. cbn [snd is_ok andb orb negb].
      destruct has_brokers, devMode; rewrite EI.
      * destruct Hm as [-> ->]. cbn [dialled]. by rewrite EV.
      * destruct Hm as [(c & ->) (c' & ->)]. cbn [dialled orb] in *. by rewrite EV, <-HR.
      * destruct Hm as [-> ->]. cbn [dialled]. by rewrite EV.
      * destruct Hm as [(c & ->) (c' & ->)]. cbn [dialled orb] in *. by rewrite EV, <-HR.
  - right. left. split; [done|]. set (v := (initSignerAndGateway cfg devMode w2).2) in *.
    eexists e, v. split; [|destruct Hv as [->|Hv]; [do 2 right; by left|by do 3 right]].
    cbn [snd is_ok andb orb negb].
    destruct has_brokers, devMode; cbn [orb is_ok] in *; try done; by rewrite EI, <-HR.
Qed.

(** How the process ends.  [log] is what has been released so far; nothing else releases. *)
Section endings.
Variable log : W → list resource.
Record only_releases : Prop := {
  log_release x w : log (release x w).2 = log w ++ [x];
  log_Up : respects (framing log) migrations_Up;
  log_Start : respects (framing log) emitter_Start;
  log_Close c : respects (framing log) (Close c);
  log_Shutdown : respects (framing log) rest_Shutdown;
  log_Stop : respects (framing log) grpc_Stop;
}.

Lemma log_releases l w : only_releases → log (releases l w) = log w ++ l.
Proof.
  intros H. revert w. induction l as [|x l IH]; intros w; simpl; [by rewrite app_nil_r|].
  unfold releases in *. rewrite IH, (log_release H). by rewrite <-app_assoc.
Qed.
Lemma log_on_the_way w v : only_releases → on_the_way w v → log v = log w.
Proof.
  intros H Hv. pose proof (log_Up H w) as H1. pose proof (log_Start H (migrations_Up w).2) as H2.
  unfold framing in H1, H2. unfold on_the_way in Hv. destruct Hv as [->|[->|[->|[c ->]]]]; [done|done|congruence|].
  pose proof (log_Close H c (emitter_Start (migrations_Up w).2).2) as H3. unfold framing in H3. congruence.
Qed.
Lemma log_on_event ev : only_releases → respects (framing log) (on_event ev).
Proof.
  intros H. destruct ev as [|[err|]]; simpl; [|case_match|]; try (intros w; reflexivity).
  pose proof (log_Shutdown H). pose proof (log_Stop H). go_respects.
Qed.

(** A run that returns has released what it had opened, each once and in the reverse order (so
    the audit sink is closed while the drainer still runs); it returns an error exactly when it
    could not start or a server failed.  After log.Fatalf nothing is released, although the
    telemetry and the database were open; that happens only in production. *)
Theorem process_ends wait w :
  only_releases → (∀ p v, log (wait p v).2 = log v) →
  NoDup opened ∧
  match (main_run wait w).1 with
  | Returned r =>
      log (main_run wait w).2 = log w ++ rev opened ∧
      if starts
      then ∃ p v, configured p ∧
        r = match (wait p v).1 with
            | ServerStopped (Some err) => if errServerClosed err then Ok () else Err err
            | _ => Ok ()
            end
      else is_ok r = false
  | Exited _ =>
      log (main_run wait w).2 = log w ∧ starts = false ∧ devMode = false ∧
      telemetry = true ∧ is_ok (postgres_New (DBURL (FromEnv Getenv))) = true
  end.
Proof.
  intros H Hw. split.
  { unfold opened. repeat case_match; by apply (bool_decide_unpack _). }
  unfold main_run. destruct (run_cases (λ p w, let '(ev, w) := wait p w in on_event ev w) w)
    as [(-> & p & r & v & Hp & E & ->)|[(-> & e & v & -> & Hv)|(-> & Hd & Ho & Hpg & e & ->)]]; cbn [fst snd].
  - set (w2 := (emitter_Start (migrations_Up w).2).2) in *. pose proof (Hw p w2) as HL.
    destruct (wait p w2) as [ev w3] eqn:EW. pose proof (log_on_event ev H w3) as HE.
    rewrite E in HE. unfold framing in HE. simpl in HL, HE. split.
    + rewrite log_releases by done. rewrite HE, HL. f_equal.
      apply log_on_the_way; [done|]. do 2 right. by left.
    + exists p, w2. split; [done|]. rewrite EW. cbn [fst].
      destruct ev as [|[err|]]; simpl in E; [|destruct (errServerClosed err)|]; go_cbv in E; unfold ignore, fail in E.
      * destruct (rest_Shutdown w3) as [? w4], (grpc_Stop w4). by injection E.
      * by injection E.
      * by injection E.
      * by injection E.
  - split; [|done]. rewrite log_releases by done. by rewrite (log_on_the_way w v).
  - split_and!; try done. apply log_on_the_way; [done|]. right. by left.
Qed.
End endings.

(** C35: starting in production.  Outside DEV_MODE the process starts exactly when the telemetry
    starts, the URL of the database is accepted (no connection is made), the three keys are set
    to more than blanks, KAFKA_BROKERS is not empty and both services can be dialled; failed
    migrations and a Redis that is down do not matter.  A process that starts signs and
    broadcasts through the services configured and derives from the keys of the environment,
    never through a mock or a placeholder.  It has an audit sink; but when KAFKA_BROKERS names no
    broker (commas and blanks) the sink has no writer, and every drain of a nonempty outbox
    fails. *)
Theorem production_starts w :
  devMode = false →
  let cfg := FromEnv Getenv in
  is_ok (value (run (λ p, mret p) w).1) = telemetry && is_ok (postgres_New (DBURL cfg)) && keys_ok false &&
                    has_brokers && reaches cfg ∧
  ∀ p, value (run (λ p, mret p) w).1 = Ok p →
    p_config p = cfg ∧
    (∃ c, p_signer p = Dialled (MPCSigningURL cfg) c) ∧
    (∃ c, p_gateway p = Dialled (BlockchainGatewayURL cfg) c) ∧
    ParseXpub (Getenv "EVM_XPUB") = Ok (reg_evm (p_registry p)) ∧
    NewSolana (Getenv "SOL_XPUB") = Ok (reg_solana (p_registry p)) ∧
    ParseXpub (Getenv "BTC_XPUB") = Ok (reg_btc (p_registry p)) ∧
    ∃ sink, p_sink p = Some sink ∧
      (writer sink = None ↔ splitCSV (Getenv "KAFKA_BROKERS") = []) ∧
      (writer sink = None → ∀ WriteMessages stored w1 es w2,
         ListUndeliveredAuditEvents 100 w1 = (Ok es, w2) → es ≠ [] →
         Drain (Some (Deliver Writer WriteMessages stored sink)) w1 =
           (Err (Errorf "audit kafka: not connected" []), w2)).
Proof.
  intros Hd cfg.
  replace (_ && reaches cfg) with starts
    by (unfold starts; rewrite Hd, orb_false_r; by destruct (reaches _)).
  destruct (run_cases (λ p, mret p) w)
    as [(Hst & p & r & v & Hp & [= <- <-] & ->)|[(-> & e & v & -> & Hv)|(-> & _ & _ & _ & e & ->)]]; [|done..].
  rewrite Hst. split; [done|]. intros q [= <-]. unfold configured in Hp. rewrite Hd in Hp.
  assert (Hb : has_brokers = true).
  { revert Hst. unfold starts. rewrite Hd. destruct has_brokers; [done|]. by rewrite andb_false_r. }
  rewrite Hb in Hp.
  destruct Hp as (Hc & Hs & HS & HG & K1 & K2 & K3). split_and!; try done.
  eexists. split; [exact Hs|]. unfold NewKafkaSink.
  destruct (splitCSV _) as [|x l]; cbn [writer]; split; try done.
  intros _ WM st u es u' EL Hes. unfold Drain. rewrite (bind_Ok _ _ _ _ _ EL).
  by destruct es.
Qed.
End startup.

(** ** Witness *)

Section witness.
#[local] Existing Instances simple_uuid simple_crypto.
Definition start_rt : GoRuntime := simple_runtime 1.
#[local] Existing Instances start_rt.
#[local] Instance no_collector : OtelSdk := {|
  Resource := unit; SpanExporter := unit; MetricExporter := unit;
  Merge := λ _, Ok tt;
  otlptracegrpc_New := λ _, Err (New "refused"); otlpmetricgrpc_New := λ _, Err (New "refused");
  flush_traces := Ok tt; flush_metrics := Ok tt;
|}.
#[local] Instance no_parsers : EnvParsers.
Proof. refine {| ParseFloat := λ _, None; ParseDuration := λ _, None |}. done. Defined.
#[local] Instance dialable : GrpcStubs World := {|
  ClientConn := string; DialOpt := unit; insecure := tt; NewClient := λ target _, Ok target;
  CloseConn := λ _, mret tt;
  raw_Sign := λ _ _, mret (mkSignResponse [1] "signer");
  raw_BroadcastTx := λ _ _, mret (mkBroadcastResponse "0xhash");
|}.
#[local] Instance offline : HttpClient World := {|
  NewRequest := λ _ _ _, Ok tt;
  Do := λ _, fail (New "connection refused");
|}.

(** An environment with keys, and a KAFKA_BROKERS that names no broker. *)
Definition env_of (name : string) : string :=
  (if bool_decide (name = "KAFKA_BROKERS") then " , "
   else if bool_decide (name ∈ ["EVM_XPUB"; "SOL_XPUB"; "BTC_XPUB"]) then " xpub661 "
   else EmptyString)%string.
Definition refused (_ : unit) : res unit := Err (New "refused").
Definition started : res (Process (list string) unit) :=
  value (run (W:=World) env_of (list string) (λ l _, l) unit (λ _, Ok tt) refused
    (λ _, Ok tt) (mret tt) (λ _, mret tt) (mret tt) (λ p, mret p) NewWorld).1.

Lemma production_starts_witness :
  ∃ p, started = Ok p ∧ p_backend _ _ p = InMemory ∧ reg_evm (p_registry _ _ p) = "xpub661"%string ∧
    ∃ sink, p_sink _ _ p = Some sink ∧ writer sink = None.
Proof.
  destruct (production_starts (W:=World) env_of (list string) (λ l _, l) unit (λ _, Ok tt)
              refused (λ _, Ok tt) (mret tt) (λ _, mret tt) (mret tt) NewWorld) as [HS HP].
  - vm_compute. reflexivity.
  - destruct started as [p|e] eqn:E; [|vm_compute in E; discriminate E].
    destruct (HP p E) as (_ & _ & _ & HK & _ & _ & sink & Hs & Hw & _).
    exists p. split; [done|]. split; [|split].
    + vm_compute in E. injection E as <-. reflexivity.
    + assert (ParseXpub (env_of "EVM_XPUB") = Ok "xpub661"%string) as EK by (vm_compute; reflexivity).
      rewrite EK in HK. by injection HK.
    + exists sink. split; [exact Hs|]. apply Hw. vm_compute. reflexivity.
Defined.

(** In DEV_MODE, until a signal: the world is the list of what was released. *)
#[local] Instance no_stubs : GrpcStubs (list resource) := {|
  ClientConn := unit; DialOpt := unit; insecure := tt; NewClient := λ _ _, Ok tt;
  CloseConn := λ _, mret tt;
  raw_Sign := λ _ _, fail (New "unavailable");
  raw_BroadcastTx := λ _ _, fail (New "unavailable");
|}.
#[local] Instance no_http : HttpClient (list resource) := {|
  NewRequest := λ _ _ _, Ok tt;
  Do := λ _, fail (New "connection refused");
|}.
Definition dev_env (name : string) : string :=
  if bool_decide (name = "DEV_MODE"%string) then "1" else EmptyString.

Lemma process_ends_example :
  main_run (W:=list resource) dev_env (list string) (λ l _, l) unit (λ _, Ok tt) refused
    (λ _, Ok tt) (mret tt) (λ x w, (Ok tt, w ++ [x])) (mret tt) (λ _, false) (mret tt) (mret tt)
    (λ _ w, (Signalled, w)) [] =
  (Returned (Ok tt), [Drainer; Context_; Database; Telemetry]).
Proof. vm_compute. reflexivity. Qed.
End witness.
